(* ===== verification/_CoqProject ===== *)
-Q . S2P
Prelude.v
State.v
Reactor.v
ReactorProps.v
Env.v
Loop.v
ErrorRouting.v
Contexts.v
AsyncGens.v
Policy.v
Address.v
LoopFrame.v
Scheduler.v
SchedulerProps.v
SchedulerFrame.v
Wakeup.v
Readiness.v
DrainTask.v
SelectorTransport.v
Reads.v
SocketTransport.v
StreamReads.v
StreamWrites.v
Script.v
StreamFrame.v
StreamProps.v
DatagramTransport.v
DatagramProps.v
SockOps.v
SockProps.v
Serving.v
ServingProps.v
StreamInit.v
Sendfile.v
SendfileProps.v
Net.v
Connect.v
ConnectProps.v
Endpoints.v
EndpointsProps.v
DatagramEndpoint.v
StartTls.v
Composed.v
Lifted.v
Drain.v
Pipeline.v
Establish.v
Signals.v
Lifecycle.v
Executor.v
