(* ===== verification/Prelude.v ===== *)
(** * tokioop: verification development (root file)

    tokioop is an asyncio event loop: a Rust core on Tokio (src/*.rs) and a Python
    layer (python/tokioop/loop.py, python/tokioop/transports.py) that gives it
    asyncio's interface.  This library models the Python layer almost whole and
    the part of the core it rests on, and proves what they promise.

    ** How the program is modelled

    A method is a computation [M W A] (this file): a function from a state to a
    value or a raised exception, and the new state; what was changed before an
    exception stays changed.  A coroutine is its part up to an [await], the
    callbacks the loop runs for it, and, where something follows the [await], the
    awaited outcome as a parameter.  What may happen between two steps is a list of
    events or steps (API calls, firings of watchers, callbacks of the loop, other
    threads), and properties hold for every list.

    All components share one record, [LoopState] (State.v): the reactor's tables,
    the ready queue, the futures and the two flags [closed] and [debug].  A larger
    state has it through [HasLoop], and [on_loop] lifts an operation to it.

    ** Files

    Foundations.
    - Prelude.v: exceptions (as constructors, [OSError]s with their errno),
      computations, lenses, preservation of preorders ([moves], with its hints and
      [moves_auto]), triples ([hoare]), evaluation lemmas, lists.
    - State.v: callbacks, reactor tables, futures, [LoopState] (src/state.rs).
    - Env.v: the interfaces to what is outside, [Kernel] and [Protocol], with the
      laws a proof may ask of them, and the trace of calls across them.

    The core.
    - Reactor.v, ReactorProps.v: src/fd.rs and the registrations of
      src/fd_unix.rs, [FdHandle] of src/handles.rs.  Slots and cancellation flags
      are heap cells, because handles and watcher tasks share them.
    - Loop.v: [call_soon], futures, [add_reader] and its siblings
      (src/event_loop.rs), and their public versions (loop.py, lines 64-105).
    - LoopFrame.v: what all methods of the loop leave alone, as one preorder.
    - Scheduler.v, SchedulerProps.v: [run_batch], the timer heap,
      [next_deadline], [call_at], [call_later], [stop] with the permit its
      notification stores, [close] (src/event_loop.rs, src/state.rs), on IEEE
      doubles as exact multiples of 2^-1074 rounded to 53 bits, and durations in
      nanoseconds, rounded as [Duration::from_secs_f64] does.
    - SchedulerFrame.v: the preorders batches move along.
    - Wakeup.v: the loop thread against the threads that wake it, as a step
      relation.
    - Readiness.v, DrainTask.v: the watcher tasks of src/fd_unix.rs ([fd_task],
      [drain_task]), the driver, the batches and the kernel as step relations, on
      Tokio's [AsyncFd] by what it promises; Address.v: [parse_addr].
    - ErrorRouting.v: [report_callback_error], the exception handler, the checks of
      debug mode (src/event_loop.rs).
    - Contexts.v: the contexts callbacks run in, [create_task].
    - Lifecycle.v: [run_main], [run_forever], [run_until_complete], with the hooks
      and the running loop of the interpreter; a wait takes a stored permit or
      parks.

    The transports (transports.py).
    - SelectorTransport.v: [_SelectorTransport]; the methods its subclasses
      override are the class [TransportClass], so its own are proved once.
    - SocketTransport.v, DatagramTransport.v: the two subclasses.
    - Reads.v, StreamReads.v, StreamWrites.v, StreamFrame.v: the relations all
      their methods move along; Script.v: concrete kernels and protocols.
    - StreamInit.v, StreamProps.v, DatagramProps.v: the properties.
    - Drain.v: a stream's quanta of reads, byte by byte (src/fd_unix.rs, 328-632).
    - Composed.v: the scheduler with the stream transport as the program it runs;
      it discharges [CallbackLaws], so the scheduler's theorems hold of it.
    - Lifted.v: whatever the transport's methods move along, the running loop does.
    - Pipeline.v: the drain task feeding that loop, from the kernel to the protocol.

    The loop's coroutines (loop.py).
    - SockOps.v, SockProps.v: [sock_recv] ... [sock_accept] (lines 237-538).
    - Sendfile.v, SendfileProps.v: [sock_sendfile], [sendfile] (540-671).
    - Serving.v, ServingProps.v: [_start_serving], [_accept_connection],
      [_stop_serving] (1350-1437, 1496-1498).
    - Net.v: sockets as resources, with a log of what is opened, bound, connected
      and closed.  On it, Connect.v and ConnectProps.v: [create_connection],
      [create_unix_connection] (780-962, 1500-1551); Endpoints.v and
      EndpointsProps.v: [create_server], [create_unix_server] (1157-1313,
      1553-1636); DatagramEndpoint.v: [create_datagram_endpoint] (1001-1155).
    - StartTls.v, Establish.v: [start_tls]; from a connected socket to a
      transport (675-776, 964-999, 1315-1348, 1439-1494).
    - Signals.v: signal handlers (1640-1675).
    - AsyncGens.v: asynchronous generators (151-174) with the interpreter's hooks;
      Policy.v: policy.py, __init__.py and the methods that are refused.
    - Executor.v: [run_in_executor], the default executor's shutdown, name
      resolution (107-149, 176-235).

    ** What the theorems show

    Streams and datagrams: data handed over by a watcher reaches the protocol
    once, in order, whatever is paused, resumed or closed meanwhile and whatever
    callbacks call ([stream_delivery_order], [datagram_delivery_order]), and through
    the batches of the running loop too ([loop_delivers_in_order]); what a drain
    task reads is what it pushes ([drain_pushes_stream]), so a stream reaches its
    protocol from the kernel on ([kernel_to_protocol]); accepted plus
    buffered bytes are what was written ([stream_write_order]); a write-ready event
    refines a reference definition ([sendto_ready_refines]); flow control
    alternates, [connection_lost] comes once, sizes are accounted for; closing,
    teardown, resuming, on every branch.  A teardown once scheduled ends the
    connection in the next batch ([scheduled_teardown_ends]).  A constructor
    establishes the invariants these start from, or raises [AttributeError] for a
    [BufferedProtocol] on a descriptor that is already watched
    ([init_establishes]); the callbacks it schedules, [connection_made] bound to
    the protocol of that moment, lead to a transport that reads
    ([connection_ready]).
    The reactor: the invariant of its reachable states, and cancelling as
    conditional removal.  Its watcher tasks, in every interleaving: a ready
    descriptor is served within a bounded number of steps ([ready_watcher_fires];
    in drain mode as long as no read fails and the stream has not ended,
    [drain_task_serves]), one that is not lets everything rest
    ([idle_watcher_rests]); source addresses are decoded as they were encoded
    ([parse_addr_roundtrip]), by the kernel's encoding with a NUL after every
    path, so that a path that fills [sun_path] is 111 bytes long.
    Errors of callbacks always reach the handler or standard error
    ([report_callback_error_outcome]).
    The scheduler: a whole batch runs the callbacks scheduled before it and after
    them only timers ([batch_runs_snapshot]), timers run by deadline and then by order
    ([timers_run_in_order]), bounds of the time parked for, no wake-up is lost
    ([no_lost_wakeup]), [run_forever] ends with the batch that asks for it and
    [run_until_complete] with the future's result ([run_until_complete_returns]).
    Sockets: [sock_sendall] and [sock_sendfile] send exactly their data,
    [sock_sendall] makes progress, futures complete once, clean-up never hits a
    later watcher; accepting, connecting to a host and creating a datagram
    endpoint refine executable reference definitions ([accepts], [attempts],
    [pair_tries]) that also say which error is raised; whatever fails while
    a connection, a server or an endpoint is set up, no socket is left open that
    nobody holds.
    Executors and signals: shutting down drains, and adding and removing a handler
    is a round trip but for the disposition left behind.
    Some theorems show defects by stating what the code does instead:
    [write_send_blocked_drops], [empty_chunk_stays], [overdue_rearm_never_ends],
    [next_deadline_bounds], [retry_outcome], [fallback_overwrites_queue],
    [start_tls_breaks_reading], [eof_while_paused_repeats], [error_parks_on_data],
    [set_protocol_paused_keeps_mode],
    [unset_context_leaks], [panic_leaves_running], [exit_never_returns],
    [signals_installed].

    ** Fuel and bounds

    Loops whose end depends on the data are structural where they can be: the
    bursts of reads by the source's own bound, replay by the length of the queue.
    [run_ready], [run_timers], [run_io] and [run_main] take fuel; their theorems
    say how much is enough (the length of the queue at the start, the number of
    due timers, one more than the number of batches), or that no fuel is
    ([overdue_rearm_never_ends]).  [send_blocks] takes fuel: one round more than
    there are bytes to send.  64-bit counters wrap ([u64]).

    ** Parameters

    The kernel and the application are classes with laws ([Kernel], [KernelLaws],
    [Protocol], [Obeys], and further laws next to the proofs that need them); each
    is instantiated by the witnesses.  The socket module and resolver are [Net], the
    file system [Files], files and their reading [FileSender].  asyncio's own code
    is a parameter where it is called: [staggered_race] and
    [_interleave_addrinfos], [Server], the TLS protocol (its being a
    [BufferedProtocol] is all that is used of it), [gather] as one coroutine after
    the other.  Printing a traceback may fail.  Parking and yielding are what other
    threads have done meanwhile.

    ** Not modelled

    src/fd_stub.rs raises everywhere; [AsyncFd]'s closing, with the runtime; the
    conversion of decoded addresses to Python tuples and [stats] (formatting); the
    construction of the runtime; asyncio's [Task] and the race of happy eyeballs,
    which are asyncio's code.  Of the Python layer: [__repr__], logging,
    [_set_nodelay] (a socket option, taken to be set).
    Error messages are kept up to their fixed part, sockets are named by
    their fd or by the order of their creation. *)

From Stdlib Require Import Strings.Byte.
From stdpp Require Import base tactics relations list gmap strings.

(** ** Bytes *)

Abbreviation bytes := (list byte).

#[export] Instance byte_eq_dec : EqDecision byte := Byte.byte_eq_dec.

(** ** Python exceptions

    [OSError errno] stands for the whole [OSError] hierarchy that Python
    selects by errno when the exception is built (PEP 3151):
    [BlockingIOError], [InterruptedError], [ConnectionAbortedError],
    [FileNotFoundError] are [OSError]s with particular errnos (the numbers are
    Linux's).  [ConnectionError] and [TimeoutError] are the instances without
    an errno the program raises itself, and [OSErrorMsg] an [OSError] it builds
    with a message that matters.  The string of the other exceptions is the fixed
    part of the message of the [raise] statement. *)
#[warnings="-register-all"]
Inductive exn :=
  | OSError (errno : Z)
  | OSErrorMsg (errno : option Z) (msg : string)
  | ConnectionError (msg : string)
  | TimeoutError (msg : string)
  | SystemExit
  | KeyboardInterrupt
  | CancelledError
  | TypeError (msg : string)
  | ValueError (msg : string)
  | RuntimeError (msg : string)
  | AttributeError
  | AssertionError
  | IndexError
  | KeyError
  | InvalidStateError
  | NotImplementedError (msg : string)
  | SendfileNotAvailableError
  | ExceptionGroup (msg : string) (excs : list exn)
  | UserError (n : nat).

#[export] Instance exn_eq_dec : EqDecision exn.
Proof.
  change (∀ x y : exn, {x = y} + {x ≠ y}). fix go 1. intros x y.
  assert (∀ n m : nat, {n = m} + {n ≠ m}) by apply Nat.eq_dec.
  assert (∀ n m : Z, {n = m} + {n ≠ m}) by apply Z.eq_dec.
  assert (∀ n m : option Z, {n = m} + {n ≠ m}) by (intros; apply option_eq_dec).
  assert (∀ s t : string, {s = t} + {s ≠ t}) by apply String.eq_dec.
  decide equality. by apply (@list_eq_dec exn go).
Defined.

(** [exc.errno] *)
Definition errno_of (e : exn) : option Z :=
  match e with OSError n => Some n | OSErrorMsg n _ => n | _ => None end.

Definition EINTR : Z := 4.
Definition EAGAIN : Z := 11.
Definition ENOMEM : Z := 12.
Definition ENFILE : Z := 23.
Definition EMFILE : Z := 24.
Definition ENOENT : Z := 2.
Definition EADDRINUSE : Z := 98.
Definition EADDRNOTAVAIL : Z := 99.
Definition ECONNABORTED : Z := 103.
Definition ENOBUFS : Z := 105.
Definition EALREADY : Z := 114.
Definition EINPROGRESS : Z := 115.

(** [isinstance(e, BlockingIOError)] *)
Definition is_BlockingIOError (e : exn) : bool :=
  match errno_of e with
  | Some n => bool_decide (n = EAGAIN ∨ n = EALREADY ∨ n = EINPROGRESS)
  | None => false
  end.

(** [isinstance(e, InterruptedError)] *)
Definition is_InterruptedError (e : exn) : bool := bool_decide (errno_of e = Some EINTR).

(** [isinstance(e, ConnectionAbortedError)] *)
Definition is_ConnectionAbortedError (e : exn) : bool :=
  bool_decide (errno_of e = Some ECONNABORTED).

(** [isinstance(e, FileNotFoundError)] *)
Definition is_FileNotFoundError (e : exn) : bool := bool_decide (errno_of e = Some ENOENT).

(** [isinstance(e, OSError)] *)
Definition is_OSError (e : exn) : bool :=
  match e with
  | OSError _ | OSErrorMsg _ _ | ConnectionError _ | TimeoutError _ => true
  | _ => false
  end.

(** The two exception groups every handler of the program distinguishes:
    [except (BlockingIOError, InterruptedError)] and
    [except (SystemExit, KeyboardInterrupt)]. *)
Definition try_again (e : exn) : bool :=
  is_BlockingIOError e || is_InterruptedError e.

Definition is_exit (e : exn) : bool :=
  match e with SystemExit | KeyboardInterrupt => true | _ => false end.

(** ** Computations

    A Python method is a function from the state of the world to an outcome
    (a value or a raised exception) and the new state; the state changes made
    before an exception are kept. *)
Inductive res (A : Type) :=
  | Ret (a : A)
  | Raise (e : exn).
Arguments Ret {A} a.
Arguments Raise {A} e.

Definition M (W A : Type) : Type := W → res A * W.

#[export] Instance M_ret {W} : MRet (M W) := λ A a w, (Ret a, w).
#[export] Instance M_bind {W} : MBind (M W) := λ A B k m w,
  match m w with
  | (Ret a, w') => k a w'
  | (Raise e, w') => (Raise e, w')
  end.

Section ops.
Context {W A B S : Type}.

Definition raise (e : exn) : M W A := λ w, (Raise e, w).
Definition gets (f : W → A) : M W A := λ w, (Ret (f w), w).
Definition modify (f : W → W) : M W unit := λ w, (Ret tt, f w).

(** [try: a = m  except ... as e: h e  else: k a] *)
Definition try_else (m : M W A) (h : exn → M W B) (k : A → M W B) : M W B :=
  λ w, match m w with
       | (Ret a, w') => k a w'
       | (Raise e, w') => h e w'
       end.

(** [try: m  finally: f]: an exception of [f] replaces the outcome of [m]. *)
Definition try_finally (m : M W A) (f : M W unit) : M W A :=
  λ w, let '(r, w') := m w in
       match f w' with
       | (Ret _, w'') => (r, w'')
       | (Raise e, w'') => (Raise e, w'')
       end.

(** Errors of [m] are dropped (printed by the program). *)
Definition swallow (m : M W unit) : M W unit := λ w, (Ret tt, (m w).2).

(** The outcome of [m] as a value, for a [match] on it. *)
Definition outcome (m : M W A) : M W (res A) := λ w, (Ret (m w).1, (m w).2).

Definition when_ (b : bool) (m : M W unit) : M W unit :=
  if b then m else mret tt.
End ops.

(** [try: m  except ... as e: h e] *)
Definition try_except {W A} (m : M W A) (h : exn → M W A) : M W A :=
  try_else m h mret.

(** The handler chain of every socket call of the program:
    [except (BlockingIOError, InterruptedError): blocked]
    [except (SystemExit, KeyboardInterrupt): raise]
    [except BaseException as exc: fatal exc]. *)
Definition except_io {W A} (blocked : M W A) (fatal : exn → M W A) (e : exn) : M W A :=
  if try_again e then blocked
  else if is_exit e then raise e
  else fatal e.

(** The chain without the first clause, around protocol callbacks. *)
Definition except_cb {W A} (fatal : exn → M W A) (e : exn) : M W A :=
  if is_exit e then raise e else fatal e.

(** ** Views of a larger state *)

Class Lens (W S : Type) := {
  lget : W → S;
  lset : S → W → W;
}.

Class LensLaws (W S : Type) `{!Lens W S} := {
  lget_lset s w : lget (lset s w) = s;
  lset_lget w : lset (lget w) w = w;
  lset_lset s1 s2 w : lset s1 (lset s2 w) = lset s1 w;
}.

(** Run a computation of the component inside the larger state. *)
Definition zoom {W S A} `{!Lens W S} (m : M S A) : M W A := λ w,
  let '(r, s) := m (lget w) in (r, lset s w).

(** ** Preservation of a preorder

    [moves R m]: wherever [m] starts, and whether it returns or raises, the
    state it leaves is [R]-above the one it found.  With [R] a preorder this
    composes along the control structure; an invariant [I] is the preorder
    [keeps I]. *)
Definition moves {W A} (R : relation W) (m : M W A) : Prop := ∀ w, R w (m w).2.

Definition keeps {W} (I : W → Prop) : relation W := λ w w', I w → I w'.

#[export] Instance keeps_preorder {W} (I : W → Prop) : PreOrder (keeps I).
Proof. split; unfold keeps; [by intros ? | intros ???; auto]. Qed.

Create HintDb moves.

Section moves.
Context {W : Type} (R : relation W) `{!PreOrder R}.

Lemma moves_ret {A} (a : A) : moves R (mret a : M W A).
Proof. by intros w. Qed.
Lemma moves_raise {A} e : moves R (raise e : M W A).
Proof. by intros w. Qed.
Lemma moves_gets {A} (f : W → A) : moves R (gets f).
Proof. by intros w. Qed.
Lemma moves_modify (f : W → W) : (∀ w, R w (f w)) → moves R (modify f).
Proof. intros H w. apply H. Qed.
Lemma moves_bind {A B} (m : M W A) (k : A → M W B) :
  moves R m → (∀ a, moves R (k a)) → moves R (m ≫= k).
Proof.
  intros Hm Hk w. unfold mbind, M_bind.
  specialize (Hm w). destruct (m w) as [[a|e] w']; simpl in *; [|done].
  etrans; [done|]. apply Hk.
Qed.
Lemma moves_try_else {A B} (m : M W A) (h : exn → M W B) (k : A → M W B) :
  moves R m → (∀ e, moves R (h e)) → (∀ a, moves R (k a)) →
  moves R (try_else m h k).
Proof.
  intros Hm Hh Hk w. unfold try_else. specialize (Hm w).
  destruct (m w) as [[a|e] w']; simpl in *; (etrans; [done|]);
    [apply Hk|apply Hh].
Qed.
Lemma moves_try_except {A} (m : M W A) (h : exn → M W A) :
  moves R m → (∀ e, moves R (h e)) → moves R (try_except m h).
Proof. intros. apply moves_try_else; auto using moves_ret. Qed.
Lemma moves_try_finally {A} (m : M W A) (f : M W unit) :
  moves R m → moves R f → moves R (try_finally m f).
Proof.
  intros Hm Hf w. unfold try_finally. specialize (Hm w).
  destruct (m w) as [r w']; simpl in *. specialize (Hf w').
  destruct (f w') as [[]?]; simpl in *; by etrans.
Qed.
Lemma moves_swallow (m : M W unit) : moves R m → moves R (swallow m).
Proof. intros Hm w. apply Hm. Qed.
Lemma moves_if {A} (b : bool) (m1 m2 : M W A) :
  (b = true → moves R m1) → (b = false → moves R m2) →
  moves R (if b then m1 else m2).
Proof. destruct b; auto. Qed.
Lemma moves_when (b : bool) (m : M W unit) :
  (b = true → moves R m) → moves R (when_ b m).
Proof. intros H. apply moves_if; [done|intros _; apply moves_ret]. Qed.
Lemma moves_except_io {A} (b : M W A) f e :
  moves R b → (∀ e, moves R (f e)) → moves R (except_io b f e).
Proof.
  intros. unfold except_io.
  repeat (apply moves_if; intros _); auto using moves_raise.
Qed.
Lemma moves_except_cb {A} (f : exn → M W A) e :
  (∀ e, moves R (f e)) → moves R (except_cb f e).
Proof. intros. unfold except_cb. apply moves_if; intros _; auto using moves_raise. Qed.
Lemma moves_zoom {S A} `{!Lens W S} (m : M S A) :
  (∀ w, R w (lset (m (lget w)).2 w)) → moves R (zoom m).
Proof. intros H w. unfold zoom. specialize (H w). by destruct (m (lget w)). Qed.
End moves.

#[export] Hint Resolve moves_ret moves_raise moves_gets moves_bind moves_try_else
  moves_try_except moves_try_finally moves_swallow moves_if moves_when
  moves_except_io moves_except_cb : moves.

(** One step through the control structure of a computation. *)
Ltac moves_step :=
  match goal with
  | |- ∀ _, _ => intros ?
  | |- moves _ (match ?x with _ => _ end) => destruct x eqn:?
  | |- moves _ (let '(_, _) := ?x in _) => destruct x eqn:?
  | |- moves _ _ => solve [eauto 2 with moves nocore]
  | |- moves _ (mret _) => apply moves_ret
  | |- moves _ (raise _) => apply moves_raise
  | |- moves _ (gets _) => apply moves_gets
  | |- moves _ (mbind _ _) => apply moves_bind
  | |- moves _ (try_else _ _ _) => apply moves_try_else
  | |- moves _ (try_except _ _) => apply moves_try_except
  | |- moves _ (try_finally _ _) => apply moves_try_finally
  | |- moves _ (swallow _) => apply moves_swallow
  | |- moves _ (when_ _ _) => apply moves_when
  | |- moves _ (except_io _ _ _) => apply moves_except_io
  | |- moves _ (except_cb _ _) => apply moves_except_cb
  | |- moves _ (modify _) => apply moves_modify
  | |- moves _ _ => solve [eauto with moves nocore]
  end.
Ltac moves_auto := repeat (moves_step; try typeclasses eauto).

(** ** Hoare triples

    [hoare P m Q]: started in a state satisfying [P], [m] ends with an outcome
    and a state satisfying [Q].  Every computation of the development is a
    total function, so the triple is a total-correctness statement. *)
Definition hoare {W A} (P : W → Prop) (m : M W A) (Q : res A → W → Prop) : Prop :=
  ∀ w, P w → Q (m w).1 (m w).2.

Lemma hoare_bind {W A B} P (m : M W A) (k : A → M W B) Q R :
  hoare P m Q →
  (∀ a, hoare (Q (Ret a)) (k a) R) →
  (∀ e w, Q (Raise e) w → R (Raise e) w) →
  hoare P (m ≫= k) R.
Proof.
  intros Hm Hk He w HP. specialize (Hm w HP). unfold mbind, M_bind.
  destruct (m w) as [[a|e] w']; simpl in *; [by apply Hk|by apply He].
Qed.

Lemma hoare_weaken {W A} (P P' : W → Prop) (m : M W A) (Q Q' : res A → W → Prop) :
  hoare P m Q → (∀ w, P' w → P w) → (∀ r w, Q r w → Q' r w) → hoare P' m Q'.
Proof. intros Hm HP HQ w Hw. apply HQ, Hm, HP, Hw. Qed.

(** ** Evaluation of computations on a symbolic state *)

Create HintDb run.

Section run.
Context {W : Type}.
Lemma run_ret {A} (a : A) (w : W) : (mret a : M W A) w = (Ret a, w).
Proof. done. Qed.
Lemma run_raise {A} e (w : W) : (raise e : M W A) w = (Raise e, w).
Proof. done. Qed.
Lemma run_gets {A} (f : W → A) w : gets f w = (Ret (f w), w).
Proof. done. Qed.
Lemma run_outcome {A} (m : M W A) (w : W) : outcome m w = (Ret (m w).1, (m w).2).
Proof. done. Qed.
Lemma run_modify (f : W → W) w : modify f w = (Ret tt, f w).
Proof. done. Qed.
Lemma run_bind {A B} (m : M W A) (k : A → M W B) w :
  (m ≫= k) w = match m w with
                | (Ret a, w') => k a w'
                | (Raise e, w') => (Raise e, w')
                end.
Proof. done. Qed.
End run.

Ltac mrun := repeat (rewrite ?run_bind, ?run_gets, ?run_modify, ?run_ret, ?run_raise; cbn).

(** ** Lists *)

Lemma omap_one {A B} (f : A → option B) x : omap f [x] = option_list (f x).
Proof. simpl. by destruct (f x). Qed.

(** The elements of [l] whose mark is set. *)
Definition marked {A} (bs : list bool) (l : list A) : list A :=
  omap (λ p : bool * A, if p.1 then Some p.2 else None) (zip bs l).

Lemma marked_cons {A} b bs (x : A) l :
  marked (b :: bs) (x :: l) = (if b then [x] else []) ++ marked bs l.
Proof. by destruct b. Qed.

Lemma filter_all {A} (P : A → Prop) `{!∀ x, Decision (P x)} l : Forall P l → filter P l = l.
Proof. induction 1; [done|]. rewrite filter_cons_True by done. by f_equal. Qed.

Lemma filter_none {A} (P : A → Prop) `{!∀ x, Decision (P x)} l :
  Forall (λ x, ¬ P x) l → filter P l = [].
Proof. induction 1; [done|]. by rewrite filter_cons_False. Qed.
