(* ===== verification/State.v ===== *)
(** * The shared event-loop state (src/state.rs)

    The data every other file works on: the callbacks the program can hand to
    the loop, the fd reactor's tables, the scheduler's queues and the store of
    futures, as one record [LoopState] with the setters and lenses the
    operations use. *)

From Stdlib Require Import Strings.Byte.
From stdpp Require Import base tactics list gmap strings.
From S2P Require Import Prelude.

(** ** Values and callbacks *)

(** A socket address ([AddrRepr] after [addr_to_py]). *)
Inductive addr :=
  | AInet (host : string) (port : Z)
  | AUnix (path : bytes)
  | AUnnamed.

#[export] Instance addr_eq_dec : EqDecision addr.
Proof. solve_decision. Defined.

(** Truth value of an address: a non-empty tuple or path. *)
Definition addr_truthy (a : option addr) : bool :=
  match a with
  | Some (AInet _ _) => true
  | Some (AUnix []) => false
  | Some (AUnix _) => true
  | Some AUnnamed | None => false
  end.

(** Results a future of the program can hold. *)
Inductive value :=
  | VNone
  | VBytes (b : bytes)
  | VInt (n : Z)
  | VFrom (b : bytes) (a : addr)
  | VIntFrom (n : Z) (a : addr)
  | VConn (conn : Z) (a : addr).

#[export] Instance value_eq_dec : EqDecision value.
Proof. solve_decision. Defined.

(** A protocol instance: its identity and whether it is an
    [asyncio.BufferedProtocol]. *)
Record proto := MkProto {
  proto_id : nat;
  is_BufferedProtocol : bool;
}.

#[export] Instance proto_eq_dec : EqDecision proto.
Proof. solve_decision. Defined.

(** Identifiers of heap objects: futures, slots, cancellation flags. *)
Abbreviation fut_id := nat.
Abbreviation slot_id := nat.
Abbreviation flag_id := nat.

(** [FdHandle] (src/handles.rs): what [_add_reader]/[_add_writer] return. *)
Record FdHandle := MkFdHandle {
  h_fd : Z;
  h_is_read : bool;
  h_flag : flag_id;
}.

#[export] Instance FdHandle_eq_dec : EqDecision FdHandle.
Proof. solve_decision. Defined.

(** The callables the program gives to the loop: bound methods of the
    transports and of the [sock_*] helpers with their arguments, and callables
    of the application. *)
Inductive callback :=
  (* transports.py *)
  | CbReadReady
  | CbWriteSendmsg
  | CbWriteSend
  | CbNone (* [None] registered as a callback *)
  | CbSendtoReady
  | CbDrainStream
  | CbDrainDatagram
  | CbDrainError
  | CbRegisterReader
  | CbConnectionMade (p : proto) (* [p.connection_made], bound when it is scheduled *)
  | CbCallConnectionLost (exc : option exn)
  | CbSetResultUnlessCancelled (fut : fut_id)
  | CbSetException (fut : fut_id) (exc : exn)
  | CbChainFuture (fut : fut_id) (* [futures._set_state]: a job of an executor has ended *)
  | CbResumeReading
  (* loop.py, sock_* *)
  | CbSockRecv (fut : fut_id) (sock : Z) (n : nat)
  | CbSockRecvInto (fut : fut_id) (sock : Z) (len : nat)
  | CbSockRecvfrom (fut : fut_id) (sock : Z) (n : nat)
  | CbSockRecvfromInto (fut : fut_id) (sock : Z) (n : nat)
  | CbSockSendall (fut : fut_id) (sock : Z) (data : bytes) (pos : nat) (* pos: a heap cell *)
  | CbSockSendto (fut : fut_id) (sock : Z) (data : bytes) (a : addr)
  | CbSockConnect (fut : fut_id) (sock : Z) (a : addr)
  | CbSockAccept (fut : fut_id) (sock : Z)
  | CbSockReadDone (fd : Z) (fut : fut_id) (handle : FdHandle)
  | CbSockWriteDone (fd : Z) (fut : fut_id) (handle : FdHandle)
  (* servers *)
  | CbStartServing (sock : Z) (backlog : nat)
  | CbAcceptConnection (sock : Z) (backlog : nat)
  | CbAcceptConnection2 (conn : Z) (peer : addr) (* first step of the task *)
  (* wake-up of the task waiting for a future *)
  | CbWakeup (fut : fut_id)
  (* anything of the application *)
  | CbUser (n : nat).

#[export] Instance callback_eq_dec : EqDecision callback.
Proof. solve_decision. Defined.

(** ** The fd reactor's tables *)

(** [FdSlotState]: what a registered direction runs. *)
Record FdSlotState := MkSlot {
  cb : option callback;
  drain : option callback;
  drain_err : option callback;
  dead : bool;
  flag : option flag_id;
}.

(** [FdRecord]: the watchers of one fd, each a shared slot
    ([Arc<Mutex<FdSlotState>>]) and the task that serves it. *)
Record FdRecord := MkRecord {
  reader : option slot_id;
  writer : option slot_id;
}.

(** The reactor: the [fds] table, the heap of slots and cancellation flags
    its [Arc]s point to, the aborted watcher tasks (a watcher's task is named
    by its slot), and the 64-bit watcher counter. *)
Record Reactor := MkReactor {
  fds : gmap Z FdRecord;
  slots : gmap slot_id FdSlotState;
  flags : gmap flag_id bool;
  aborted : gset slot_id;
  next_id : nat;
  n_watchers : Z;
}.

(** ** Futures ([asyncio.Future], as far as the program uses it) *)

Inductive fut_state :=
  | Pending
  | Result (v : value)
  | Exception (e : exn)
  | Cancelled.

Record future := MkFuture {
  f_state : fut_state;
  f_callbacks : list callback;
}.

(** ** The loop *)

(** [ReadyEntry]: a scheduled callback and its cancellation flag. *)
Record ReadyEntry := MkReady {
  re_callback : callback;
  re_cancelled : flag_id;
}.

(** The reactor, the ready queue, the futures, the one-element lists used as
    mutable cells in closures ([[n]] in [sock_sendall]), and the two flags. *)
Record LoopState := MkLoop {
  reactor : Reactor;
  ready : list ReadyEntry;
  futs : gmap fut_id future;
  cells : gmap nat nat;
  closed : bool;
  debug : bool;
}.

Definition set_reactor (r : Reactor) (s : LoopState) : LoopState :=
  MkLoop r (ready s) (futs s) (cells s) (closed s) (debug s).
Definition set_ready (q : list ReadyEntry) (s : LoopState) : LoopState :=
  MkLoop (reactor s) q (futs s) (cells s) (closed s) (debug s).
Definition set_futs (f : gmap fut_id future) (s : LoopState) : LoopState :=
  MkLoop (reactor s) (ready s) f (cells s) (closed s) (debug s).
Definition set_cells (c : gmap nat nat) (s : LoopState) : LoopState :=
  MkLoop (reactor s) (ready s) (futs s) c (closed s) (debug s).

#[export] Instance lens_refl {W} : Lens W W := {| lget := id; lset s _ := s |}.
#[export] Instance lens_refl_laws {W} : LensLaws W W.
Proof. by split. Qed.

(** A fresh cancellation flag ([Arc::new(AtomicBool::new(false))]). *)
Definition new_flag (r : Reactor) : flag_id * Reactor :=
  (next_id r,
   MkReactor (fds r) (slots r) (<[next_id r := false]> (flags r)) (aborted r)
     (S (next_id r)) (n_watchers r)).

Definition empty_reactor : Reactor := MkReactor ∅ ∅ ∅ ∅ 0 0.
Definition empty_loop : LoopState := MkLoop empty_reactor [] ∅ ∅ false false.
