(* ===== verification/Reactor.v ===== *)
(** * The fd reactor (src/fd.rs, registration part of src/fd_unix.rs)

    Registration, replacement, removal and cancellation of watchers on the
    reactor's tables, the well-formedness invariant of those tables, and what
    each operation does to a direction and to the handles already given out. *)

From stdpp Require Import base tactics list gmap strings.
From S2P Require Import Prelude State.

(** ** Operations *)

(** [AtomicU64::fetch_add] and [fetch_sub] wrap around. *)
Definition u64 (z : Z) : Z := (z `mod` 2 ^ 64)%Z.

Definition dir_of (is_read : bool) (rec : FdRecord) : option slot_id :=
  if is_read then reader rec else writer rec.

Definition set_dir (is_read : bool) (d : option slot_id) (rec : FdRecord) : FdRecord :=
  if is_read then MkRecord d (writer rec) else MkRecord (reader rec) d.

(** The slot registered for a direction of an fd. *)
Definition registered (r : Reactor) (fd : Z) (is_read : bool) : option slot_id :=
  fds r !! fd ≫= dir_of is_read.

(** [f.store(true)] for the flag a slot still owns. *)
Definition cancel_flag (f : option flag_id) (fl : gmap flag_id bool) : gmap flag_id bool :=
  match f with Some i => <[i := true]> fl | None => fl end.

(** What removal, replacement and [close()] do to the old direction: abort the
    task, take and set the flag, clear the callback, mark the slot dead (the
    drain callbacks are kept on purpose). *)
Definition retire (sl : slot_id) (r : Reactor) : Reactor :=
  match slots r !! sl with
  | Some s =>
      MkReactor (fds r)
        (<[sl := MkSlot None (drain s) (drain_err s) true None]> (slots r))
        (cancel_flag (flag s) (flags r))
        ({[sl]} ∪ aborted r) (next_id r) (n_watchers r)
  | None => r
  end.

Definition with_fds (f : gmap Z FdRecord) (n : Z) (r : Reactor) : Reactor :=
  MkReactor f (slots r) (flags r) (aborted r) (next_id r) n.

(** [detach_watcher]. *)
Definition detach_watcher (fd : Z) (is_read : bool) (r : Reactor) : bool * Reactor :=
  match fds r !! fd with
  | None => (false, r)
  | Some rec =>
      match dir_of is_read rec with
      | None => (false, r)
      | Some old =>
          let rec' := set_dir is_read None rec in
          let r1 := retire old r in
          let n := u64 (n_watchers r - 1) in
          let fds' :=
            if decide (reader rec' = None ∧ writer rec' = None)
            then delete fd (fds r)
            else <[fd := rec']> (fds r) in
          (true, with_fds fds' n r1)
      end
  end.

(** The slots of every registered direction, in table order. *)
Definition record_slots (rec : FdRecord) : list slot_id :=
  option_list (reader rec) ++ option_list (writer rec).
Definition all_slots (m : gmap Z FdRecord) : list slot_id :=
  map_to_list m ≫= λ p, record_slots p.2.

(** [abort_all]. *)
Definition abort_all (r : Reactor) : Reactor :=
  with_fds ∅ 0 (foldr retire r (all_slots (fds r))).

(** [is_polling]. *)
Definition is_polling (fd : Z) (is_read : bool) (r : Reactor) : bool :=
  match registered r fd is_read with
  | None => false
  | Some sl =>
      match slots r !! sl with
      | Some s => negb (dead s) && (bool_decide (is_Some (cb s)) || bool_decide (is_Some (drain s)))
      | None => false
      end
  end.

(** The part of [add_watcher] and [add_drain_watcher] after [dup] and
    [AsyncFd::new]: a new flag and slot, a new task, and the table entry, with
    the previous watcher of the direction retired. *)
Definition new_slot (mk : flag_id → FdSlotState) (r : Reactor) :
    flag_id * slot_id * Reactor :=
  let '(f, r1) := new_flag r in
  (f, next_id r1,
   MkReactor (fds r1) (<[next_id r1 := mk f]> (slots r1)) (flags r1) (aborted r1)
     (S (next_id r1)) (n_watchers r1)).

Definition install (fd : Z) (is_read : bool) (mk : flag_id → FdSlotState)
    (r : Reactor) : FdHandle * Reactor :=
  let '(f, sl, r2) := new_slot mk r in
  let rec := default (MkRecord None None) (fds r2 !! fd) in
  let r3 := match dir_of is_read rec with
            | Some old => retire old r2
            | None => with_fds (fds r2) (u64 (n_watchers r2 + 1)) r2
            end in
  (MkFdHandle fd is_read f,
   with_fds (<[fd := set_dir is_read (Some sl) rec]> (fds r3)) (n_watchers r3) r3).

(** [add_watcher]: callback mode. *)
Definition add_watcher (fd : Z) (is_read : bool) (callback : callback)
    (r : Reactor) : FdHandle * Reactor :=
  install fd is_read (λ f, MkSlot (Some callback) None None false (Some f)) r.

(** [add_drain_watcher]: always the read direction. *)
Definition add_drain_watcher (fd : Z) (on_data on_err : callback)
    (r : Reactor) : FdHandle * Reactor :=
  install fd true (λ f, MkSlot None (Some on_data) (Some on_err) false (Some f)) r.

(** [FdHandle.cancelled] and [FdHandle.cancel] (src/handles.rs). *)
Definition cancelled (h : FdHandle) (r : Reactor) : bool :=
  default true (flags r !! h_flag h).

Definition cancel (h : FdHandle) (r : Reactor) : bool * Reactor :=
  if cancelled h r then (false, r)
  else
    let r1 := MkReactor (fds r) (slots r) (<[h_flag h := true]> (flags r)) (aborted r)
                (next_id r) (n_watchers r) in
    (true, (detach_watcher (h_fd h) (h_is_read h) r1).2).

(** ** The invariant *)

Definition record_count (rec : FdRecord) : nat :=
  length (record_slots rec).
Definition watcher_count (m : gmap Z FdRecord) : nat :=
  map_fold (λ _ rec n, record_count rec + n) 0 m.

(** A slot that serves direction [is_read]: alive, owning a flag that is not
    set, with a callback or (read side only) a pair of drain callbacks. *)
Definition live_slot (r : Reactor) (sl : slot_id) : Prop :=
  ∃ s f, slots r !! sl = Some s ∧ dead s = false ∧ flag s = Some f ∧
         flags r !! f = Some false ∧ (is_Some (cb s) ∨ is_Some (drain s)).

(** The heap of slots and flags. *)
Record heap_ok (r : Reactor) : Prop := {
  flags_distinct sl1 sl2 s1 s2 f :
    slots r !! sl1 = Some s1 → slots r !! sl2 = Some s2 →
    flag s1 = Some f → flag s2 = Some f → sl1 = sl2;
  fresh_slot sl : is_Some (slots r !! sl) → sl < next_id r;
  fresh_flag f : is_Some (flags r !! f) → f < next_id r;
  slot_flag sl s f :
    slots r !! sl = Some s → flag s = Some f → is_Some (flags r !! f);
}.

Record wf (r : Reactor) : Prop := {
  wf_heap : heap_ok r;
  wf_nonempty fd rec :
    fds r !! fd = Some rec → ¬ (reader rec = None ∧ writer rec = None);
  wf_live fd d sl : registered r fd d = Some sl → live_slot r sl;
  wf_distinct fd1 d1 fd2 d2 sl :
    registered r fd1 d1 = Some sl → registered r fd2 d2 = Some sl →
    fd1 = fd2 ∧ d1 = d2;
  wf_count : n_watchers r = u64 (Z.of_nat (watcher_count (fds r)));
}.

(** The promise made to the holder of a handle: as long as its flag is not
    set, its own watcher is the one registered for its direction. *)
Definition issued (r : Reactor) (h : FdHandle) : Prop :=
  flags r !! h_flag h = Some true ∨
  ∃ sl s, registered r (h_fd h) (h_is_read h) = Some sl ∧
          slots r !! sl = Some s ∧ flag s = Some (h_flag h) ∧
          flags r !! h_flag h = Some false.

(** ** Lemmas on the tables *)

Lemma dir_of_set_dir d d' v rec :
  dir_of d' (set_dir d v rec) = if decide (d = d') then v else dir_of d' rec.
Proof. by destruct d, d'. Qed.

Lemma record_count_set_dir d v rec :
  record_count (set_dir d v rec) + length (option_list (dir_of d rec)) =
  record_count rec + length (option_list v).
Proof.
  destruct rec as [rd wr], d; unfold record_count, record_slots; simpl;
    rewrite !length_app; lia.
Qed.

Lemma watcher_count_insert m fd rec :
  watcher_count (<[fd := rec]> m) + default 0 (record_count <$> m !! fd) =
  watcher_count m + record_count rec.
Proof.
  unfold watcher_count. rewrite <- (insert_delete_eq m fd rec).
  rewrite map_fold_insert_L by (try apply lookup_delete_eq; intros; lia).
  destruct (m !! fd) as [old|] eqn:Hm; simpl.
  - rewrite (map_fold_delete_L _ _ fd old m) by (try done; intros; lia). lia.
  - rewrite delete_id by done. lia.
Qed.

Lemma watcher_count_delete m fd :
  watcher_count (delete fd m) + default 0 (record_count <$> m !! fd) = watcher_count m.
Proof.
  unfold watcher_count. destruct (m !! fd) as [old|] eqn:Hm; simpl.
  - rewrite (map_fold_delete_L _ _ fd old m) by (try done; intros; lia). lia.
  - rewrite delete_id by done. lia.
Qed.

(** The table [detach_watcher] leaves, and its two facts. *)
Definition put_record (fd : Z) (rec : FdRecord) (m : gmap Z FdRecord) : gmap Z FdRecord :=
  if decide (reader rec = None ∧ writer rec = None) then delete fd m
  else <[fd := rec]> m.

Lemma put_record_dir fd rec m fd' d :
  put_record fd rec m !! fd' ≫= dir_of d =
  if decide (fd = fd') then dir_of d rec else m !! fd' ≫= dir_of d.
Proof.
  unfold put_record. case_decide as He.
  - case_decide; subst.
    + rewrite lookup_delete_eq. by destruct d, He.
    + by rewrite lookup_delete_ne.
  - case_decide; subst.
    + by rewrite lookup_insert_eq.
    + by rewrite lookup_insert_ne.
Qed.

Lemma put_record_count fd rec m :
  watcher_count (put_record fd rec m) + default 0 (record_count <$> m !! fd) =
  watcher_count m + record_count rec.
Proof.
  unfold put_record. case_decide as He; [|apply watcher_count_insert].
  rewrite watcher_count_delete. destruct rec as [rd wr]; simpl in *.
  destruct He as [-> ->]. unfold record_count, record_slots. simpl. lia.
Qed.

Lemma put_record_nonempty fd rec m :
  (∀ fd' rec', m !! fd' = Some rec' → ¬ (reader rec' = None ∧ writer rec' = None)) →
  ∀ fd' rec', put_record fd rec m !! fd' = Some rec' →
    ¬ (reader rec' = None ∧ writer rec' = None).
Proof.
  intros Hm fd' rec'. unfold put_record. case_decide.
  - rewrite lookup_delete_Some. intros [_ ?]. eauto.
  - rewrite lookup_insert_Some. intros [[-> ->]|[_ ?]]; eauto.
Qed.

Lemma insert_put_record fd d sl rec m :
  <[fd := set_dir d (Some sl) rec]> m = put_record fd (set_dir d (Some sl) rec) m.
Proof. unfold put_record. rewrite decide_False; [done|]. by destruct d; intros [? ?]. Qed.

(** ** Lemmas on the heap *)

Lemma retire_slots_ne sl sl' r : sl ≠ sl' → slots (retire sl r) !! sl' = slots r !! sl'.
Proof.
  intros. unfold retire. destruct (slots r !! sl); [|done]. simpl.
  by rewrite lookup_insert_ne.
Qed.

Lemma retire_slots_eq sl r s :
  slots r !! sl = Some s →
  slots (retire sl r) !! sl = Some (MkSlot None (drain s) (drain_err s) true None).
Proof. intros H. unfold retire. rewrite H. simpl. by rewrite lookup_insert_eq. Qed.

Lemma retire_fds sl r : fds (retire sl r) = fds r.
Proof. unfold retire. by destruct (slots r !! sl). Qed.
Lemma retire_next sl r : next_id (retire sl r) = next_id r.
Proof. unfold retire. by destruct (slots r !! sl). Qed.
Lemma retire_count sl r : n_watchers (retire sl r) = n_watchers r.
Proof. unfold retire. by destruct (slots r !! sl). Qed.

Lemma retire_flags_ne sl r f :
  (∀ s, slots r !! sl = Some s → flag s ≠ Some f) →
  flags (retire sl r) !! f = flags r !! f.
Proof.
  intros H. unfold retire. destruct (slots r !! sl) as [s|] eqn:E; [|done]. simpl.
  specialize (H s eq_refl). unfold cancel_flag.
  destruct (flag s) as [g|]; [|done]. rewrite lookup_insert_ne; [done|congruence].
Qed.

Lemma retire_flags_true sl r f :
  flags r !! f = Some true → flags (retire sl r) !! f = Some true.
Proof.
  intros H. unfold retire. destruct (slots r !! sl) as [s|]; [|done]. simpl.
  unfold cancel_flag. destruct (flag s) as [g|]; [|done].
  destruct (decide (g = f)) as [->|]; [by rewrite lookup_insert_eq|].
  by rewrite lookup_insert_ne.
Qed.

Lemma retire_flags_eq sl r s f :
  slots r !! sl = Some s → flag s = Some f → flags (retire sl r) !! f = Some true.
Proof.
  intros H Hf. unfold retire. rewrite H. simpl. rewrite Hf. simpl.
  by rewrite lookup_insert_eq.
Qed.

Lemma retire_flags_dom sl r f :
  heap_ok r → is_Some (flags (retire sl r) !! f) ↔ is_Some (flags r !! f).
Proof.
  intros Hh. unfold retire. destruct (slots r !! sl) as [s|] eqn:E; [|done]. simpl.
  unfold cancel_flag. destruct (flag s) as [g|] eqn:Hg; [|done].
  destruct (decide (g = f)) as [->|]; [|by rewrite lookup_insert_ne].
  rewrite lookup_insert_eq. split; [|done]. intros _. by eapply slot_flag.
Qed.

Lemma heap_ok_with_fds m n r : heap_ok r → heap_ok (with_fds m n r).
Proof. by intros [????]; split. Qed.

Lemma heap_ok_retire sl r : heap_ok r → heap_ok (retire sl r).
Proof.
  intros Hh. destruct (slots r !! sl) as [s|] eqn:E; cycle 1.
  { unfold retire. by rewrite E. }
  assert (∀ sl' s' f, slots (retire sl r) !! sl' = Some s' → flag s' = Some f →
           sl ≠ sl' ∧ slots r !! sl' = Some s') as Hs.
  { intros sl' s' f Hsl' Hf. destruct (decide (sl = sl')) as [<-|Hne].
    - rewrite (retire_slots_eq _ _ s) in Hsl' by done. by simplify_eq.
    - by rewrite retire_slots_ne in Hsl'. }
  split.
  - intros sl1 sl2 s1 s2 f H1 H2 Hf1 Hf2.
    destruct (Hs _ _ _ H1 Hf1), (Hs _ _ _ H2 Hf2). by eapply flags_distinct.
  - intros sl' Hsl'. rewrite retire_next. apply (fresh_slot r Hh).
    destruct (decide (sl = sl')) as [<-|]; [by eexists|].
    by rewrite retire_slots_ne in Hsl'.
  - intros f. rewrite retire_next, retire_flags_dom by done. by apply fresh_flag.
  - intros sl' s' f Hsl' Hf. apply retire_flags_dom; [done|].
    destruct (Hs _ _ _ Hsl' Hf). by eapply slot_flag.
Qed.

Lemma live_slot_retire sl sl' r :
  heap_ok r → sl ≠ sl' → live_slot r sl' → live_slot (retire sl r) sl'.
Proof.
  intros Hh Hne (s & f & Hs & Hd & Hf & Hff & Ha). exists s, f.
  rewrite retire_slots_ne by done. split_and!; try done.
  rewrite retire_flags_ne; [done|]. intros s' Hs' Hf'.
  destruct Hne. by eapply flags_distinct.
Qed.

Lemma live_slot_with_fds m n r sl : live_slot (with_fds m n r) sl ↔ live_slot r sl.
Proof. done. Qed.

(** ** Updating one direction *)

Definition record_at (r : Reactor) (fd : Z) : FdRecord :=
  default (MkRecord None None) (fds r !! fd).

Lemma registered_record_at r fd d : registered r fd d = dir_of d (record_at r fd).
Proof. unfold registered, record_at. destruct (fds r !! fd); [done|]. by destruct d. Qed.

Lemma registered_put r r' fd d v fd' d' :
  fds r' = put_record fd (set_dir d v (record_at r fd)) (fds r) →
  registered r' fd' d' =
  if decide (fd = fd' ∧ d = d') then v else registered r fd' d'.
Proof.
  intros Hfds. unfold registered at 1. rewrite Hfds, put_record_dir, dir_of_set_dir.
  destruct (decide (fd = fd')) as [<-|]; [|by rewrite decide_False by (by intros [? ?])].
  destruct (decide (d = d')) as [<-|].
  - by rewrite decide_True.
  - rewrite decide_False by (by intros [? ?]). symmetry. apply registered_record_at.
Qed.

Lemma u64_mod z a : u64 (u64 z + a) = u64 (z + a).
Proof. unfold u64. by rewrite Z.add_mod_idemp_l. Qed.

Lemma wf_put r r' fd d v :
  wf r →
  fds r' = put_record fd (set_dir d v (record_at r fd)) (fds r) →
  heap_ok r' →
  (∀ sl, v = Some sl → live_slot r' sl ∧ ∀ fd' d', registered r fd' d' ≠ Some sl) →
  (∀ fd' d' sl, ¬ (fd = fd' ∧ d = d') → registered r fd' d' = Some sl → live_slot r' sl) →
  n_watchers r' = u64 (n_watchers r + (Z.of_nat (length (option_list v))
                       - Z.of_nat (length (option_list (registered r fd d)))))%Z →
  wf r'.
Proof.
  intros Hwf Hfds Hheap Hv Hother Hn. pose proof (registered_put r r' fd d v) as Hreg.
  split; [done|..].
  - rewrite Hfds. apply put_record_nonempty, (wf_nonempty r Hwf).
  - intros fd' d' sl. rewrite Hreg by done. case_decide; [|by apply Hother].
    intros ->. by apply Hv.
  - intros fd1 d1 fd2 d2 sl. rewrite !Hreg by done.
    repeat case_decide; intros H1 H2; destruct_and?; subst; try done.
    + by destruct (proj2 (Hv _ eq_refl) fd2 d2).
    + by destruct (proj2 (Hv _ eq_refl) fd1 d1).
    + by eapply wf_distinct.
  - rewrite Hn, (wf_count r Hwf), u64_mod, Hfds, registered_record_at. f_equal.
    pose proof (put_record_count fd (set_dir d v (record_at r fd)) (fds r)) as H1.
    pose proof (record_count_set_dir d v (record_at r fd)) as H2.
    replace (default 0 (record_count <$> fds r !! fd)) with (record_count (record_at r fd))
      in H1; [lia|].
    unfold record_at. by destruct (fds r !! fd).
Qed.

(** ** Removal *)

Lemma detach_none fd d r :
  registered r fd d = None → detach_watcher fd d r = (false, r).
Proof.
  unfold registered, detach_watcher. destruct (fds r !! fd) as [rec|]; [|done].
  simpl. by intros ->.
Qed.

Lemma detach_some fd d sl r :
  registered r fd d = Some sl →
  detach_watcher fd d r =
    (true, with_fds (put_record fd (set_dir d None (record_at r fd)) (fds r))
             (u64 (n_watchers r - 1)) (retire sl r)).
Proof.
  unfold registered, detach_watcher, put_record, record_at.
  destruct (fds r !! fd) as [rec|]; [|done]. simpl. by intros ->.
Qed.

Lemma detach_true fd d r :
  (detach_watcher fd d r).1 = bool_decide (is_Some (registered r fd d)).
Proof.
  destruct (registered r fd d) as [sl|] eqn:E.
  - by rewrite (detach_some _ _ sl).
  - by rewrite detach_none.
Qed.

Lemma detach_wf fd d r : wf r → wf (detach_watcher fd d r).2.
Proof.
  intros Hwf. destruct (registered r fd d) as [sl|] eqn:E;
    [rewrite (detach_some _ _ sl) by done|by rewrite detach_none].
  apply (wf_put r _ fd d None); simpl; try done.
  - by apply heap_ok_with_fds, heap_ok_retire, Hwf.
  - intros fd' d' sl' Hne Hsl'. apply live_slot_with_fds, live_slot_retire.
    + apply Hwf.
    + intros <-. apply Hne, (wf_distinct r Hwf _ _ _ _ _ E Hsl').
    + by eapply wf_live.
  - rewrite E. simpl. f_equal; lia.
Qed.

Lemma detach_registered fd d r fd' d' :
  registered (detach_watcher fd d r).2 fd' d' =
  if decide (fd = fd' ∧ d = d') then None else registered r fd' d'.
Proof.
  destruct (registered r fd d) as [sl|] eqn:E;
    [rewrite (detach_some _ _ sl) by done|rewrite detach_none by done; simpl].
  - by apply registered_put.
  - by case_decide; destruct_and?; subst.
Qed.

Lemma detach_next fd d r : next_id (detach_watcher fd d r).2 = next_id r.
Proof.
  destruct (registered r fd d) as [sl|] eqn:E;
    [rewrite (detach_some _ _ sl) by done|by rewrite detach_none].
  simpl. apply retire_next.
Qed.

(** ** Registration *)

Section install.
Context (mk : flag_id → FdSlotState).
Hypothesis mk_flag : ∀ f, flag (mk f) = Some f.
Hypothesis mk_alive : ∀ f, dead (mk f) = false.
Hypothesis mk_armed : ∀ f, is_Some (cb (mk f)) ∨ is_Some (drain (mk f)).

Lemma heap_ok_new_slot r f sl r' :
  heap_ok r → new_slot mk r = (f, sl, r') → heap_ok r'.
Proof.
  intros Hh. unfold new_slot, new_flag; simpl. intros [= <- <- <-]. split; simpl.
  - intros sl1 sl2 s1 s2 f. rewrite !lookup_insert_Some.
    intros [[<- <-]|[? H1]] [[<- <-]|[? H2]] Hf1 Hf2; try done.
    + rewrite mk_flag in Hf1. simplify_eq.
      pose proof (fresh_flag r Hh _ (slot_flag r Hh _ _ _ H2 Hf2)). lia.
    + rewrite mk_flag in Hf2. simplify_eq.
      pose proof (fresh_flag r Hh _ (slot_flag r Hh _ _ _ H1 Hf1)). lia.
    + by eapply flags_distinct.
  - intros sl. rewrite lookup_insert_is_Some.
    intros [->|[? ?%(fresh_slot r Hh)]]; lia.
  - intros f. rewrite lookup_insert_is_Some.
    intros [->|[? ?%(fresh_flag r Hh)]]; lia.
  - intros sl s f. rewrite lookup_insert_Some, lookup_insert_is_Some.
    intros [[<- <-]|[? Hs]] Hf.
    + rewrite mk_flag in Hf. simplify_eq. by left.
    + destruct (decide (next_id r = f)); [by left|right]. split; [done|].
      by eapply slot_flag.
Qed.

Lemma live_slot_new_slot r f sl r' sl' :
  heap_ok r → new_slot mk r = (f, sl, r') → live_slot r sl' → live_slot r' sl'.
Proof.
  intros Hh. unfold new_slot, new_flag; simpl. intros [= <- <- <-].
  intros (s & f & Hs & Hd & Hf & Hff & Ha). exists s, f. simpl.
  pose proof (fresh_slot r Hh _ (mk_is_Some _ _ Hs)).
  pose proof (fresh_flag r Hh _ (mk_is_Some _ _ Hff)).
  by rewrite !lookup_insert_ne by lia.
Qed.

Lemma live_new_slot r f sl r' : new_slot mk r = (f, sl, r') → live_slot r' sl.
Proof.
  unfold new_slot, new_flag; simpl. intros [= <- <- <-].
  eexists _, _; simpl. rewrite !lookup_insert_eq. eauto.
Qed.

(** [install] as one table update. *)
Lemma install_spec r fd d :
  ∃ f sl r2, new_slot mk r = (f, sl, r2) ∧
    (install fd d mk r).1 = MkFdHandle fd d f ∧
    (install fd d mk r).2 =
      with_fds (put_record fd (set_dir d (Some sl) (record_at r fd)) (fds r))
        (match registered r fd d with
         | Some _ => n_watchers r | None => u64 (n_watchers r + 1) end)
        (match registered r fd d with Some old => retire old r2 | None => r2 end).
Proof.
  eexists _, _, _. split; [done|]. unfold install.
  change (new_slot mk r) with
    (next_id r, S (next_id r), (new_slot mk r).2). cbv beta iota.
  split; [done|]. rewrite registered_record_at, <- insert_put_record. simpl.
  change (fds (new_slot mk r).2) with (fds r).
  fold (record_at r fd). destruct (dir_of d (record_at r fd)) eqn:E; simpl.
  - rewrite retire_fds, retire_count. done.
  - done.
Qed.

Lemma new_slot_fresh r f sl r' fd d :
  wf r → new_slot mk r = (f, sl, r') → registered r fd d ≠ Some sl.
Proof.
  intros Hwf. unfold new_slot, new_flag; simpl. intros [= <- <- <-] Hr.
  destruct (wf_live r Hwf _ _ _ Hr) as (? & ? & Hs & _).
  pose proof (fresh_slot r (wf_heap r Hwf) _ (mk_is_Some _ _ Hs)). lia.
Qed.

Lemma install_wf fd d r : wf r → wf (install fd d mk r).2.
Proof.
  intros Hwf. destruct (install_spec r fd d) as (f & sl & r2 & Hnew & _ & ->).
  assert (heap_ok r2) as Hh2 by (eapply heap_ok_new_slot; [apply Hwf|done]).
  assert (∀ sl', live_slot r sl' → live_slot r2 sl') as Hlive
    by (intros; eapply live_slot_new_slot; [apply Hwf|done..]).
  apply (wf_put r _ fd d (Some sl)); simpl; try done.
  - apply heap_ok_with_fds. destruct (registered r fd d); [|done].
    by apply heap_ok_retire.
  - intros ? [= <-]. split; [|by intros; eapply new_slot_fresh].
    apply live_slot_with_fds.
    destruct (registered r fd d) as [old|] eqn:E; [|by eapply live_new_slot].
    apply live_slot_retire; [done| |by eapply live_new_slot].
    intros ->. by eapply new_slot_fresh.
  - intros fd' d' sl' Hne Hsl'. apply live_slot_with_fds.
    destruct (registered r fd d) as [old|] eqn:E;
      [apply live_slot_retire; try done|]; [|by eapply Hlive, wf_live..].
    intros ->. apply Hne, (wf_distinct r Hwf _ _ _ _ _ E Hsl').
  - destruct (registered r fd d) eqn:E; rewrite ?E; simpl.
    + rewrite (wf_count r Hwf) at 1 2. unfold u64.
      rewrite Z.add_0_r, Z.mod_mod; done.
    + f_equal; lia.
Qed.

Lemma install_registered fd d r fd' d' :
  registered (install fd d mk r).2 fd' d' =
  if decide (fd = fd' ∧ d = d') then Some (S (next_id r)) else registered r fd' d'.
Proof.
  destruct (install_spec r fd d) as (f & sl & r2 & Hnew & _ & ->).
  unfold new_slot, new_flag in Hnew; simpl in Hnew. simplify_eq.
  by apply registered_put.
Qed.
End install.

(** ** Closing *)

Lemma elem_of_all_slots r fd d sl :
  registered r fd d = Some sl → sl ∈ all_slots (fds r).
Proof.
  unfold registered. intros (rec & Hrec & Hd)%bind_Some.
  apply list_elem_of_bind. exists (fd, rec). split.
  - unfold record_slots; simpl. destruct d; simpl in Hd; rewrite Hd; set_solver.
  - by apply elem_of_map_to_list.
Qed.

Lemma retire_all_slots_ne l r sl :
  sl ∉ l → slots (foldr retire r l) !! sl = slots r !! sl.
Proof.
  induction l as [|a l IH]; [done|]. rewrite not_elem_of_cons. intros [? ?]. simpl.
  rewrite retire_slots_ne by done. auto.
Qed.

Lemma retire_all_flags l r sl s f :
  sl ∈ l → slots r !! sl = Some s → flag s = Some f →
  flags (foldr retire r l) !! f = Some true.
Proof.
  induction l as [|a l IH]; [by rewrite elem_of_nil|]. intros Hin Hs Hf. simpl.
  destruct (decide (sl ∈ l)) as [?|Hnin]; [by apply retire_flags_true, IH|].
  apply elem_of_cons in Hin as [->|?]; [|done].
  eapply retire_flags_eq; [|done]. by rewrite retire_all_slots_ne.
Qed.

Lemma retire_all_flags_true l r f :
  flags r !! f = Some true → flags (foldr retire r l) !! f = Some true.
Proof. intros. induction l; [done|]. by apply retire_flags_true. Qed.

Lemma heap_ok_retire_all l r : heap_ok r → heap_ok (foldr retire r l).
Proof. intros. induction l; [done|]. by apply heap_ok_retire. Qed.

Lemma registered_no_fds n r fd d : registered (with_fds ∅ n r) fd d = None.
Proof. unfold registered; simpl. by rewrite lookup_empty. Qed.

Lemma abort_all_wf r : wf r → wf (abort_all r).
Proof.
  intros Hwf. split; unfold abort_all.
  - apply heap_ok_with_fds, heap_ok_retire_all, Hwf.
  - intros fd rec. simpl. by rewrite lookup_empty.
  - intros fd d sl. by rewrite registered_no_fds.
  - intros fd1 d1 fd2 d2 sl. by rewrite registered_no_fds.
  - simpl. unfold watcher_count. by rewrite map_fold_empty.
Qed.

(** ** Handles *)

Lemma issued_retire r r' sl fd d v h :
  heap_ok r →
  registered r fd d = Some sl →
  is_Some (slots r !! sl) →
  fds r' = put_record fd (set_dir d v (record_at r fd)) (fds r) →
  (∀ sl', slots r' !! sl' = slots (retire sl r) !! sl' ∨ ¬ is_Some (slots r !! sl')) →
  (∀ f, flags r' !! f = flags (retire sl r) !! f ∨ ¬ is_Some (flags r !! f)) →
  issued r h → issued r' h.
Proof.
  intros Hh Hreg [s0 Hs0] Hfds Hsl Hfl [Ht|(sl' & s & Hr & Hs & Hf & Hff)].
  - left. destruct (Hfl (h_flag h)) as [->|[]]; [|by eexists].
    by apply retire_flags_true.
  - destruct (decide (sl = sl')) as [<-|Hne].
    + left. destruct (Hfl (h_flag h)) as [->|[]]; [|by eexists].
      by eapply retire_flags_eq.
    + right. exists sl', s. rewrite (registered_put r r' fd d v) by done.
      rewrite decide_False by (intros [? ?]; subst; congruence).
      split_and!; try done.
      * destruct (Hsl sl') as [->|[]]; [|by eexists]. by rewrite retire_slots_ne.
      * destruct (Hfl (h_flag h)) as [->|[]]; [|by eexists].
        rewrite retire_flags_ne; [done|]. intros s' Hs' Hf'.
        destruct Hne. by eapply flags_distinct.
Qed.

Lemma detach_issued fd d r h : wf r → issued r h → issued (detach_watcher fd d r).2 h.
Proof.
  intros Hwf Hi. destruct (registered r fd d) as [sl|] eqn:E;
    [rewrite (detach_some _ _ sl) by done|by rewrite detach_none].
  destruct (wf_live r Hwf _ _ _ E) as (s & ? & Hs & _).
  eapply (issued_retire r _ sl fd d None); eauto. apply Hwf.
Qed.

Lemma install_issued_old fd d mk r h :
  wf r → issued r h → issued (install fd d mk r).2 h.
Proof.
  intros Hwf Hi. destruct (install_spec mk r fd d) as (f & sl & r2 & Hnew & _ & ->).
  unfold new_slot, new_flag in Hnew; simpl in Hnew. simplify_eq.
  assert (∀ sl, is_Some (slots r !! sl) → sl < next_id r) as Hfs by apply Hwf.
  assert (∀ f, is_Some (flags r !! f) → f < next_id r) as Hff by apply Hwf.
  destruct (registered r fd d) as [old|] eqn:E.
  - destruct (wf_live r Hwf _ _ _ E) as (s & f & Hs & _ & Hf & Hfl & _).
    pose proof (Hfs _ (mk_is_Some _ _ Hs)). pose proof (Hff _ (mk_is_Some _ _ Hfl)).
    eapply (issued_retire r _ old fd d (Some (S (next_id r)))); eauto; [by apply Hwf|..].
    + intros sl'. destruct (decide (sl' = S (next_id r))) as [->|];
        [right; intros ?%Hfs; lia|left].
      unfold retire; simpl. rewrite lookup_insert_ne, Hs by lia. simpl.
      destruct (decide (old = sl')) as [<-|]; [by rewrite !lookup_insert_eq|].
      by rewrite !lookup_insert_ne.
    + intros f'. destruct (decide (f' = next_id r)) as [->|];
        [right; intros ?%Hff; lia|left].
      unfold retire; simpl. rewrite lookup_insert_ne, Hs by lia. simpl.
      rewrite Hf. simpl.
      destruct (decide (f = f')) as [<-|]; [by rewrite !lookup_insert_eq|].
      by rewrite !lookup_insert_ne.
  - destruct Hi as [Ht|(sl & s & Hr & Hs & Hf & Hfl)].
    + left. simpl. pose proof (Hff _ (mk_is_Some _ _ Ht)).
      rewrite lookup_insert_ne by lia. done.
    + right. exists sl, s. pose proof (Hfs _ (mk_is_Some _ _ Hs)).
      pose proof (Hff _ (mk_is_Some _ _ Hfl)). simpl.
      rewrite !lookup_insert_ne by lia. split_and!; try done.
      unfold registered; simpl. rewrite put_record_dir, dir_of_set_dir.
      repeat case_decide; subst; try congruence; try done.
      by rewrite <- registered_record_at.
Qed.

Lemma install_slot fd d mk r :
  wf r →
  slots (install fd d mk r).2 !! S (next_id r) = Some (mk (next_id r)) ∧
  flags (install fd d mk r).2 !! next_id r = Some false ∧
  (install fd d mk r).1 = MkFdHandle fd d (next_id r).
Proof.
  intros Hwf. destruct (install_spec mk r fd d) as (f & sl & r2 & Hnew & -> & ->).
  unfold new_slot, new_flag in Hnew; simpl in Hnew. simplify_eq. simpl.
  destruct (registered r fd d) as [old|] eqn:E;
    simpl; [|by rewrite !lookup_insert_eq].
  destruct (wf_live r Hwf _ _ _ E) as (s & f & Hs & _ & Hf & Hfl & _).
  pose proof (fresh_slot r (wf_heap r Hwf) _ (mk_is_Some _ _ Hs)).
  pose proof (fresh_flag r (wf_heap r Hwf) _ (mk_is_Some _ _ Hfl)).
  rewrite retire_slots_ne, retire_flags_ne; simpl.
  - by rewrite !lookup_insert_eq.
  - intros s'. rewrite lookup_insert_ne, Hs by lia. intros [= <-]. rewrite Hf.
    intros [= ?]. lia.
  - lia.
Qed.

(** The watcher that is replaced is retired. *)
Lemma retire_old sl r :
  is_Some (slots r !! sl) →
  sl ∈ aborted (retire sl r) ∧
  ∃ s, slots (retire sl r) !! sl = Some s ∧ dead s = true ∧ cb s = None.
Proof.
  intros [s Hs]. split.
  - unfold retire. rewrite Hs. simpl. set_solver.
  - rewrite (retire_slots_eq _ _ s) by done. by eexists.
Qed.

Lemma install_old fd d mk r old :
  wf r → registered r fd d = Some old →
  old ∈ aborted (install fd d mk r).2 ∧
  ∃ s, slots (install fd d mk r).2 !! old = Some s ∧ dead s = true ∧ cb s = None.
Proof.
  intros Hwf Ho. destruct (install_spec mk r fd d) as (f & sl & r2 & Hnew & _ & ->).
  rewrite Ho. apply (retire_old old r2).
  destruct (wf_live r Hwf _ _ _ Ho) as (s & ? & Hs & _).
  unfold new_slot, new_flag in Hnew; simpl in Hnew. simplify_eq. simpl.
  pose proof (fresh_slot r (wf_heap r Hwf) _ (mk_is_Some _ _ Hs)).
  rewrite lookup_insert_ne by lia. by eexists.
Qed.

Lemma install_issued_new fd d mk r :
  (∀ f, flag (mk f) = Some f) → wf r →
  issued (install fd d mk r).2 (install fd d mk r).1.
Proof.
  intros Hmk Hwf. destruct (install_slot fd d mk r Hwf) as (Hsl & Hfl & ->).
  right. exists (S (next_id r)), (mk (next_id r)). cbn [h_fd h_is_read h_flag].
  by rewrite install_registered, decide_True.
Qed.

(** [cancel] on a handle that is not cancelled is the removal of that handle's
    own watcher: setting the flag first makes no difference to the result. *)
Lemma cancel_is_detach h r :
  issued r h → cancelled h r = false →
  cancel h r = (true, (detach_watcher (h_fd h) (h_is_read h) r).2).
Proof.
  unfold cancel. intros Hi Hc. rewrite Hc. unfold cancelled in Hc. f_equal.
  destruct Hi as [Ht|(sl & s & Hr & Hs & Hf & Hfl)]; [by rewrite Ht in Hc|].
  unfold detach_watcher; simpl. unfold registered in Hr.
  destruct (fds r !! h_fd h) as [rec|]; [|done]. simpl in Hr. rewrite Hr. simpl.
  unfold with_fds. f_equal; unfold retire; simpl; rewrite Hs; simpl; try done.
  rewrite Hf. simpl. by rewrite insert_insert_eq.
Qed.

Lemma cancel_done h r : cancelled h r = true → cancel h r = (false, r).
Proof. unfold cancel. by intros ->. Qed.

Lemma abort_all_issued r h : wf r → issued r h → flags (abort_all r) !! h_flag h = Some true.
Proof.
  intros Hwf [Ht|(sl & s & Hr & Hs & Hf & _)]; simpl.
  - by apply retire_all_flags_true.
  - eapply retire_all_flags; eauto using elem_of_all_slots.
Qed.
