(* ===== verification/ReactorProps.v ===== *)
(** * The fd reactor: reachable states and what its operations promise

    The reactor as a transition system (registrations, replacements, removals,
    cancellations of any handle given out so far, [close()], and the flags other
    parts of the loop draw from the same supply), the invariant of its reachable
    states, and the contracts of the operations. *)

From stdpp Require Import base tactics relations list gmap strings.
From S2P Require Import Prelude State Reactor.

(** ** The transition system *)

(** A state: the reactor and the handles given out. *)
Abbreviation rstate := (Reactor * list FdHandle)%type.

Inductive rstep : relation rstate :=
  | step_add fd d c r hs h r' :
      add_watcher fd d c r = (h, r') → rstep (r, hs) (r', h :: hs)
  | step_add_drain fd on_data on_err r hs h r' :
      add_drain_watcher fd on_data on_err r = (h, r') → rstep (r, hs) (r', h :: hs)
  | step_remove fd d r hs b r' :
      detach_watcher fd d r = (b, r') → rstep (r, hs) (r', hs)
  | step_cancel h r hs b r' :
      h ∈ hs → cancel h r = (b, r') → rstep (r, hs) (r', hs)
  | step_close r hs : rstep (r, hs) (abort_all r, hs)
  | step_flag f r hs r' : new_flag r = (f, r') → rstep (r, hs) (r', hs).

Definition reachable (s : rstate) : Prop := rtc rstep (empty_reactor, []) s.

Definition rinv (s : rstate) : Prop := wf s.1 ∧ ∀ h, h ∈ s.2 → issued s.1 h.

(** ** Preservation *)

Lemma empty_wf : wf empty_reactor.
Proof.
  split; [split|..]; unfold registered, empty_reactor; simpl; intros *;
    rewrite ?lookup_empty; try done; by intros [].
Qed.

Lemma new_flag_wf r : wf r → wf (new_flag r).2.
Proof.
  intros [[Hd Hs Hf Hsf] Hn Hl Hdist Hc]. split; [split|..]; simpl; try done.
  - intros sl ?%Hs. lia.
  - intros f. rewrite lookup_insert_is_Some. intros [<-|[_ ?%Hf]]; lia.
  - intros sl s f Hsl Hfl. rewrite lookup_insert_is_Some.
    destruct (decide (next_id r = f)); [by left|right]. split; [done|]. by eapply Hsf.
  - intros fd d sl Hr. destruct (Hl fd d sl Hr) as (s & f & H1 & H2 & H3 & H4 & H5).
    exists s, f. simpl. rewrite lookup_insert_ne; [by split_and!|].
    pose proof (Hf f (mk_is_Some _ _ H4)). lia.
Qed.

Lemma new_flag_issued r h : wf r → issued r h → issued (new_flag r).2 h.
Proof.
  intros Hwf Hi. assert (is_Some (flags r !! h_flag h)) as Hs
    by (destruct Hi as [Ht|(? & ? & _ & _ & _ & Hf)]; eexists; done).
  pose proof (fresh_flag r (wf_heap r Hwf) _ Hs).
  unfold issued; simpl. rewrite lookup_insert_ne by lia. exact Hi.
Qed.

Lemma cancel_issued_wf h r : wf r → issued r h → wf (cancel h r).2.
Proof.
  intros Hwf Hi. destruct (cancelled h r) eqn:Hc.
  - by rewrite cancel_done.
  - rewrite cancel_is_detach by done. by apply detach_wf.
Qed.

Lemma cancel_issued_other h h' r :
  wf r → issued r h → issued r h' → issued (cancel h r).2 h'.
Proof.
  intros Hwf Hi Hi'. destruct (cancelled h r) eqn:Hc.
  - by rewrite cancel_done.
  - rewrite cancel_is_detach by done. by apply detach_issued.
Qed.

Lemma install_rinv fd d mk r hs :
  (∀ f, flag (mk f) = Some f) → (∀ f, dead (mk f) = false) →
  (∀ f, is_Some (cb (mk f)) ∨ is_Some (drain (mk f))) →
  rinv (r, hs) → rinv ((install fd d mk r).2, (install fd d mk r).1 :: hs).
Proof.
  intros Hf Hd Ha [Hwf Hi]. split; [by apply install_wf|]. simpl in *.
  intros h [->|Hh]%elem_of_cons; [by apply install_issued_new|].
  apply install_issued_old; auto.
Qed.

Lemma rstep_rinv s s' : rstep s s' → rinv s → rinv s'.
Proof.
  destruct 1 as [fd d c r hs h r' H|fd od oe r hs h r' H|fd d r hs b r' H
                |h r hs b r' Hh H|r hs|f r hs r' H]; intros Hinv; pose proof Hinv as [Hwf Hi];
    cbn [fst snd] in *.
  - replace h with (add_watcher fd d c r).1 by (by rewrite H).
    replace r' with (add_watcher fd d c r).2 by (by rewrite H).
    apply install_rinv; try done. intros. left. by eexists.
  - replace h with (add_drain_watcher fd od oe r).1 by (by rewrite H).
    replace r' with (add_drain_watcher fd od oe r).2 by (by rewrite H).
    apply install_rinv; try done. intros. right. by eexists.
  - replace r' with (detach_watcher fd d r).2 by (by rewrite H).
    split; simpl; [by apply detach_wf|]. intros. by apply detach_issued; auto.
  - replace r' with (cancel h r).2 by (by rewrite H).
    split; simpl; [apply cancel_issued_wf; auto|]. intros. apply cancel_issued_other; auto.
  - split; simpl; [by apply abort_all_wf|]. intros h Hh. left. apply abort_all_issued; auto.
  - replace r' with (new_flag r).2 by (by rewrite H).
    split; simpl; [by apply new_flag_wf|]. intros. apply new_flag_issued; auto.
Qed.

Lemma reachable_rinv s : reachable s → rinv s.
Proof.
  unfold reachable. intros Hr. remember (empty_reactor, []) as s0.
  assert (rinv s0) as H0 by (subst; split; [apply empty_wf|]; intros h []%elem_of_nil).
  clear Heqs0. induction Hr; eauto using rstep_rinv.
Qed.

(** In a well-formed reactor a direction is polled just when it is registered. *)
Lemma wf_is_polling fd d r :
  wf r → is_polling fd d r = bool_decide (is_Some (registered r fd d)).
Proof.
  intros Hwf. unfold is_polling. destruct (registered r fd d) as [sl|] eqn:E; [|done].
  destruct (wf_live r Hwf _ _ _ E) as (s & f & -> & -> & _ & _ & Ha). simpl.
  destruct Ha as [[? ->]|[? ->]]; simpl; by rewrite ?orb_true_r.
Qed.

(** ** Contracts *)

(** C12: In every reachable state of the reactor: a direction is polled just
    when the table has a watcher for it; no watcher serves two directions; no
    fd without watchers is kept; the counter is the number of registered
    directions (modulo 2^64); and a handle that is not cancelled owns the
    watcher registered for its direction, which is alive. *)
Theorem reactor_invariant r hs :
  reachable (r, hs) →
  (∀ fd d, is_polling fd d r = true ↔ is_Some (registered r fd d)) ∧
  (∀ fd d fd' d' sl, registered r fd d = Some sl → registered r fd' d' = Some sl →
     fd = fd' ∧ d = d') ∧
  (∀ fd rec, fds r !! fd = Some rec → is_Some (reader rec) ∨ is_Some (writer rec)) ∧
  n_watchers r = u64 (Z.of_nat (watcher_count (fds r))) ∧
  (∀ h, h ∈ hs → cancelled h r = false →
     ∃ sl s, registered r (h_fd h) (h_is_read h) = Some sl ∧ slots r !! sl = Some s ∧
             flag s = Some (h_flag h) ∧ dead s = false).
Proof.
  intros [Hwf Hi]%reachable_rinv. simpl in *. split_and!.
  - intros fd d. rewrite wf_is_polling by done. by rewrite bool_decide_eq_true.
  - apply wf_distinct, Hwf.
  - intros fd rec Hrec. pose proof (wf_nonempty r Hwf fd rec Hrec) as Hn.
    destruct (reader rec), (writer rec); try (by left; eexists); try (by right; eexists).
    by destruct Hn.
  - apply Hwf.
  - intros h Hh Hc. unfold cancelled in Hc.
    destruct (Hi h Hh) as [Ht|(sl & s & Hr & Hs & Hf & _)]; [by rewrite Ht in Hc|].
    exists sl, s. split_and!; try done.
    destruct (wf_live r Hwf _ _ _ Hr) as (s' & ? & Hs' & ? & _). by simplify_eq.
Qed.

(** [_add_reader] and [_add_writer] on a reachable reactor register a new
    live watcher for the direction that runs the given callback, replacing the
    previous one, which is aborted, marked dead and its handle cancelled; every
    other direction keeps its watcher, and the handle returned is good. *)
Theorem add_watcher_contract fd d c r hs :
  reachable (r, hs) →
  let h := (add_watcher fd d c r).1 in
  let r' := (add_watcher fd d c r).2 in
  h_fd h = fd ∧ h_is_read h = d ∧ cancelled h r' = false ∧
  (∃ sl, registered r' fd d = Some sl ∧ registered r fd d ≠ Some sl ∧
     slots r' !! sl = Some (MkSlot (Some c) None None false (Some (h_flag h)))) ∧
  (∀ fd' d', ¬ (fd' = fd ∧ d' = d) → registered r' fd' d' = registered r fd' d') ∧
  (∀ old, registered r fd d = Some old →
     old ∈ aborted r' ∧ (∃ s, slots r' !! old = Some s ∧ dead s = true ∧ cb s = None) ∧
     ∀ h', h' ∈ hs → h_fd h' = fd → h_is_read h' = d → cancelled h' r' = true).
Proof.
  intros [Hwf Hi]%reachable_rinv. cbn [fst snd] in *. cbv zeta.
  set (mk := λ f, MkSlot (Some c) None None false (Some f)).
  change (add_watcher fd d c r) with (install fd d mk r).
  destruct (install_slot fd d mk r Hwf) as (Hsl & Hfl & Hh).
  pose proof (install_registered mk fd d r) as Hreg.
  pose proof (install_wf mk (λ _, eq_refl) (λ _, eq_refl)
    (λ f, or_introl (mk_is_Some _ _ eq_refl)) fd d r Hwf) as Hwf'.
  pose proof (install_old fd d mk r) as Hold.
  pose proof (λ h', install_issued_old fd d mk r h' Hwf) as Hiss.
  destruct (install fd d mk r) as [h r']. cbn [fst snd] in *. subst h. cbn [h_fd h_is_read h_flag].
  split_and!; try done.
  - unfold cancelled. cbn [h_flag]. by rewrite Hfl.
  - exists (S (next_id r)). rewrite Hreg, decide_True by done. split_and!; try done.
    intros Hr. destruct (wf_live r Hwf _ _ _ Hr) as (? & ? & Hs & _).
    pose proof (fresh_slot r (wf_heap r Hwf) _ (mk_is_Some _ _ Hs)). lia.
  - intros fd' d' Hne. rewrite Hreg, decide_False; [done|]. intros [-> ->]. by apply Hne.
  - intros old Ho. destruct (Hold old Hwf Ho) as [Hab Hs]. split_and!; try done.
    intros h' Hh' Hfd Hd. unfold cancelled.
    destruct (Hiss h' (Hi h' Hh')) as [->|(sl & s & Hr & Hs' & Hf & _)]; [done|].
    (* its own watcher would be the new one *)
    rewrite Hfd, Hd, Hreg, decide_True in Hr by done. simplify_eq.
    simpl in Hf. injection Hf as Hf.
    assert (is_Some (flags r !! h_flag h')) as Hsome
      by (destruct (Hi h' Hh') as [?|(?&?&_&_&_&?)]; by eexists).
    pose proof (fresh_flag r (wf_heap r Hwf) _ Hsome). lia.
Qed.

(** [_remove_reader] and [_remove_writer] answer whether there was a
    watcher; afterwards the direction has none, every handle for it is
    cancelled, the other directions are untouched, and the counter has gone
    down by one if there was one. *)
Theorem remove_watcher_contract fd d r hs :
  reachable (r, hs) →
  let b := (detach_watcher fd d r).1 in
  let r' := (detach_watcher fd d r).2 in
  b = bool_decide (is_Some (registered r fd d)) ∧
  registered r' fd d = None ∧ is_polling fd d r' = false ∧
  (∀ fd' d', ¬ (fd' = fd ∧ d' = d) → registered r' fd' d' = registered r fd' d') ∧
  (∀ h, h ∈ hs → h_fd h = fd → h_is_read h = d → cancelled h r' = true) ∧
  n_watchers r' = if b then u64 (n_watchers r - 1) else n_watchers r.
Proof.
  intros [Hwf Hi]%reachable_rinv. cbn [fst snd] in *. cbv zeta.
  assert (registered (detach_watcher fd d r).2 fd d = None) as Hnone
    by (rewrite detach_registered; by rewrite decide_True).
  split_and!.
  - apply detach_true.
  - done.
  - unfold is_polling. by rewrite Hnone.
  - intros fd' d' Hne. rewrite detach_registered, decide_False; [done|].
    intros [-> ->]. by apply Hne.
  - intros h Hh <- <-. unfold cancelled.
    destruct (detach_issued (h_fd h) (h_is_read h) r h Hwf (Hi h Hh)) as [->|(sl & s & Hr & _)];
      [done|congruence].
  - destruct (registered r fd d) as [sl|] eqn:E.
    + by rewrite (detach_some _ _ sl).
    + by rewrite detach_none.
Qed.

(** C13: [FdHandle.cancel], for any handle ever given out.  A handle that is
    already cancelled, its watcher replaced, removed or closed included, does
    nothing: in particular it never removes the watcher that took its place.
    Otherwise cancelling is exactly removing the handle's direction. *)
Theorem cancel_contract h r hs :
  reachable (r, hs) → h ∈ hs →
  cancel h r = if cancelled h r then (false, r)
               else (true, (detach_watcher (h_fd h) (h_is_read h) r).2).
Proof.
  intros [Hwf Hi]%reachable_rinv Hh. destruct (cancelled h r) eqn:Hc.
  - by apply cancel_done.
  - by apply cancel_is_detach; [apply Hi|].
Qed.

(** [close()] leaves a reactor without watchers: nothing is polled, the
    counter is zero, and every handle ever given out is cancelled. *)
Theorem close_contract r hs :
  reachable (r, hs) →
  (∀ fd d, is_polling fd d (abort_all r) = false) ∧
  n_watchers (abort_all r) = 0%Z ∧
  (∀ h, h ∈ hs → cancelled h (abort_all r) = true ∧ cancel h (abort_all r) = (false, abort_all r)).
Proof.
  intros [Hwf Hi]%reachable_rinv. cbn [fst snd] in *. split_and!.
  - intros fd d. unfold is_polling, abort_all. by rewrite registered_no_fds.
  - done.
  - intros h Hh. assert (cancelled h (abort_all r) = true) as Hc.
    { unfold cancelled. by rewrite (abort_all_issued r h) by auto. }
    split; [done|]. by apply cancel_done.
Qed.

(** ** Instances *)

(** A reader registered, replaced, and a writer: the first handle is stale. *)
Definition demo1 := add_watcher 7 true (CbUser 1) empty_reactor.
Definition demo2 := add_watcher 7 true (CbUser 2) demo1.2.
Definition demo3 := add_watcher 7 false (CbUser 3) demo2.2.
Definition demo : rstate := (demo3.2, [demo3.1; demo2.1; demo1.1]).

Lemma add_reachable fd d c r hs :
  reachable (r, hs) →
  reachable ((add_watcher fd d c r).2, (add_watcher fd d c r).1 :: hs).
Proof. intros Hr. eapply rtc_r; [exact Hr|]. eapply step_add, surjective_pairing. Qed.

Lemma demo_reachable : reachable demo.
Proof.
  apply (add_reachable 7 false (CbUser 3) demo2.2 [demo2.1; demo1.1]).
  apply (add_reachable 7 true (CbUser 2) demo1.2 [demo1.1]).
  apply (add_reachable 7 true (CbUser 1) empty_reactor []). apply rtc_refl.
Qed.

Lemma reactor_invariant_witness :
  n_watchers demo.1 = 2%Z ∧ is_polling 7 true demo.1 = true ∧
  (is_polling 7 true demo.1 = true ↔ is_Some (registered demo.1 7 true)).
Proof.
  split_and!; [reflexivity|reflexivity|].
  apply (reactor_invariant demo.1 demo.2 demo_reachable).
Defined.

Lemma add_watcher_contract_witness :
  registered demo.1 7 true = Some 3 ∧
  cancelled demo2.1 (add_watcher 7 true (CbUser 4) demo.1).2 = true.
Proof.
  split; [reflexivity|].
  destruct (add_watcher_contract 7 true (CbUser 4) demo.1 demo.2 demo_reachable)
    as (_ & _ & _ & _ & _ & H).
  destruct (H 3 eq_refl) as (_ & _ & Hh). apply Hh; [|reflexivity|reflexivity].
  right. left.
Defined.

Lemma remove_watcher_contract_witness :
  (detach_watcher 7 true demo.1).1 = true ∧
  n_watchers (detach_watcher 7 true demo.1).2 = u64 (n_watchers demo.1 - 1).
Proof.
  split; [reflexivity|].
  destruct (remove_watcher_contract 7 true demo.1 demo.2 demo_reachable)
    as (_ & _ & _ & _ & _ & H). exact H.
Defined.

Lemma cancel_contract_witness :
  cancelled demo1.1 demo.1 = true ∧ cancel demo1.1 demo.1 = (false, demo.1).
Proof.
  split; [reflexivity|].
  refine (cancel_contract demo1.1 demo.1 demo.2 demo_reachable _). right. right. left.
Defined.

Lemma close_contract_witness : n_watchers (abort_all demo.1) = 0%Z.
Proof. apply (close_contract demo.1 demo.2 demo_reachable). Defined.
