(* ===== verification/Env.v ===== *)
(** * What the program calls and does not contain

    The operating system's socket calls and the application's protocol
    objects are parameters of the development: a [Kernel] on an arbitrary type
    of environment states, and a [Protocol] whose methods may act on the whole
    world, the program's own state included (a callback may call back into the
    transport).  The calls that cross this boundary are recorded, in order, in
    a trace. *)

From Stdlib Require Import Strings.Byte.
From stdpp Require Import base tactics list gmap strings.
From S2P Require Import Prelude State.

(** ** Events *)

Inductive event :=
  (* system calls *)
  | EvSend (accepted : bytes)
  | EvSendto (data : bytes) (dest : option addr)
  | EvRecv (data : bytes)
  | EvShutdown
  | EvSockClose
  (* protocol callbacks, in the order they are entered *)
  | EvConnectionMade (p : proto)
  | EvDataReceived (p : proto) (data : bytes)
  | EvEofReceived (p : proto)
  | EvBufferUpdated (p : proto) (nbytes : nat)
  | EvDatagramReceived (p : proto) (data : bytes) (a : addr)
  | EvErrorReceived (p : proto) (e : exn)
  | EvPauseWriting (p : proto)
  | EvResumeWriting (p : proto)
  | EvConnectionLost (p : proto) (e : option exn)
  (* loop and server callbacks *)
  | EvExceptionHandler (e : exn)
  | EvWarning
  | EvAttach (server : nat)
  | EvDetach (server : nat).

#[export] Instance event_eq_dec : EqDecision event.
Proof. solve_decision. Defined.

(** The bytes of a stream socket the kernel has accepted. *)
Definition sent (tr : list event) : bytes :=
  concat (omap (λ ev, match ev with EvSend b => Some b | _ => None end) tr).

Lemma sent_app tr1 tr2 : sent (tr1 ++ tr2) = sent tr1 ++ sent tr2.
Proof. unfold sent. by rewrite omap_app, concat_app. Qed.

(** ** The kernel *)

Class Kernel (E : Type) := {
  (** [hasattr(socket.socket, "sendmsg")] with a readable [SC_IOV_MAX] *)
  HAS_SENDMSG : bool;
  SC_IOV_MAX : nat;
  k_send : Z → bytes → M E nat;
  k_sendmsg : Z → list bytes → M E nat;
  k_sendto : Z → bytes → option addr → M E nat;
  k_recv : Z → nat → M E bytes;
  k_recv_into : Z → nat → M E nat;
  k_recvfrom : Z → nat → M E (bytes * addr);
  k_recvfrom_into : Z → nat → M E (nat * addr);
  k_connect : Z → addr → M E unit;
  k_so_error : Z → M E Z;
  k_accept : Z → M E (Z * addr);
  k_shutdown : Z → M E unit;
  k_close : Z → M E unit;
  (** [dup(2)] and Tokio's [AsyncFd::new] on the copy *)
  k_dup : Z → M E unit;
  k_getsockname : Z → M E addr;
  k_getpeername : Z → M E addr;
}.

(** What POSIX promises about the calls that return a count. *)
Class KernelLaws (E : Type) `{!Kernel E} : Prop := {
  k_send_le fd data e n e' : k_send fd data e = (Ret n, e') → n ≤ length data;
  k_sendmsg_le fd bufs e n e' :
    k_sendmsg fd bufs e = (Ret n, e') → n ≤ length (concat bufs);
  k_recv_le fd n e data e' : k_recv fd n e = (Ret data, e') → length data ≤ n;
}.

(** ** The application's side *)

Class Protocol (W : Type) := {
  p_connection_made : proto → M W unit;
  p_data_received : proto → bytes → M W unit;
  p_eof_received : proto → M W bool;
  p_get_buffer : proto → M W nat;
  p_buffer_updated : proto → nat → M W unit;
  p_datagram_received : proto → bytes → addr → M W unit;
  p_error_received : proto → exn → M W unit;
  p_pause_writing : proto → M W unit;
  p_resume_writing : proto → M W unit;
  p_connection_lost : proto → option exn → M W unit;
  (** the handler behind [loop.call_exception_handler] *)
  p_exception_handler : exn → M W unit;
}.

(** [Obeys R]: every callback moves the world along [R].  Callbacks reach the
    program through its methods only, so this holds of any application for a
    preorder all methods move along. *)
Class Obeys {W : Type} `{!Protocol W} (R : relation W) : Prop := {
  ob_connection_made p : moves R (p_connection_made p);
  ob_data_received p d : moves R (p_data_received p d);
  ob_eof_received p : moves R (p_eof_received p);
  ob_get_buffer p : moves R (p_get_buffer p);
  ob_buffer_updated p n : moves R (p_buffer_updated p n);
  ob_datagram_received p d a : moves R (p_datagram_received p d a);
  ob_error_received p e : moves R (p_error_received p e);
  ob_pause_writing p : moves R (p_pause_writing p);
  ob_resume_writing p : moves R (p_resume_writing p);
  ob_connection_lost p e : moves R (p_connection_lost p e);
  ob_exception_handler e : moves R (p_exception_handler e);
}.

#[export] Hint Resolve ob_connection_made ob_data_received ob_eof_received ob_get_buffer
  ob_buffer_updated ob_datagram_received ob_error_received ob_pause_writing
  ob_resume_writing ob_connection_lost ob_exception_handler : moves.
#[export] Hint Extern 5 (Obeys _) => (typeclasses eauto) : moves.

Lemma obeys_weaken {W} `{!Protocol W} (R R' : relation W) :
  (∀ w w', R w w' → R' w w') → Obeys R → Obeys R'.
Proof.
  intros HR H. assert (∀ A (m : M W A), moves R m → moves R' m) as Hw
    by (intros A m Hm w; apply HR, Hm).
  split; intros; apply Hw; apply H.
Qed.

(** ** The parts every world has *)

Class HasLoop (W : Type) := has_loop :: Lens W LoopState.
Class HasEnv (W E : Type) := has_env :: Lens W E.
Class HasTrace (W : Type) := has_trace :: Lens W (list event).
#[global] Hint Mode HasEnv + - : typeclass_instances.

Section env.
Context {W E : Type} `{!HasLoop W} `{!HasEnv W E} `{!HasTrace W} `{!Kernel E}.

Definition log (ev : event) : M W unit :=
  modify (λ w, lset (lget (S:=list event) w ++ [ev]) w).

(** System calls as the program makes them. *)
Definition kernel {A} (m : M E A) : M W A := zoom m.

Definition sys_send (fd : Z) (data : bytes) : M W nat :=
  n ← kernel (k_send fd data); log (EvSend (take n data));; mret n.
Definition sys_sendmsg (fd : Z) (bufs : list bytes) : M W nat :=
  n ← kernel (k_sendmsg fd bufs); log (EvSend (take n (concat bufs)));; mret n.
Definition sys_sendto (fd : Z) (data : bytes) (dest : option addr) : M W nat :=
  n ← kernel (k_sendto fd data dest); log (EvSendto data dest);; mret n.
Definition sys_recv (fd : Z) (n : nat) : M W bytes :=
  data ← kernel (k_recv fd n); log (EvRecv data);; mret data.
Definition sys_shutdown (fd : Z) : M W unit :=
  log EvShutdown;; kernel (k_shutdown fd).
Definition sys_close (fd : Z) : M W unit :=
  log EvSockClose;; kernel (k_close fd).
End env.
