(* ===== verification/Loop.v ===== *)
(** * The loop as the Python layer sees it

    [call_soon], futures and fd registrations on [LoopState]
    (src/event_loop.rs), lifted to any world that contains a loop, and the
    public [add_reader] family of python/tokioop/loop.py with its transport
    check. *)

From Stdlib Require Import Strings.Byte.
From stdpp Require Import base tactics list gmap strings.
From S2P Require Import Prelude State Reactor Env.

(** ** On the loop state *)

Definition check_closed : M LoopState unit :=
  c ← gets closed;
  if (c : bool) then raise (RuntimeError "Event loop is closed") else mret tt.

Definition alloc_flag : M LoopState flag_id := λ s,
  let '(f, r) := new_flag (reactor s) in (Ret f, set_reactor r s).

(** [TokioopLoop.call_soon].  (In debug mode it also checks the calling thread
    and that the callback is callable; both hold for the calls modelled.) *)
Definition call_soon (cb : callback) : M LoopState flag_id :=
  check_closed;;
  f ← alloc_flag;
  modify (λ s, set_ready (ready s ++ [MkReady cb f]) s);;
  mret f.

(** [ReadyHandle.cancel]. *)
Definition cancel_ready (f : flag_id) : M LoopState bool := λ s,
  let r := reactor s in
  (Ret (negb (default false (flags r !! f))),
   set_reactor (MkReactor (fds r) (slots r) (<[f := true]> (flags r)) (aborted r)
                  (next_id r) (n_watchers r)) s).

(** *** Futures *)

Definition create_future : M LoopState fut_id :=
  check_closed;;
  f ← alloc_flag;
  modify (λ s, set_futs (<[f := MkFuture Pending []]> (futs s)) s);;
  mret f.

Definition fut_lookup (f : fut_id) (s : LoopState) : fut_state :=
  from_option f_state Cancelled (futs s !! f).

Definition fut_done (f : fut_id) (s : LoopState) : bool :=
  match fut_lookup f s with Pending => false | _ => true end.
Definition fut_cancelled (f : fut_id) (s : LoopState) : bool :=
  match fut_lookup f s with Cancelled => true | _ => false end.

Fixpoint schedule_callbacks (cbs : list callback) : M LoopState unit :=
  match cbs with
  | [] => mret tt
  | c :: cbs => call_soon c;; schedule_callbacks cbs
  end.

(** Complete a pending future: store the outcome, then schedule its
    callbacks. *)
Definition fut_finish (f : fut_id) (o : fut_state) : M LoopState unit := λ s,
  match futs s !! f with
  | Some (MkFuture Pending cbs) =>
      schedule_callbacks cbs (set_futs (<[f := MkFuture o []]> (futs s)) s)
  | _ => (Raise InvalidStateError, s)
  end.

Definition set_result (f : fut_id) (v : value) : M LoopState unit :=
  fut_finish f (Result v).
Definition set_exception (f : fut_id) (e : exn) : M LoopState unit :=
  fut_finish f (Exception e).

(** [futures._set_result_unless_cancelled]. *)
Definition set_result_unless_cancelled (f : fut_id) (v : value) : M LoopState unit :=
  c ← gets (fut_cancelled f);
  if (c : bool) then mret tt else set_result f v.

Definition fut_cancel (f : fut_id) : M LoopState bool :=
  d ← gets (fut_done f);
  if (d : bool) then mret false else fut_finish f Cancelled;; mret true.

Definition add_done_callback (f : fut_id) (cb : callback) : M LoopState unit := λ s,
  match futs s !! f with
  | Some (MkFuture Pending cbs) =>
      (Ret tt, set_futs (<[f := MkFuture Pending (cbs ++ [cb])]> (futs s)) s)
  | _ => (call_soon cb;; mret tt) s
  end.

(** *** fd watchers *)

Definition on_reactor {A} (f : Reactor → A * Reactor) : M LoopState A := λ s,
  let '(a, r) := f (reactor s) in (Ret a, set_reactor r s).

(** [TokioopLoop.remove_reader] and [remove_writer]. *)
Definition remove_watcher (is_read : bool) (fd : Z) : M LoopState bool :=
  c ← gets closed;
  if (c : bool) then mret false else on_reactor (detach_watcher fd is_read).

(** [TokioopLoop._is_polling]. *)
Definition _is_polling (fd : Z) (write : bool) (s : LoopState) : bool :=
  is_polling fd (negb write) (reactor s).

(** ** In a larger world *)

Section loop.
Context {W E : Type} `{!HasLoop W} `{!HasEnv W E} `{!HasTrace W} `{!Kernel E}.

Definition on_loop {A} (m : M LoopState A) : M W A := zoom m.
Definition loop_get {A} (f : LoopState → A) : M W A := gets (λ w, f (lget w)).

(** The checks and system calls [add_watcher] and [add_drain_watcher] start
    with. *)
Definition open_fd (fd : Z) : M W unit :=
  on_loop check_closed;;
  if decide (fd < 0)%Z
  then raise (ValueError "file descriptor cannot be negative")
  else kernel (k_dup fd).

(** [_add_reader], [_add_writer]: callback mode. *)
Definition _add_reader (fd : Z) (cb : callback) : M W FdHandle :=
  open_fd fd;; on_loop (on_reactor (add_watcher fd true cb)).
Definition _add_writer (fd : Z) (cb : callback) : M W FdHandle :=
  open_fd fd;; on_loop (on_reactor (add_watcher fd false cb)).
(** [_add_tcp_reader], [_add_udp_reader]: drain mode. *)
Definition _add_tcp_reader (fd : Z) (on_data on_err : callback) : M W FdHandle :=
  open_fd fd;; on_loop (on_reactor (add_drain_watcher fd on_data on_err)).
Definition _add_udp_reader (fd : Z) (on_data on_err : callback) : M W FdHandle :=
  open_fd fd;; on_loop (on_reactor (add_drain_watcher fd on_data on_err)).
Definition _remove_reader (fd : Z) : M W bool := on_loop (remove_watcher true fd).
Definition _remove_writer (fd : Z) : M W bool := on_loop (remove_watcher false fd).

Definition handle_cancelled (h : FdHandle) : M W bool :=
  loop_get (λ s, cancelled h (reactor s)).
(** [FdHandle.cancel]. *)
Definition handle_cancel (h : FdHandle) : M W bool :=
  on_loop (on_reactor (cancel h)).

(** ** The public methods of [RustEventLoop] *)

(** What callers pass as [fd]: an integer, or an object whose [fileno()]
    gives one ([None]: it raises or is missing). *)
Inductive fileobj :=
  | Fileno (n : Z)
  | FileObj (fileno : option Z).

(** [self._transports.get(fd)] and [.is_closing()] of what it returns. *)
Context (transport_is_closing : Z → W → option bool).

Definition _ensure_fd_no_transport (fd : fileobj) : M W Z :=
  fileno ← match fd with
           | Fileno n => mret n
           | FileObj (Some n) => mret n
           | FileObj None => raise (ValueError "Invalid file object")
           end;
  transport ← gets (transport_is_closing fileno);
  match transport with
  | Some false => raise (RuntimeError "File descriptor is used by transport")
  | _ => mret fileno
  end.

Definition add_reader (fd : fileobj) (cb : callback) : M W unit :=
  fileno ← _ensure_fd_no_transport fd; _add_reader fileno cb;; mret tt.
Definition remove_reader (fd : fileobj) : M W bool :=
  fileno ← _ensure_fd_no_transport fd; _remove_reader fileno.
Definition add_writer (fd : fileobj) (cb : callback) : M W unit :=
  fileno ← _ensure_fd_no_transport fd; _add_writer fileno cb;; mret tt.
Definition remove_writer (fd : fileobj) : M W bool :=
  fileno ← _ensure_fd_no_transport fd; _remove_writer fileno.
End loop.

(** ** On an open loop *)

Lemma check_closed_open s : closed s = false → check_closed s = (Ret tt, s).
Proof. intros Hc. unfold check_closed. by rewrite run_bind, run_gets, Hc. Qed.

(** A scheduled callback: a new flag, and its entry at the end of the queue. *)
Definition soon (c : callback) (s : LoopState) : LoopState :=
  set_ready (ready s ++ [MkReady c (next_id (reactor s))])
    (set_reactor (new_flag (reactor s)).2 s).

Lemma call_soon_open c s :
  closed s = false → call_soon c s = (Ret (next_id (reactor s)), soon c s).
Proof.
  intros Hc. unfold call_soon. rewrite run_bind, check_closed_open by done. by destruct s.
Qed.
