(* ===== verification/ErrorRouting.v ===== *)
(** * Where exceptions of callbacks go (src/src/event_loop.rs, lines 67-74, 178-222,
    341-346, 375-394, 673-721, 895-941 and 1021-1040)

    [report_callback_error] and the exception handler behind
    [call_exception_handler]; and the checks of debug mode before a callback is
    scheduled. *)

From stdpp Require Import base tactics list gmap strings.
From S2P Require Import Prelude State Env Loop.

(** ** The exception handler *)

(** The values of a context dictionary, as far as the program looks at them. *)
Inductive ctx_value := CtxStr (s : string) | CtxExn (e : exn) | CtxOther (n : nat).
Abbreviation context := (gmap string ctx_value).

(** Arguments of a call, and a Python function of as many positional parameters. *)
Inductive arg := ArgLoop | ArgContext (c : context).
Record pyfun (W : Type) := MkFun { arity : nat; body : list arg → M W unit }.
Arguments arity {W}.
Arguments body {W}.

(** Lines of standard error. *)
Inductive line :=
  | Message (m : string)
  | Traceback (e : exn)
  | Context_ (c : context)
  | HandlerFailed (e : exn)
  | DispatchFailed (e : exn).

(** [state.exc_handler], by name, as handlers may replace it; what was printed; and
    everything else. *)
Record routing (S : Type) := MkRouting {
  exc_handler : option nat;
  printed : list line;
  rest : S;
}.
Arguments MkRouting {S}.
Arguments exc_handler {S}.
Arguments printed {S}.
Arguments rest {S}.

Section routing.
Context {S : Type}.
Local Abbreviation W := (routing S).
(** Python functions by name; and [traceback.print_exception], which writes to
    [sys.stderr], an object of the application: it may fail. *)
Context (functions : nat → pyfun W) (print_exception : exn → M W unit).

Definition eprintln (l : list line) (w : W) : W := MkRouting (exc_handler w) (printed w ++ l) (rest w).

(** Calling a Python function with the wrong number of arguments raises. *)
Definition call_function (f : pyfun W) (args : list arg) : M W unit :=
  if decide (length args = arity f) then body f args
  else raise (TypeError "positional arguments").

Definition set_exception_handler (h : option nat) : M W unit :=
  modify (λ w, MkRouting h (printed w) (rest w)).
Definition get_exception_handler : M W (option nat) := gets exc_handler.

(** [default_exception_handler_impl]: a message that is no string and an exception
    that is none raise. *)
Definition default_exception_handler (c : context) : M W unit :=
  message ← match c !! "message" with
            | Some (CtxStr m) => mret m
            | Some _ => raise (TypeError "str")
            | None => mret "Unhandled exception in event loop"
            end;
  modify (eprintln [Message message]);;
  match c !! "exception" with
  | Some (CtxExn e) => print_exception e
  | Some _ => raise (TypeError "print_exception")
  | None => modify (eprintln [Context_ c])
  end.

(** [dispatch_exception_handler], which is [call_exception_handler]. *)
Definition dispatch_exception_handler (c : context) : M W unit :=
  h ← gets exc_handler;
  match h with
  | Some h =>
      try_except (call_function (functions h) [ArgContext c])
        (λ e, modify (eprintln [HandlerFailed e]))
  | None => default_exception_handler c
  end.

Definition error_context (e : exn) (message : string) : context :=
  <["exception" := CtxExn e]> {["message" := CtxStr message]}.

Definition report_callback_error (e : exn) (message : string) : M W unit :=
  try_except (dispatch_exception_handler (error_context e message))
    (λ e, modify (eprintln [DispatchFailed e])).

Lemma error_context_lookups e message :
  error_context e message !! "message" = Some (CtxStr message) ∧
  error_context e message !! "exception" = Some (CtxExn e).
Proof. by split. Qed.
Lemma default_on_error e message (w : W) :
  default_exception_handler (error_context e message) w =
    print_exception e (eprintln [Message message] w).
Proof.
  destruct (error_context_lookups e message) as [Hm He].
  unfold default_exception_handler. by rewrite Hm, He.
Qed.

(** C39: Reporting an exception.  Whatever handler is installed and whatever it
    does, [report_callback_error] returns: a handler is called once, with a context
    that has the message and the exception, and its own exception costs one line of
    standard error; without a handler the message is printed and then the
    traceback, and if printing that fails its error costs one line.
    The call has one argument: a handler with asyncio's two parameters, the loop and
    the context, is never run, and of the exception reported nothing is kept. *)
Theorem report_callback_error_outcome e message (w : W) :
  let c := error_context e message in
  let out := report_callback_error e message w in
  c !! "message" = Some (CtxStr message) ∧ c !! "exception" = Some (CtxExn e) ∧ out.1 = Ret tt ∧
  match exc_handler w with
  | None =>
      let printing := print_exception e (eprintln [Message message] w) in
      out.2 = match printing.1 with
              | Ret _ => printing.2
              | Raise x => eprintln [DispatchFailed x] printing.2
              end ∧
      (printing = (Ret tt, eprintln [Traceback e] (eprintln [Message message] w)) →
       out.2 = eprintln [Message message; Traceback e] w)
  | Some h =>
      let called := call_function (functions h) [ArgContext c] w in
      out.2 = match called.1 with
              | Ret _ => called.2
              | Raise x => eprintln [HandlerFailed x] called.2
              end ∧
      (arity (functions h) = 2 →
       out.2 = eprintln [HandlerFailed (TypeError "positional arguments")] w)
  end.
Proof.
  cbv zeta. unfold report_callback_error, dispatch_exception_handler, try_except, try_else.
  rewrite run_bind, run_gets. destruct (error_context_lookups e message). split_and!; [done..| |];
    destruct (exc_handler w) as [h|]; rewrite ?default_on_error; unfold call_function.
  - case_decide; [|done]. by destruct (body _ _ w) as [[[]|x] w'].
  - by destruct (print_exception e _) as [[[]|x] w'].
  - split; [|intros Ha; by rewrite decide_False by (rewrite Ha; cbn; lia)].
    case_decide; [|done]. by destruct (body _ _ w) as [[[]|x] w'].
  - split; [by destruct (print_exception e _) as [[[]|x] w']|]. intros ->. cbn [snd].
    unfold eprintln. cbn. by rewrite <- app_assoc.
Qed.
End routing.

(** ** The checks of debug mode *)

(** What is passed as a callback. *)
Inductive pyobj := PyCoroutine | PyNotCallable | PyCallable (c : callback).

Section checks.
Context {W : Type} `{!HasLoop W}.

(** [state.thread_id], negative while the loop does not run, and the caller's thread;
    the entry an object makes, callable or not; waking the loop. *)
Context (thread_id get_ident : W → Z) (entry_of : pyobj → callback) (notify_one : M W unit).

Definition check_thread : M W unit :=
  tid ← gets thread_id;
  if decide (tid < 0)%Z then mret tt else
  cur ← gets get_ident;
  if decide (cur ≠ tid) then
    raise (RuntimeError
      "Non-thread-safe operation invoked on an event loop other than the current one")
  else mret tt.

Definition check_callback (cb : pyobj) : M W unit :=
  match cb with
  | PyCoroutine => raise (TypeError "coroutines cannot be used")
  | PyNotCallable => raise (TypeError "a callable object was expected")
  | PyCallable _ => mret tt
  end.

(** [TokioopLoop.call_soon] and [call_soon_threadsafe], checks included. *)
Definition checked_call_soon (cb : pyobj) : M W flag_id :=
  on_loop check_closed;;
  d ← loop_get debug;
  when_ d (check_thread;; check_callback cb);;
  on_loop (call_soon (entry_of cb)).
Definition checked_call_soon_threadsafe (cb : pyobj) : M W flag_id :=
  on_loop check_closed;;
  d ← loop_get debug;
  when_ d (check_callback cb);;
  f ← on_loop (call_soon (entry_of cb));
  notify_one;;
  mret f.

(** Who may schedule: outside debug mode everyone; in debug mode the loop's thread,
    or any thread through the second method, and only callables. *)
Definition may_schedule (cb : pyobj) (safe : bool) (w : W) : Prop :=
  debug (lget w) = false ∨
  (∃ c, cb = PyCallable c) ∧ (safe = true ∨ thread_id w < 0 ∨ thread_id w = get_ident w)%Z.

Context `{!LensLaws W LoopState}.
Lemma check_closed_view (w : W) :
  closed (lget w) = false → on_loop check_closed w = (Ret tt, w).
Proof.
  intros Hc. unfold on_loop, zoom, check_closed. rewrite run_bind, run_gets, Hc. cbn.
  by rewrite lset_lget.
Qed.
Lemma checked_call_soon_spec cb (w : W) :
  closed (lget w) = false →
  (may_schedule cb false w → checked_call_soon cb w = on_loop (call_soon (entry_of cb)) w) ∧
  (¬ may_schedule cb false w → ∃ x, checked_call_soon cb w = (Raise x, w)).
Proof.
  intros Hc. unfold checked_call_soon, may_schedule. rewrite run_bind, check_closed_view by done.
  rewrite run_bind. unfold loop_get. rewrite run_gets.
  destruct (debug (lget w)); cbn [when_]; [|split; [done|by intros []; left]].
  rewrite run_bind, run_bind. unfold check_thread. rewrite run_bind, run_gets.
  case_decide as Ht; [|rewrite run_bind, run_gets; case_decide as Hi]; cbv beta iota;
    rewrite ?run_ret, ?run_raise; (split; [intros [?|[[c ->] Hs]]; [done|]|intros Hn]);
    try done; try (by destruct Hs as [?|[?|?]]); try (by eexists).
  all: destruct cb as [| |c]; [by eexists..|]; destruct Hn; right; split; [by eexists|auto].
Qed.
End checks.

(** ** An instance *)

(** A handler of one parameter that counts its calls and then fails, and one with
    asyncio's parameters. *)
Definition demo_functions (n : nat) : pyfun (routing nat) :=
  match n with
  | 0 => MkFun _ 1 (λ _, modify (λ w, MkRouting (exc_handler w) (printed w) (S (rest w)));;
                         raise (UserError 1))
  | _ => MkFun _ 2 (λ _, modify (λ w, MkRouting (exc_handler w) (printed w) (S (rest w))))
  end.
(** A standard error that is closed for the traceback of exception 5. *)
Definition demo_print (e : exn) : M (routing nat) unit :=
  match e with
  | UserError 5 => raise (ValueError "I/O operation on closed file.")
  | _ => modify (eprintln [Traceback e])
  end.
Abbreviation report_demo e h :=
  (report_callback_error demo_functions demo_print e "Exception in callback" (MkRouting h [] 0)).
Abbreviation reported_to h := (report_demo (UserError 0) (Some h)).
Lemma report_callback_error_outcome_witness :
  reported_to 0 = (Ret tt, MkRouting (Some 0) [HandlerFailed (UserError 1)] 1) ∧
  (report_demo (UserError 5) None).2 = MkRouting None
    [Message "Exception in callback"; DispatchFailed (ValueError "I/O operation on closed file.")] 0 ∧
  (report_demo (UserError 3) None).2 = MkRouting None
    [Message "Exception in callback"; Traceback (UserError 3)] 0 ∧
  (reported_to 1).2 = MkRouting (Some 1) [HandlerFailed (TypeError "positional arguments")] 0.
Proof.
  do 2 (split; [vm_compute; reflexivity|]). split.
  { destruct (report_callback_error_outcome demo_functions demo_print (UserError 3)
      "Exception in callback" (MkRouting None [] 0)) as (_ & _ & _ & _ & H).
    exact (H eq_refl). }
  destruct (report_callback_error_outcome demo_functions demo_print (UserError 0) "Exception in callback"
    (MkRouting (Some 1) [] 0)) as (_ & _ & _ & _ & H).
  rewrite H by reflexivity. reflexivity.
Defined.
