(* ===== verification/Contexts.v ===== *)
(** * Context variables, and tasks (src/src/event_loop.rs, lines 47-69 and 753-786)

    The context a callback runs in, on contexts as the interpreter keeps them: maps
    from variables to values, of which one at a time is current in a thread.
    [create_task] hands the context on to the task. *)

From stdpp Require Import base tactics list gmap strings.
From S2P Require Import Prelude State Env Loop.

(** ** Contexts *)

Abbreviation ctx := nat.
Abbreviation var := nat.
Abbreviation vars := (gmap var nat).

(** The contexts of the thread, and those entered, the current one first. *)
Record contexts := MkContexts {
  values : gmap ctx vars;
  entered : list ctx;
}.
Abbreviation W := contexts.

Definition current (w : W) : ctx := default 0 (head (entered w)).
Definition set_entered (l : list ctx) (w : W) : W := MkContexts (values w) l.

(** [contextvars.Context.run] *)
Definition context_run (c : ctx) (m : M W unit) : M W unit :=
  l ← gets entered;
  if decide (c ∈ l) then raise (RuntimeError "cannot enter context: already entered")
  else
    modify (set_entered (c :: l));;
    try_finally m (modify (set_entered l)).

(** What a callback does with its variables: [ContextVar.set], [ContextVar.get],
    [Context.run], and an exception. *)
Inductive body :=
  | Return
  | SetVar (v : var) (x : nat) (k : body)
  | GetVar (v : var) (k : option nat → body)
  | RunIn (c : ctx) (b k : body)
  | Fail_ (e : exn).

Definition var_set (v : var) (x : nat) (w : W) : W :=
  MkContexts (alter <[v := x]> (current w) (values w)) (entered w).
Definition var_get (v : var) (w : W) : option nat := values w !! current w ≫= lookup v.

Fixpoint exec (b : body) : M W unit :=
  match b with
  | Return => mret tt
  | SetVar v x k => modify (var_set v x);; exec k
  | GetVar v k => x ← gets (var_get v); exec (k x)
  | RunIn c b k => context_run c (exec b);; exec k
  | Fail_ e => raise e
  end.

(** [invoke_entry]: without a context the callback is called as it is. *)
Definition invoke_entry (c : option ctx) (b : body) : M W unit :=
  match c with
  | None => exec b
  | Some c => context_run c (exec b)
  end.

(** A batch of callbacks, the errors going to the exception handler. *)
Fixpoint invoke_all (l : list (option ctx * body)) : M W unit :=
  match l with
  | [] => mret tt
  | (c, b) :: l => try_except (invoke_entry c b) (λ _, mret tt);; invoke_all l
  end.

(** ** Tasks *)

Section tasks.
Context {S : Type} `{!HasLoop S}.

(** Values of keyword arguments; the class [Task] and the calls of a task factory and
    of [set_name], which may do anything. *)
Inductive value := VNone | VLoop | VName (n : string) | VContext (c : ctx) | VOther (n : nat).
Abbreviation kwargs := (gmap string value).
Definition opt_value {A} (f : A → value) (o : option A) : value := from_option f VNone o.
Context (task_cls : nat → kwargs → M S nat) (call_factory : nat → nat → kwargs → M S nat).
Context (set_name : nat → string → M S unit) (_task_factory : S → option nat).

Definition create_task (coro : nat) (name : option string) (c : option ctx) (kw : kwargs) :
    M S nat :=
  on_loop check_closed;;
  factory ← gets _task_factory;
  match factory with
  | Some f =>
      task ← call_factory f coro
               (match c with Some c => <["context" := VContext c]> kw | None => kw end);
      match name with Some n => set_name task n | None => mret tt end;;
      mret task
  | None =>
      task_cls coro (<["context" := opt_value VContext c]>
                     (<["name" := opt_value VName name]> (<["loop" := VLoop]> kw)))
  end.
End tasks.

(** ** Properties *)

(** A context is left again, whatever is raised inside it. *)
Lemma exec_entered b (w : W) : entered (exec b w).2 = entered w.
Proof.
  revert w. induction b as [|v x k IH|v k IH|c b IHb k IHk|e]; intros w; cbn [exec].
  - done.
  - rewrite run_bind, run_modify. cbv beta iota. by rewrite IH.
  - rewrite run_bind, run_gets. cbv beta iota. apply IH.
  - rewrite run_bind. unfold context_run. rewrite run_bind, run_gets.
    destruct (decide (c ∈ entered w)); [done|]. rewrite run_bind, run_modify. cbv beta iota.
    unfold try_finally. destruct (exec b _) as [[[]|x] w1]; rewrite run_modify; cbv beta iota;
      [|done]. by rewrite IHk.
  - done.
Qed.

(** Callbacks that enter no further contexts; what they do to one map. *)
Fixpoint flat (b : body) : Prop :=
  match b with
  | Return | Fail_ _ => True
  | SetVar _ _ k => flat k
  | GetVar _ k => ∀ x, flat (k x)
  | RunIn _ _ _ => False
  end.
Fixpoint writes (b : body) (m : vars) : vars :=
  match b with
  | SetVar v x k => writes k (<[v := x]> m)
  | GetVar v k => writes (k (m !! v)) m
  | _ => m
  end.

Lemma exec_values b (w : W) m :
  flat b → values w !! current w = Some m →
  values (exec b w).2 = <[current w := writes b m]> (values w).
Proof.
  revert w m. induction b as [|v x k IH|v k IH|c b IHb k IHk|e]; intros w m Hb Hm; cbn [exec writes].
  - by rewrite insert_id.
  - rewrite run_bind, run_modify. cbv beta iota.
    assert (values (var_set v x w) = <[current w := <[v := x]> m]> (values w)) as Hv.
    { unfold var_set. cbn. apply map_eq. intros c. destruct (decide (c = current w)) as [->|Hne].
      - by rewrite lookup_alter_eq, lookup_insert_eq, Hm.
      - by rewrite lookup_alter_ne, lookup_insert_ne. }
    rewrite (IH _ (<[v := x]> m)); [|done|].
    + change (current (var_set v x w)) with (current w). by rewrite Hv, insert_insert_eq.
    + change (current (var_set v x w)) with (current w). by rewrite Hv, lookup_insert_eq.
  - rewrite run_bind, run_gets. cbv beta iota. unfold var_get. rewrite Hm. cbn. by apply IH.
  - done.
  - by rewrite insert_id.
Qed.

(** Where the callback of an entry runs; nowhere if its context is entered already. *)
Definition target (w : W) (c : option ctx) : option ctx :=
  match c with
  | None => Some (current w)
  | Some c => if decide (c ∈ entered w) then None else Some c
  end.
Definition in_context (c : ctx) (w : W) (l : list (option ctx * body)) : list body :=
  snd <$> filter (λ e, target w e.1 = Some c) l.

Lemma context_run_entered c m (w : W) : c ∈ entered w → (context_run c m w).2 = w.
Proof. intros Hc. unfold context_run. rewrite run_bind, run_gets. by rewrite decide_True. Qed.
Lemma context_run_fresh c m (w : W) :
  c ∉ entered w →
  (context_run c m w).2 = set_entered (entered w) (m (set_entered (c :: entered w) w)).2.
Proof.
  intros Hc. unfold context_run. rewrite run_bind, run_gets, decide_False by done.
  rewrite run_bind, run_modify. cbv beta iota. unfold try_finally.
  by destruct (m _) as [r w1].
Qed.

Lemma invoke_entry_spec c b (w : W) :
  flat b → (∀ d, target w c = Some d → is_Some (values w !! d)) →
  entered (invoke_entry c b w).2 = entered w ∧
  values (invoke_entry c b w).2 =
    match target w c with
    | Some d => alter (writes b) d (values w)
    | None => values w
    end.
Proof.
  assert (∀ (X : gmap ctx vars) d m, X !! d = Some m → <[d := writes b m]> X = alter (writes b) d X)
    as Halter.
  { intros X d m Hm. apply map_eq. intros c'. destruct (decide (c' = d)) as [->|Hne].
    - by rewrite lookup_insert_eq, lookup_alter_eq, Hm.
    - by rewrite lookup_insert_ne, lookup_alter_ne. }
  intros Hb Hd. destruct c as [c|]; cbn [invoke_entry target] in *.
  - destruct (decide (c ∈ entered w)) as [Hin|Hin].
    { by rewrite context_run_entered. }
    rewrite context_run_fresh by done. split; [done|].
    destruct (Hd c eq_refl) as [m Hm]. cbn [values set_entered].
    rewrite (exec_values b _ m Hb) by done. by apply Halter.
  - split; [apply exec_entered|]. destruct (Hd _ eq_refl) as [m Hm].
    rewrite (exec_values b w m Hb Hm). by apply Halter.
Qed.

(** Contexts are separate stores.  After a batch of callbacks the context current in
    the thread is the one it was, and every context holds what the callbacks that
    run in it wrote, in order, whatever the others do and whoever raises.  The
    callbacks scheduled without a context all run in the one current when the loop
    was started. *)
Lemma contexts_separate l (w : W) c m :
  Forall (λ e, flat e.2) l → (∀ e d, e ∈ l → target w e.1 = Some d → is_Some (values w !! d)) →
  values w !! c = Some m →
  let w' := (invoke_all l w).2 in
  entered w' = entered w ∧
  values w' !! c = Some (foldl (λ m b, writes b m) m (in_context c w l)).
Proof.
  revert w m. induction l as [|[o b] l IH]; intros w m Hf Ht Hm; [done|].
  apply Forall_cons in Hf as [Hb Hf]. cbn [invoke_all]. cbv zeta. rewrite run_bind.
  destruct (invoke_entry_spec o b w Hb) as [He Hv].
  { intros d Hd. apply (Ht (o, b) d); [by left|done]. }
  assert (try_except (invoke_entry o b) (λ _, mret tt) w = (Ret tt, (invoke_entry o b w).2)) as ->
    by (unfold try_except, try_else; by destruct (invoke_entry o b w) as [[[]|x] w1]).
  cbv beta iota. set (w1 := (invoke_entry o b w).2) in *.
  assert (∀ e, target w1 e = target w e) as Htw by (intros e; unfold target, current; by rewrite He).
  set (m1 := if decide (target w o = Some c) then writes b m else m).
  assert (values w1 !! c = Some m1) as Hm1.
  { unfold m1. rewrite Hv. destruct (target w o) as [d|]; [|done]. case_decide as Hd.
    - injection Hd as ->. by rewrite lookup_alter_eq, Hm.
    - by rewrite lookup_alter_ne by congruence. }
  destruct (IH w1 m1 Hf) as [He' Hv']; [|done|].
  { intros e d Hin Hd. rewrite Htw in Hd. destruct (Ht e d) as [m' Hm']; [by right|done|].
    rewrite Hv. destruct (target w o) as [d'|]; [|by eexists].
    destruct (decide (d' = d)) as [->|Hne]; [rewrite lookup_alter_eq, Hm'|rewrite lookup_alter_ne by done];
      by eexists. }
  split; [by rewrite He', He|]. rewrite Hv'. f_equal.
  assert (in_context c w1 l = in_context c w l) as ->.
  { unfold in_context. f_equal. apply list_filter_iff. intros e. by rewrite Htw. }
  unfold in_context, m1. rewrite filter_cons. cbn [fst]. by case_decide.
Qed.

(** ** Instances *)

(** A context [1] besides the one the loop was started in, [0].  A callback running
    in [1] sets a variable and schedules two more: with its context, and without. *)
Definition two_contexts : contexts := MkContexts {[0 := ∅; 1 := ∅]} [0].
Definition reads : body := GetVar 5 (λ x, SetVar 6 (default 0 x) Return).
Lemma contexts_separate_instance :
  let w := (invoke_all [(Some 1, SetVar 5 7 (Fail_ KeyboardInterrupt)); (Some 1, reads); (None, reads)]
              two_contexts).2 in
  entered w = [0] ∧ values w !! 1 ≫= lookup 6 = Some 7 ∧ values w !! 0 ≫= lookup 6 = Some 0.
Proof. vm_compute. split_and!; reflexivity. Qed.

(** What a callback without a context sets, the next one sees, and so does the
    program after [run_forever]; [copy_context] at the time of scheduling would keep
    them apart. *)
Lemma unset_context_leaks v x (w : W) m :
  values w !! current w = Some m →
  var_get v (invoke_entry None (SetVar v x Return) w).2 = Some x.
Proof.
  intros Hm. change (alter <[v := x]> (current w) (values w) !! current w ≫= lookup v = Some x).
  rewrite lookup_alter_eq, Hm. cbn. by rewrite lookup_insert_eq.
Qed.

(** [create_task] passes on all it was given; a task factory is not told the name,
    which is set afterwards. *)
Lemma create_task_factory {S} `{!HasLoop S, !LensLaws S LoopState} task_cls call_factory set_name factory coro name c kw f
    t (s s1 : S) :
  closed (lget s) = false → factory s = Some f →
  call_factory f coro (match c with Some c => <["context" := VContext c]> kw | None => kw end) s =
    (Ret t, s1) →
  create_task task_cls call_factory set_name factory coro name c kw s =
    match name with
    | Some n => match set_name t n s1 with (Ret _, s2) => (Ret t, s2) | (Raise e, s2) => (Raise e, s2) end
    | None => (Ret t, s1)
    end.
Proof.
  intros Hc Hf Hcall. unfold create_task. rewrite run_bind.
  assert (on_loop check_closed s = (Ret tt, s)) as ->.
  { unfold on_loop, zoom. rewrite check_closed_open by done. by rewrite lset_lget. }
  cbv beta iota. rewrite run_bind, run_gets, Hf. rewrite run_bind, Hcall. rewrite run_bind.
  destruct name as [n|]; [|done]. by destruct (set_name t n s1) as [[]].
Qed.
