(* ===== verification/AsyncGens.v ===== *)
(** * Asynchronous generators (loop.py, lines 151-174; src/src/event_loop.rs, lines
    966-1002)

    The hooks the running loop installs in the interpreter keep the set of the
    generators being iterated; [shutdown_asyncgens] closes them all. *)

From stdpp Require Import base tactics list gmap strings.
From S2P Require Import Prelude State Env Loop.

Abbreviation agen := nat.

(** The loop; [_asyncgens] and [_asyncgens_shutdown_called]; the generators whose
    errors went to the exception handler; and everything else. *)
Record agens (S : Type) := MkAgens {
  a_loop : LoopState;
  a_set : gset agen;
  a_shutdown : bool;
  a_reported : list (agen * exn);
  a_rest : S;
}.
Arguments MkAgens {S}.
Arguments a_loop {S}.
Arguments a_set {S}.
Arguments a_shutdown {S}.
Arguments a_reported {S}.
Arguments a_rest {S}.

#[export] Instance agens_loop {S} : HasLoop (agens S) := {|
  lget := a_loop;
  lset l w := MkAgens l (a_set w) (a_shutdown w) (a_reported w) (a_rest w);
|}.

(** [isinstance(e, Exception)] *)
Definition is_Exception (e : exn) : bool :=
  match e with SystemExit | KeyboardInterrupt | CancelledError => false | _ => true end.

Section agens.
Context {S : Type}.
Local Abbreviation W := (agens S).

Definition set_agens (X : gset agen) (w : W) : W :=
  MkAgens (a_loop w) X (a_shutdown w) (a_reported w) (a_rest w).
Definition set_shutdown (w : W) : W :=
  MkAgens (a_loop w) (a_set w) true (a_reported w) (a_rest w).

(** [warnings.warn], which raises if warnings are errors; waking the loop; the
    callback [create_task(agen.aclose())]; the order in which a weak set is listed;
    and [gather(..., return_exceptions=True)] of the generators' [aclose()], with
    what runs meanwhile: it gives one result each, or is itself cancelled. *)
Context (warn : agen → M S unit) (notify_one : M S unit) (close_task : agen → callback).
Context (listing : gset agen → list agen) (gather_aclose : list agen → M W (list (option exn))).

Definition on_rest (m : M S unit) : M W unit := λ w,
  let '(r, s) := m (a_rest w) in
  (r, MkAgens (a_loop w) (a_set w) (a_shutdown w) (a_reported w) s).

Definition _asyncgen_firstiter_hook (g : agen) : M W unit :=
  s ← gets a_shutdown;
  when_ s (on_rest (warn g));;
  modify (λ w, set_agens ({[g]} ∪ a_set w) w).

Definition _asyncgen_finalizer_hook (g : agen) : M W unit :=
  modify (λ w, set_agens (a_set w ∖ {[g]}) w);;
  c ← loop_get closed;
  if (c : bool) then mret tt else
  on_loop (call_soon (close_task g));;
  on_rest notify_one.

(** [call_exception_handler({..., "exception": result, "asyncgen": agen})] *)
Definition report_agen (g : agen) (e : exn) : M W unit :=
  modify (λ w, MkAgens (a_loop w) (a_set w) (a_shutdown w) (a_reported w ++ [(g, e)]) (a_rest w)).

Fixpoint report_results (l : list (option exn * agen)) : M W unit :=
  match l with
  | [] => mret tt
  | (result, g) :: l =>
      match result with
      | Some e => when_ (is_Exception e) (report_agen g e)
      | None => mret tt
      end;;
      report_results l
  end.

Definition shutdown_asyncgens : M W unit :=
  modify set_shutdown;;
  X ← gets a_set;
  if decide (size X = 0) then mret tt else
  let closing := listing X in
  modify (set_agens ∅);;
  results ← gather_aclose closing;
  report_results (zip results closing).

(** ** Properties *)

Class AgenLaws : Prop := {
  al_listing X : listing X ≡ₚ elements X;
  (** the warning and the wake-up do not fail *)
  al_warn g s : ∃ s', warn g s = (Ret tt, s');
  al_notify s : ∃ s', notify_one s = (Ret tt, s');
}.
Context `{!AgenLaws}.

(** What the interpreter does: a generator is iterated for the first time, or is
    collected before its end. *)
Inductive hook := FirstIter (g : agen) | Finalize (g : agen).
Definition run_hook (h : hook) : M W unit :=
  match h with
  | FirstIter g => _asyncgen_firstiter_hook g
  | Finalize g => _asyncgen_finalizer_hook g
  end.
Definition hook_agen (h : hook) : agen := match h with FirstIter g | Finalize g => g end.
Definition run_hooks (hs : list hook) (w : W) : W := foldl (λ w h, (run_hook h w).2) w hs.

(** Being iterated: the last hook of the generator was its first iteration. *)
Definition iterating (g : agen) (hs : list hook) : Prop :=
  last (filter (λ h, hook_agen h = g) hs) = Some (FirstIter g).

Lemma run_hook_set h (w : W) :
  a_set (run_hook h w).2 =
    match h with FirstIter g => {[g]} ∪ a_set w | Finalize g => a_set w ∖ {[g]} end.
Proof.
  destruct h as [g|g]; cbn [run_hook].
  - unfold _asyncgen_firstiter_hook. rewrite run_bind, run_gets. destruct (a_shutdown w); cbn [when_].
    + rewrite run_bind. unfold on_rest. destruct (al_warn g (a_rest w)) as [s' ->]. done.
    + done.
  - unfold _asyncgen_finalizer_hook. rewrite run_bind, run_modify. cbv beta iota.
    rewrite run_bind. unfold loop_get. rewrite run_gets.
    set (w1 := set_agens _ w). destruct (closed (lget w1)); [done|].
    rewrite run_bind. unfold on_loop, zoom. destruct (call_soon _ (lget w1)) as [[f|e] l]; [|done].
    unfold on_rest. by destruct (notify_one _) as [r s].
Qed.

Lemma run_hooks_set hs (w : W) g :
  a_set w = ∅ → g ∈ a_set (run_hooks hs w) ↔ iterating g hs.
Proof.
  intros Hw. unfold run_hooks, iterating. induction hs as [|h hs IH] using rev_ind.
  { cbn. rewrite Hw. split; [set_solver|done]. }
  rewrite foldl_app, filter_app. cbn [foldl]. rewrite run_hook_set, filter_cons, filter_nil.
  destruct (decide (hook_agen h = g)) as [<-|Hn].
  - rewrite last_snoc. clear IH. destruct h as [g|g]; cbn; set_solver.
  - rewrite app_nil_r, <- IH. clear IH. destruct h as [g'|g']; cbn in Hn; set_solver.
Qed.

(** The errors that go to the exception handler. *)
Definition errors (results : list (option exn)) (closing : list agen) : list (agen * exn) :=
  omap (λ p : option exn * agen,
    match p.1 with Some e => if is_Exception e then Some (p.2, e) else None | None => None end)
    (zip results closing).
Definition add_reported (l : list (agen * exn)) (w : W) : W :=
  MkAgens (a_loop w) (a_set w) (a_shutdown w) (a_reported w ++ l) (a_rest w).

Lemma report_results_run rs closing (w : W) :
  report_results (zip rs closing) w = (Ret tt, add_reported (errors rs closing) w).
Proof.
  unfold errors. revert w. induction (zip rs closing) as [|[[e|] g] l IH]; intros w; cbn [report_results].
  - unfold add_reported. cbn. rewrite app_nil_r. by destruct w.
  - cbn [omap list_omap fst snd]. destruct (is_Exception e); cbn [when_]; rewrite run_bind; [|apply IH].
    unfold report_agen. rewrite run_modify. cbv beta iota. rewrite IH. unfold add_reported. cbn.
    by rewrite <- app_assoc.
  - rewrite run_bind. apply IH.
Qed.

(** Shutting down asynchronous generators.  Whatever the interpreter's hooks
    have said, [shutdown_asyncgens] calls [aclose()] for exactly the generators being
    iterated, each once, with the set already empty, so that a later shutdown does
    not close them again; it waits for all of them, and reports those that failed
    with an ordinary exception, and no others, in order. *)
Theorem shutdown_closes_iterated hs (w : W) :
  a_set w = ∅ →
  let w1 := run_hooks hs w in
  ∃ closing, NoDup closing ∧ (∀ g, g ∈ closing ↔ iterating g hs) ∧
    shutdown_asyncgens w1 =
      if decide (closing = []) then (Ret tt, set_shutdown w1)
      else match gather_aclose closing (set_agens ∅ (set_shutdown w1)) with
           | (Ret rs, w2) => (Ret tt, add_reported (errors rs closing) w2)
           | (Raise e, w2) => (Raise e, w2)
           end.
Proof.
  intros Hw w1. exists (listing (a_set w1)). pose proof (al_listing (a_set w1)) as Hl.
  assert (∀ g, g ∈ listing (a_set w1) ↔ g ∈ a_set w1) as Hin
    by (intros g; rewrite Hl; apply elem_of_elements).
  split_and!.
  - rewrite Hl. apply NoDup_elements.
  - intros g. rewrite Hin. by apply run_hooks_set.
  - unfold shutdown_asyncgens. rewrite run_bind, run_modify. cbv beta iota. rewrite run_bind, run_gets.
    cbv beta iota. change (a_set (set_shutdown w1)) with (a_set w1). 
    destruct (decide (size (a_set w1) = 0)) as [Hz|Hz].
    + apply size_empty_inv in Hz. rewrite decide_True; [done|]. apply elem_of_nil_inv.
      intros g Hg%Hin. set_solver.
    + rewrite decide_False; [|intros Hn; apply Hz, size_empty_iff; intros g; rewrite <- Hin, Hn; set_solver].
      cbv zeta. rewrite run_bind, run_modify. cbv beta iota. rewrite run_bind.
      destruct (gather_aclose _ _) as [[rs|e] w2]; [|done]. cbv beta iota. apply report_results_run.
Qed.
End agens.

(** ** An instance *)

(** Generator 1 is collected; closing the others, 2 fails. *)
Definition demo_gather (l : list agen) : M (agens unit) (list (option exn)) :=
  mret ((λ g, if decide (g = 2) then Some (UserError 0) else None) <$> l).
Definition demo_nothing : M unit unit := mret tt.
Abbreviation demo_close := (λ g : agen, CbUser g).
#[local] Instance demo_agen_laws : AgenLaws (λ _, demo_nothing) demo_nothing elements.
Proof. split; [done|intros g s; by exists s|intros s; by exists s]. Qed.
Definition demo_hooks : list hook := [FirstIter 1; FirstIter 2; Finalize 1; FirstIter 3].
Definition no_agens : agens unit := MkAgens empty_loop ∅ false [] tt.
Abbreviation demo_shutdown w := (shutdown_asyncgens elements demo_gather w).
Abbreviation hooks_run w := (run_hooks (λ _, demo_nothing) demo_nothing demo_close demo_hooks w).

Lemma shutdown_closes_iterated_witness :
  (demo_shutdown (hooks_run no_agens)).1 = Ret tt ∧
  a_reported (demo_shutdown (hooks_run no_agens)).2 = [(2, UserError 0)] ∧
  ∃ closing : list agen, (∀ g, g ∈ closing ↔ iterating g demo_hooks) ∧ 2 ∈ closing.
Proof.
  split; [vm_compute; reflexivity|]. split; [vm_compute; reflexivity|].
  destruct (shutdown_closes_iterated (λ _, demo_nothing) demo_nothing demo_close elements demo_gather
    demo_hooks no_agens eq_refl) as (closing & _ & Hc & _).
  exists closing. split; [exact Hc|]. apply Hc. vm_compute. reflexivity.
Defined.
