(* ===== verification/Policy.v ===== *)
(** * The policy and the package's entry points (policy.py; __init__.py, lines 36-51;
    loop.py, lines 1679-1689)

    [RustEventLoopPolicy] keeps one current loop per thread; [install] makes it the
    process's policy.  Subprocesses and pipes are refused. *)

From stdpp Require Import base tactics list gmap strings.
From S2P Require Import Prelude.

(** Loops, policies and threads by name.  A policy's [_local] is a [threading.local]:
    an attribute per thread, absent where it was not set, when the class attribute
    [None] shows through. *)
Record policies := MkPolicies {
  locals : gmap (nat * nat) (option nat);
  next_policy : nat;
  next_loop : nat;
  current_policy : option nat;
}.

Definition _loop (p t : nat) (w : policies) : option nat := default None (locals w !! (p, t)).

(** [RustEventLoopPolicy()]. *)
Definition new_policy : M policies nat := λ w,
  (Ret (next_policy w), MkPolicies (locals w) (S (next_policy w)) (next_loop w) (current_policy w)).

(** The methods of policy [p], called in thread [t]. *)
Definition get_event_loop (p t : nat) : M policies nat :=
  l ← gets (_loop p t);
  match l with
  | None => raise (RuntimeError "There is no current event loop in thread")
  | Some l => mret l
  end.
Definition set_event_loop (p t : nat) (l : option nat) : M policies unit :=
  modify (λ w, MkPolicies (<[(p, t) := l]> (locals w)) (next_policy w) (next_loop w)
                 (current_policy w)).
(** [RustEventLoop()] *)
Definition new_event_loop : M policies nat := λ w,
  (Ret (next_loop w), MkPolicies (locals w) (next_policy w) (S (next_loop w)) (current_policy w)).

(** [tokioop.install]. *)
Definition install (policy : option nat) : M policies nat :=
  p ← match policy with None => new_policy | Some p => mret p end;
  modify (λ w, MkPolicies (locals w) (next_policy w) (next_loop w) (Some p));;
  mret p.

(** ** What is refused *)

Section unsupported.
Context {W A : Type}.
Definition subprocess_exec : M W A :=
  raise (NotImplementedError "subprocesses are not supported by tokioop").
Definition subprocess_shell : M W A :=
  raise (NotImplementedError "subprocesses are not supported by tokioop").
Definition connect_read_pipe : M W A :=
  raise (NotImplementedError "pipes are not supported by tokioop").
Definition connect_write_pipe : M W A :=
  raise (NotImplementedError "pipes are not supported by tokioop").
End unsupported.

(** ** Histories *)

(** Calls of the methods, of any policies in any threads. *)
Inductive policy_call :=
  | CallGet (p t : nat)
  | CallSet (p t : nat) (l : option nat)
  | CallNew
  | CallInstall (policy : option nat).
Definition run_policy_call (c : policy_call) (w : policies) : policies :=
  match c with
  | CallGet p t => (get_event_loop p t w).2
  | CallSet p t l => (set_event_loop p t l w).2
  | CallNew => (new_event_loop w).2
  | CallInstall q => (install q w).2
  end.

(** The last loop set for a thread. *)
Definition last_set (p t : nat) (cs : list policy_call) : option nat :=
  default None (last (omap (λ c, match c with
    | CallSet p' t' l => if decide ((p', t') = (p, t)) then Some l else None
    | _ => None
    end) cs)).

Definition fresh_policies : policies := MkPolicies ∅ 0 0 None.

Lemma run_call_loop c p t (w : policies) :
  _loop p t (run_policy_call c w) =
    match c with
    | CallSet p' t' l => if decide ((p', t') = (p, t)) then l else _loop p t w
    | _ => _loop p t w
    end.
Proof.
  destruct c as [p' t'|p' t' l| |q]; cbn [run_policy_call].
  - unfold get_event_loop. rewrite run_bind, run_gets. by destruct (_loop p' t' w).
  - unfold set_event_loop, _loop. rewrite run_modify. cbn. case_decide as Hd; simplify_eq.
    + by rewrite lookup_insert_eq.
    + by rewrite lookup_insert_ne.
  - done.
  - unfold install. rewrite run_bind. by destruct q.
Qed.

(** One current loop per thread.  Whatever was called before, in whatever
    threads, [get_event_loop] returns the loop last set by the same thread on the
    same policy, and raises if there is none or it was [None]; it changes nothing,
    and no other thread or policy has any part in it. *)
Theorem current_loop_per_thread p t cs :
  let w := foldl (λ w c, run_policy_call c w) fresh_policies cs in
  get_event_loop p t w =
    match last_set p t cs with
    | Some l => (Ret l, w)
    | None => (Raise (RuntimeError "There is no current event loop in thread"), w)
    end.
Proof.
  cbv zeta. assert (_loop p t (foldl (λ w c, run_policy_call c w) fresh_policies cs) = last_set p t cs) as Hl.
  { induction cs as [|c cs IH] using rev_ind; [done|]. rewrite foldl_app. cbn [foldl].
    rewrite run_call_loop, IH. clear IH. unfold last_set. rewrite omap_app.
    destruct c as [| p' t' l| |]; cbn [omap list_omap]; [by rewrite app_nil_r| |by rewrite app_nil_r..].
    destruct (decide ((p', t') = (p, t))); [by rewrite last_snoc|by rewrite app_nil_r]. }
  unfold get_event_loop. rewrite run_bind, run_gets, Hl. by destruct (last_set p t cs).
Qed.
