(* ===== verification/Address.v ===== *)
(** * Source addresses of datagrams (src/src/fd_unix.rs, lines 384-445)

    [parse_addr] decodes what [recvfrom] has written into a [sockaddr_storage], here as
    the bytes of Linux's layout on a little-endian machine. *)

From Stdlib Require Import Strings.Byte.
From stdpp Require Import base tactics list numbers sets.
From S2P Require Import Prelude.

Open Scope Z_scope.

(** ** Machine words in memory *)

Definition byte_Z (b : byte) : Z := Z.of_N (Byte.to_N b).
Definition Z_byte (z : Z) : byte := default x00 (Byte.of_N (Z.to_N (z mod 256))).

Lemma byte_Z_bound b : 0 <= byte_Z b < 256.
Proof. unfold byte_Z. pose proof (Byte.to_N_bounded b). lia. Qed.
Lemma byte_Z_byte z : byte_Z (Z_byte z) = z mod 256.
Proof.
  unfold byte_Z, Z_byte. pose proof (Z.mod_pos_bound z 256).
  destruct (Byte.of_N (Z.to_N (z mod 256))) as [b|] eqn:Hb.
  - apply Byte.to_of_N in Hb. cbn. rewrite Hb. lia.
  - apply Byte.of_N_None_iff in Hb. lia.
Qed.
Lemma Z_byte_Z b : Z_byte (byte_Z b) = b.
Proof.
  unfold byte_Z, Z_byte. pose proof (Byte.to_N_bounded b).
  rewrite Z.mod_small by lia. rewrite N2Z.id, Byte.of_to_N. done.
Qed.

(** A word as the machine reads it, least significant byte first, and as the network
    writes it. *)
Fixpoint read_le (l : bytes) : Z :=
  match l with [] => 0 | b :: l => byte_Z b + 256 * read_le l end.
Fixpoint write_le (n : nat) (z : Z) : bytes :=
  match n with O => [] | S n => Z_byte z :: write_le n (z / 256) end.
Definition write_be (n : nat) (z : Z) : bytes := rev (write_le n z).

(** [uN::from_be]: the bytes of the word reversed. *)
Definition from_be (n : nat) (z : Z) : Z := read_le (rev (write_le n z)).

Lemma length_write_le n z : length (write_le n z) = n.
Proof. revert z. induction n as [|n IH]; intros z; cbn; [done|]. by rewrite IH. Qed.
Lemma length_write_be n z : length (write_be n z) = n.
Proof. unfold write_be. by rewrite length_rev, length_write_le. Qed.
Lemma read_write_le n z : 0 <= z < 256 ^ Z.of_nat n -> read_le (write_le n z) = z.
Proof.
  revert z. induction n as [|n IH]; intros z Hz; cbn [write_le read_le]; [cbn in Hz; lia|].
  rewrite Nat2Z.inj_succ, Z.pow_succ_r in Hz by lia. rewrite byte_Z_byte, IH.
  - pose proof (Z.div_mod z 256). lia.
  - split; [apply Z.div_pos; lia|apply Z.div_lt_upper_bound; lia].
Qed.
Lemma write_read_le l : write_le (length l) (read_le l) = l.
Proof.
  induction l as [|b l IH]; cbn [length read_le write_le]; [done|]. pose proof (byte_Z_bound b).
  f_equal.
  - rewrite <- (Z_byte_Z b) at 2. unfold Z_byte. do 3 f_equal.
    rewrite (Z.mul_comm 256), Z.mod_add by lia. by rewrite Z.mod_small by lia.
  - rewrite (Z.mul_comm 256), Z.div_add by lia. rewrite Z.div_small, Z.add_0_l by lia. by rewrite IH.
Qed.
(** What is written for the network and read by the machine, [from_be] puts right. *)
Lemma from_be_network n z :
  0 <= z < 256 ^ Z.of_nat n -> from_be n (read_le (write_be n z)) = z.
Proof.
  intros Hz. unfold from_be. pose proof (write_read_le (write_be n z)) as Hw.
  rewrite length_write_be in Hw. rewrite Hw. unfold write_be. rewrite rev_involutive. by apply read_write_le.
Qed.
Lemma write_from_be l : write_be (length l) (from_be (length l) (read_le l)) = l.
Proof.
  unfold from_be, write_be. rewrite write_read_le. rewrite <- (length_rev l), write_read_le.
  apply rev_involutive.
Qed.

(** ** Addresses *)

Definition AF_UNIX := 1.
Definition AF_INET := 2.
Definition AF_INET6 := 10.

(** [AddrRepr]; an IP address is its bytes in network order. *)
Inductive AddrRepr :=
  | InetV4 (ip : bytes) (port : Z)
  | InetV6 (ip : bytes) (port flowinfo scope_id : Z)
  | Unix (path : bytes)
  | Unnamed.

(** The bytes of the storage from [off] on, [n] of them. *)
Definition field (off n : nat) (s : bytes) : bytes := take n (drop off s).

Definition sun_path_size : nat := 108.

(** The branch for Unix sockets. *)
Definition parse_path (raw : bytes) : AddrRepr :=
  if decide (raw = []) then Unnamed
  else if decide (head raw = Some x00) then Unix raw
  else
    let end_ := default (length raw) (fst <$> list_find (λ b, b = x00) raw) in
    if decide (end_ = 0%nat) then Unnamed else Unix (take end_ raw).

Definition parse_addr (storage : bytes) (len : nat) : AddrRepr :=
  let family := read_le (field 0 2 storage) in
  if decide (family = AF_INET) then
    let s_addr := from_be 4 (read_le (field 4 4 storage)) in
    InetV4 (write_be 4 s_addr) (from_be 2 (read_le (field 2 2 storage)))
  else if decide (family = AF_INET6) then
    InetV6 (field 8 16 storage) (from_be 2 (read_le (field 2 2 storage)))
      (from_be 4 (read_le (field 4 4 storage))) (read_le (field 24 4 storage))
  else if decide (family = AF_UNIX) then
    parse_path (field 2 (Nat.min (len - 2) sun_path_size) storage)
  else Unnamed.

(** ** The kernel's encoding *)

Definition pad (l : bytes) : bytes := l ++ replicate (128 - length l) x00.

(** What the kernel writes into the 128 bytes of the storage, and the length it
    reports.  Linux ends a path with a NUL and counts it, also a path that fills
    [sun_path]; an abstract name has no end of its own. *)
Definition terminator (path : bytes) : bytes :=
  if decide (head path = Some x00) then [] else [x00].
Definition sockaddr_of (a : AddrRepr) : bytes * nat :=
  match a with
  | InetV4 ip port => (pad (write_le 2 AF_INET ++ write_be 2 port ++ ip), 16%nat)
  | InetV6 ip port flowinfo scope_id =>
      (pad (write_le 2 AF_INET6 ++ write_be 2 port ++ write_be 4 flowinfo ++ ip ++
            write_le 4 scope_id), 28%nat)
  | Unix path =>
      (pad (write_le 2 AF_UNIX ++ path ++ terminator path),
       (2 + length path + length (terminator path))%nat)
  | Unnamed => (pad [], 0%nat)
  end.

Definition addr_ok (a : AddrRepr) : Prop :=
  match a with
  | InetV4 ip port => length ip = 4%nat ∧ 0 <= port < 2 ^ 16
  | InetV6 ip port flowinfo scope_id =>
      length ip = 16%nat ∧ 0 <= port < 2 ^ 16 ∧ 0 <= flowinfo < 2 ^ 32 ∧ 0 <= scope_id < 2 ^ 32
  | Unix path =>
      (0 < length path <= sun_path_size)%nat ∧ (head path = Some x00 ∨ x00 ∉ path)
  | Unnamed => True
  end.

Lemma field_app_l off n (l1 l2 : bytes) :
  length l1 = off -> length l2 = n -> ∀ l3, field off n (l1 ++ l2 ++ l3) = l2.
Proof.
  intros <- <- l3. unfold field. rewrite drop_app_length, take_app_length. done.
Qed.

Lemma field_skip off off' n (l1 l2 : bytes) :
  length l1 = off → field (off + off') n (l1 ++ l2) = field off' n l2.
Proof. intros <-. unfold field. by rewrite drop_app_add. Qed.
Lemma field_take n (l1 l2 : bytes) : length l1 = n → field 0 n (l1 ++ l2) = l1.
Proof. intros <-. unfold field. by rewrite drop_0, take_app_length. Qed.

(** Reading the fields one after the other. *)
Lemma family_of z (l : bytes) : 0 <= z < 2 ^ 16 → read_le (field 0 2 (write_le 2 z ++ l)) = z.
Proof. intros Hz. rewrite field_take by apply length_write_le. by apply read_write_le. Qed.
Ltac seek off n := rewrite (field_skip off n) by first [apply length_write_le|apply length_write_be|done].
Ltac here n := rewrite (field_take n) by first [apply length_write_le|apply length_write_be|done].

Lemma parse_abstract raw : head raw = Some x00 → parse_path raw = Unix raw.
Proof. intros Hh. unfold parse_path. rewrite decide_False by (by intros ->). by rewrite decide_True. Qed.
Lemma parse_filesystem path n :
  path ≠ [] → x00 ∉ path → parse_path (path ++ replicate n x00) = Unix path.
Proof.
  intros Hp Hn. unfold parse_path. rewrite decide_False by (destruct path; done).
  rewrite decide_False by (destruct path as [|b path]; [done|]; intros [= ->]; set_solver).
  assert (list_find (λ b, b = x00) path = None) as Hnone
    by (apply list_find_None, Forall_forall; intros b Hb ->; done).
  assert (length path ≠ 0%nat) as Hl by by destruct path.
  cbv zeta. rewrite list_find_app_r by done. destruct n as [|n].
  - cbn. rewrite app_nil_r. case_decide; [done|]. by rewrite firstn_all.
  - cbn [replicate list_find]. rewrite (decide_True (P := x00 = x00)) by reflexivity. cbn.
    case_decide; [done|]. by rewrite take_app_length.
Qed.

(** C40: Addresses survive the kernel.  For every IPv4 and IPv6 address with port, flow
    information and scope, every path, up to the longest, whose terminator lies
    behind [sun_path], and every abstract name, NUL bytes included: what the kernel
    writes for it is decoded to it.  A sender without an address has none. *)
Theorem parse_addr_roundtrip a :
  addr_ok a → parse_addr (sockaddr_of a).1 (sockaddr_of a).2 = a.
Proof.
  destruct a as [ip port|ip port flow scope|path|]; cbn [addr_ok sockaddr_of fst snd]; unfold pad, parse_addr.
  - intros [Hip Hp]. rewrite <- !app_assoc, family_of by (unfold AF_INET; lia).
    rewrite decide_True by done. seek 2%nat 0%nat. here 2%nat.
    seek 2%nat 2%nat. seek 2%nat 0%nat. here 4%nat. rewrite from_be_network by lia.
    rewrite <- Hip. by rewrite write_from_be.
  - intros (Hip & Hp & Hf & Hs). rewrite <- !app_assoc, family_of by (unfold AF_INET6; lia).
    rewrite decide_False, decide_True by done. seek 2%nat 0%nat. here 2%nat.
    seek 2%nat 2%nat. seek 2%nat 0%nat. here 4%nat.
    seek 2%nat 6%nat. seek 2%nat 4%nat. seek 4%nat 0%nat. here 16%nat.
    seek 2%nat 22%nat. seek 2%nat 20%nat. seek 4%nat 16%nat. seek 16%nat 0%nat. here 4%nat.
    rewrite !from_be_network, read_write_le by lia. done.
  - intros [Hl Hp]. assert (path ≠ []) as Hne by (by intros ->; cbn in Hl; lia).
    rewrite <- !app_assoc, family_of by (unfold AF_UNIX; lia).
    rewrite !decide_False, (decide_True (P := AF_UNIX = AF_UNIX)) by done. seek 2%nat 0%nat.
    set (n := Nat.min _ sun_path_size).
    set (z := replicate _ x00).
    assert (∃ k, field 0 n (path ++ terminator path ++ z) = path ++ replicate k x00 ∧
      (head path = Some x00 → k = 0%nat)) as (k & -> & Hk).
    { unfold n, terminator. case_decide as Hh; cbn [length].
      - exists 0%nat. split; [|done]. cbn [replicate app]. rewrite app_nil_r.
        apply field_take. unfold sun_path_size in *. lia.
      - destruct (decide (length path = sun_path_size)) as [Hfull|Hroom].
        + exists 0%nat. split; [|done]. rewrite app_nil_r. apply field_take. lia.
        + exists 1%nat. split; [|done]. rewrite app_assoc. apply field_take.
          rewrite length_app. cbn [length replicate]. unfold sun_path_size in *. lia. }
    destruct (decide (head path = Some x00)) as [Hh|Hh].
    + rewrite Hk by done. cbn [replicate]. rewrite app_nil_r. by apply parse_abstract.
    + apply parse_filesystem; [done|]. by destruct Hp.
  - done.
Qed.

Lemma parse_addr_roundtrip_witness :
  parse_addr (sockaddr_of (InetV4 [x7f; x00; x00; x01] 8080)).1 16 =
    InetV4 [x7f; x00; x00; x01] 8080 ∧
  parse_addr (sockaddr_of (Unix (replicate 108 x61))).1 111 = Unix (replicate 108 x61) ∧
  (sockaddr_of (Unix (replicate 108 x61))).2 = 111%nat.
Proof.
  split; [apply (parse_addr_roundtrip (InetV4 [x7f; x00; x00; x01] 8080)); split; [done|lia]|].
  split; [|vm_compute; reflexivity].
  refine (parse_addr_roundtrip (Unix (replicate 108 x61)) _).
  split; [vm_compute; lia|]. right. by intros [? ?]%elem_of_replicate.
Defined.
