(* ===== verification/LoopFrame.v ===== *)
(** * What the loop's methods do to the loop

    Every method of the loop extends the ready queue at its end, with entries
    whose flags are new; never clears a cancellation flag; and leaves to each
    watcher's slot the callbacks it was created with, of which a classic one may
    be cleared.  [Rloop] is this as a
    preorder, and the methods move along it. *)

From Stdlib Require Import Strings.Byte.
From stdpp Require Import base tactics list gmap strings.
From S2P Require Import Prelude State Reactor Env Loop.

(** ** The reactor *)

(** A slot later on. *)
Definition later (x y : FdSlotState) : Prop :=
  drain y = drain x ∧ drain_err y = drain_err x ∧ (cb y = cb x ∨ cb y = None).
#[export] Instance later_preorder : PreOrder later.
Proof.
  split; [by intros x; repeat split; left|]. intros x y z (d & e & c) (d' & e' & c').
  split_and!; [congruence..|]. destruct c' as [->|]; auto.
Qed.

Record Rreactor (r r' : Reactor) : Prop := {
  rr_id : next_id r ≤ next_id r';
  rr_flags f : f < next_id r → default false (flags r !! f) = true →
               default false (flags r' !! f) = true;
  rr_slots sl x : sl < next_id r → slots r !! sl = Some x →
                  ∃ y, slots r' !! sl = Some y ∧ later x y;
}.
#[export] Instance Rreactor_preorder : PreOrder Rreactor.
Proof.
  split; [intros r; split; [done|done|intros sl x _ Hx; by exists x]|].
  intros r1 r2 r3 [i1 f1 s1] [i2 f2 s2]. split; [lia| |].
  - intros f Hf Ht. apply f2; [lia|auto].
  - intros sl x Hsl Hx. destruct (s1 _ _ Hsl Hx) as (y & Hy & Hl).
    destruct (s2 sl y) as (z & Hz & Hl'); [lia|done|]. exists z. split; [done|by etrans].
Qed.

Lemma flag_kept f f' (m : gmap flag_id bool) :
  default false (m !! f) = true → default false (<[f' := true]> m !! f) = true.
Proof.
  intros Hf. destruct (decide (f = f')) as [->|Hne]; [by rewrite lookup_insert_eq|].
  by rewrite lookup_insert_ne.
Qed.

Lemma Rreactor_new_flag r : Rreactor r (new_flag r).2.
Proof.
  split; cbn; [lia| |intros sl x _ Hx; by exists x].
  intros f Hf. by rewrite lookup_insert_ne by lia.
Qed.
Lemma Rreactor_retire sl r : Rreactor r (retire sl r).
Proof.
  unfold retire. destruct (slots r !! sl) as [s|] eqn:Hs; [|done].
  split; cbn; [lia| |].
  - intros f _ Hf. destruct (flag s); cbn; [by apply flag_kept|done].
  - intros sl' x _ Hx. destruct (decide (sl' = sl)) as [->|Hne].
    + rewrite lookup_insert_eq. simplify_eq. eexists. split; [done|]. repeat split; auto.
    + rewrite lookup_insert_ne by done. by exists x.
Qed.
Lemma Rreactor_with_fds m n r : Rreactor r (with_fds m n r).
Proof. split; cbn; [done|done|]. intros sl x _ Hx. by exists x. Qed.
Lemma Rreactor_new_slot mk r : Rreactor r (new_slot mk r).2.
Proof.
  unfold new_slot. destruct (new_flag r) as [f r1] eqn:Hf. cbn [snd].
  etrans; [apply (Rreactor_new_flag r)|]. rewrite Hf. cbn [snd].
  split; cbn; [lia|done|]. intros sl x Hsl Hx. exists x. by rewrite lookup_insert_ne by lia.
Qed.

Lemma Rreactor_detach fd b r : Rreactor r (detach_watcher fd b r).2.
Proof.
  unfold detach_watcher. destruct (fds r !! fd) as [rec|]; [|done].
  destruct (dir_of b rec); [|done]. cbn [snd].
  etrans; [apply Rreactor_retire|apply Rreactor_with_fds].
Qed.
Lemma Rreactor_install fd b mk r : Rreactor r (install fd b mk r).2.
Proof.
  unfold install. pose proof (Rreactor_new_slot mk r) as H.
  destruct (new_slot mk r) as [[f sl] r2]. cbn [snd] in *. etrans; [exact H|].
  etrans; [|apply Rreactor_with_fds].
  destruct (dir_of _ _); [apply Rreactor_retire|apply Rreactor_with_fds].
Qed.
Lemma Rreactor_cancel h r : Rreactor r (cancel h r).2.
Proof.
  unfold cancel. destruct (cancelled h r); [done|]. cbn [snd].
  etrans; [|apply Rreactor_detach]. split; cbn; [lia| |intros sl x _ Hx; by exists x].
  intros f _ Hf. by apply flag_kept.
Qed.

(** ** The loop *)

Record Rloop (s s' : LoopState) : Prop := {
  lp_reactor : Rreactor (reactor s) (reactor s');
  lp_ready : ∃ new, ready s' = ready s ++ new ∧
             Forall (λ e, next_id (reactor s) ≤ re_cancelled e) new;
}.
#[export] Instance Rloop_preorder : PreOrder Rloop.
Proof.
  split; [intros s; split; [done|exists []; by rewrite app_nil_r]|].
  intros s1 s2 s3 [r1 (n1 & e1 & F1)] [r2 (n2 & e2 & F2)]. split; [by etrans|].
  exists (n1 ++ n2). rewrite e2, e1, <- app_assoc. split; [done|]. apply Forall_app. split; [done|].
  eapply Forall_impl; [exact F2|]. cbn. intros e He. pose proof (rr_id _ _ r1). lia.
Qed.

Lemma Rloop_reactor r s : Rreactor (reactor s) r → Rloop s (set_reactor r s).
Proof. intros Hr. split; [done|]. exists []. by rewrite app_nil_r. Qed.
Lemma Rloop_same s s' : reactor s' = reactor s → ready s' = ready s → Rloop s s'.
Proof. intros Hr Hq. split; [by rewrite Hr|]. exists []. by rewrite Hq, app_nil_r. Qed.

Lemma loop_check_closed : moves Rloop check_closed.
Proof. unfold check_closed. moves_auto. Qed.
Lemma loop_alloc_flag : moves Rloop alloc_flag.
Proof. intros s. apply Rloop_reactor, Rreactor_new_flag. Qed.
Lemma loop_futs f : moves Rloop (modify (λ s, set_futs (f s) s)).
Proof. intros s. by apply Rloop_same. Qed.
#[export] Hint Resolve loop_check_closed loop_alloc_flag loop_futs : moves.

Lemma loop_call_soon_moves c : moves Rloop (call_soon c).
Proof.
  unfold call_soon. apply moves_bind; [apply _|apply loop_check_closed|]. intros _ s.
  unfold alloc_flag. rewrite run_bind. cbn [new_flag]. cbv beta iota. rewrite run_bind, run_modify.
  cbv beta iota. rewrite run_ret. split; [apply (Rreactor_new_flag (reactor s))|].
  eexists. split; [done|]. constructor; [|done]. cbn. lia.
Qed.
#[export] Hint Resolve loop_call_soon_moves : moves.
Lemma loop_cancel_ready f : moves Rloop (cancel_ready f).
Proof.
  intros s. apply Rloop_reactor. split; cbn; [lia| |intros sl x _ Hx; by exists x]. intros g _ Hg. by apply flag_kept.
Qed.
Lemma loop_create_future : moves Rloop create_future.
Proof. unfold create_future. moves_auto. Qed.
Lemma loop_schedule cbs : moves Rloop (schedule_callbacks cbs).
Proof. induction cbs; cbn [schedule_callbacks]; moves_auto. Qed.
#[export] Hint Resolve loop_cancel_ready loop_create_future loop_schedule : moves.
Lemma loop_fut_finish f o : moves Rloop (fut_finish f o).
Proof.
  intros s. unfold fut_finish. destruct (futs s !! f) as [[[] cbs]|]; try done.
  etrans; [|apply loop_schedule]. by apply Rloop_same.
Qed.
#[export] Hint Resolve loop_fut_finish : moves.
Lemma loop_set_result f v : moves Rloop (set_result f v).
Proof. apply loop_fut_finish. Qed.
Lemma loop_set_exception f e : moves Rloop (set_exception f e).
Proof. apply loop_fut_finish. Qed.
#[export] Hint Resolve loop_set_result loop_set_exception : moves.
Lemma loop_set_result_unless_cancelled f v : moves Rloop (set_result_unless_cancelled f v).
Proof. unfold set_result_unless_cancelled. moves_auto. Qed.
Lemma loop_add_done_callback f c : moves Rloop (add_done_callback f c).
Proof.
  intros s. unfold add_done_callback.
  assert (Rloop s ((call_soon c;; mret tt) s).2) as H.
  { assert (moves Rloop (call_soon c;; mret tt)) as Hm by moves_auto. apply Hm. }
  destruct (futs s !! f) as [[[] cbs]|]; try exact H. by apply Rloop_same.
Qed.
#[export] Hint Resolve loop_set_result_unless_cancelled loop_add_done_callback : moves.

Lemma loop_on_reactor {A} (f : Reactor → A * Reactor) :
  (∀ r, Rreactor r (f r).2) → moves Rloop (on_reactor f).
Proof.
  intros Hf s. unfold on_reactor. specialize (Hf (reactor s)). destruct (f (reactor s)).
  by apply Rloop_reactor.
Qed.
Lemma loop_add_watcher fd b c : moves Rloop (on_reactor (add_watcher fd b c)).
Proof. apply loop_on_reactor. intros r. apply Rreactor_install. Qed.
Lemma loop_add_drain_watcher fd d e : moves Rloop (on_reactor (add_drain_watcher fd d e)).
Proof. apply loop_on_reactor. intros r. apply Rreactor_install. Qed.
Lemma loop_cancel h : moves Rloop (on_reactor (cancel h)).
Proof. apply loop_on_reactor. intros r. apply Rreactor_cancel. Qed.
Lemma loop_detach fd b : moves Rloop (on_reactor (detach_watcher fd b)).
Proof. apply loop_on_reactor. intros r. apply Rreactor_detach. Qed.
#[export] Hint Resolve loop_add_watcher loop_add_drain_watcher loop_cancel loop_detach : moves.
Lemma loop_remove_watcher b fd : moves Rloop (remove_watcher b fd).
Proof. unfold remove_watcher. moves_auto. Qed.
#[export] Hint Resolve loop_remove_watcher : moves.

(** ** Futures *)

(** Scheduling touches neither the futures nor the cells. *)
Definition same_futs : relation LoopState := λ s s', futs s' = futs s ∧ cells s' = cells s.
#[export] Instance same_futs_preorder : PreOrder same_futs.
Proof. split; [done|]. intros ??? [] []. split; congruence. Qed.

Lemma same_futs_call_soon c : moves same_futs (call_soon c).
Proof.
  unfold call_soon, check_closed. moves_auto; done.
Qed.
Lemma same_futs_schedule l : moves same_futs (schedule_callbacks l).
Proof. induction l; simpl; moves_auto. apply same_futs_call_soon. Qed.

(** Completing a pending future stores the outcome, whatever the scheduling of
    its callbacks does. *)
Lemma fut_finish_pending f o cbs s :
  futs s !! f = Some (MkFuture Pending cbs) →
  futs (fut_finish f o s).2 = <[f := MkFuture o []]> (futs s) ∧
  cells (fut_finish f o s).2 = cells s.
Proof.
  intros Hf. unfold fut_finish. rewrite Hf.
  destruct (same_futs_schedule cbs (set_futs (<[f:=MkFuture o []]> (futs s)) s)) as [-> ->].
  done.
Qed.

(** A future that is done keeps its outcome. *)
Definition Rdone (f : fut_id) (s s' : LoopState) : Prop :=
  fut_done f s = true → fut_lookup f s' = fut_lookup f s.
#[export] Instance Rdone_preorder f : PreOrder (Rdone f).
Proof.
  split; [done|]. intros s1 s2 s3 H1 H2 Hd. rewrite H2; [by apply H1|]. unfold fut_done. by rewrite H1.
Qed.
Lemma Rdone_same f s s' : futs s' = futs s → Rdone f s s'.
Proof. unfold Rdone, fut_lookup. by intros ->. Qed.
Lemma done_fut_finish f g o : moves (Rdone f) (fut_finish g o).
Proof.
  intros s Hd. destruct (futs s !! g) as [[[] cbs]|] eqn:Hg; try (unfold fut_finish; by rewrite Hg).
  destruct (fut_finish_pending g o cbs s Hg) as [Hf _]. unfold fut_lookup. rewrite Hf.
  rewrite lookup_insert_ne; [done|]. intros ->. unfold fut_done, fut_lookup in Hd. by rewrite Hg in Hd.
Qed.
