(* ===== verification/Scheduler.v ===== *)
(** * The scheduler (src/event_loop.rs, lines 47-335, and src/state.rs)

    One loop iteration ([run_batch]: ready callbacks, expired timers, I/O
    completions), the timer heap, the deadline the loop parks for, and the
    scheduling methods.  Python callables are parameters: computations that may
    act on the whole state of the loop. *)

From Stdlib Require Import Strings.Byte.
From stdpp Require Import base tactics list gmap strings.
From S2P Require Import Prelude State Reactor Env Loop.

(** ** Double-precision numbers

    A finite double is an integer multiple of 2^-1074, so [Fin z] is z * 2^-1074
    and sums are computed exactly and rounded once, to nearest even, as IEEE 754
    has it. *)
Inductive f64 := Fin (z : Z) | PInf | NInf | NaN.

#[export] Instance f64_eq_dec : EqDecision f64.
Proof. solve_decision. Defined.

(** The integer nearest to [z / m], the even one of two. *)
Definition nearest (z m : Z) : Z :=
  let q := (z / m)%Z in
  let r := (z mod m)%Z in
  if decide (2 * r < m)%Z then q
  else if decide (m < 2 * r)%Z then (q + 1)%Z
  else if Z.even q then q else (q + 1)%Z.

(** Rounding to 53 significant bits. *)
Definition round53 (z : Z) : Z :=
  let m := (2 ^ Z.max 0 (Z.log2 (Z.abs z) - 52))%Z in (nearest z m * m)%Z.

(** One second, and the first power of two that is not a finite double. *)
Definition one : Z := (2 ^ 1074)%Z.
Definition limit : Z := (2 ^ 2098)%Z.

Definition finite (z : Z) : f64 :=
  if decide (limit ≤ z)%Z then PInf else if decide (z ≤ - limit)%Z then NInf else Fin z.

Definition fneg (a : f64) : f64 :=
  match a with Fin z => Fin (- z) | PInf => NInf | NInf => PInf | NaN => NaN end.
Definition fadd (a b : f64) : f64 :=
  match a, b with
  | Fin x, Fin y => finite (round53 (x + y))
  | NaN, _ | _, NaN | PInf, NInf | NInf, PInf => NaN
  | PInf, _ | _, PInf => PInf
  | NInf, _ | _, NInf => NInf
  end.
Definition fsub (a b : f64) : f64 := fadd a (fneg b).

(** [f64::partial_cmp] and [<=]. *)
Definition partial_cmp (a b : f64) : option comparison :=
  match a, b with
  | NaN, _ | _, NaN => None
  | Fin x, Fin y => Some (x ?= y)%Z
  | NInf, NInf | PInf, PInf => Some Eq
  | NInf, _ | _, PInf => Some Lt
  | PInf, _ | _, NInf => Some Gt
  end.
Definition fle (a b : f64) : bool :=
  match partial_cmp a b with Some Lt | Some Eq => true | _ => false end.

(** ** The timer heap *)

Record TimerEntry := MkTimer {
  when : f64;
  seq : Z;
  entry : ReadyEntry;
}.

(** [impl Ord for TimerEntry]: reversed, with [unwrap_or(Equal)]. *)
Definition timer_cmp (self other : TimerEntry) : comparison :=
  match default Eq (partial_cmp (when other) (when self)) with
  | Eq => (seq other ?= seq self)%Z
  | c => c
  end.

(** [BinaryHeap] gives a greatest element.  The heap is kept as the list of its
    entries in insertion order. *)
Fixpoint peek (heap : list TimerEntry) : option TimerEntry :=
  match heap with
  | [] => None
  | t :: heap =>
      match peek heap with
      | None => Some t
      | Some u => Some match timer_cmp t u with Lt => u | _ => t end
      end
  end.

Definition remove_seq (n : Z) (heap : list TimerEntry) : list TimerEntry :=
  filter (λ t, seq t ≠ n) heap.

(** ** State *)

(** [IoData]. *)
Inductive IoData :=
  | UdpDatagram (payload : bytes) (a : addr)
  | TcpChunk (payload : bytes)
  | TcpEof
  | ReadError (err : exn).

(** [IoCompletion]: the rendezvous [hs] belongs to the watcher of the slot. *)
Inductive IoCompletion :=
  | IoCallback (slot : slot_id)
  | IoPayload (slot : slot_id) (data : IoData).

(** The rest of [LoopState] (src/state.rs): [ran] lists the entries run (the
    program counts them), [released] the watcher tasks whose rendezvous has been
    notified, [permit] is the permit [notify] stores, and [app] is everything
    outside the loop, the clock included. *)
Record sched (A : Type) := MkSched {
  s_loop : LoopState;
  timers : list TimerEntry;
  next_seq : Z;
  io : list IoCompletion;
  running : bool;
  stop_requested : bool;
  ran : list ReadyEntry;
  released : list slot_id;
  permit : bool;
  app : A;
}.
Arguments MkSched {A}.
Arguments s_loop {A}.
Arguments timers {A}.
Arguments next_seq {A}.
Arguments io {A}.
Arguments running {A}.
Arguments stop_requested {A}.
Arguments ran {A}.
Arguments released {A}.
Arguments permit {A}.
Arguments app {A}.

Section setters.
Context {A : Type}.
Implicit Types w : sched A.
Definition set_loop (l : LoopState) w : sched A :=
  MkSched l (timers w) (next_seq w) (io w) (running w) (stop_requested w) (ran w)
    (released w) (permit w) (app w).
Definition set_timers (t : list TimerEntry) (n : Z) w : sched A :=
  MkSched (s_loop w) t n (io w) (running w) (stop_requested w) (ran w) (released w) (permit w) (app w).
Definition set_io (q : list IoCompletion) w : sched A :=
  MkSched (s_loop w) (timers w) (next_seq w) q (running w) (stop_requested w) (ran w)
    (released w) (permit w) (app w).
Definition set_stop (b : bool) w : sched A :=
  MkSched (s_loop w) (timers w) (next_seq w) (io w) (running w) b (ran w) (released w) (permit w) (app w).
Definition add_ran (e : ReadyEntry) w : sched A :=
  MkSched (s_loop w) (timers w) (next_seq w) (io w) (running w) (stop_requested w)
    (ran w ++ [e]) (released w) (permit w) (app w).
Definition release (sl : slot_id) w : sched A :=
  MkSched (s_loop w) (timers w) (next_seq w) (io w) (running w) (stop_requested w) (ran w)
    (released w ++ [sl]) (permit w) (app w).
Definition set_permit (b : bool) w : sched A :=
  MkSched (s_loop w) (timers w) (next_seq w) (io w) (running w) (stop_requested w) (ran w)
    (released w) b (app w).
End setters.

#[export] Instance sched_loop {A} : HasLoop (sched A) := {|
  lget w := s_loop w; lset l w := set_loop l w |}.

(** ** One iteration *)

Section scheduler.
Context {A : Type}.
Local Abbreviation W := (sched A).

(** What the loop calls: Python callables, the delivery of a payload to a drain
    callback, the exception handler; and the clock. *)
Context (call : callback → M W unit) (deliver : callback → IoData → M W unit)
  (handler : exn → M W unit) (clock : A → f64).

(** [invoke_entry], its error going to [report_callback_error], whose own
    errors are printed. *)
Definition reported (m : M W unit) : M W unit :=
  try_except m (λ e, swallow (handler e)).

Definition is_cancelled (e : ReadyEntry) (w : W) : bool :=
  default false (flags (reactor (s_loop w)) !! re_cancelled e).

(** A popped entry: skipped if cancelled. *)
Definition run_entry (e : ReadyEntry) : M W unit :=
  c ← gets (is_cancelled e);
  if (c : bool) then mret tt
  else modify (add_ran e);; reported (call (re_callback e)).

Definition pop_ready : M W (option ReadyEntry) := λ w,
  match ready (s_loop w) with
  | [] => (Ret None, w)
  | e :: q => (Ret (Some e), set_loop (set_ready q (s_loop w)) w)
  end.

(** [for _ in 0..n]. *)
Fixpoint run_ready (n : nat) : M W unit :=
  match n with
  | 0 => mret tt
  | S n =>
      e ← pop_ready;
      match e with
      | None => mret tt
      | Some e => run_entry e;; run_ready n
      end
  end.

(** [timers.peek()], popped if its deadline has passed. *)
Definition pop_due (now : f64) : M W (option ReadyEntry) := λ w,
  match peek (timers w) with
  | Some top =>
      if fle (when top) now
      then (Ret (Some (entry top)), set_timers (remove_seq (seq top) (timers w)) (next_seq w) w)
      else (Ret None, w)
  | None => (Ret None, w)
  end.

(** The timer loop has no bound of its own: [fuel] iterations, [true] when it has
    come to its end. *)
Fixpoint run_timers (fuel : nat) (now : f64) : M W bool :=
  match fuel with
  | 0 => mret false
  | S fuel =>
      e ← pop_due now;
      match e with
      | None => mret true
      | Some e => run_entry e;; run_timers fuel now
      end
  end.

(** One I/O completion.  The callback of a classic watcher is the one its slot
    holds now, none after detaching; its watcher is released in any case.  A
    payload goes to the slot's drain callback, detached or not. *)
Definition slot_of (sl : slot_id) (w : W) : option FdSlotState :=
  slots (reactor (s_loop w)) !! sl.
Definition complete (c : IoCompletion) : M W unit :=
  match c with
  | IoCallback sl =>
      s ← gets (slot_of sl);
      match s ≫= cb with
      | Some c => reported (call c)
      | None => mret tt
      end;;
      modify (release sl)
  | IoPayload sl data =>
      s ← gets (slot_of sl);
      match s ≫= drain with
      | Some d =>
          reported match data with
                   | ReadError _ =>
                       match s ≫= drain_err with
                       | Some h => deliver h data
                       | None => mret tt
                       end
                   | _ => deliver d data
                   end
      | None => mret tt
      end
  end.

Definition pop_io : M W (option IoCompletion) := λ w,
  match io w with
  | [] => (Ret None, w)
  | c :: q => (Ret (Some c), set_io q w)
  end.

Fixpoint run_io (fuel : nat) : M W bool :=
  match fuel with
  | 0 => mret false
  | S fuel =>
      c ← pop_io;
      match c with
      | None => mret true
      | Some c => complete c;; run_io fuel
      end
  end.

Definition run_batch (fuel : nat) : M W bool :=
  n ← gets (λ w, length (ready (s_loop w)));
  run_ready n;;
  now ← gets (λ w, clock (app w));
  ok ← run_timers fuel now;
  if (ok : bool) then run_io fuel else mret false.

(** ** Deadlines *)

(** [timers_due]. *)
Definition timers_due (w : W) : bool :=
  match peek (timers w) with
  | Some top => fle (when top) (clock (app w))
  | None => false
  end.

(** [next_deadline]: a duration in nanoseconds.  [Duration::from_secs_f64] rounds
    to the nearest one, ties to even, and panics unless its argument is finite,
    not negative and fits 64 bits of seconds. *)
Inductive deadline := NoTimer | Duration (nanos : Z) | Panics.
Definition NANOS_PER_SEC : Z := 10 ^ 9.
Definition from_secs_f64 (dt : f64) : deadline :=
  match dt with
  | Fin z =>
      if decide (0 ≤ z < 2 ^ 64 * one)%Z then Duration (nearest (z * NANOS_PER_SEC) one) else Panics
  | _ => Panics
  end.
Definition next_deadline (w : W) : deadline :=
  match peek (timers w) with
  | None => NoTimer
  | Some top =>
      let dt := fsub (when top) (clock (app w)) in
      if fle dt (Fin 0) then Duration 0 else from_secs_f64 dt
  end.

(** ** Scheduling *)

(** [call_at_impl]; the result is the handle's flag. *)
Definition call_at (deadline : f64) (c : callback) : M W flag_id :=
  on_loop check_closed;;
  f ← on_loop alloc_flag;
  modify (λ w, set_timers (timers w ++ [MkTimer deadline (next_seq w) (MkReady c f)])
                 (u64 (next_seq w + 1)) w);;
  mret f.
Definition call_later (delay : f64) (c : callback) : M W flag_id :=
  now ← gets (λ w, clock (app w));
  call_at (fadd now delay) c.

(** [Notify::notify_one] with nobody waiting: the permit is stored.  [stop] sets
    the flag the loop looks at after each batch, and notifies. *)
Definition notify_one : M W unit := modify (set_permit true).
Definition stop : M W unit := modify (set_stop true);; notify_one.

(** [close]. *)
Definition close_loop : M W unit :=
  r ← gets running;
  if (r : bool) then raise (RuntimeError "Cannot close a running event loop") else
  c ← loop_get closed;
  if (c : bool) then mret tt else
  modify (λ w,
    let s := s_loop w in
    set_io [] (set_timers [] (next_seq w)
      (set_loop (MkLoop (abort_all (reactor s)) [] (futs s) (cells s) true (debug s)) w))).
End scheduler.
