(* ===== verification/SchedulerProps.v ===== *)
(** * The scheduler: what one iteration promises

    Batches run exactly what was scheduled before them, timers run in deadline
    order with ties first come first served, every due deadline is seen, and
    [close()] leaves nothing to run. *)

From Stdlib Require Import Strings.Byte.
From stdpp Require Import base tactics relations list gmap strings sorting.
From S2P Require Import Prelude State Reactor Env Loop Scheduler.

(** ** Rounding *)

Section rounding.
#[local] Open Scope Z_scope.

(** The error of rounding to an integer, and when the result is zero. *)
Lemma nearest_spec z m : 0 < m → - m ≤ 2 * (nearest z m * m - z) ≤ m.
Proof.
  intros Hm. pose proof (Z.div_mod z m ltac:(lia)). pose proof (Z.mod_pos_bound z m Hm).
  unfold nearest. repeat case_decide; [nia|nia|]. destruct (Z.even _); nia.
Qed.

Lemma nearest_0 z m : 0 ≤ z → 0 < m → nearest z m = 0 ↔ 2 * z ≤ m.
Proof.
  intros Hz Hm. pose proof (nearest_spec z m Hm). split; [intros H0; rewrite H0 in *; lia|].
  intros Hh. pose proof (Z.div_mod z m ltac:(lia)). pose proof (Z.mod_pos_bound z m Hm).
  assert (z / m = 0) as Hq by (apply Z.div_small; lia).
  unfold nearest. rewrite Hq in *. repeat case_decide; [done|lia|done].
Qed.

Lemma nearest_nonneg z m : 0 ≤ z → 0 < m → 0 ≤ nearest z m.
Proof.
  intros Hz Hm. pose proof (Z.div_pos z m Hz Hm). unfold nearest.
  repeat case_decide; [lia..|]. destruct (Z.even _); lia.
Qed.

Lemma round53_cases z :
  let m := 2 ^ Z.max 0 (Z.log2 (Z.abs z) - 52) in
  0 < m ∧ (round53 z = z / m * m ∨ round53 z = (z / m + 1) * m) ∧
  (m = 1 → round53 z = z).
Proof.
  cbv zeta. unfold round53, nearest. set (m := 2 ^ _).
  assert (0 < m) as Hm by (apply Z.pow_pos_nonneg; lia). split; [done|]. split.
  - repeat case_decide; [by left|by right|]. destruct (Z.even _); [by left|by right].
  - intros H1. rewrite H1, Z.div_1_r, Z.mod_1_r. simpl. lia.
Qed.

(** The unit in the last place is at most 2^-52 of the number. *)
Lemma ulp_bound z :
  let m := 2 ^ Z.max 0 (Z.log2 (Z.abs z) - 52) in m = 1 ∨ m * 2 ^ 52 ≤ Z.abs z.
Proof.
  cbv zeta. destruct (Z.le_gt_cases (Z.log2 (Z.abs z)) 52) as [Hl|Hl].
  { left. by rewrite Z.max_l by lia. }
  right. rewrite Z.max_r by lia. rewrite <- Z.pow_add_r by lia.
  replace (Z.log2 (Z.abs z) - 52 + 52) with (Z.log2 (Z.abs z)) by lia.
  destruct (decide (Z.abs z = 0)) as [H0|H0]; [by rewrite H0 in Hl|].
  apply Z.log2_spec. lia.
Qed.

Lemma round53_pos z : 0 < z → 0 < round53 z.
Proof.
  intros Hz. destruct (round53_cases z) as (Hm & Hr & H1).
  destruct (ulp_bound z) as [Hu|Hu]; [by rewrite H1|].
  set (m := 2 ^ _) in *. rewrite Z.abs_eq in Hu by lia.
  assert (2 ^ 52 ≤ z / m) as Hq by (apply Z.div_le_lower_bound; lia).
  destruct Hr as [->| ->]; nia.
Qed.

Lemma round53_neg z : z < 0 → round53 z < 0.
Proof.
  intros Hz. destruct (round53_cases z) as (Hm & Hr & H1).
  destruct (ulp_bound z) as [Hu|Hu]; [by rewrite H1|].
  set (m := 2 ^ _) in *. rewrite Z.abs_neq in Hu by lia.
  assert (z / m ≤ - 2 ^ 52) as Hq by (apply Z.div_le_upper_bound; lia).
  destruct Hr as [->| ->]; nia.
Qed.

Lemma round53_0 : round53 0 = 0.
Proof. done. Qed.

Lemma round53_sign z : (round53 z ≤ 0) ↔ (z ≤ 0).
Proof.
  destruct (Z.lt_trichotomy z 0) as [H|[-> |H]].
  - pose proof (round53_neg z H). lia.
  - by rewrite round53_0.
  - pose proof (round53_pos z H). lia.
Qed.

Lemma one_pos : 0 < one.
Proof. by apply Z.pow_pos_nonneg. Qed.
Lemma limit_pos : 0 < limit.
Proof. by apply Z.pow_pos_nonneg. Qed.
End rounding.

#[local] Opaque round53 limit one.

Lemma fle_fin x y : fle (Fin x) (Fin y) = bool_decide (x ≤ y)%Z.
Proof.
  unfold fle, partial_cmp. destruct (Z.compare_spec x y); symmetry;
    first [apply bool_decide_eq_true_2; lia|apply bool_decide_eq_false_2; lia].
Qed.

Lemma fle_finite_0 z : fle (finite z) (Fin 0) = bool_decide (z ≤ 0)%Z.
Proof.
  pose proof limit_pos. unfold finite.
  destruct (decide (limit ≤ z)%Z); [|destruct (decide (z ≤ - limit)%Z)].
  - by rewrite bool_decide_eq_false_2 by lia.
  - by rewrite bool_decide_eq_true_2 by lia.
  - apply fle_fin.
Qed.

(** The sign of a rounded difference is exact. *)
Lemma fsub_due a t : fle (fsub a (Fin t)) (Fin 0) = fle a (Fin t).
Proof.
  destruct a as [x| | |]; try done. unfold fsub, fadd, fneg.
  rewrite fle_finite_0, fle_fin. apply bool_decide_ext. rewrite round53_sign. lia.
Qed.

(** ** The order of timers *)

(** By deadline, then by the order of scheduling. *)
Definition earlier (t u : TimerEntry) : Prop :=
  partial_cmp (when t) (when u) = Some Lt ∨
  partial_cmp (when t) (when u) = Some Eq ∧ (seq t < seq u)%Z.

(** What the heap relies on: deadlines that are numbers, distinct sequence
    numbers. *)
Definition timers_ok (l : list TimerEntry) : Prop :=
  Forall (λ t, when t ≠ NaN) l ∧ NoDup (seq <$> l).

Ltac compares := repeat match goal with
  | H : context [(?x ?= ?y)%Z] |- _ => destruct (Z.compare_spec x y); try done
  | |- context [(?x ?= ?y)%Z] => destruct (Z.compare_spec x y); try done
  end.

Lemma earlier_trans t u v : earlier t u → earlier u v → earlier t v.
Proof.
  unfold earlier. destruct (when t), (when u), (when v); simpl;
    intros [?|[? ?]] [?|[? ?]]; try done; compares; subst;
    first [left; congruence|right; split; [congruence|lia]|exfalso; lia|left; reflexivity|idtac].
Qed.

Lemma earlier_total t u :
  when t ≠ NaN → when u ≠ NaN → seq t ≠ seq u → earlier t u ∨ earlier u t.
Proof.
  unfold earlier. destruct (when t), (when u); simpl; intros; try done; try tauto;
    try (destruct (Z.lt_total (seq t) (seq u)) as [?|[?|?]]; tauto).
  rewrite (Z.compare_antisym z z0). destruct (Z.compare_spec z z0); simpl; try tauto.
  destruct (Z.lt_total (seq t) (seq u)) as [?|[?|?]]; tauto.
Qed.

Lemma earlier_cmp t u : earlier t u → timer_cmp t u = Gt ∧ timer_cmp u t = Lt.
Proof.
  unfold earlier, timer_cmp. destruct (when t), (when u); simpl;
    intros [?|[? Hs]]; try done; try (pose proof Hs as Hs'; apply Z.lt_gt in Hs'; split; [exact Hs'|exact Hs]).
  - rewrite (Z.compare_antisym z z0). destruct (Z.compare_spec z z0); done.
  - rewrite (Z.compare_antisym z z0). destruct (Z.compare_spec z z0); simpl; try done.
    apply Z.lt_gt in Hs as Hs'. by split.
Qed.

Lemma earlier_due t u now :
  earlier t u → fle (when u) now = true → fle (when t) now = true.
Proof.
  unfold earlier, fle. destruct (when t), (when u), now; simpl; intros [?|[? ?]]; try done;
    compares; lia.
Qed.

Lemma timers_ok_cons t l : timers_ok (t :: l) → timers_ok l.
Proof. intros [Hn Hd]. apply Forall_cons in Hn as [_ ?]. by apply NoDup_cons in Hd as [_ ?]. Qed.

Lemma peek_none l : peek l = None ↔ l = [].
Proof. split; [|by intros ->]. destruct l; simpl; [done|]. by destruct (peek l). Qed.

(** The heap gives the earliest timer. *)
Lemma peek_in l t : peek l = Some t → t ∈ l.
Proof.
  revert t. induction l as [|u l IH]; intros t; [done|]. cbn [peek].
  destruct (peek l) as [v|]; [|intros [= ->]; by left].
  destruct (timer_cmp u v); intros [= ->]; first [by left|right; by apply IH].
Qed.

Lemma peek_spec l t :
  timers_ok l → peek l = Some t → t ∈ l ∧ ∀ u, u ∈ l → u = t ∨ earlier t u.
Proof.
  revert t. induction l as [|x l IH]; intros t Hok; simpl; [done|].
  pose proof (timers_ok_cons _ _ Hok) as Hokl. destruct Hok as [Hn Hd].
  apply Forall_cons in Hn as [Hx Hn]. apply NoDup_cons in Hd as [Hxl _].
  destruct (peek l) as [u|] eqn:Hp; cycle 1.
  { apply peek_none in Hp as ->. intros [= <-]. split; [by left|].
    intros u [->|[]%elem_of_nil]%elem_of_cons. by left. }
  destruct (IH u Hokl eq_refl) as [Hu Hmin].
  assert (seq x ≠ seq u) as Hne
    by (intros He; apply Hxl; rewrite He; by apply list_elem_of_fmap_2).
  assert (when u ≠ NaN) as Hun by (by eapply Forall_forall in Hn).
  destruct (earlier_total x u Hx Hun Hne) as [He|He];
    destruct (earlier_cmp _ _ He) as [Hc1 Hc2].
  - rewrite Hc1. intros [= <-]. split; [by left|].
    intros v [->|Hv]%elem_of_cons; [by left|]. right.
    destruct (Hmin v Hv) as [->|?]; [done|]. by eapply earlier_trans.
  - rewrite Hc2. intros [= <-]. split; [by right|].
    intros v [->|Hv]%elem_of_cons; [by right|]. by apply Hmin.
Qed.

(** ** What a callback may do to the loop

    Callables reach the loop through its methods only: they append to the ready
    queue entries with flags of their own, append timers, set cancellation
    flags, and neither pop anything nor touch the completion queue (watcher
    tasks do not run during a batch). *)

Section scheduler.
Context {A : Type}.
Local Abbreviation W := (sched A).

(** The flag of an entry scheduled by then, or later. *)
Definition allocated (w : W) (e : ReadyEntry) : Prop :=
  re_cancelled e < next_id (reactor (s_loop w)).
Definition fresh (w : W) (e : ReadyEntry) : Prop := ¬ allocated w e.

(** [late] is what is asked of the timers a callback schedules. *)
Record Rcb (late : TimerEntry → Prop) (w w' : W) : Prop := {
  cb_ready : ∃ new, ready (s_loop w') = ready (s_loop w) ++ new ∧ Forall (fresh w) new;
  cb_cancelled e : allocated w e → is_cancelled e w = true → is_cancelled e w' = true;
  cb_id : next_id (reactor (s_loop w)) ≤ next_id (reactor (s_loop w'));
  cb_timers : ∃ new, timers w' = timers w ++ new ∧ Forall late new;
  cb_heap : timers_ok (timers w) → timers_ok (timers w');
  cb_io : io w' = io w;
  cb_ran : ran w' = ran w;
}.

#[export] Instance Rcb_preorder late : PreOrder (Rcb late).
Proof.
  split.
  - intros w. split; try done; exists []; by rewrite app_nil_r.
  - intros w1 w2 w3 [(n1 & r1 & F1) f1 i1 (t1 & q1 & G1) h1 o1 a1]
      [(n2 & r2 & F2) f2 i2 (t2 & q2 & G2) h2 o2 a2].
    split; try congruence; try lia; auto.
    + exists (n1 ++ n2). rewrite r2, r1, <- app_assoc. split; [done|].
      apply Forall_app. split; [done|]. eapply Forall_impl; [exact F2|].
      unfold fresh, allocated. lia.
    + intros e He Hc. apply f2; [unfold allocated in *; lia|]. by apply f1.
    + exists (t1 ++ t2). rewrite q2, q1, <- app_assoc. by rewrite Forall_app.
Qed.

Lemma Rcb_same late (w w' : W) :
  s_loop w' = s_loop w → timers w' = timers w → io w' = io w → ran w' = ran w → Rcb late w w'.
Proof.
  intros Hl Ht Hi Hr. split; rewrite ?Hl, ?Ht; try done.
  - exists []. by rewrite app_nil_r.
  - intros e _. unfold is_cancelled. by rewrite Hl.
  - exists []. by rewrite app_nil_r.
Qed.

(** What the methods callables use do: drawing a flag, [call_soon], cancelling
    any handle, and scheduling a timer. *)
Lemma is_cancelled_new_flag e (w : W) :
  allocated w e → is_cancelled e w = true →
  default false (flags (new_flag (reactor (s_loop w))).2 !! re_cancelled e) = true.
Proof.
  unfold allocated, is_cancelled. intros He Hc. simpl.
  by rewrite lookup_insert_ne by lia.
Qed.

Lemma call_soon_cb late c : moves (Rcb late) (on_loop (W := W) (call_soon c)).
Proof.
  intros w. unfold on_loop, zoom, call_soon, check_closed. rewrite !run_bind, run_gets.
  change (lget w) with (s_loop w). destruct (closed (s_loop w)); [by apply Rcb_same|].
  rewrite run_ret. unfold alloc_flag. cbv beta iota. rewrite run_bind. cbn [new_flag].
  cbv beta iota. rewrite run_bind, run_modify, run_ret. cbv beta iota.
  split; try done; simpl.
  - eexists. split; [done|]. constructor; [|done]. unfold fresh, allocated. simpl. lia.
  - intros e He Hc. exact (is_cancelled_new_flag e w He Hc).
  - lia.
  - exists []. by rewrite app_nil_r.
Qed.

Lemma cancel_cb late f : moves (Rcb late) (on_loop (W := W) (cancel_ready f)).
Proof.
  intros w. unfold on_loop, zoom, cancel_ready. change (lget w) with (s_loop w). cbn [snd].
  split; try done; simpl; try (exists []; by rewrite app_nil_r).
  intros e _. unfold is_cancelled. simpl. destruct (decide (re_cancelled e = f)) as [->|Hne].
  - by rewrite lookup_insert_eq.
  - by rewrite lookup_insert_ne.
Qed.

(** Scheduling a timer on an open loop. *)
Definition scheduled (d : f64) (c : callback) (w : W) : W :=
  set_timers (timers w ++ [MkTimer d (next_seq w) (MkReady c (next_id (reactor (s_loop w))))])
    (u64 (next_seq w + 1))
    (set_loop (set_reactor (new_flag (reactor (s_loop w))).2 (s_loop w)) w).

Lemma call_at_run d c (w : W) :
  closed (s_loop w) = false →
  call_at d c w = (Ret (next_id (reactor (s_loop w))), scheduled d c w).
Proof.
  intros Hc. unfold call_at. rewrite run_bind. unfold on_loop at 1, zoom, check_closed.
  rewrite run_bind, run_gets. change (lget w) with (s_loop w). rewrite Hc, run_ret.
  by destruct w.
Qed.

Lemma call_at_cb late d c (w : W) :
  (∀ e, late (MkTimer d (next_seq w) e)) → d ≠ NaN → next_seq w ∉ seq <$> timers w →
  Rcb late w (call_at d c w).2.
Proof.
  intros Hlate Hd Hs. destruct (closed (s_loop w)) eqn:Hc.
  { unfold call_at, on_loop, zoom, check_closed. rewrite run_bind, run_bind, run_gets.
    change (lget w) with (s_loop w). rewrite Hc. by apply Rcb_same. }
  rewrite call_at_run by done. split; try done; simpl.
  - exists []. by rewrite app_nil_r.
  - intros e He Hce. exact (is_cancelled_new_flag e w He Hce).
  - lia.
  - eexists. split; [done|]. by constructor.
  - intros [Hn Hnd]. split; [by apply Forall_app; split; [|constructor]|].
    rewrite fmap_app. apply NoDup_app. split_and!; [done| |by apply NoDup_singleton].
    intros n Hin. simpl. rewrite list_elem_of_singleton. by intros ->.
Qed.
End scheduler.

(** ** One batch *)

Section batch.
Context {A : Type}.
Local Abbreviation W := (sched A).
Context (call : callback → M W unit) (deliver : callback → IoData → M W unit)
  (handler : exn → M W unit) (clock : A → f64).
Context (late : TimerEntry → Prop).

(** The promise of the Python callables. *)
Class CallbackLaws : Prop := {
  law_call c : moves (Rcb late) (call c);
  law_deliver c d : moves (Rcb late) (deliver c d);
  law_handler e : moves (Rcb late) (handler e);
}.
Context `{!CallbackLaws}.

Lemma reported_cb m :
  moves (Rcb late) m → moves (Rcb late) (reported handler m).
Proof. intros Hm. unfold reported. moves_auto; first [exact Hm|apply law_handler]. Qed.

Lemma reported_ret m (w : W) : (reported handler m w).1 = Ret tt.
Proof. unfold reported, try_except, try_else. by destruct (m w) as [[[]|e] w']. Qed.

(** What running entries keeps: all of [Rcb] but the list of what was run. *)
Record Rrun (w w' : W) : Prop := {
  run_ready_new : ∃ new, ready (s_loop w') = ready (s_loop w) ++ new ∧ Forall (fresh w) new;
  run_cancelled e : allocated w e → is_cancelled e w = true → is_cancelled e w' = true;
  run_id : next_id (reactor (s_loop w)) ≤ next_id (reactor (s_loop w'));
  run_timers_new : ∃ new, timers w' = timers w ++ new ∧ Forall late new;
  run_heap : timers_ok (timers w) → timers_ok (timers w');
}.

Lemma run_entry_spec e (w : W) :
  (run_entry call handler e w).1 = Ret tt ∧
  Rrun w (run_entry call handler e w).2 ∧
  ran (run_entry call handler e w).2 = ran w ++ marked [negb (is_cancelled e w)] [e].
Proof.
  unfold run_entry. rewrite run_bind, run_gets. destruct (is_cancelled e w).
  - rewrite run_ret. cbn [fst snd negb marked]. rewrite app_nil_r. split_and!; try done.
    split; try done; exists []; by rewrite app_nil_r.
  - rewrite run_bind, run_modify. cbv beta iota. split; [apply reported_ret|].
    pose proof (reported_cb _ (law_call (re_callback e)) (add_ran e w)) as [].
    by split; [split|].
Qed.

(** The entries of a batch that ran, by marks: what was cancelled when the batch
    started did not run, and what did not run was cancelled when it ended. *)
Definition marks_ok (w w' : W) (l : list ReadyEntry) (bs : list bool) : Prop :=
  Forall2 (λ e b, (is_cancelled e w = true → b = false) ∧
                  (b = false → is_cancelled e w' = true)) l bs.

Lemma marks_cons (w w1 w2 : W) e l bs :
  Rrun w w1 → allocated w e → Forall (allocated w) l →
  (is_cancelled e w1 = true → is_cancelled e w2 = true) →
  marks_ok w1 w2 l bs → marks_ok w w2 (e :: l) (negb (is_cancelled e w) :: bs).
Proof.
  intros HR He Hl Hmono Hbs. constructor.
  - split; [by intros ->|]. intros Hc. apply negb_false_iff in Hc.
    apply Hmono. by apply (run_cancelled w w1 HR).
  - unfold marks_ok in *. revert Hbs. revert Hl. clear -HR. revert bs.
    induction l as [|x l IH]; intros bs Hl Hbs; inversion Hbs as [|? b ? bs' [H1 H2] Hr]; subst;
      [constructor|]. apply Forall_cons in Hl as [Hx Hl]. constructor; [|by apply IH].
    split; [|done]. intros Hc. apply H1. by apply (run_cancelled w w1 HR).
Qed.

Lemma allocated_mono (w w' : W) e : Rrun w w' → allocated w e → allocated w' e.
Proof. intros HR. pose proof (run_id w w' HR). unfold allocated. lia. Qed.

Lemma fresh_mono (w w' : W) e : Rrun w w' → fresh w' e → fresh w e.
Proof. intros HR Hf He. by apply Hf, (allocated_mono w w'). Qed.

Lemma ready_snapshot n rest q (w : W) :
  length q = n → ready (s_loop w) = q ++ rest → Forall (allocated w) q →
  let w' := (run_ready call handler n w).2 in
  (run_ready call handler n w).1 = Ret tt ∧
  (∃ bs, ran w' = ran w ++ marked bs q ∧ marks_ok w w' q bs) ∧
  (∃ new, ready (s_loop w') = rest ++ new ∧ Forall (fresh w) new) ∧
  (∀ e, allocated w e → allocated w' e ∧ (is_cancelled e w = true → is_cancelled e w' = true)).
Proof.
  cbv zeta. revert q rest w. induction n as [|n IH]; intros [|e q] rest w Hn Hq Ha; try done.
  { cbn [run_ready]. rewrite run_ret. split_and!; try done.
    - exists []. split; [by rewrite app_nil_r|constructor].
    - exists []. cbn [snd]. by rewrite Hq, app_nil_r. }
  cbn [run_ready]. rewrite run_bind. unfold pop_ready. rewrite Hq. cbn [Datatypes.app].
  set (w1 := set_loop _ w). rewrite run_bind.
  destruct (run_entry_spec e w1) as (Hret & HR & Hran).
  destruct (run_entry call handler e w1) as [r w2]. cbn [fst snd] in *. subst r.
  apply Forall_cons in Ha as [He Ha]. cbv beta iota.
  destruct (run_ready_new _ _ HR) as (new & Hnew & Hfr). simpl in Hnew.
  destruct (IH q (rest ++ new) w2) as (Hr & (bs & Hb & Hm) & (new' & Hrest & Hfr') & Hall).
  { simpl in Hn. lia. } { by rewrite Hnew, <- app_assoc. }
  { eapply Forall_impl; [exact Ha|]. intros x Hx. by apply (allocated_mono w1). }
  split_and!; [done| | |].
  - exists (negb (is_cancelled e w1) :: bs). rewrite marked_cons, app_assoc.
    split; [rewrite Hb; f_equal; rewrite Hran; by destruct (is_cancelled e w1)|].
    apply (marks_cons w1 w2); try done. intros Hc. apply Hall; [|done].
    by apply (allocated_mono w1).
  - exists (new ++ new'). rewrite Hrest, <- app_assoc. split; [done|].
    apply Forall_app. split; [exact Hfr|]. eapply Forall_impl; [exact Hfr'|].
    intros x. apply (fresh_mono w1 w2 x HR).
  - intros x Hx. destruct (Hall x) as [H1 H2]; [by apply (allocated_mono w1)|].
    split; [done|]. intros Hc. apply H2. by apply (run_cancelled w1 w2 HR).
Qed.

(** The phases after the ready callbacks: they run entries of timers only, and
    what is queued waits. *)
Definition from_timers (w : W) (e : ReadyEntry) : Prop :=
  ∃ t, entry t = e ∧ (t ∈ timers w ∨ late t).
Record Rrest (w w' : W) : Prop := {
  rest_ready : ∃ new, ready (s_loop w') = ready (s_loop w) ++ new ∧ Forall (fresh w) new;
  rest_cancelled e : allocated w e → is_cancelled e w = true → is_cancelled e w' = true;
  rest_id : next_id (reactor (s_loop w)) ≤ next_id (reactor (s_loop w'));
  rest_timers t : t ∈ timers w' → t ∈ timers w ∨ late t;
  rest_ran : ∃ rest, ran w' = ran w ++ rest ∧ Forall (from_timers w) rest;
}.
#[export] Instance Rrest_preorder : PreOrder Rrest.
Proof.
  split.
  - intros w. split; try done; [exists []; by rewrite app_nil_r|auto|exists []; by rewrite app_nil_r].
  - intros w1 w2 w3 [(n1 & e1 & F1) c1 i1 t1 (r1 & a1 & G1)] [(n2 & e2 & F2) c2 i2 t2 (r2 & a2 & G2)].
    split; [|auto| |..].
    + exists (n1 ++ n2). rewrite e2, e1, <- app_assoc. split; [done|]. apply Forall_app.
      split; [done|]. eapply Forall_impl; [exact F2|]. unfold fresh, allocated. lia.
    + intros e He Hc. apply c2; [unfold allocated in *; lia|auto].
    + lia.
    + intros t [?|?]%t2; auto.
    + exists (r1 ++ r2). rewrite a2, a1, <- app_assoc. split; [done|]. apply Forall_app.
      split; [done|]. eapply Forall_impl; [exact G2|]. intros e (t & He & [Ht|Ht]).
      * exists t. auto.
      * exists t. auto.
Qed.

Lemma Rcb_rest (w w' : W) : Rcb late w w' → Rrest w w'.
Proof.
  intros [Hr Hc Hi (new & Ht & Hl) _ _ Hran]. split; try done.
  - rewrite Ht. intros t [?|Hin]%elem_of_app; [by left|right].
    rewrite Forall_forall in Hl. by apply Hl.
  - exists []. by rewrite app_nil_r.
Qed.
Lemma Rrest_same (w w' : W) :
  s_loop w' = s_loop w → timers w' ⊆ timers w → ran w' = ran w → Rrest w w'.
Proof.
  intros Hl Ht Hr. split; rewrite ?Hl; try done.
  - exists []. by rewrite app_nil_r.
  - intros e _. unfold is_cancelled. by rewrite Hl.
  - intros t. left. by apply Ht.
  - exists []. by rewrite Hr, app_nil_r.
Qed.

Lemma run_timer_rest e (w w1 : W) :
  Rrest w w1 → from_timers w e → Rrest w (run_entry call handler e w1).2.
Proof.
  intros HR He. unfold run_entry. rewrite run_bind, run_gets.
  destruct (is_cancelled e w1); [done|]. rewrite run_bind, run_modify. cbv beta iota.
  etrans; [|apply Rcb_rest, reported_cb, law_call].
  destruct HR as [Hr Hc Hi Ht (rest & Hran & Hf)]. split; try done.
  exists (rest ++ [e]). simpl. rewrite Hran, <- app_assoc. split; [done|].
  apply Forall_app. by split; [|constructor].
Qed.

Lemma run_timers_rest fuel now : moves Rrest (run_timers call handler fuel now).
Proof.
  induction fuel as [|fuel IH]; intros w; cbn [run_timers]; [done|].
  rewrite run_bind. unfold pop_due. destruct (peek (timers w)) as [top|] eqn:Hp; [|done].
  destruct (fle (when top) now); [|done]. rewrite run_bind.
  set (w1 := set_timers _ _ w).
  assert (Rrest w w1) as H1.
  { apply Rrest_same; [done| |done]. intros t [_ Ht]%list_elem_of_filter. done. }
  pose proof (run_timer_rest (entry top) w w1 H1) as H2.
  destruct (run_entry call handler (entry top) w1) as [[[]|x] w2]; cbn [snd] in H2.
  - etrans; [|apply IH]. apply H2. exists top. split; [done|]. left. by apply peek_in.
  - apply H2. exists top. split; [done|]. left. by apply peek_in.
Qed.

Lemma run_io_rest fuel : moves Rrest (run_io call deliver handler fuel).
Proof.
  assert (∀ m, moves (Rcb late) m → moves Rrest (reported handler m)) as Hrep
    by (intros m Hm w; by apply Rcb_rest, reported_cb).
  assert (∀ c, moves Rrest (complete call deliver handler c)) as Hc.
  { intros c. unfold complete. destruct c; moves_auto; try (apply Hrep; moves_auto);
      try apply law_call; try apply law_deliver; by apply Rrest_same. }
  induction fuel as [|fuel IH]; cbn [run_io]; moves_auto; try done.
  intros w. unfold pop_io. destruct (io w); by apply Rrest_same.
Qed.

Lemma run_ready_timers n (w : W) :
  let w' := (run_ready call handler n w).2 in
  next_id (reactor (s_loop w)) ≤ next_id (reactor (s_loop w')) ∧
  ∀ t, t ∈ timers w' → t ∈ timers w ∨ late t.
Proof.
  cbv zeta. revert w. induction n as [|n IH]; intros w; cbn [run_ready]; [by auto|].
  rewrite run_bind. unfold pop_ready. destruct (ready (s_loop w)) as [|e q]; [by auto|].
  rewrite run_bind. set (w1 := set_loop _ w).
  destruct (run_entry_spec e w1) as (Hret & HR & _).
  destruct (run_entry call handler e w1) as [r w2]. cbn [fst snd] in *. subst r.
  destruct (IH w2) as [Hi Ht]. pose proof (run_id _ _ HR) as Hi1.
  destruct (run_timers_new _ _ HR) as (new & Hnew & Hl). rewrite Forall_forall in Hl.
  change (s_loop w1) with (set_ready q (s_loop w)) in Hi1. change (timers w1) with (timers w) in Hnew.
  split; [simpl in *; lia|]. intros t [Hin|?]%Ht; [|by right].
  rewrite Hnew in Hin. apply elem_of_app in Hin as [?|?]; [by left|right; by apply Hl].
Qed.

Lemma run_timers_ret fuel now (w : W) : ∃ ok, (run_timers call handler fuel now w).1 = Ret ok.
Proof.
  revert w. induction fuel as [|fuel IH]; intros w; cbn [run_timers]; [by eexists|].
  rewrite run_bind. unfold pop_due. destruct (peek (timers w)) as [top|]; [|by eexists].
  destruct (fle (when top) now); [|by eexists]. rewrite run_bind.
  destruct (run_entry_spec (entry top) (set_timers (remove_seq (seq top) (timers w)) (next_seq w) w))
    as (Hr & _).
  destruct (run_entry call handler (entry top) _) as [[[]|x] w2]; [apply IH|done].
Qed.

Lemma complete_ret c (w : W) : (complete call deliver handler c w).1 = Ret tt.
Proof.
  unfold complete. destruct c as [sl|sl d]; rewrite run_bind, run_gets; cbv beta iota.
  - rewrite run_bind. destruct (slot_of sl w ≫= cb) as [c|]; [|done].
    pose proof (reported_ret (call c) w) as Hr.
    by destruct (reported handler (call c) w) as [[[]|x] w1].
  - destruct (slot_of sl w ≫= drain); [apply reported_ret|done].
Qed.

Lemma run_io_ret fuel (w : W) : ∃ ok, (run_io call deliver handler fuel w).1 = Ret ok.
Proof.
  revert w. induction fuel as [|fuel IH]; intros w; cbn [run_io]; [by eexists|].
  rewrite run_bind. unfold pop_io. destruct (io w) as [|c q]; [by eexists|].
  rewrite run_bind. pose proof (complete_ret c (set_io q w)) as Hr.
  destruct (complete call deliver handler c (set_io q w)) as [[[]|x] w1]; [apply IH|done].
Qed.
End batch.

(** *** Timers *)

Definition due (now : f64) (t : TimerEntry) : bool := fle (when t) now.
Definition due_later (now : f64) (t : TimerEntry) : Prop := due now t = false.
#[export] Instance due_later_dec now t : Decision (due_later now t).
Proof. unfold due_later. apply _. Defined.

(** The timers that are due, and the others, in the order of scheduling. *)
Definition due_timers (now : f64) : list TimerEntry → list TimerEntry :=
  filter (λ t, due now t = true).
Definition late_timers (now : f64) : list TimerEntry → list TimerEntry :=
  filter (due_later now).

Lemma due_timers_late now l : Forall (due_later now) l → due_timers now l = [].
Proof.
  intros Hl. apply elem_of_nil_inv. intros t [Hd Ht]%list_elem_of_filter.
  rewrite Forall_forall in Hl. specialize (Hl t Ht). unfold due_later in Hl. congruence.
Qed.

(** Taking a due timer out and scheduling late ones. *)
Lemma due_timers_step now l1 u l2 new :
  due now u = true → Forall (due_later now) new →
  due_timers now (l1 ++ u :: l2) ≡ₚ u :: due_timers now ((l1 ++ l2) ++ new) ∧
  late_timers now ((l1 ++ l2) ++ new) = late_timers now (l1 ++ u :: l2) ++ new.
Proof.
  intros Hu Hnew. unfold due_timers, late_timers. rewrite !filter_app.
  rewrite filter_cons_True, (filter_cons_False (due_later now)) by (unfold due_later; congruence).
  change (filter (λ t, due now t = true) new) with (due_timers now new).
  rewrite due_timers_late, (filter_all (due_later now) new), app_nil_r by done.
  split; [by rewrite Permutation_middle|done].
Qed.

Lemma timers_ok_perm l l' : l ≡ₚ l' → timers_ok l → timers_ok l'.
Proof. intros Hp [Hn Hd]. split; by rewrite <- Hp. Qed.

Lemma remove_seq_split l t :
  timers_ok l → t ∈ l →
  ∃ l1 l2, l = l1 ++ t :: l2 ∧ remove_seq (seq t) l = l1 ++ l2.
Proof.
  intros [_ Hd] [l1 [l2 ->]]%list_elem_of_split. exists l1, l2. split; [done|].
  rewrite fmap_app, fmap_cons in Hd. apply NoDup_app in Hd as (_ & Hd1 & Hd2).
  apply NoDup_cons in Hd2 as [Hd2 _].
  assert (∀ l, seq t ∉ seq <$> l → remove_seq (seq t) l = l) as Hid.
  { intros l Hl. apply filter_all, Forall_forall. intros x Hx He. apply Hl.
    rewrite <- He. by apply list_elem_of_fmap_2. }
  unfold remove_seq in *. rewrite filter_app, filter_cons_False by auto.
  rewrite !Hid; [done|done|]. intros Hin. apply (Hd1 _ Hin). by left.
Qed.

Section timers.
Context {A : Type}.
Local Abbreviation W := (sched A).
Context (call : callback → M W unit) (deliver : callback → IoData → M W unit)
  (handler : exn → M W unit) (now : f64).
Context `{!CallbackLaws call deliver handler (due_later now)}.

Lemma pop_due_none (w : W) :
  timers_ok (timers w) → Forall (due_later now) (timers w) → pop_due now w = (Ret None, w).
Proof.
  intros Hok Hall. unfold pop_due. destruct (peek (timers w)) as [t|] eqn:Hp; [|done].
  apply peek_spec in Hp as [Ht _]; [|done].
  rewrite Forall_forall in Hall. by rewrite (Hall t Ht).
Qed.

Lemma pop_due_some (w : W) t :
  timers_ok (timers w) → t ∈ timers w → due now t = true →
  ∃ u l1 l2, timers w = l1 ++ u :: l2 ∧ due now u = true ∧
    pop_due now w = (Ret (Some (entry u)), set_timers (l1 ++ l2) (next_seq w) w) ∧
    ∀ v, v ∈ l1 ++ l2 → earlier u v.
Proof.
  intros Hok Ht Hdue. unfold pop_due. destruct (peek (timers w)) as [u|] eqn:Hp; cycle 1.
  { apply peek_none in Hp. rewrite Hp in Ht. by apply elem_of_nil in Ht. }
  apply peek_spec in Hp as [Hu Hmin]; [|done].
  assert (due now u = true) as Hdu.
  { destruct (Hmin t Ht) as [->|He]; [done|]. by eapply earlier_due. }
  destruct (remove_seq_split _ u Hok Hu) as (l1 & l2 & Hl & Hrem).
  exists u, l1, l2. unfold due in Hdu. rewrite Hdu, Hrem. split_and!; try done.
  intros v Hv. destruct (Hmin v) as [->|?]; [rewrite Hl; apply elem_of_app; apply elem_of_app in Hv as [?|?]; [by left|by right; right]| |done].
  exfalso. destruct Hok as [_ Hnd]. rewrite Hl, fmap_app, fmap_cons in Hnd.
  apply NoDup_app in Hnd as (_ & H1 & H2). apply NoDup_cons in H2 as [H2 _].
  apply elem_of_app in Hv as [Hv|Hv].
  - apply (H1 (seq u)); [by apply list_elem_of_fmap_2|by left].
  - apply H2. by apply list_elem_of_fmap_2.
Qed.

Lemma run_timers_sorted fuel (w : W) :
  timers_ok (timers w) → Forall (allocated w) (entry <$> due_timers now (timers w)) →
  length (due_timers now (timers w)) < fuel →
  let out := run_timers call handler fuel now w in
  out.1 = Ret true ∧
  (∃ ds bs, ds ≡ₚ due_timers now (timers w) ∧ StronglySorted earlier ds ∧
     ran out.2 = ran w ++ marked bs (entry <$> ds) ∧ marks_ok w out.2 (entry <$> ds) bs) ∧
  (∃ new, timers out.2 = late_timers now (timers w) ++ new ∧ Forall (due_later now) new) ∧
  (∀ e, allocated w e → is_cancelled e w = true → is_cancelled e out.2 = true).
Proof.
  cbv zeta. revert w. induction fuel as [|fuel IH]; intros w Hok Hall Hfuel; [lia|].
  cbn [run_timers]. rewrite run_bind.
  destruct (decide (Forall (due_later now) (timers w))) as [Hlate|Hdue].
  { rewrite pop_due_none by done. rewrite run_ret. cbn [fst snd].
    rewrite due_timers_late by done. unfold late_timers. rewrite filter_all by done.
    split_and!; try done.
    - exists [], []. split_and!; try done; [constructor|by rewrite app_nil_r|constructor].
    - exists []. by rewrite app_nil_r. }
  apply not_Forall_Exists in Hdue; [|apply _].
  apply Exists_exists in Hdue as (t & Ht & Hd). unfold due_later in Hd.
  apply not_false_is_true in Hd.
  destruct (pop_due_some w t Hok Ht Hd) as (u & l1 & l2 & Hl & Hdu & -> & Hmin).
  cbv beta iota. rewrite run_bind. set (w1 := set_timers _ _ w).
  destruct (run_entry_spec call deliver handler (due_later now) (entry u) w1) as (Hret & HR & Hran).
  destruct (run_entry call handler (entry u) w1) as [r w2]. cbn [fst snd] in *. subst r.
  destruct (run_timers_new _ _ _ HR) as (new & Hnew & Hlate).
  change (timers w1) with (l1 ++ l2) in Hnew.
  assert (timers_ok (timers w2)) as Hok2.
  { apply (run_heap _ _ _ HR). eapply (timers_ok_cons u), timers_ok_perm, Hok.
    rewrite Hl. by rewrite <- Permutation_middle. }
  destruct (due_timers_step now l1 u l2 new Hdu Hlate) as [Hp Hq].
  rewrite <- Hnew, <- Hl in Hp, Hq.
  assert (allocated w1 (entry u) ∧ Forall (allocated w1) (entry <$> due_timers now (timers w2)))
    as [Hau Ha2] by (by rewrite Hp, fmap_cons, Forall_cons in Hall).
  destruct (IH w2 Hok2) as (Hret & (ds & bs & Hds & Hs & Hran' & Hm) & (new' & Ht' & Hl') & Hc).
  { eapply Forall_impl; [exact Ha2|]. intros e. by apply (allocated_mono (due_later now) w1). }
  { rewrite Hp in Hfuel. simpl in Hfuel. lia. }
  cbv beta iota. split_and!; [done| | |].
  - exists (u :: ds), (negb (is_cancelled (entry u) w1) :: bs).
    rewrite fmap_cons, marked_cons, Hran', Hran. split_and!; [by rewrite Hds, Hp| | |].
    + constructor; [done|]. apply Forall_forall. intros v Hv. apply Hmin.
      rewrite Hds in Hv. unfold due_timers in Hv. rewrite Hnew in Hv.
      apply list_elem_of_filter in Hv as [Hdv [Hv|Hv]%elem_of_app]; [done|].
      rewrite Forall_forall in Hlate. specialize (Hlate v Hv). unfold due_later in Hlate. congruence.
    + rewrite <- app_assoc. do 2 f_equal. by destruct (is_cancelled (entry u) w1).
    + apply (marks_cons (due_later now) w1 w2); try done.
      * by rewrite Hds.
      * intros Hcu. apply Hc; [|done]. by apply (allocated_mono (due_later now) w1).
  - exists (new ++ new'). rewrite Ht', Hq, <- app_assoc. split; [done|]. by apply Forall_app.
  - intros e He Hce. apply Hc; [by apply (allocated_mono (due_later now) w1)|].
    by apply (run_cancelled _ _ _ HR).
Qed.
End timers.

(** ** Properties *)

Section props.
Context {A : Type}.
Local Abbreviation W := (sched A).
Context (call : callback → M W unit) (deliver : callback → IoData → M W unit)
  (handler : exn → M W unit) (clock : A → f64).


(** C22: Timers.  With callbacks that schedule no timer already due, the timer
    phase ends; it runs the due timers in the order of their deadlines, equal
    deadlines in the order of scheduling, cancelled ones skipped, and leaves
    exactly the timers that are not due and those scheduled meanwhile. *)
Theorem timers_run_in_order now `{!CallbackLaws call deliver handler (due_later now)} fuel (w : W) :
  timers_ok (timers w) → Forall (allocated w) (entry <$> due_timers now (timers w)) →
  length (due_timers now (timers w)) < fuel →
  let out := run_timers call handler fuel now w in
  out.1 = Ret true ∧
  (∃ ds bs, ds ≡ₚ due_timers now (timers w) ∧ StronglySorted earlier ds ∧
     ran out.2 = ran w ++ marked bs (entry <$> ds) ∧ marks_ok w out.2 (entry <$> ds) bs) ∧
  ∃ new, timers out.2 = late_timers now (timers w) ++ new ∧ Forall (due_later now) new.
Proof.
  intros Hok Ha Hf. cbv zeta.
  by destruct (run_timers_sorted call deliver handler now fuel w Hok Ha Hf) as (? & ? & ? & _).
Qed.

(** A callback that schedules itself again for [d]. *)
Definition rearm (d : f64) (c : callback) : M W unit := call_at d c;; mret tt.

Lemma rearm_run d c (w : W) :
  closed (s_loop w) = false → rearm d c w = (Ret tt, scheduled d c w).
Proof. intros Hc. unfold rearm. by rewrite run_bind, call_at_run. Qed.

(** A timer whose callback schedules itself again for a deadline already
    passed keeps the timer phase, and so the batch, from ending: after any number
    of iterations it is still running. *)
Theorem overdue_rearm_never_ends now d (w : W) d0 n c f :
  fle d now = true → fle d0 now = true → closed (s_loop w) = false →
  timers w = [MkTimer d0 n (MkReady c f)] → is_cancelled (MkReady c f) w = false →
  ∀ fuel, let out := run_timers (rearm d) handler fuel now w in
    out.1 = Ret false ∧ length (ran out.2) = length (ran w) + fuel ∧ timers out.2 ≠ [].
Proof.
  intros Hd Hd0 Hc Ht Hf fuel. cbv zeta. revert w d0 n f Hd0 Hc Ht Hf.
  induction fuel as [|fuel IH]; intros w d0 n f Hd0 Hc Ht Hf.
  { cbn [run_timers]. rewrite run_ret. split_and!; [done|simpl; lia|]. simpl. by rewrite Ht. }
  cbn [run_timers]. rewrite run_bind. unfold pop_due. rewrite Ht. cbn [peek when entry seq].
  rewrite Hd0. unfold remove_seq. rewrite filter_cons_False by (by intros []).
  rewrite run_bind. unfold run_entry. rewrite run_bind, run_gets.
  change (is_cancelled (MkReady c f) _) with (is_cancelled (MkReady c f) w). rewrite Hf.
  rewrite run_bind, run_modify. cbv beta iota.
  unfold reported, try_except, try_else. cbn [re_callback].
  rewrite rearm_run by exact Hc. rewrite run_ret. cbv beta iota. set (w1 := scheduled _ _ _).
  destruct (IH w1 d (next_seq w) (next_id (reactor (s_loop w))) Hd Hc) as (H1 & H2 & H3).
  - done.
  - unfold is_cancelled. simpl. by rewrite lookup_insert_eq.
  - split_and!; [exact H1| |exact H3]. rewrite H2. simpl. rewrite length_app. simpl. lia.
Qed.

(** C23: What the loop parks for, by a finite clock.  Nothing scheduled: no deadline.  Otherwise the
    time until the earliest timer, to the nearest nanosecond and never negative.
    It is zero, and the loop yields instead of parking, just when the timer is
    due, by [timers_due], or at most half a nanosecond away.  The conversion
    panics just when the deadline is not a number, infinite, or 2^64 seconds
    away. *)
Theorem next_deadline_bounds (w : W) t :
  clock (app w) = Fin t →
  match next_deadline clock w with
  | NoTimer => timers w = []
  | Duration ns =>
      ∃ top, peek (timers w) = Some top ∧
      if timers_due clock w then ns = 0%Z
      else ∃ z, fsub (when top) (Fin t) = Fin z ∧ (0 < z < 2 ^ 64 * one)%Z ∧
             (0 ≤ ns)%Z ∧ (- one ≤ 2 * (ns * one - z * 10 ^ 9) ≤ one)%Z ∧
             (ns = 0%Z ↔ (2 * 10 ^ 9 * z ≤ one)%Z)
  | Panics =>
      timers_due clock w = false ∧
      ∃ top, peek (timers w) = Some top ∧
        match when top with
        | Fin x => fsub (Fin x) (Fin t) = PInf ∨
                   ∃ z, fsub (Fin x) (Fin t) = Fin z ∧ (2 ^ 64 * one ≤ z)%Z
        | NaN | PInf => True
        | NInf => False
        end
  end.
Proof.
  intros Ht. unfold next_deadline, timers_due. rewrite Ht.
  destruct (peek (timers w)) as [top|] eqn:Hp; [|by apply peek_none].
  pose proof (fsub_due (when top) t) as Hdue.
  destruct (fle (fsub (when top) (Fin t)) (Fin 0)) eqn:Hle.
  { exists top. by rewrite <- Hdue. }
  unfold from_secs_f64. destruct (fsub (when top) (Fin t)) as [z| | |] eqn:Hs.
  - rewrite fle_fin in Hle. apply bool_decide_eq_false in Hle.
    destruct (decide (0 ≤ z < 2 ^ 64 * one)%Z) as [Hz|Hz].
    + exists top. split; [done|]. rewrite <- Hdue. exists z. pose proof one_pos as H1.
      pose proof (nearest_spec (z * NANOS_PER_SEC) one H1) as Hn.
      pose proof (nearest_0 (z * NANOS_PER_SEC) one ltac:(unfold NANOS_PER_SEC; lia) H1) as H0.
      unfold NANOS_PER_SEC in *.
      split; [done|]. split; [lia|]. split; [apply nearest_nonneg; lia|].
      split; [lia|]. rewrite H0. split; lia.
    + split; [done|]. exists top. split; [done|]. destruct (when top) as [x| | |] eqn:Hw; try done.
      right. exists z. split; [done|]. lia.
  - split; [done|]. exists top. split; [done|].
    destruct (when top) as [x| | |] eqn:Hw; try done. by left.
  - done.
  - split; [done|]. exists top. split; [done|].
    destruct (when top) as [x| | |] eqn:Hw; try done.
    exfalso. unfold fsub, fadd, fneg, finite in Hs. by repeat case_decide.
Qed.

(** C24: [close()].  A running loop refuses; a closed one is left as it is;
    otherwise nothing is left to run: no entry, timer, completion or watcher, a
    batch does nothing, and scheduling raises. *)
Theorem close_stops_everything (w : W) c d fuel :
  if running w then close_loop w = (Raise (RuntimeError "Cannot close a running event loop"), w)
  else if closed (s_loop w) then close_loop w = (Ret tt, w)
  else
    let w' := (close_loop w).2 in
    (close_loop w).1 = Ret tt ∧ ready (s_loop w') = [] ∧ timers w' = [] ∧ io w' = [] ∧
    (∀ fd dir, is_polling fd dir (reactor (s_loop w')) = false) ∧
    run_batch call deliver handler clock (S fuel) w' = (Ret true, w') ∧
    close_loop w' = (Ret tt, w') ∧
    on_loop (call_soon c) w' = (Raise (RuntimeError "Event loop is closed"), w') ∧
    call_at d c w' = (Raise (RuntimeError "Event loop is closed"), w').
Proof.
  unfold close_loop at 1 2 3 4. rewrite run_bind, run_gets. destruct (running w) eqn:Hr; [done|].
  unfold loop_get. rewrite run_bind, run_gets. change (lget w) with (s_loop w).
  destruct (closed (s_loop w)) eqn:Hc; [done|]. cbv zeta.
  assert (∀ fd dir, is_polling fd dir (abort_all (reactor (s_loop w))) = false) as Hpoll
    by (intros fd dir; unfold is_polling, abort_all; by rewrite registered_no_fds).
  rewrite run_modify. cbn [fst snd]. split_and!; try done.
  unfold close_loop. rewrite run_bind, run_gets. simpl. by rewrite Hr.
Qed.
End props.

(** ** The properties at work *)

(** Callables of an application: one cancels a handle, one raises, one
    schedules more. *)
Definition demo_call (c : callback) : M (sched Z) unit :=
  match c with
  | CbUser 0 => on_loop (cancel_ready 2);; mret tt
  | CbUser 1 => raise (UserError 0)
  | CbUser 2 => on_loop (call_soon (CbUser 9));; mret tt
  | _ => mret tt
  end.
Definition demo_deliver (c : callback) (d : IoData) : M (sched Z) unit := mret tt.
Definition demo_handler (e : exn) : M (sched Z) unit := mret tt.
Definition demo_clock (t : Z) : f64 := Fin (t * one).

#[local] Instance demo_laws late : CallbackLaws demo_call demo_deliver demo_handler late.
Proof.
  split; [|intros; apply moves_ret, _..]. intros c.
  destruct c; try apply moves_ret, _; destruct n as [|[|[|n]]]; simpl; moves_auto; first [apply cancel_cb|apply call_soon_cb].
Qed.

Definition demo_sched (t : Z) : sched Z := MkSched empty_loop [] 0 [] true false [] [] false t.
Definition demo_queue : sched Z :=
  ((on_loop (call_soon (CbUser 0));; on_loop (call_soon (CbUser 1));;
    on_loop (call_soon (CbUser 3));; on_loop (call_soon (CbUser 2))) (demo_sched 0)).2.


(** Timers for 5 s, 2 s, 2 s and 9 s; the clock is at 5 s. *)
Definition demo_timers : sched Z :=
  ((call_at (Fin (5 * one)) (CbUser 4);; call_at (Fin (2 * one)) (CbUser 0);;
    call_at (Fin (2 * one)) (CbUser 5);; call_at (Fin (9 * one)) (CbUser 6)) (demo_sched 5)).2.

Lemma demo_timers_ok : timers_ok (timers demo_timers).
Proof.
  assert (seq <$> timers demo_timers = [0; 1; 2; 3]%Z) as Hs by (vm_compute; reflexivity).
  assert (forallb (λ t, negb (bool_decide (when t = NaN))) (timers demo_timers) = true) as Hn
    by (vm_compute; reflexivity).
  split; [|rewrite Hs; by apply (bool_decide_eq_true_1 (NoDup [0; 1; 2; 3]%Z))].
  rewrite Forall_forall. intros t Ht. rewrite forallb_forall in Hn.
  specialize (Hn t). rewrite <- list_elem_of_In, negb_true_iff, bool_decide_eq_false in Hn. auto.
Qed.

Lemma timers_run_in_order_witness :
  re_callback <$> ran (run_timers demo_call demo_handler 4 (demo_clock 5) demo_timers).2 =
    [CbUser 0; CbUser 4] ∧
  (run_timers demo_call demo_handler 4 (demo_clock 5) demo_timers).1 = Ret true.
Proof.
  split; [vm_compute; reflexivity|].
  refine (proj1 (timers_run_in_order demo_call demo_deliver demo_handler (demo_clock 5) 4
    demo_timers demo_timers_ok _ _)).
  - vm_compute. repeat constructor.
  - vm_compute. lia.
Defined.

Lemma overdue_rearm_never_ends_witness :
  let w := (call_at (Fin 0) (CbUser 7) (demo_sched 5)).2 in
  (run_timers (rearm (Fin 0)) demo_handler 1000 (demo_clock 5) w).1 = Ret false.
Proof.
  exact (proj1 (overdue_rearm_never_ends demo_handler (demo_clock 5) (Fin 0)
    (call_at (Fin 0) (CbUser 7) (demo_sched 5)).2 (Fin 0) 0 (CbUser 7) 0
    ltac:(vm_compute; reflexivity) ltac:(vm_compute; reflexivity) eq_refl eq_refl eq_refl 1000)).
Defined.

(** Half a second to wait; a third of a nanosecond, for which the loop does not
    park although nothing is due; and a deadline too far away. *)
Lemma next_deadline_bounds_witness :
  next_deadline demo_clock (call_at (Fin (5 * one + one / 2)) (CbUser 0) (demo_sched 5)).2 =
    Duration 500000000 ∧
  next_deadline (λ _, Fin 0) (call_at (Fin (one / 3000000000)) (CbUser 0) (demo_sched 0)).2 =
    Duration 0 ∧
  timers_due (λ _, Fin 0) (call_at (Fin (one / 3000000000)) (CbUser 0) (demo_sched 0)).2 = false ∧
  next_deadline demo_clock (call_at PInf (CbUser 0) (demo_sched 5)).2 = Panics ∧
  timers_due demo_clock (call_at PInf (CbUser 0) (demo_sched 5)).2 = false.
Proof.
  cbv zeta. do 4 (split; [vm_compute; reflexivity|]).
  pose proof (next_deadline_bounds demo_clock
    (call_at PInf (CbUser 0) (demo_sched 5)).2 (5 * one)%Z eq_refl) as H.
  rewrite (eq_refl : next_deadline demo_clock
    (call_at PInf (CbUser 0) (demo_sched 5)).2 = Panics) in H.
  exact (proj1 H).
Defined.
