(* ===== verification/SchedulerFrame.v ===== *)
(** * What a batch moves along

    A preorder on the loop's states that all callables move along, and that does
    not look at the queues the batch itself takes from, every batch moves along;
    and a batch runs every entry of its snapshot somewhere on the way. *)

From Stdlib Require Import Strings.Byte.
From stdpp Require Import base tactics list gmap strings.
From S2P Require Import Prelude State Reactor Env Loop LoopFrame Scheduler SchedulerProps.

(** From [w] to [w'] only the queues have changed, and the lists of what was run and
    released. *)
Definition queues_only {A} (w w' : sched A) : Prop :=
  (app w', running w', stop_requested w', permit w', set_ready [] (s_loop w')) =
  (app w, running w, stop_requested w, permit w, set_ready [] (s_loop w)).
Lemma queues_only_reactor {A} (w w' : sched A) :
  queues_only w w' → reactor (s_loop w') = reactor (s_loop w).
Proof. intros [= _ _ _ _ H _ _ _ _]. exact H. Qed.
Lemma queues_only_app {A} (w w' : sched A) : queues_only w w' → app w' = app w.
Proof. by intros [= H _ _ _ _ _ _ _ _]. Qed.

Section frame.
Context {A : Type}.
Local Abbreviation W := (sched A).
Context (call : callback → M W unit) (deliver : callback → IoData → M W unit)
  (handler : exn → M W unit) (clock : A → f64).

Class BatchFrame (R : relation W) : Prop := {
  bf_preorder : PreOrder R;
  bf_call c : moves R (call c);
  bf_deliver c d : moves R (deliver c d);
  bf_handler e : moves R (handler e);
  bf_queues w w' : queues_only w w' → R w w';
}.
Context (R : relation W) `{!BatchFrame R}.
#[local] Instance frame_preorder : PreOrder R := bf_preorder.
#[local] Hint Resolve bf_call bf_deliver bf_handler : moves.
#[local] Hint Extern 1 (moves R (modify _)) => (intros ?; by apply bf_queues) : moves.

Lemma reported_frame m : moves R m → moves R (reported handler m).
Proof. intros Hm. unfold reported. moves_auto. Qed.
#[local] Hint Resolve reported_frame : moves.

Lemma run_entry_frame e : moves R (run_entry call handler e).
Proof. unfold run_entry. moves_auto. Qed.
Lemma pop_ready_frame : moves R pop_ready.
Proof. intros w. unfold pop_ready. destruct (ready (s_loop w)); [done|by apply bf_queues]. Qed.
Lemma pop_due_frame now : moves R (pop_due now).
Proof.
  intros w. unfold pop_due. destruct (peek (timers w)); [|done].
  case_match; [by apply bf_queues|done].
Qed.
Lemma pop_io_frame : moves R pop_io.
Proof. intros w. unfold pop_io. destruct (io w); [done|by apply bf_queues]. Qed.
#[local] Hint Resolve run_entry_frame pop_ready_frame pop_due_frame pop_io_frame : moves.

Lemma run_ready_frame n : moves R (run_ready call handler n).
Proof. induction n; cbn [run_ready]; moves_auto. Qed.
Lemma run_timers_frame fuel now : moves R (run_timers call handler fuel now).
Proof. induction fuel; cbn [run_timers]; moves_auto. Qed.
Lemma complete_frame c : moves R (complete call deliver handler c).
Proof. destruct c as [sl|sl d]; unfold complete; moves_auto. apply reported_frame. moves_auto. Qed.
#[local] Hint Resolve run_ready_frame run_timers_frame complete_frame : moves.
Lemma run_io_frame fuel : moves R (run_io call deliver handler fuel).
Proof. induction fuel; cbn [run_io]; moves_auto. Qed.
#[local] Hint Resolve run_io_frame : moves.

(** A batch, and its phases after the ready callbacks. *)
Lemma later_phases_frame fuel :
  moves R (now ← gets (λ w, clock (app w));
           ok ← run_timers call handler fuel now;
           if (ok : bool) then run_io call deliver handler fuel else mret false).
Proof. moves_auto. Qed.
Lemma run_batch_frame fuel : moves R (run_batch call deliver handler clock fuel).
Proof. unfold run_batch. moves_auto. Qed.
End frame.

(** What a callable does by the loop's methods only. *)
Lemma loop_cb {A B} late (m : M LoopState B) :
  moves Rloop m → moves (Rcb late) (on_loop (W := sched A) m).
Proof.
  intros Hm w. specialize (Hm (s_loop w)). unfold on_loop, zoom. change (lget w) with (s_loop w).
  destruct (m (s_loop w)) as [r l]. destruct Hm as [Hr (new & Hq & Hnew)].
  split; try done; cbn in *; try (exists []; by rewrite app_nil_r).
  - exists new. split; [done|]. eapply Forall_impl; [exact Hnew|]. unfold fresh, allocated. lia.
  - intros e He. by apply (rr_flags _ _ Hr).
  - apply (rr_id _ _ Hr).
Qed.

(** ** An entry of the snapshot *)

Section entry.
Context {A : Type}.
Local Abbreviation W := (sched A).
Context (call : callback → M W unit) (deliver : callback → IoData → M W unit)
  (handler : exn → M W unit) (clock : A → f64).
Context (late : TimerEntry → Prop) `{!CallbackLaws call deliver handler late}.

(** Cancellation flags stay set, a preorder of this kind. *)
Record Rflags (w w' : W) : Prop := {
  rf_id : next_id (reactor (s_loop w)) ≤ next_id (reactor (s_loop w'));
  rf_cancelled e : allocated w e → is_cancelled e w = true → is_cancelled e w' = true;
}.
#[export] Instance flags_frame : BatchFrame call deliver handler Rflags.
Proof.
  assert (∀ w w', Rcb late w w' → Rflags w w') as Hcb
    by (intros w w' H; split; [apply (cb_id _ _ _ H)|apply (cb_cancelled _ _ _ H)]).
  split.
  - split; [by intros w; split|]. intros w1 w2 w3 [i1 c1] [i2 c2]. split; [lia|].
    intros e Ha Hc. apply c2; [unfold allocated in *; lia|auto].
  - intros c w. apply Hcb, (law_call call deliver handler late).
  - intros c d w. apply Hcb, (law_deliver call deliver handler late).
  - intros e w. apply Hcb, (law_handler call deliver handler late).
  - intros w w' Hr%queues_only_reactor. split; [by rewrite Hr|].
    intros e _. unfold is_cancelled. by rewrite Hr.
Qed.
Lemma flags_alive e (w w' : W) :
  Rflags w w' → allocated w e → is_cancelled e w' = false →
  allocated w' e ∧ is_cancelled e w = false.
Proof.
  intros [Hid Hc] Ha He. split; [unfold allocated in *; lia|].
  destruct (is_cancelled e w) eqn:Hw; [|done]. by rewrite (Hc e Ha Hw) in He.
Qed.

Context (R : relation W) `{!BatchFrame call deliver handler R}.
#[local] Instance entry_preorder : PreOrder R := bf_preorder call deliver handler.

(** The state an entry of the queue is run from, when the queue is run down. *)
Lemma ready_runs_entry e q rest (w : W) :
  ready (s_loop w) = q ++ rest → e ∈ q → allocated w e →
  let w' := (run_ready call handler (length q) w).2 in
  is_cancelled e w' = false →
  ∃ u, R w u ∧ R (reported handler (call (re_callback e)) (add_ran e u)).2 w'.
Proof.
  revert rest w. induction q as [|e0 q IH]; intros rest w Hq Hin Ha; cbv zeta.
  { by apply elem_of_nil in Hin. }
  cbn [length run_ready]. rewrite run_bind. unfold pop_ready. rewrite Hq. cbn [Datatypes.app].
  set (w1 := set_loop _ w). rewrite run_bind. change (allocated w1 e) in Ha.
  assert (R w w1) as H1 by by apply (bf_queues call deliver handler).
  pose proof (run_entry_frame call deliver handler R e0 w1) as H2.
  pose proof (run_entry_frame call deliver handler Rflags e0 w1) as F2.
  destruct (run_entry_spec call deliver handler late e0 w1) as (Hret & Hrun & _).
  destruct (run_ready_new _ _ _ Hrun) as (new & Hnew & _).
  assert (is_cancelled e0 w1 = false → run_entry call handler e0 w1 =
    reported handler (call (re_callback e0)) (add_ran e0 w1)) as Hrep.
  { intros Hc. unfold run_entry. by rewrite run_bind, run_gets, Hc, run_bind, run_modify. }
  destruct (run_entry call handler e0 w1) as [r w2]. cbn [fst snd] in *. subst r. cbv beta iota.
  pose proof (run_ready_frame call deliver handler R (length q) w2) as H3.
  pose proof (run_ready_frame call deliver handler Rflags (length q) w2) as F3.
  intros Hc. destruct (flags_alive e w1 w2 F2 Ha) as [Ha2 Hc1].
  { eapply flags_alive; [exact F3| |exact Hc]. pose proof (rf_id _ _ F2). unfold allocated in *. lia. }
  apply elem_of_cons in Hin as [<-|Hin].
  - exists w1. split; [done|]. by rewrite <- (Hrep Hc1).
  - destruct (IH (rest ++ new) w2) as (u & Hu & Hend); [rewrite Hnew; cbn; by rewrite <- app_assoc|done..|].
    exists u. split; [|done]. etrans; [exact H1|]. by etrans.
Qed.

(** Hence by every batch that starts with it, unless it is cancelled by the end. *)
Lemma batch_runs_entry e fuel (w : W) :
  e ∈ ready (s_loop w) → allocated w e →
  let w' := (run_batch call deliver handler clock fuel w).2 in
  is_cancelled e w' = false →
  ∃ u, R w u ∧ R (reported handler (call (re_callback e)) (add_ran e u)).2 w'.
Proof.
  intros Hin Ha. cbv zeta. unfold run_batch. rewrite run_bind, run_gets. cbv beta iota.
  rewrite run_bind.
  pose proof (ready_runs_entry e (ready (s_loop w)) [] w) as Hrun.
  pose proof (run_ready_frame call deliver handler Rflags (length (ready (s_loop w))) w) as F1.
  destruct (run_ready _ _ _ w) as [r w1]. cbn [fst snd] in *.
  assert (∀ w2, R w1 w2 → Rflags w1 w2 → is_cancelled e w2 = false →
    ∃ u, R w u ∧ R (reported handler (call (re_callback e)) (add_ran e u)).2 w2) as Hafter.
  { intros w2 H2 F2 Hc. destruct Hrun as (u & Hu & Hend); [by rewrite app_nil_r|done..| |].
    - eapply flags_alive; [exact F2| |exact Hc]. pose proof (rf_id _ _ F1). unfold allocated in *. lia.
    - exists u. split; [done|]. by etrans. }
  destruct r as [[]|x]; [|intros Hc; apply Hafter; [done|split; auto|done]].
  apply Hafter; refine (later_phases_frame call deliver handler clock _ fuel w1).
Qed.
End entry.
