(* ===== verification/Wakeup.v ===== *)
(** * Parking and waking up (src/event_loop.rs, [run_main])

    The loop thread runs batches and, when it finds nothing to do, parks on the
    [Notify]; other threads ([call_soon_threadsafe], [stop]) and watcher tasks
    first publish their work and then notify.  The two are interleaved step by
    step. *)

From stdpp Require Import base tactics relations list.
From S2P Require Import Prelude.

(** Where the loop thread is: in a batch, before each of the checks that follow
    it, parked, or out of the loop. *)
Inductive pc := InBatch | CheckStop | CheckReady | CheckIo | CheckTimers | Parked | Stopped.

(** The lengths of the two queues, the stop flag, the permit [Notify] stores,
    and the producers that have published something and not notified yet. *)
Record wake := MkWake {
  at_ : pc;
  n_ready : nat;
  n_io : nat;
  stopping : bool;
  permit : bool;
  unnotified : nat;
}.

(** The loop thread. *)
Inductive loop_step : relation wake :=
  (* a batch pops entries and completions; callbacks schedule with call_soon *)
  | batch_pop_ready r i b p u :
      loop_step (MkWake InBatch (S r) i b p u) (MkWake InBatch r i b p u)
  | batch_call_soon r i b p u :
      loop_step (MkWake InBatch r i b p u) (MkWake InBatch (S r) i b p u)
  | batch_pop_io r i b p u :
      loop_step (MkWake InBatch r (S i) b p u) (MkWake InBatch r i b p u)
  | batch_end r i b p u :
      loop_step (MkWake InBatch r i b p u) (MkWake CheckStop r i b p u)
  (* if stop_requested: break *)
  | check_stop r i b p u :
      loop_step (MkWake CheckStop r i b p u)
        (MkWake (if b then Stopped else CheckReady) r i b p u)
  (* if !ready.is_empty() || !io.is_empty() || timers_due(): continue *)
  | check_ready r i b p u :
      loop_step (MkWake CheckReady r i b p u)
        (MkWake (if decide (r = 0) then CheckIo else InBatch) r i b p u)
  | check_io r i b p u :
      loop_step (MkWake CheckIo r i b p u)
        (MkWake (if decide (i = 0) then CheckTimers else InBatch) r i b p u)
  | check_timers (due : bool) r i b p u :
      loop_step (MkWake CheckTimers r i b p u)
        (MkWake (if due then InBatch else Parked) r i b p u)
  (* notified().await, alone or within the deadline's timeout *)
  | wake_up r i b u :
      loop_step (MkWake Parked r i b true u) (MkWake InBatch r i b false u)
  | timeout r i b p u :
      loop_step (MkWake Parked r i b p u) (MkWake InBatch r i b p u).

(** A producer. *)
Inductive producer_step : relation wake :=
  | publish_ready c r i b p u :
      producer_step (MkWake c r i b p u) (MkWake c (S r) i b p (S u))
  | publish_io c r i b p u :
      producer_step (MkWake c r i b p u) (MkWake c r (S i) b p (S u))
  (* a drain task pushes several payloads before it notifies *)
  | publish_more c r i b p u :
      producer_step (MkWake c r i b p (S u)) (MkWake c r (S i) b p (S u))
  | publish_stop c r i b p u :
      producer_step (MkWake c r i b p u) (MkWake c r i true p (S u))
  | notify_one c r i b p u :
      producer_step (MkWake c r i b p (S u)) (MkWake c r i b true u).

Definition wake_step (s s' : wake) : Prop := loop_step s s' ∨ producer_step s s'.

(** [run_main] starts with a batch. *)
Definition wake_reachable (s : wake) : Prop :=
  ∃ r i b p u, rtc wake_step (MkWake InBatch r i b p u) s.

Definition has_work (s : wake) : Prop := n_ready s ≠ 0 ∨ n_io s ≠ 0 ∨ stopping s = true.
Definition signalled (s : wake) : Prop := permit s = true ∨ unnotified s ≠ 0.

(** What each check has ruled out is signalled again if it comes up later. *)
Definition wake_inv (s : wake) : Prop :=
  match at_ s with
  | InBatch | CheckStop | Stopped => True
  | CheckReady => stopping s = true → signalled s
  | CheckIo => stopping s = true ∨ n_ready s ≠ 0 → signalled s
  | CheckTimers | Parked => has_work s → signalled s
  end.

Lemma producer_signals s s' : producer_step s s' → signalled s' ∧ at_ s' = at_ s.
Proof. unfold signalled. destruct 1; simpl; auto. Qed.

Lemma wake_step_inv s s' : wake_inv s → wake_step s s' → wake_inv s'.
Proof.
  intros Hi [Hs|Hs].
  - destruct Hs; unfold wake_inv, signalled, has_work in *; simpl in *; try done.
    + destruct b; [done|]. by intros [=].
    + destruct (decide (r = 0)) as [->|]; [|done]. intros [?|?]; [auto|done].
    + destruct (decide (i = 0)) as [->|]; [|done]. intros [?|[?|?]]; auto; done.
    + by destruct due.
  - destruct (producer_signals s s' Hs) as [Hsig Hat]. unfold wake_inv. by destruct (at_ s').
Qed.

Lemma wake_reachable_inv s : wake_reachable s → wake_inv s.
Proof.
  intros (r & i & b & p & u & Hr). remember (MkWake InBatch r i b p u) as s0 eqn:H0.
  assert (wake_inv s0) as Hi by by subst. clear H0.
  induction Hr; eauto using wake_step_inv.
Qed.

(** C25: No wake-up is lost.  However the loop thread and the producers
    interleave: when the loop is parked although there is an entry, a completion
    or a stop request, then a permit is stored or a producer is still about to
    notify; so once every producer has notified, the loop can leave its park,
    and a stop request is answered by leaving the loop. *)
Theorem no_lost_wakeup s :
  wake_reachable s → at_ s = Parked → has_work s →
  (permit s = true ∨ ∃ s', producer_step s s' ∧ permit s' = true) ∧
  (unnotified s = 0 →
   ∃ s', loop_step s s' ∧ at_ s' = InBatch ∧ n_ready s' = n_ready s ∧ n_io s' = n_io s ∧
     (stopping s = true → ∃ s'', rtc loop_step s' s'' ∧ at_ s'' = Stopped)).
Proof.
  intros Hr Hp Hw. pose proof (wake_reachable_inv s Hr) as Hi. unfold wake_inv in Hi.
  rewrite Hp in Hi. specialize (Hi Hw). unfold signalled in Hi.
  destruct s as [c r i b p u]; simpl in *. subst c. split.
  - destruct Hi as [->|Hu]; [by left|]. right. destruct u as [|u]; [done|].
    eexists. split; [apply notify_one|done].
  - intros ->. destruct Hi as [->|Hu]; [|done].
    eexists. split; [apply wake_up|]. split_and!; try done. intros ->.
    exists (MkWake Stopped r i true false 0). split; [|done].
    eapply rtc_l; [apply batch_end|]. apply rtc_once, (check_stop _ _ true).
Qed.

(** An entry is published just after the loop has found the queue empty; the
    loop parks, and the permit stored meanwhile wakes it. *)
Lemma no_lost_wakeup_witness :
  ∃ s', loop_step (MkWake Parked 1 0 false true 0) s' ∧ at_ s' = InBatch ∧ n_ready s' = 1.
Proof.
  destruct (no_lost_wakeup (MkWake Parked 1 0 false true 0)) as [_ H].
  - exists 0, 0, false, false, 0.
    eapply rtc_l; [left; apply batch_end|]. eapply rtc_l; [left; apply check_stop|].
    eapply rtc_l; [left; apply check_ready|]. eapply rtc_l; [right; apply publish_ready|].
    eapply rtc_l; [left; apply check_io|]. eapply rtc_l; [left; apply (check_timers false)|].
    eapply rtc_l; [right; apply notify_one|]. apply rtc_refl.
  - reflexivity.
  - left. discriminate.
  - destruct (H eq_refl) as (s' & H1 & H2 & H3 & _). exists s'. split; [exact H1|].
    split; [exact H2|exact H3].
Defined.
