(* ===== verification/Readiness.v ===== *)
(** * Watcher tasks in callback mode (src/src/fd_unix.rs, lines 54-184)

    [fd_task] gives asyncio's level-triggered readers and writers on top of
    readiness that is announced by edges only.  The task, the I/O driver of the
    runtime, the loop's batches, the kernel and the application are interleaved
    step by step: a descriptor that is ready has its callback run again and again,
    and one that is not lets everything come to rest. *)

From stdpp Require Import base tactics relations list.
From S2P Require Import Prelude.

(** ** Tokio's [AsyncFd]

    What its documentation promises of the readiness of one direction: the driver
    sets it when the kernel reports an event; [readable] waits for it and returns a
    guard; [clear_ready] clears what the guard has seen; [try_io] with an operation
    that would block clears it too. *)
Class AsyncFd (F G : Type) := {
  is_set : F → bool;
  set_event : F → F;
  take_guard : F → G;
  clear_ready : G → F → F;
  try_io_would_block : F → F;
  set_event_set f : is_set (set_event f) = true;
  clear_taken f : is_set (clear_ready (take_guard f) f) = false;
}.

(** ** State *)

(** Where the task is: before its first poll, at the top of its loop, at
    [readable().await], at the two checks of the slot with the push and
    [notified().await] between them, at the poll after the callback, and where it
    clears the readiness. *)
Inductive task_pc :=
  Priming | Top | Waiting | CheckCb | Pushing | Rendezvous | Recheck | Polling | Clearing | Done.

(** The task's locals [primed] and [guard]; the [AsyncFd]; whether the descriptor is
    ready, and whether the kernel has an event for it the driver has not fetched;
    [slot.cb]; the watcher's completions on [state.io], whether the loop is awake
    or has a permit that wakes it, the permit of [hs]; and how often the callback
    was run. *)
Record watcher (F G : Type) := MkWatcher {
  at_ : task_pc;
  primed : bool;
  guard : option G;
  afd : F;
  level : bool;
  pending : bool;
  has_cb : bool;
  queued : nat;
  awake : bool;
  permit : bool;
  fired : nat;
}.
Arguments MkWatcher {F G}.
Arguments at_ {F G}.
Arguments primed {F G}.
Arguments guard {F G}.
Arguments afd {F G}.
Arguments level {F G}.
Arguments pending {F G}.
Arguments has_cb {F G}.
Arguments queued {F G}.
Arguments awake {F G}.
Arguments permit {F G}.
Arguments fired {F G}.

Section watcher.
Context {F G : Type} `{!AsyncFd F G}.
Local Abbreviation W := (watcher F G).

Definition goto (c : task_pc) (w : W) : W :=
  MkWatcher c (primed w) (guard w) (afd w) (level w) (pending w) (has_cb w) (queued w) (awake w)
    (permit w) (fired w).
Definition set_primed (b : bool) (w : W) : W :=
  MkWatcher (at_ w) b (guard w) (afd w) (level w) (pending w) (has_cb w) (queued w) (awake w)
    (permit w) (fired w).
Definition set_guard (g : option G) (w : W) : W :=
  MkWatcher (at_ w) (primed w) g (afd w) (level w) (pending w) (has_cb w) (queued w) (awake w)
    (permit w) (fired w).
Definition set_afd (f : F) (w : W) : W :=
  MkWatcher (at_ w) (primed w) (guard w) f (level w) (pending w) (has_cb w) (queued w) (awake w)
    (permit w) (fired w).
Definition set_kernel (l p : bool) (w : W) : W :=
  MkWatcher (at_ w) (primed w) (guard w) (afd w) l p (has_cb w) (queued w) (awake w) (permit w)
    (fired w).
Definition set_permit (b : bool) (w : W) : W :=
  MkWatcher (at_ w) (primed w) (guard w) (afd w) (level w) (pending w) (has_cb w) (queued w)
    (awake w) b (fired w).
Definition drop_cb (w : W) : W :=
  MkWatcher (at_ w) (primed w) (guard w) (afd w) (level w) (pending w) false (queued w) (awake w)
    (permit w) (fired w).
Definition sleep (w : W) : W :=
  MkWatcher (at_ w) (primed w) (guard w) (afd w) (level w) (pending w) (has_cb w) (queued w) false
    (permit w) (fired w).

(** ** The task *)

(** [state.io.push(..); state.notify.notify_one()] *)
Definition push_callback (w : W) : W :=
  MkWatcher (at_ w) (primed w) (guard w) (afd w) (level w) (pending w) (has_cb w) (S (queued w)) true
    (permit w) (fired w).

(** What is left of the readiness: the guard clears what it has seen; without one,
    [try_io] does. *)
Definition cleared (w : W) : F :=
  match guard w with Some g => clear_ready g (afd w) | None => try_io_would_block (afd w) end.

(** One step of [fd_task]; [None] while it is suspended. *)
Definition task_step (w : W) : option W :=
  match at_ w with
  | Priming => Some (goto Top (set_primed (level w) w))
  | Top =>
      Some (if primed w then goto CheckCb (set_primed false w) else goto Waiting w)
  | Waiting =>
      if is_set (afd w) then Some (goto CheckCb (set_guard (Some (take_guard (afd w))) w)) else None
  | CheckCb => Some (goto (if has_cb w then Pushing else Done) w)
  | Pushing => Some (goto Rendezvous (push_callback w))
  | Rendezvous => if permit w then Some (goto Recheck (set_permit false w)) else None
  | Recheck => Some (goto (if has_cb w then Polling else Done) w)
  | Polling => Some (if level w then goto Top (set_primed true w) else goto Clearing w)
  | Clearing => Some (goto Top (set_guard None (set_afd (cleared w) w)))
  | Done => None
  end.

(** The task, the driver and the batches share one thread: they alternate where the
    task is suspended. *)
Definition suspended (w : W) : bool :=
  match at_ w with Priming | Waiting | Rendezvous | Done => true | _ => false end.

(** The I/O driver fetches an event. *)
Definition driver_step (w : W) : option W :=
  if suspended w && pending w then Some (set_afd (set_event (afd w)) (set_kernel (level w) false w))
  else None.

(** [run_batch] takes a completion of the watcher: it runs the callback if the slot
    still has one, then completes the rendezvous. *)
Definition batch_step (w : W) : option W :=
  if suspended w && awake w then
    match queued w with
    | 0 => None
    | S q => Some (MkWatcher (at_ w) (primed w) (guard w) (afd w) (level w) (pending w) (has_cb w) q
                     (awake w) true (if has_cb w then S (fired w) else fired w))
    end
  else None.

(** [run_main] parks when the queue is empty. *)
Definition park_step (w : W) : option W :=
  if suspended w && awake w && bool_decide (queued w = 0) then Some (sleep w) else None.

(** ** Steps *)

(** What the program and its runtime do by themselves. *)
Definition system_step : relation W := λ w w',
  task_step w = Some w' ∨ driver_step w = Some w' ∨ batch_step w = Some w' ∨
  park_step w = Some w'.

(** What happens to it: the descriptor becomes ready or more arrives; it is consumed,
    by the callback or by others, with the event if it is still pending; the
    watcher is removed, its task aborted where it is suspended; the loop is woken
    by something else. *)
Inductive outside_step : relation W :=
  | arrives w : outside_step w (set_kernel true true w)
  | consumed p w : (p = true → pending w = true) → outside_step w (set_kernel false p w)
  | removed w : outside_step w (drop_cb w)
  | aborted w : has_cb w = false → suspended w = true → outside_step w (goto Done w)
  | woken w :
      outside_step w (MkWatcher (at_ w) (primed w) (guard w) (afd w) (level w) (pending w) (has_cb w)
        (queued w) true (permit w) (fired w)).

Definition step (w w' : W) : Prop := system_step w w' ∨ outside_step w w'.

(** A task just spawned: whatever the kernel and Tokio's readiness are, an event
    that predates the registration need never be reported. *)
Definition spawned (f : F) (l p a : bool) : W := MkWatcher Priming false None f l p true 0 a false 0.
Definition reachable (w : W) : Prop := ∃ f l p a, rtc step (spawned f l p a) w.

(** ** Invariant *)

(** One completion per rendezvous: it is on the queue, with the loop awake, or it has
    been run and the permit says so.  And before the task waits, a ready descriptor
    is known to Tokio or about to be: what was cleared had been seen to be drained. *)
Record inv (w : W) : Prop := {
  inv_rendezvous :
    match at_ w with
    | Rendezvous => queued w = 1 ∧ permit w = false ∨ queued w = 0 ∧ permit w = true
    | Done => queued w ≤ 1
    | _ => queued w = 0 ∧ permit w = false
    end;
  inv_primed : primed w = true → at_ w = Top;
  inv_awake : queued w ≠ 0 → awake w = true;
  inv_noticed :
    level w = true →
    match at_ w with
    | Waiting => is_set (afd w) = true ∨ pending w = true
    | Top => primed w = true ∨ is_set (afd w) = true ∨ pending w = true
    | Clearing => pending w = true
    | _ => True
    end;
}.

(** All cases of the steps of the hypotheses. *)
Ltac stepping :=
  unfold system_step, task_step, driver_step, batch_step, park_step, suspended in *;
  unfold push_callback, goto, set_primed, set_guard, set_afd, set_kernel, set_permit, drop_cb, sleep
    in *;
  destruct_or?; simplify_eq/=; repeat (case_match; simplify_eq/=);
  rewrite ?andb_true_iff, ?bool_decide_eq_true in *;
  destruct_and?; simplify_eq/=.

Lemma system_inv (w w' : W) : inv w → system_step w w' → inv w'.
Proof.
  destruct w as [c p g f l e b q a m n]. intros [Hr Hpr Ha Hn] Hs.
  stepping; split; cbn in *; rewrite ?set_event_set; intuition (done || lia).
Qed.
Lemma outside_inv (w w' : W) : inv w → outside_step w w' → inv w'.
Proof.
  intros [Hr Hpr Ha Hn] Hs. destruct Hs as [w|p w Hp|w|w Hc Hw|w]; destruct w; split; stepping; intuition (done || lia).
Qed.
Lemma reachable_inv w : reachable w → inv w.
Proof.
  intros (f & l & p & a & Hs). remember (spawned f l p a) as w0 eqn:H0.
  assert (inv w0) as Hi by (subst; by split). clear H0.
  induction Hs as [|w0 w1 w2 [Hs|Hs]]; eauto using system_inv, outside_inv.
Qed.

(** ** A ready descriptor *)

(** Steps the program may take before it runs the callback of a ready descriptor. *)
Definition until_fire (w : W) : nat :=
  match at_ w with
  | Rendezvous => if permit w then 12 else 2
  | Pushing => 4
  | CheckCb => 5
  | Top => if primed w then 6 else 7
  | Waiting => 6
  | Priming => 7
  | Clearing => 8
  | Polling => 10
  | Recheck => 11
  | Done => 0
  end + Nat.b2n (pending w) + Nat.b2n (awake w).

Lemma fired_mono (w w' : W) : system_step w w' → fired w ≤ fired w'.
Proof. destruct w as [c p g f l e b q a m n]. intros Hs. stepping; lia. Qed.

Definition live (w : W) : Prop := level w = true ∧ has_cb w = true ∧ at_ w ≠ Done.

Lemma live_step (w w' : W) :
  inv w → live w → system_step w w' →
  live w' ∧ (fired w < fired w' ∨ until_fire w' < until_fire w).
Proof.
  destruct w as [c p g f l e b q a m n]. intros [Hr Hpr Ha Hn] (Hl & Hc & Hd) Hs. unfold live, until_fire.
  stepping; split_and?; intuition (done || lia).
Qed.

Lemma live_enabled (w : W) : inv w → live w → ∃ w', system_step w w'.
Proof.
  destruct w as [c p g f l e b q a m n]. intros [Hr Hpr Ha Hn] (Hl & Hc & Hd). cbn in *. subst.
  destruct c; try (eexists; left; reflexivity); [| |done].
  - destruct (is_set f) eqn:Hf; [eexists; left; cbn; by rewrite Hf|].
    destruct (Hn eq_refl) as [?| ->]; [done|]. eexists. right. left. reflexivity.
  - destruct Hr as [[-> ->]|[-> ->]]; [|eexists; left; reflexivity].
    rewrite (Ha ltac:(done)). eexists. right. right. left. reflexivity.
Qed.

(** C26: A ready descriptor is served again and again.  However the task, the driver,
    the loop, the kernel and the application have interleaved, and even if the
    kernel's event came before the watcher: while the descriptor is ready and its
    watcher registered, the program always has a next step, and whatever its next
    steps are, the callback runs within fifteen of them.  Readiness is never
    forgotten, although it is announced once. *)
Theorem ready_watcher_fires (w : W) :
  reachable w → level w = true → has_cb w = true → at_ w ≠ Done →
  (∃ w', system_step w w') ∧ ∀ w', nsteps system_step 15 w w' → fired w < fired w'.
Proof.
  intros Hw Hl Hc Hd. pose proof (reachable_inv w Hw) as Hi. assert (live w) as Hv by done. clear Hw Hl Hc Hd.
  split; [by apply live_enabled|].
  assert (until_fire w < 15) as Hm
    by (unfold until_fire; destruct (at_ w), (permit w), (primed w), (pending w), (awake w); cbn; lia).
  revert w Hm Hi Hv. generalize 15 as k. induction k as [|k IH]; intros w Hm Hi Hv w' Hs; [lia|].
  inversion Hs as [|? ? w1 ? Hs1 Hs2]; subst. destruct (live_step w w1 Hi Hv Hs1) as [Hv1 [Hf|Hlt]].
  - apply Nat.lt_le_trans with (fired w1); [done|]. clear - Hs2. induction Hs2; [done|].
    etrans; [by apply fired_mono|done].
  - apply Nat.le_lt_trans with (fired w1); [by apply fired_mono|].
    apply IH; [lia|by eapply system_inv|done|done].
Qed.

(** ** A descriptor that is not ready *)

(** What Tokio would still report: before the task waits, what it has cleared is gone
    unless the driver has added to it. *)
Definition flagged (w : W) : bool :=
  match at_ w with
  | Priming | Waiting => is_set (afd w)
  | Done => false
  | Top => if primed w then is_set (cleared w) else is_set (afd w)
  | _ => is_set (cleared w)
  end.
(** The callback is about to be run. *)
Definition in_flight (w : W) : bool :=
  match at_ w with
  | Top => primed w
  | CheckCb | Pushing => true
  | _ => bool_decide (queued w ≠ 0)
  end.
(** Runs of the callback still to come, and steps. *)
Definition to_fire (w : W) : nat :=
  Nat.b2n (in_flight w) + Nat.b2n (flagged w) + Nat.b2n (pending w).
Definition until_rest (w : W) : nat :=
  match at_ w with
  | Waiting | Done => 0
  | Top => if primed w then 12 else 1
  | Clearing | Priming => 2
  | Polling => 3
  | Recheck => 4
  | Rendezvous => if permit w then 5 else 6
  | Pushing => 9
  | CheckCb => 10
  end + queued w + Nat.b2n (awake w) + 13 * Nat.b2n (flagged w) + 14 * Nat.b2n (pending w).

#[local] Arguments Nat.mul : simpl never.
Lemma b2n_bound b : Nat.b2n b ≤ 1.
Proof. destruct b; cbn; lia. Qed.

Lemma idle_step (w w' : W) :
  inv w → level w = false → system_step w w' →
  level w' = false ∧ fired w' + to_fire w' ≤ fired w + to_fire w ∧ until_rest w' < until_rest w.
Proof.
  destruct w as [c p g f l e b q a m n]. intros [Hr Hpr Ha Hn] Hl Hs.
  unfold to_fire, in_flight, until_rest, flagged, cleared. cbn in Hr, Hpr, Ha, Hl. subst l.
  assert (p = false ∨ c = Top) as [-> | ->] by (destruct p; auto).
  all: stepping; rewrite ?set_event_set, ?clear_taken; cbn; repeat (case_bool_decide; cbn);
  try done; repeat match goal with
  | |- context [Nat.b2n ?b] =>
      lazymatch goal with H : Nat.b2n b ≤ 1 |- _ => fail | _ => pose proof (b2n_bound b) end
  end; solve [lia | intuition lia].
Qed.
Lemma bounds_start (w : W) : inv w → until_rest w ≤ 42 ∧ to_fire w ≤ 3.
Proof.
  intros [Hr _ _ _]. unfold until_rest, to_fire.
  pose proof (b2n_bound (flagged w)). pose proof (b2n_bound (pending w)).
  pose proof (b2n_bound (in_flight w)). pose proof (b2n_bound (awake w)).
  destruct (at_ w), (primed w), (permit w); lia.
Qed.

(** At rest: the loop is parked, and the task waits for the next event, or is gone. *)
Definition resting (w : W) : Prop :=
  awake w = false ∧ queued w = 0 ∧ pending w = false ∧
  (at_ w = Done ∨ at_ w = Waiting ∧ is_set (afd w) = false).

Lemma step_or_rest (w : W) :
  inv w → level w = false → (∃ w', system_step w w') ∨ resting w.
Proof.
  destruct w as [c p g f l e b q a m n]. intros [Hr _ Ha _] Hl. unfold resting. cbn in *. subst.
  destruct c; try (left; eexists; left; reflexivity);
    try (destruct e; [left; eexists; right; left; reflexivity|]).
  - destruct Hr as [-> ->]. destruct (is_set f) eqn:Hf; [left; eexists; left; cbn; by rewrite Hf|].
    destruct a; [left; eexists; right; right; right; reflexivity|]. right. split_and!; auto.
  - left. destruct Hr as [[-> ->]|[-> ->]]; [|eexists; left; reflexivity].
    rewrite (Ha ltac:(done)). eexists. right. right. left. reflexivity.
  - destruct q as [|q]; [destruct a; [left; eexists; right; right; right; reflexivity|right; split_and!; auto]|].
    rewrite (Ha ltac:(done)). left. eexists. right. right. left. reflexivity.
Qed.
Lemma resting_stuck (w w' : W) : resting w → ¬ system_step w w'.
Proof.
  destruct w as [c p g f l e b q a m n]. intros (Ha & Hq & He & [Hc|[Hc Hf]]) Hs; cbn in *; subst;
    stepping.
Qed.

Lemma idle_steps k (w w' : W) :
  nsteps system_step k w w' → inv w → level w = false →
  inv w' ∧ level w' = false ∧ fired w' + to_fire w' ≤ fired w + to_fire w ∧
  until_rest w' + k ≤ until_rest w.
Proof.
  induction 1 as [w|k w w1 w2 Hs _ IH]; intros Hi Hl; [split_and!; [done..|lia]|].
  destruct (idle_step w w1 Hi Hl Hs) as (Hl1 & Hf & Hr).
  destruct (IH (system_inv _ _ Hi Hs) Hl1) as (Hi2 & Hl2 & Hf2 & Hr2). split_and!; [done..|lia|lia].
Qed.

(** C27: A descriptor that is not ready costs nothing.  While nothing arrives, the
    program comes to rest whatever it was doing, and within 42 steps: the loop is
    parked, and the task waits on a readiness that is clear, or is gone.  Until
    then the callback runs at most three times: for a completion on its way, for a
    readiness that was not cleared, and for an event the driver had not fetched.
    Edges do not make the task spin. *)
Theorem idle_watcher_rests (w : W) :
  reachable w → level w = false →
  (∀ k w', nsteps system_step k w w' →
     k ≤ 42 ∧ fired w' ≤ fired w + to_fire w ∧ to_fire w ≤ 3 ∧
     ((∀ w'', ¬ system_step w' w'') ↔ resting w')) ∧
  ∃ w', rtc system_step w w' ∧ resting w'.
Proof.
  intros Hw Hl. pose proof (reachable_inv w Hw) as Hi. clear Hw.
  destruct (bounds_start w Hi) as [Hb Hf]. split.
  - intros k w' Hs. destruct (idle_steps k w w' Hs Hi Hl) as (Hi' & Hl' & Hf' & Hr').
    split_and!; [lia|lia|done|]. split; [|intros ? ?; by apply resting_stuck].
    intros Hn. destruct (step_or_rest w' Hi' Hl') as [[w'' Hw'']|]; [|done]. by apply Hn in Hw''.
  - remember (until_rest w) as n eqn:Hn. clear Hb Hf. revert w Hi Hl Hn.
    induction (lt_wf n) as [n _ IH]. intros w Hi Hl ->.
    destruct (step_or_rest w Hi Hl) as [[w1 Hs]|]; [|by exists w].
    destruct (idle_step w w1 Hi Hl Hs) as (Hl1 & _ & Hlt).
    destruct (IH _ Hlt w1 (system_inv _ _ Hi Hs) Hl1 eq_refl) as (w' & Hw' & Hr).
    exists w'. split; [by apply rtc_l with w1|done].
Qed.
End watcher.

(** ** An instance *)

(** The readiness with the number of events it has seen; a guard remembers that
    number. *)
Lemma counted_taken (f : bool * nat) :
  (f.1 && negb (bool_decide (f.2 = f.2)), f.2).1 = false.
Proof. by rewrite bool_decide_eq_true_2, andb_false_r. Qed.
#[export] Instance counted_afd : AsyncFd (bool * nat) nat := {
  is_set f := f.1;
  set_event f := (true, S f.2);
  take_guard f := f.2;
  clear_ready g f := (f.1 && negb (bool_decide (g = f.2)), f.2);
  try_io_would_block f := (false, f.2);
  set_event_set f := eq_refl;
  clear_taken := counted_taken;
}.

(** One schedule: the task first, then the driver, the batches, parking. *)
Definition next (w : watcher (bool * nat) nat) : option (watcher (bool * nat) nat) :=
  match task_step w with
  | Some w' => Some w'
  | None =>
      match driver_step w with
      | Some w' => Some w'
      | None => match batch_step w with Some w' => Some w' | None => park_step w end
      end
  end.
Fixpoint nexts (n : nat) (w : watcher (bool * nat) nat) : option (watcher (bool * nat) nat) :=
  match n with 0 => Some w | S n => next w ≫= nexts n end.
Lemma nexts_steps n w w' : nexts n w = Some w' → nsteps system_step n w w'.
Proof.
  revert w. induction n as [|n IH]; intros w Hn; cbn in Hn; [by simplify_eq; constructor|].
  destruct (next w) as [w1|] eqn:H1; [|done]. econstructor; [|by apply IH]. clear IH Hn.
  unfold system_step, next in *.
  destruct (task_step w), (driver_step w), (batch_step w); simplify_eq; auto.
Qed.

Lemma nexts_rtc n w w' : nexts n w = Some w' → rtc step w w'.
Proof.
  intros Hn%nexts_steps. induction Hn as [|n w w1 w2 Hs _ IH]; [done|].
  eapply rtc_l; [left; exact Hs|exact IH].
Qed.

(** Data that was there before the watcher, without an event, while the loop sleeps:
    the callback runs, and again as long as the data stays. *)
Definition late : watcher (bool * nat) nat := spawned (false, 0) true false false.
Lemma ready_watcher_fires_witness :
  ∃ w', nexts 15 late = Some w' ∧ fired late < fired w' ∧ fired w' = 2.
Proof.
  assert (reachable late) as Hr by (exists (false, 0), true, false, false; apply rtc_refl).
  destruct (ready_watcher_fires late Hr eq_refl eq_refl) as [_ Hf]; [discriminate|].
  eexists. split; [vm_compute; reflexivity|]. split; [|reflexivity].
  apply Hf, nexts_steps. vm_compute. reflexivity.
Defined.

(** An event starts a run of the callback; more arrives and is read at once, before
    the driver has fetched its event: one run more, which finds nothing, then all is
    quiet. *)
Definition early : watcher (bool * nat) nat := spawned (false, 0) false true true.
Definition drained : watcher (bool * nat) nat :=
  set_kernel false true (set_kernel true true (default early (nexts 6 early))).
Lemma drained_reachable : reachable drained.
Proof.
  exists (false, 0), false, true, true.
  transitivity (default early (nexts 6 early)); [apply (nexts_rtc 6); vm_compute; reflexivity|].
  eapply rtc_l; [right; apply arrives|]. apply rtc_once. right. by apply consumed.
Qed.
Lemma idle_watcher_rests_witness :
  ∃ w', nexts 17 drained = Some w' ∧ resting w' ∧ fired w' ≤ 2 ∧ fired w' = 2.
Proof.
  destruct (idle_watcher_rests drained drained_reachable eq_refl) as [Hk _].
  destruct (Hk 17 (default drained (nexts 17 drained))) as (_ & Hf & _ & Hr).
  - apply nexts_steps. vm_compute. reflexivity.
  - eexists. split; [vm_compute; reflexivity|].
    split; [unfold resting; cbn; auto 6|]. split; [exact Hf|reflexivity].
Defined.
