(* ===== verification/DrainTask.v ===== *)
(** * Watcher tasks in drain mode (src/src/fd_unix.rs, lines 286-292 and 447-632)

    [drain_task] around [drain_loop]: it reads in quanta until the kernel has no more,
    then waits for the next event.  It is interleaved with the I/O driver, the loop's
    batches, the kernel and the application as in Readiness.v.  What a quantum makes
    of the answers of a stream's kernel, byte by byte, is in Drain.v. *)

From stdpp Require Import base tactics relations list.
From S2P Require Import Prelude State Scheduler Readiness.

Inductive DrainKind := KindUdp | KindTcp.

(** [UDP_QUANTUM], [TCP_QUANTUM_ITEMS]; the size that also ends a stream's quantum is
    that of four of its chunks. *)
Definition quantum_items (k : DrainKind) : nat := match k with KindUdp => 16 | KindTcp => 4 end.

(** ** State *)

(** Before the first quantum, in a quantum, at [yield_now().await], after an observed
    drain, at [readable().await]. *)
Inductive drain_pc := DPriming | DReading | DYielding | DClearing | DWaiting | DDone.

(** The locals of the task and its loop; the [AsyncFd]; what the kernel will answer
    before it would block, and whether the stream ends there; whether it has an event
    the driver has not fetched; [slot.dead]; the task's payloads on [state.io],
    whether the loop is awake, and the payloads its batches have delivered. *)
Record drainer (F G : Type) := MkDrainer {
  d_at : drain_pc;
  d_guard : option G;
  d_n : nat;
  d_pushed : bool;
  d_afd : F;
  d_kernel : list IoData;
  d_eof : bool;
  d_pending : bool;
  d_dead : bool;
  d_io : list IoData;
  d_awake : bool;
  d_delivered : list IoData;
}.
Arguments MkDrainer {F G}.
Arguments d_at {F G}.
Arguments d_guard {F G}.
Arguments d_n {F G}.
Arguments d_pushed {F G}.
Arguments d_afd {F G}.
Arguments d_kernel {F G}.
Arguments d_eof {F G}.
Arguments d_pending {F G}.
Arguments d_dead {F G}.
Arguments d_io {F G}.
Arguments d_awake {F G}.
Arguments d_delivered {F G}.

Definition is_error (d : IoData) : bool := match d with ReadError _ => true | _ => false end.

Section drainer.
Context {F G : Type} `{!AsyncFd F G} (kind : DrainKind).
Local Abbreviation W := (drainer F G).

Definition d_goto (c : drain_pc) (w : W) : W :=
  MkDrainer c (d_guard w) (d_n w) (d_pushed w) (d_afd w) (d_kernel w) (d_eof w) (d_pending w)
    (d_dead w) (d_io w) (d_awake w) (d_delivered w).
(** A quantum begins. *)
Definition begin_quantum (g : option G) (w : W) : W :=
  MkDrainer DReading g 0 false (d_afd w) (d_kernel w) (d_eof w) (d_pending w) (d_dead w) (d_io w)
    (d_awake w) (d_delivered w).
(** [state.io.push(..); pushed = true] *)
Definition d_push (n : nat) (d : IoData) (l : list IoData) (w : W) : W :=
  MkDrainer (d_at w) (d_guard w) n true (d_afd w) l (d_eof w) (d_pending w) (d_dead w)
    (d_io w ++ [d]) (d_awake w) (d_delivered w).
(** The quantum is over: [if pushed { state.notify.notify_one(); }]. *)
Definition end_quantum (c : drain_pc) (w : W) : W :=
  MkDrainer c (d_guard w) (d_n w) (d_pushed w) (d_afd w) (d_kernel w) (d_eof w) (d_pending w)
    (d_dead w) (d_io w) (d_pushed w || d_awake w) (d_delivered w).
Definition d_cleared (w : W) : F :=
  match d_guard w with Some g => clear_ready g (d_afd w) | None => d_afd w end.
Definition d_clear (w : W) : W :=
  MkDrainer (d_at w) None (d_n w) (d_pushed w) (d_cleared w) (d_kernel w) (d_eof w) (d_pending w)
    (d_dead w) (d_io w) (d_awake w) (d_delivered w).
Definition d_set_kernel (l : list IoData) (e p : bool) (w : W) : W :=
  MkDrainer (d_at w) (d_guard w) (d_n w) (d_pushed w) (d_afd w) l e p (d_dead w) (d_io w)
    (d_awake w) (d_delivered w).
Definition d_event (w : W) : W :=
  MkDrainer (d_at w) (d_guard w) (d_n w) (d_pushed w) (set_event (d_afd w)) (d_kernel w) (d_eof w)
    false (d_dead w) (d_io w) (d_awake w) (d_delivered w).
Definition d_deliver (d : IoData) (q : list IoData) (w : W) : W :=
  MkDrainer (d_at w) (d_guard w) (d_n w) (d_pushed w) (d_afd w) (d_kernel w) (d_eof w) (d_pending w)
    (d_dead w) q (d_awake w) (d_delivered w ++ [d]).
Definition d_wake (b : bool) (w : W) : W :=
  MkDrainer (d_at w) (d_guard w) (d_n w) (d_pushed w) (d_afd w) (d_kernel w) (d_eof w) (d_pending w)
    (d_dead w) (d_io w) b (d_delivered w).
Definition d_kill (w : W) : W :=
  MkDrainer (d_at w) (d_guard w) (d_n w) (d_pushed w) (d_afd w) (d_kernel w) (d_eof w) (d_pending w)
    true (d_io w) (d_awake w) (d_delivered w).

(** ** Steps *)

(** One read of the quantum, or its end: an error ends it like an empty kernel does. *)
Definition read_step (w : W) : W :=
  if decide (d_n w < quantum_items kind) then
    match d_kernel w with
    | d :: l =>
        if is_error d then end_quantum DClearing (d_push (d_n w) d l w)
        else d_push (S (d_n w)) d l w
    | [] =>
        if d_eof w then end_quantum DYielding (d_push (d_n w) TcpEof [] w)
        else end_quantum DClearing w
    end
  else end_quantum DYielding w.

Definition drain_step (w : W) : option W :=
  match d_at w with
  | DPriming => Some (if d_dead w then d_goto DWaiting w else begin_quantum None w)
  | DReading => Some (read_step w)
  | DYielding => Some (if d_dead w then d_goto DDone w else begin_quantum (d_guard w) w)
  | DClearing => Some (d_goto (if d_dead w then DDone else DWaiting) (d_clear w))
  | DWaiting =>
      if is_set (d_afd w) then
        Some (if d_dead w then d_goto DDone w
              else begin_quantum (Some (take_guard (d_afd w))) w)
      else None
  | DDone => None
  end.

Definition d_suspended (w : W) : bool :=
  match d_at w with DReading | DClearing => false | _ => true end.
Definition d_driver_step (w : W) : option W :=
  if d_suspended w && d_pending w then Some (d_event w) else None.
Definition d_batch_step (w : W) : option W :=
  if d_suspended w && d_awake w then
    match d_io w with [] => None | d :: q => Some (d_deliver d q w) end
  else None.
Definition d_park_step (w : W) : option W :=
  if d_suspended w && d_awake w && bool_decide (d_io w = []) then Some (d_wake false w) else None.

Definition d_system_step : relation W := λ w w',
  drain_step w = Some w' ∨ d_driver_step w = Some w' ∨ d_batch_step w = Some w' ∨
  d_park_step w = Some w'.

(** The kernel gets something to read, of the given sort, or the end of the stream;
    the watcher is removed and its task aborted; the loop is woken. *)
Inductive d_outside_step (P : IoData → Prop) : relation W :=
  | d_arrives d w : P d → d_outside_step P w (d_set_kernel (d_kernel w ++ [d]) (d_eof w) true w)
  | d_ends w : kind = KindTcp → d_outside_step P w (d_set_kernel (d_kernel w) true true w)
  | d_removed w : d_outside_step P w (d_kill w)
  | d_aborted w : d_dead w = true → d_suspended w = true → d_outside_step P w (d_goto DDone w)
  | d_woken w : d_outside_step P w (d_wake true w).

(** A task just spawned: what the kernel has may predate the registration. *)
Definition d_spawned (f : F) (l : list IoData) (p a : bool) : W :=
  MkDrainer DPriming None 0 false f l false p false [] a [].
Definition d_reachable (P : IoData → Prop) (w : W) : Prop :=
  ∃ f l p a, Forall P l ∧
    rtc (λ w w', d_system_step w w' ∨ d_outside_step P w w') (d_spawned f l p a) w.

(** ** Invariant *)

(** What is queued will be seen by the loop. *)
Definition d_heard (w : W) : Prop :=
  d_io w ≠ [] → d_awake w = true ∨ d_at w = DReading ∧ d_pushed w = true.
(** A task that is gone was removed; and before the task waits, data in the kernel is
    known to Tokio or about to be. *)
Record d_inv (w : W) : Prop := {
  di_heard : d_heard w;
  di_done : d_at w = DDone → d_dead w = true;
  di_clean : Forall (λ d, is_error d = false) (d_kernel w);
  di_noticed :
    d_dead w = false → d_kernel w ≠ [] →
    match d_at w with
    | DWaiting => is_set (d_afd w) = true ∨ d_pending w = true
    | DClearing => d_pending w = true
    | _ => True
    end;
}.

Ltac d_stepping :=
  unfold d_system_step, drain_step, d_driver_step, d_batch_step, d_park_step, d_suspended, read_step in *;
  unfold d_goto, begin_quantum, d_push, end_quantum, d_clear, d_set_kernel, d_event, d_deliver, d_wake,
    d_kill in *;
  destruct_or?; simplify_eq/=; repeat (case_match; simplify_eq/=);
  rewrite ?andb_true_iff, ?bool_decide_eq_true in *; destruct_and?; simplify_eq/=.

Lemma d_heard_step (w w' : W) : d_heard w → d_system_step w w' → d_heard w'.
Proof.
  unfold d_heard. destruct w as [c g n p f l e q b i a o]. intros Ha Hs. cbn in Ha.
  d_stepping; auto; destruct p; intuition congruence.
Qed.
Lemma d_system_inv (w w' : W) : d_inv w → d_system_step w w' → d_inv w'.
Proof.
  intros [Ha Hd Hc Hn] Hs. split; [by eapply d_heard_step|..]; clear Ha;
  destruct w as [c g n p f l e q b i a o]; cbn in Hd, Hc, Hn;
  d_stepping; rewrite ?set_event_set; try inversion Hc; simplify_eq/=; auto; intuition congruence.
Qed.
Lemma d_outside_inv (w w' : W) :
  d_inv w → d_outside_step (λ d, is_error d = false) w w' → d_inv w'.
Proof.
  intros [Ha Hd Hc Hn] Hs. destruct Hs as [d w Hp|w Hk|w|w Hdead Hs|w]; destruct w; split; unfold d_heard in *;
    d_stepping; rewrite ?Forall_app, ?Forall_singleton; auto;
    repeat case_match; intuition (done || congruence).
Qed.
Lemma d_reachable_inv w : d_reachable (λ d, is_error d = false) w → d_inv w.
Proof.
  intros (f & l & p & a & Hl & Hs). remember (d_spawned f l p a) as w0 eqn:H0.
  assert (d_inv w0) as Hi by (subst; split; unfold d_heard; done). clear H0.
  induction Hs as [|w0 w1 w2 [Hs|Hs]]; eauto using d_system_inv, d_outside_inv.
Qed.

(** ** Reading everything *)

(** What Tokio would still report. *)
Definition d_flagged (w : W) : bool :=
  match d_at w with
  | DDone => false
  | DWaiting | DPriming => is_set (d_afd w)
  | _ => is_set (d_cleared w)
  end.
#[local] Arguments Nat.mul : simpl never.
(** Steps the program may take until it rests. *)
Definition d_until_rest (w : W) : nat :=
  match d_at w with
  | DPriming => 5
  | DReading => 4 + (if decide (d_n w = 0) then 0 else 3) + Nat.b2n (d_pushed w)
  | DYielding => 6
  | DClearing => 3
  | DWaiting | DDone => 0
  end + 6 * length (d_kernel w) + length (d_io w) + Nat.b2n (d_awake w) +
  8 * Nat.b2n (d_flagged w) + 9 * Nat.b2n (d_pending w).

(** At rest: the kernel is empty, everything is delivered, the loop is parked, and the
    task waits for the next event. *)
Definition d_quiet (w : W) : Prop :=
  d_at w = DWaiting ∧ d_kernel w = [] ∧ d_io w = [] ∧ d_awake w = false ∧
  is_set (d_afd w) = false ∧ d_pending w = false.

(** Everything read and to be read, in order. *)
Definition d_stream (w : W) : list IoData := d_delivered w ++ d_io w ++ d_kernel w.

Lemma quantum_positive : 0 < quantum_items kind.
Proof. destruct kind; cbn; lia. Qed.

Lemma b2n_or a b : Nat.b2n (a || b) ≤ Nat.b2n a + Nat.b2n b.
Proof. destruct a, b; cbn; lia. Qed.

Lemma d_serving_step (w w' : W) :
  d_dead w = false → d_eof w = false → d_system_step w w' →
  d_dead w' = false ∧ d_eof w' = false ∧ d_stream w' = d_stream w ∧ d_until_rest w' < d_until_rest w.
Proof.
  destruct w as [c g n p f l e q b i a o]. intros Hb He Hs. cbn in Hb, He. subst.
  pose proof quantum_positive as Hq. pose proof (b2n_or p a). pose proof (b2n_bound p).
  unfold d_stream, d_until_rest, d_flagged, d_cleared.
  d_stepping; rewrite ?set_event_set, ?clear_taken, ?length_app; cbn; repeat (case_decide; cbn);
  repeat match goal with
  | |- context [Nat.b2n ?b] =>
      lazymatch goal with H : Nat.b2n b ≤ 1 |- _ => fail | _ => pose proof (b2n_bound b) end
  end; split_and!; rewrite <- ?app_assoc; try (done || lia).
Qed.

Lemma d_rank_bound (w : W) :
  d_until_rest w ≤ 26 + 6 * length (d_kernel w) + length (d_io w).
Proof.
  unfold d_until_rest. pose proof (b2n_bound (d_flagged w)). pose proof (b2n_bound (d_pending w)).
  pose proof (b2n_bound (d_pushed w)). pose proof (b2n_bound (d_awake w)).
  destruct (d_at w); try case_decide; lia.
Qed.

(** Every run comes to an end, with nothing lost. *)
Lemma d_serving_steps k (w w' : W) :
  nsteps d_system_step k w w' → d_dead w = false → d_eof w = false →
  d_dead w' = false ∧ d_eof w' = false ∧ d_stream w' = d_stream w ∧
  d_until_rest w' + k ≤ d_until_rest w.
Proof.
  induction 1 as [w|k w w1 w2 Hs _ IH]; intros Hd He; [split_and!; [done..|lia]|].
  destruct (d_serving_step w w1 Hd He Hs) as (Hd1 & He1 & Ht & Hr).
  destruct (IH Hd1 He1) as (Hd2 & He2 & Ht2 & Hr2). split_and!; [done..|congruence|lia].
Qed.
Lemma d_step_dec (w : W) : (∃ w', d_system_step w w') ∨ ∀ w', ¬ d_system_step w w'.
Proof.
  unfold d_system_step.
  destruct (drain_step w), (d_driver_step w), (d_batch_step w), (d_park_step w); eauto 6.
  right. by intros w' [?|[?|[?|?]]].
Qed.
Lemma d_runs_end (w : W) :
  d_dead w = false → d_eof w = false →
  ∃ k w', nsteps d_system_step k w w' ∧ ∀ w'', ¬ d_system_step w' w''.
Proof.
  remember (d_until_rest w) as n eqn:Hn. revert w Hn. induction (lt_wf n) as [n _ IH].
  intros w -> Hd He. destruct (d_step_dec w) as [[w1 Hs]|]; [|by exists 0, w; split; [constructor|]].
  destruct (d_serving_step w w1 Hd He Hs) as (Hd1 & He1 & _ & Hlt).
  destruct (IH _ Hlt w1 eq_refl Hd1 He1) as (k & w' & Hw' & Hr).
  exists (S k), w'. split; [by econstructor|done].
Qed.

Lemma d_stuck_quiet (w : W) :
  d_inv w → d_dead w = false → (∀ w', ¬ d_system_step w w') → d_quiet w.
Proof.
  destruct w as [c g n p f l e q b i a o]. intros [Ha Hd Hc Hn] Hb Hs. unfold d_quiet, d_heard in *.
  cbn in *. subst.
  destruct c; try (by exfalso; eapply Hs; left; reflexivity); [|by specialize (Hd eq_refl)].
  destruct q; [by exfalso; eapply Hs; right; left; reflexivity|].
  destruct (is_set f) eqn:Hf; [by exfalso; eapply Hs; left; cbn; rewrite Hf|].
  destruct l as [|x l]; [|by destruct Hn]. destruct i as [|x i].
  - destruct a; [by exfalso; eapply Hs; right; right; right; reflexivity|done].
  - destruct Ha as [->|[? ?]]; [done| |done]. exfalso. eapply Hs. right. right. left. reflexivity.
Qed.
Lemma d_inv_steps k (w w' : W) : nsteps d_system_step k w w' → d_inv w → d_inv w'.
Proof. induction 1; eauto using d_system_inv. Qed.

(** C28: A drain task leaves nothing behind, as long as no read has ever failed and
    the stream has not ended.  However it, the driver, the loop, the kernel and the
    application have interleaved, and even if data came before the watcher: if no
    error has arrived, the peer has not closed the stream, the watcher is still
    registered and nothing more arrives, the program comes to rest within a number
    of steps linear in what there is to read, with all of it delivered, in order,
    the loop parked, and the task waiting on a readiness that is clear.  (After a
    failed read what follows it can stay behind, [error_parks_on_data]; at the end
    of a stream the task does not rest.) *)
Theorem drain_task_serves (w : W) :
  d_reachable (λ d, is_error d = false) w → d_dead w = false → d_eof w = false →
  (∀ k w', nsteps d_system_step k w w' →
     k ≤ 26 + 6 * length (d_kernel w) + length (d_io w) ∧ d_stream w' = d_stream w ∧
     ((∀ w'', ¬ d_system_step w' w'') → d_quiet w' ∧ d_delivered w' = d_stream w)) ∧
  ∃ k w', nsteps d_system_step k w w' ∧ ∀ w'', ¬ d_system_step w' w''.
Proof.
  intros Hw Hd He. pose proof (d_reachable_inv w Hw) as Hi. clear Hw.
  split; [|by apply d_runs_end]. intros k w' Hs.
  destruct (d_serving_steps k w w' Hs Hd He) as (Hd' & _ & Ht & Hr). pose proof (d_rank_bound w).
  split_and!; [lia|done|]. intros Hn.
  assert (d_quiet w') as Hq by (apply d_stuck_quiet; eauto using d_inv_steps). split; [done|].
  destruct Hq as (_ & Hk & Hio & _). rewrite <- Ht. unfold d_stream. by rewrite Hk, Hio, !app_nil_r.
Qed.

(** ** A failed read *)

(** An error and data reach a resting task before the driver has fetched the event:
    the task first waits, then reads the error, then leaves. *)
Inductive error_phase (e : exn) (l o : list IoData) (w : W) : Prop :=
  | phase_waiting :
      d_at w = DWaiting → d_kernel w = ReadError e :: l → d_delivered w ++ d_io w = o →
      d_pending w = negb (is_set (d_afd w)) → error_phase e l o w
  | phase_reading g :
      d_at w = DReading → d_n w = 0 → d_kernel w = ReadError e :: l →
      d_delivered w ++ d_io w = o → d_pending w = false → d_guard w = Some g →
      is_set (clear_ready g (d_afd w)) = false → error_phase e l o w
  | phase_clearing :
      d_at w = DClearing → d_kernel w = l → d_delivered w ++ d_io w = o ++ [ReadError e] →
      d_pending w = false → is_set (d_cleared w) = false → error_phase e l o w
  | phase_parked :
      d_at w = DWaiting → d_kernel w = l → d_delivered w ++ d_io w = o ++ [ReadError e] →
      d_pending w = false → is_set (d_afd w) = false → error_phase e l o w.

Ltac phase c :=
  solve [eapply c; cbn; rewrite ?set_event_set, ?clear_taken; rewrite <- ?app_assoc; done].
Lemma error_phase_step e l o (w w' : W) :
  error_phase e l o w → d_dead w = false → d_eof w = false → d_system_step w w' →
  error_phase e l o w'.
Proof.
  pose proof quantum_positive as Hq.
  intros [] Hd He Hs; destruct w; cbn in *; subst; d_stepping; try lia;
    phase phase_waiting || phase phase_reading || phase phase_clearing || phase phase_parked.
Qed.
Lemma error_phase_stuck e l o (w : W) :
  error_phase e l o w → d_dead w = false → d_heard w → (∀ w', ¬ d_system_step w w') →
  d_at w = DWaiting ∧ d_kernel w = l ∧ d_delivered w = o ++ [ReadError e].
Proof.
  intros Hp Hd Ha Hs. destruct w; cbn in *; subst.
  destruct Hp; cbn in *; subst; try (exfalso; eapply Hs; left; reflexivity).
  - exfalso. destruct (is_set _) eqn:Hf; eapply Hs; [left; cbn; by rewrite Hf|right; left; reflexivity].
  - destruct d_io0 as [|x q]; [by rewrite <- H1, app_nil_r|]. exfalso.
    destruct Ha as [Ha|[? _]]; [done| |done]. cbn in Ha. subst. eapply Hs. right. right. left. reflexivity.
Qed.

(** Data behind a failed read.  If a resting task gets an error and more data
    before the driver has fetched the event, it reads the error, clears the
    readiness and waits as if it had emptied the kernel: whatever the schedule, the
    program comes to rest with the error delivered and all the data still in the
    kernel, until something else arrives. *)
Theorem error_parks_on_data e l (w : W) :
  d_quiet w → d_dead w = false → d_eof w = false →
  let w1 := d_set_kernel (ReadError e :: l) false true w in
  (∀ k w', nsteps d_system_step k w1 w' →
     k ≤ 32 + 6 * length l ∧
     ((∀ w'', ¬ d_system_step w' w'') →
      d_at w' = DWaiting ∧ d_kernel w' = l ∧ d_delivered w' = d_delivered w ++ [ReadError e])) ∧
  ∃ k w', nsteps d_system_step k w1 w' ∧ ∀ w'', ¬ d_system_step w' w''.
Proof.
  intros (Hc & Hk & Hi & Ha & Hf & Hp) Hd He w1. split; [|by apply d_runs_end].
  assert (error_phase e l (d_delivered w) w1) as Hph
    by (apply phase_waiting; cbn; rewrite ?Hi, ?Hf, ?app_nil_r; done).
  assert (d_heard w1) as Hh by (unfold d_heard; cbn; by rewrite Hi).
  intros k w' Hs. destruct (d_serving_steps k w1 w' Hs Hd eq_refl) as (Hd' & _ & _ & Hr).
  pose proof (d_rank_bound w1) as Hb. change (d_kernel w1) with (ReadError e :: l) in Hb.
  change (d_io w1) with (d_io w) in Hb. rewrite Hi in Hb. cbn [length] in Hb. split; [lia|].
  apply error_phase_stuck; [|done|].
  - assert (d_dead w1 = false) as Hd1 by done. assert (d_eof w1 = false) as He1 by done.
    clear - Hs Hph Hd1 He1. induction Hs as [|k w1 w2 w3 Hs _ IH]; [done|].
    destruct (d_serving_step w1 w2 Hd1 He1 Hs) as (? & ? & _). eauto using error_phase_step.
  - clear - Hs Hh. induction Hs; eauto using d_heard_step.
Qed.
End drainer.

(** ** Instances *)

Definition d_next (k : DrainKind) (w : drainer (bool * nat) nat) : option (drainer (bool * nat) nat) :=
  match drain_step k w with
  | Some w' => Some w'
  | None =>
      match d_driver_step w with
      | Some w' => Some w'
      | None => match d_batch_step w with Some w' => Some w' | None => d_park_step w end
      end
  end.
Fixpoint d_nexts (k : DrainKind) (n : nat) (w : drainer (bool * nat) nat) :
    option (drainer (bool * nat) nat) :=
  match n with 0 => Some w | S n => d_next k w ≫= d_nexts k n end.
Lemma d_nexts_steps k n w w' : d_nexts k n w = Some w' → nsteps (d_system_step k) n w w'.
Proof.
  revert w. induction n as [|n IH]; intros w Hn; cbn in Hn; [by simplify_eq; constructor|].
  destruct (d_next k w) as [w1|] eqn:H1; [|done]. econstructor; [|by apply IH]. clear IH Hn.
  unfold d_system_step, d_next in *.
  destruct (drain_step k w), (d_driver_step w), (d_batch_step w); simplify_eq; auto.
Qed.
Lemma d_next_stuck k w : d_next k w = None → ∀ w', ¬ d_system_step k w w'.
Proof.
  unfold d_next, d_system_step. intros Hn w' Hs.
  destruct (drain_step k w), (d_driver_step w), (d_batch_step w); try done.
  destruct Hs as [?|[?|[?|?]]]; congruence.
Qed.

(** Seventeen datagrams that were there before the watcher: two quanta. *)
Definition seventeen : list IoData := replicate 17 (UdpDatagram [Byte.x61] AUnnamed).
Definition d_late : drainer (bool * nat) nat := d_spawned (false, 0) seventeen false false.
Lemma d_late_reachable : d_reachable KindUdp (λ d, is_error d = false) d_late.
Proof. exists (false, 0), seventeen, false, false. split; [by repeat constructor|apply rtc_refl]. Qed.
Lemma drain_task_serves_witness :
  ∃ w', d_nexts KindUdp 40 d_late = Some w' ∧ d_quiet w' ∧ d_delivered w' = seventeen.
Proof.
  destruct (drain_task_serves KindUdp d_late d_late_reachable eq_refl eq_refl) as [Hk _].
  destruct (Hk 40 (default d_late (d_nexts KindUdp 40 d_late))) as (_ & _ & Hq).
  - apply d_nexts_steps. vm_compute. reflexivity.
  - eexists. split; [vm_compute; reflexivity|]. apply Hq, d_next_stuck. vm_compute. reflexivity.
Defined.

(** An unreachable peer's error before a datagram. *)
Definition d_rest : drainer (bool * nat) nat :=
  MkDrainer DWaiting None 0 false (false, 0) [] false false false [] false [].
Definition refused : IoData := ReadError (OSError 111).
Lemma error_parks_on_data_witness :
  ∃ w', d_nexts KindUdp 6 (d_set_kernel (refused :: seventeen) false true d_rest) = Some w' ∧
    d_at w' = DWaiting ∧ d_kernel w' = seventeen ∧ d_delivered w' = [refused].
Proof.
  destruct (error_parks_on_data KindUdp (OSError 111) seventeen d_rest) as [Hk _];
    [unfold d_quiet; cbn; auto 7|done|done|].
  eexists. split; [vm_compute; reflexivity|].
  eapply (Hk 6); [apply d_nexts_steps; vm_compute; reflexivity|].
  apply d_next_stuck. vm_compute. reflexivity.
Defined.
