(* ===== verification/SelectorTransport.v ===== *)
(** * [_SelectorTransport] (python/tokioop/transports.py, lines 39-251)

    The base class of the transports: protocol binding, pausing and resuming,
    the replay buffer, closing and teardown.  The methods the subclasses
    override and the base class calls are the fields of [TransportClass]. *)

From Stdlib Require Import Strings.Byte.
From stdpp Require Import base tactics list gmap strings.
From S2P Require Import Prelude State Reactor Env Loop.

(** ** State *)

(** [_drain_kind]: ['tcp'], ['udp'] or (as [None]) callback mode. *)
Inductive drain_kind := Tcp | Udp.
#[export] Instance drain_kind_eq_dec : EqDecision drain_kind.
Proof. solve_decision. Defined.

(** A re-delivery closure in [_replay], by what it delivers (the address is
    used by datagram transports only). *)
Inductive replay_item :=
  | RData (data : bytes) (a : option addr)
  | RError (e : exn).
#[export] Instance replay_item_eq_dec : EqDecision replay_item.
Proof. solve_decision. Defined.

(** The attributes of a transport.  [B] is the type of the elements of
    [_buffer], [X] the attributes the subclass adds.  [_sock], [_loop] become
    [None] at teardown, which the two booleans record; the two water marks and
    [_protocol_paused] belong to asyncio's [_FlowControlMixin]. *)
Record transport (B X : Type) := MkTransport {
  _sock : bool;
  _sock_fd : Z;
  _loop : bool;
  _protocol : option proto;
  _protocol_connected : bool;
  _server : option nat;
  _peername : option addr;
  _sockname : option addr;
  _buffer : list B;
  _conn_lost : nat;
  _closing : bool;
  _paused : bool;
  _replay : list replay_item;
  _drain_kind : option drain_kind;
  _protocol_paused : bool;
  _high_water : nat;
  _low_water : nat;
  ext : X;
}.
Arguments _sock {B X}.
Arguments _sock_fd {B X}.
Arguments _loop {B X}.
Arguments _protocol {B X}.
Arguments _protocol_connected {B X}.
Arguments _server {B X}.
Arguments _peername {B X}.
Arguments _sockname {B X}.
Arguments _buffer {B X}.
Arguments _conn_lost {B X}.
Arguments _closing {B X}.
Arguments _paused {B X}.
Arguments _replay {B X}.
Arguments _drain_kind {B X}.
Arguments _protocol_paused {B X}.
Arguments _high_water {B X}.
Arguments _low_water {B X}.
Arguments ext {B X}.

(** Attribute assignment. *)
Section setters.
Context {B X : Type}.
Implicit Types t : transport B X.

Definition set_protocol_attr (p : option proto) t : transport B X :=
  MkTransport B X (_sock t) (_sock_fd t) (_loop t) p (_protocol_connected t) (_server t)
    (_peername t) (_sockname t) (_buffer t) (_conn_lost t) (_closing t) (_paused t)
    (_replay t) (_drain_kind t) (_protocol_paused t) (_high_water t) (_low_water t) (ext t).
Definition set_connected (b : bool) t : transport B X :=
  MkTransport B X (_sock t) (_sock_fd t) (_loop t) (_protocol t) b (_server t)
    (_peername t) (_sockname t) (_buffer t) (_conn_lost t) (_closing t) (_paused t)
    (_replay t) (_drain_kind t) (_protocol_paused t) (_high_water t) (_low_water t) (ext t).
Definition set_server (s : option nat) t : transport B X :=
  MkTransport B X (_sock t) (_sock_fd t) (_loop t) (_protocol t) (_protocol_connected t) s
    (_peername t) (_sockname t) (_buffer t) (_conn_lost t) (_closing t) (_paused t)
    (_replay t) (_drain_kind t) (_protocol_paused t) (_high_water t) (_low_water t) (ext t).
Definition set_buffer (b : list B) t : transport B X :=
  MkTransport B X (_sock t) (_sock_fd t) (_loop t) (_protocol t) (_protocol_connected t)
    (_server t) (_peername t) (_sockname t) b (_conn_lost t) (_closing t) (_paused t)
    (_replay t) (_drain_kind t) (_protocol_paused t) (_high_water t) (_low_water t) (ext t).
Definition set_conn_lost (n : nat) t : transport B X :=
  MkTransport B X (_sock t) (_sock_fd t) (_loop t) (_protocol t) (_protocol_connected t)
    (_server t) (_peername t) (_sockname t) (_buffer t) n (_closing t) (_paused t)
    (_replay t) (_drain_kind t) (_protocol_paused t) (_high_water t) (_low_water t) (ext t).
Definition set_closing (b : bool) t : transport B X :=
  MkTransport B X (_sock t) (_sock_fd t) (_loop t) (_protocol t) (_protocol_connected t)
    (_server t) (_peername t) (_sockname t) (_buffer t) (_conn_lost t) b (_paused t)
    (_replay t) (_drain_kind t) (_protocol_paused t) (_high_water t) (_low_water t) (ext t).
Definition set_paused (b : bool) t : transport B X :=
  MkTransport B X (_sock t) (_sock_fd t) (_loop t) (_protocol t) (_protocol_connected t)
    (_server t) (_peername t) (_sockname t) (_buffer t) (_conn_lost t) (_closing t) b
    (_replay t) (_drain_kind t) (_protocol_paused t) (_high_water t) (_low_water t) (ext t).
Definition set_replay (l : list replay_item) t : transport B X :=
  MkTransport B X (_sock t) (_sock_fd t) (_loop t) (_protocol t) (_protocol_connected t)
    (_server t) (_peername t) (_sockname t) (_buffer t) (_conn_lost t) (_closing t) (_paused t)
    l (_drain_kind t) (_protocol_paused t) (_high_water t) (_low_water t) (ext t).
Definition set_drain_kind (k : option drain_kind) t : transport B X :=
  MkTransport B X (_sock t) (_sock_fd t) (_loop t) (_protocol t) (_protocol_connected t)
    (_server t) (_peername t) (_sockname t) (_buffer t) (_conn_lost t) (_closing t) (_paused t)
    (_replay t) k (_protocol_paused t) (_high_water t) (_low_water t) (ext t).
Definition set_protocol_paused (b : bool) t : transport B X :=
  MkTransport B X (_sock t) (_sock_fd t) (_loop t) (_protocol t) (_protocol_connected t)
    (_server t) (_peername t) (_sockname t) (_buffer t) (_conn_lost t) (_closing t) (_paused t)
    (_replay t) (_drain_kind t) b (_high_water t) (_low_water t) (ext t).
Definition set_ext (x : X) t : transport B X :=
  MkTransport B X (_sock t) (_sock_fd t) (_loop t) (_protocol t) (_protocol_connected t)
    (_server t) (_peername t) (_sockname t) (_buffer t) (_conn_lost t) (_closing t) (_paused t)
    (_replay t) (_drain_kind t) (_protocol_paused t) (_high_water t) (_low_water t) x.
(** [self._sock = self._protocol = self._loop = None] *)
Definition set_gone t : transport B X :=
  MkTransport B X false (_sock_fd t) false None (_protocol_connected t)
    (_server t) (_peername t) (_sockname t) (_buffer t) (_conn_lost t) (_closing t) (_paused t)
    (_replay t) (_drain_kind t) (_protocol_paused t) (_high_water t) (_low_water t) (ext t).
End setters.

(** A transport, its loop, its environment and the trace so far. *)
Record world (E B X : Type) := MkWorld {
  w_loop : LoopState;
  w_tr : transport B X;
  w_env : E;
  w_trace : list event;
  (** [loop._transports], as the fds that have an entry *)
  w_transports : gset Z;
}.
Arguments MkWorld {E B X}.
Arguments w_loop {E B X}.
Arguments w_tr {E B X}.
Arguments w_env {E B X}.
Arguments w_trace {E B X}.
Arguments w_transports {E B X}.

#[export] Instance world_loop {E B X} : HasLoop (world E B X) := {|
  lget w := w_loop w;
  lset l w := MkWorld l (w_tr w) (w_env w) (w_trace w) (w_transports w) |}.
#[export] Instance world_env {E B X} : HasEnv (world E B X) E := {|
  lget w := w_env w;
  lset e w := MkWorld (w_loop w) (w_tr w) e (w_trace w) (w_transports w) |}.
#[export] Instance world_trace {E B X} : HasTrace (world E B X) := {|
  lget w := w_trace w;
  lset l w := MkWorld (w_loop w) (w_tr w) (w_env w) l (w_transports w) |}.
Definition set_tr {E B X} (t : transport B X) (w : world E B X) : world E B X :=
  MkWorld (w_loop w) t (w_env w) (w_trace w) (w_transports w).
Definition set_transports {E B X} (s : gset Z) (w : world E B X) : world E B X :=
  MkWorld (w_loop w) (w_tr w) (w_env w) (w_trace w) s.

(** [asyncio.constants.LOG_THRESHOLD_FOR_CONNLOST_WRITES] *)
Definition LOG_THRESHOLD_FOR_CONNLOST_WRITES : nat := 5.

(** What [write] and [sendto] are called with. *)
Inductive write_arg :=
  | BytesLike (data : bytes)
  | NotBytes.

(** ** Overridden methods *)

Class TransportClass (E B X : Type) := {
  get_write_buffer_size : transport B X → nat;
  (** what calling a re-delivery closure does *)
  run_replay : replay_item → M (world E B X) unit;
}.

(** The connection is lost: teardown is scheduled or done. *)
Definition torn {B X} (t : transport B X) : bool :=
  bool_decide (_conn_lost t ≠ 0) || negb (_loop t).

(** ** Methods *)

Section selector.
Context {E B X : Type} `{!Kernel E} `{!Protocol (world E B X)} `{!TransportClass E B X}.
Local Abbreviation W := (world E B X).

(** Reading and assigning attributes of [self]. *)
Definition self {A} (f : transport B X → A) : M W A := gets (λ w, f (w_tr w)).
Definition put (f : transport B X → transport B X) : M W unit :=
  modify (λ w, set_tr (f (w_tr w)) w).

(** [self._loop.m()] and [self._sock.m()]: [AttributeError] on [None]. *)
Definition loop_call {A} (m : M W A) : M W A :=
  alive ← self _loop; if (alive : bool) then m else raise AttributeError.
Definition sock_call {A} (m : Z → M W A) : M W A :=
  alive ← self _sock; fd ← self _sock_fd;
  if (alive : bool) then m fd else raise AttributeError.
(** [self._protocol.m()], recorded in the trace when it is entered. *)
Definition protocol_call {A} (ev : proto → event) (m : proto → M W A) : M W A :=
  p ← self _protocol;
  match p with
  | Some p => log (ev p);; m p
  | None => raise AttributeError
  end.

(** [if self._loop.get_debug(): logger.debug(...)]. *)
Definition debug_log : M W unit := loop_call (mret tt).

(** [self._loop.call_soon(cb)], the handle ignored. *)
Definition loop_call_soon (cb : callback) : M W unit :=
  loop_call (on_loop (call_soon cb));; mret tt.

(** [self._loop.call_soon(self._protocol.connection_made, self)]: the method is
    bound to the protocol of that moment. *)
Definition call_soon_connection_made : M W unit :=
  p ← self _protocol;
  match p with
  | Some p => loop_call_soon (CbConnectionMade p)
  | None => raise AttributeError
  end.

(** [loop.call_exception_handler({..., "exception": exc})]: errors of the
    handler are printed, never raised. *)
Definition call_exception_handler (exc : exn) : M W unit :=
  log (EvExceptionHandler exc);; swallow (p_exception_handler exc).

Definition loop_remove_reader : M W unit :=
  fd ← self _sock_fd; loop_call (_remove_reader fd);; mret tt.
Definition loop_remove_writer : M W unit :=
  fd ← self _sock_fd; loop_call (_remove_writer fd);; mret tt.
Definition loop_add_writer (cb : callback) : M W unit :=
  fd ← self _sock_fd; loop_call (_add_writer fd cb);; mret tt.

Definition get_protocol (t : transport B X) : option proto := _protocol t.
Definition is_closing (t : transport B X) : bool := _closing t.
Definition is_reading (t : transport B X) : bool :=
  negb (is_closing t) && negb (_paused t).

(** The base class's [set_protocol]. *)
Definition set_protocol (p : proto) : M W unit :=
  put (set_protocol_attr (Some p));; put (set_connected true).

Definition _register_reader : M W unit :=
  reading ← self is_reading;
  if negb reading then mret tt else
  kind ← self _drain_kind;
  fd ← self _sock_fd;
  match kind with
  | Some Udp => loop_call (_add_udp_reader fd CbDrainDatagram CbDrainError);; mret tt
  | Some Tcp => loop_call (_add_tcp_reader fd CbDrainStream CbDrainError);; mret tt
  | None => loop_call (_add_reader fd CbReadReady);; mret tt
  end.

Definition pause_reading : M W unit :=
  reading ← self is_reading;
  if negb reading then mret tt else
  put (set_paused true);;
  kind ← self _drain_kind;
  match kind with
  | None => loop_remove_reader
  | Some _ => mret tt
  end;;
  debug_log.

(** [while replay and not self._paused and not self._closing and not
    self._conn_lost: fn = replay.popleft(); fn()], with [n] bounding the
    iterations. *)
Definition flush_guard (t : transport B X) : bool :=
  bool_decide (_replay t ≠ []) && negb (_paused t) && negb (_closing t)
  && bool_decide (_conn_lost t = 0).

Fixpoint flush_loop (n : nat) : M W unit :=
  match n with
  | 0 => mret tt
  | S n =>
      go ← self flush_guard;
      if negb go then mret tt else
      replay ← self _replay;
      match replay with
      | [] => mret tt
      | fn :: rest => put (set_replay rest);; run_replay fn;; flush_loop n
      end
  end.

Definition _flush_replay : M W unit :=
  n ← self (λ t, length (_replay t)); flush_loop n.

(** The body shared by the [_drain_*] methods of the subclasses:
    [if self._conn_lost or self._closing: return
     if self._paused: self._replay.append(...); return
     deliver(...)] *)
Definition drain_guarded (i : replay_item) : M W unit :=
  lost ← self _conn_lost; closing ← self _closing;
  if bool_decide (lost ≠ 0) || closing then mret tt else
  paused ← self _paused;
  if (paused : bool)
  then put (λ t, set_replay (_replay t ++ [i]) t)
  else run_replay i.

Definition resume_reading : M W unit :=
  closing ← self _closing; paused ← self _paused;
  if closing || negb paused then mret tt else
  put (set_paused false);;
  _flush_replay;;
  paused ← self _paused; closing ← self _closing;
  if paused || closing then mret tt else
  fd ← self _sock_fd;
  polling ← loop_call (loop_get (_is_polling fd false));
  when_ (negb polling) _register_reader;;
  debug_log.

Definition incr_conn_lost : M W unit := put (λ t, set_conn_lost (S (_conn_lost t)) t).

Definition close : M W unit :=
  closing ← self _closing;
  if (closing : bool) then mret tt else
  put (set_closing true);;
  loop_remove_reader;;
  buffer ← self _buffer;
  match buffer with
  | [] =>
      incr_conn_lost;;
      loop_remove_writer;;
      loop_call_soon (CbCallConnectionLost None)
  | _ => mret tt
  end.

Definition _force_close (exc : option exn) : M W unit :=
  lost ← self _conn_lost;
  if decide (lost ≠ 0) then mret tt else
  buffer ← self _buffer;
  match buffer with
  | [] => mret tt
  | _ => put (set_buffer []);; loop_remove_writer
  end;;
  closing ← self _closing;
  when_ (negb closing) (put (set_closing true);; loop_remove_reader);;
  incr_conn_lost;;
  loop_call_soon (CbCallConnectionLost exc).

Definition abort : M W unit := _force_close None.

Definition _fatal_error (exc : exn) : M W unit :=
  (if is_OSError exc then debug_log else loop_call (call_exception_handler exc));;
  _force_close (Some exc).

Definition server_detach : M W unit :=
  server ← self _server;
  match server with
  | Some s => log (EvDetach s)
  | None => mret tt
  end.

Definition _call_connection_lost (exc : option exn) : M W unit :=
  try_finally
    (connected ← self _protocol_connected;
     when_ connected
       (protocol_call (λ p, EvConnectionLost p exc) (λ p, p_connection_lost p exc)))
    (sock_call sys_close;;
     put set_gone;;
     server_detach;;
     put (set_server None)).

Definition __del__ : M W unit :=
  alive ← self _sock;
  when_ alive
    (log EvWarning;; sock_call sys_close;; server_detach).

(** *** asyncio's [_FlowControlMixin] *)

Definition _maybe_pause_protocol : M W unit :=
  t ← self id;
  if decide (get_write_buffer_size t ≤ _high_water t) then mret tt else
  if _protocol_paused t then mret tt else
  put (set_protocol_paused true);;
  try_except (protocol_call EvPauseWriting p_pause_writing)
    (except_cb (λ exc, loop_call (call_exception_handler exc))).

Definition _maybe_resume_protocol : M W unit :=
  t ← self id;
  if _protocol_paused t && bool_decide (get_write_buffer_size t ≤ _low_water t) then
    put (set_protocol_paused false);;
    try_except (protocol_call EvResumeWriting p_resume_writing)
      (except_cb (λ exc, loop_call (call_exception_handler exc)))
  else mret tt.

(** *** Construction *)

Definition default_high_water : nat := 64 * 1024.
Definition default_low_water : nat := 16 * 1024.

(** The attributes [__init__] starts from: those of the class and those
    [_FlowControlMixin.__init__] sets. *)
Definition new_transport (kind : option drain_kind) (x : X) : transport B X :=
  MkTransport B X false 0 true None false None None None [] 0 false false []
    kind false default_high_water default_low_water x.

(** [set_protocol_] is the subclass's override, called before the remaining
    attributes exist; [extra] is the caller's ["peername"], if any. *)
Definition __init__ (set_protocol_ : proto → M W unit) (sock : Z) (protocol : proto)
    (extra : option addr) (server : option nat) : M W unit :=
  sockname ← try_except (a ← kernel (k_getsockname sock); mret (Some a))
               (λ e, if is_OSError e then mret None else raise e);
  peername ← match extra with
             | Some a => mret (Some a)
             | None => try_except (a ← kernel (k_getpeername sock); mret (Some a))
                         (λ e, if is_OSError e then mret None else raise e)
             end;
  put (λ t, MkTransport B X true sock (_loop t) (_protocol t) false (_server t)
              peername sockname (_buffer t) (_conn_lost t) (_closing t) (_paused t)
              (_replay t) (_drain_kind t) (_protocol_paused t) (_high_water t)
              (_low_water t) (ext t));;
  set_protocol_ protocol;;
  put (λ t, set_server server (set_buffer [] (set_conn_lost 0
              (set_closing false (set_paused false (set_replay [] t))))));;
  match server with
  | Some s => log (EvAttach s)
  | None => mret tt
  end;;
  modify (λ w, set_transports ({[ _sock_fd (w_tr w) ]} ∪ w_transports w) w).
End selector.

(** ** Evaluating the accessors *)

Section run.
Context {E B X : Type}.
Implicit Types w : world E B X.

Definition add_event (ev : event) w : world E B X :=
  MkWorld (w_loop w) (w_tr w) (w_env w) (w_trace w ++ [ev]) (w_transports w).

Lemma run_self {A} (f : transport B X → A) w : self f w = (Ret (f (w_tr w)), w).
Proof. done. Qed.
Lemma run_put f w : put f w = (Ret tt, set_tr (f (w_tr w)) w).
Proof. done. Qed.
Lemma run_log ev w : log ev w = (Ret tt, add_event ev w).
Proof. done. Qed.
Lemma run_loop_call {A} (m : M (world E B X) A) w :
  _loop (w_tr w) = true → loop_call m w = m w.
Proof. intros Hl. unfold loop_call. by rewrite run_bind, run_self, Hl. Qed.
Lemma run_sock_call {A} (m : Z → M (world E B X) A) w :
  _sock (w_tr w) = true → sock_call m w = m (_sock_fd (w_tr w)) w.
Proof. intros Hs. unfold sock_call. rewrite !run_bind, run_self, run_bind, run_self. by rewrite Hs. Qed.
Lemma run_protocol_call {A} ev (m : proto → M (world E B X) A) p w :
  _protocol (w_tr w) = Some p → protocol_call ev m w = m p (add_event (ev p) w).
Proof.
  intros Hp. unfold protocol_call. by rewrite run_bind, run_self, Hp, run_bind, run_log.
Qed.
Lemma run_debug_log w : _loop (w_tr w) = true → debug_log w = (Ret tt, w).
Proof. intros. unfold debug_log. by rewrite run_loop_call. Qed.
End run.

Ltac trun :=
  repeat (rewrite ?run_bind, ?run_self, ?run_put, ?run_log, ?run_gets, ?run_modify,
            ?run_ret, ?run_raise; cbn).

(** ** Functional behaviour of teardown *)

Section teardown.
Context {E B X : Type} `{!Kernel E} `{!Protocol (world E B X)} `{!TransportClass E B X}.
Local Abbreviation W := (world E B X).
Implicit Types w : W.

(** The world after one direction of the transport's fd is unregistered. *)
Definition unregister (is_read : bool) w : W :=
  lset (remove_watcher is_read (_sock_fd (w_tr w)) (w_loop w)).2 w.

Lemma remove_watcher_ret d fd s : ∃ b s', remove_watcher d fd s = (Ret b, s').
Proof.
  unfold remove_watcher, on_reactor. rewrite run_bind, run_gets.
  destruct (closed s); [by eexists _, _|].
  destruct (detach_watcher fd d (reactor s)); by eexists _, _.
Qed.

Lemma run_remove_reader w :
  _loop (w_tr w) = true → loop_remove_reader w = (Ret tt, unregister true w).
Proof.
  intros Hl. unfold loop_remove_reader. rewrite run_bind, run_self. cbv beta iota.
  rewrite run_bind, run_loop_call by done. unfold _remove_reader, on_loop, zoom, unregister.
  destruct (remove_watcher_ret true (_sock_fd (w_tr w)) (w_loop w)) as (b & s' & Hs).
  simpl. by rewrite Hs.
Qed.
Lemma run_remove_writer w :
  _loop (w_tr w) = true → loop_remove_writer w = (Ret tt, unregister false w).
Proof.
  intros Hl. unfold loop_remove_writer. rewrite run_bind, run_self. cbv beta iota.
  rewrite run_bind, run_loop_call by done. unfold _remove_writer, on_loop, zoom, unregister.
  destruct (remove_watcher_ret false (_sock_fd (w_tr w)) (w_loop w)) as (b & s' & Hs).
  simpl. by rewrite Hs.
Qed.

Definition update (f : transport B X → transport B X) w : W := set_tr (f (w_tr w)) w.

(** What [_force_close] and [close] do before they schedule the call. *)
Definition clear_writes w : W :=
  match _buffer (w_tr w) with
  | [] => w
  | _ => unregister false (update (set_buffer []) w)
  end.
Definition stop_reading w : W :=
  if _closing (w_tr w) then w else unregister true (update (set_closing true) w).
Definition count_lost w : W := update (λ t, set_conn_lost (S (_conn_lost t)) t) w.

Lemma force_close_run exc w :
  _loop (w_tr w) = true →
  _force_close exc w =
  if decide (_conn_lost (w_tr w) ≠ 0) then (Ret tt, w)
  else loop_call_soon (CbCallConnectionLost exc) (count_lost (stop_reading (clear_writes w))).
Proof.
  intros Hl. unfold _force_close. rewrite run_bind, run_self. cbv beta iota.
  case_decide; [done|]. rewrite run_bind, run_self. cbv beta iota.
  assert (∀ w1, _loop (w_tr w1) = true →
    (closing ← self _closing;
     when_ (negb closing) (put (set_closing true);; loop_remove_reader);;
     incr_conn_lost;; loop_call_soon (CbCallConnectionLost exc)) w1 =
    loop_call_soon (CbCallConnectionLost exc) (count_lost (stop_reading w1))) as Hrest.
  { intros w1 Hl1. rewrite run_bind, run_self. cbv beta iota. unfold stop_reading.
    destruct (_closing (w_tr w1)); cbn [when_ negb]; [done|].
    rewrite run_bind, run_bind, run_put. cbv beta iota.
    rewrite run_remove_reader by done. cbv beta iota. done. }
  unfold clear_writes. destruct (_buffer (w_tr w)); rewrite run_bind.
  - by apply Hrest.
  - rewrite run_bind, run_put. cbv beta iota. rewrite run_remove_writer by done.
    cbv beta iota. by apply Hrest.
Qed.

Lemma close_run w :
  _loop (w_tr w) = true →
  close w =
  if _closing (w_tr w) then (Ret tt, w)
  else
    let w1 := unregister true (update (set_closing true) w) in
    match _buffer (w_tr w) with
    | [] => loop_call_soon (CbCallConnectionLost None) (unregister false (count_lost w1))
    | _ => (Ret tt, w1)
    end.
Proof.
  intros Hl. unfold close. rewrite run_bind, run_self. cbv beta iota.
  destruct (_closing (w_tr w)); [done|].
  rewrite run_bind, run_put. cbv beta iota.
  rewrite run_bind, run_remove_reader by done. cbv beta iota.
  rewrite run_bind, run_self. cbv beta iota zeta.
  fold (update (set_closing true) w). set (w1 := unregister true _).
  change (_buffer (w_tr w1)) with (_buffer (w_tr w)).
  destruct (_buffer (w_tr w)); [|reflexivity].
  unfold incr_conn_lost. rewrite run_bind, run_put. cbv beta iota.
  by rewrite run_bind, run_remove_writer.
Qed.

Lemma call_soon_tr c w : w_tr (loop_call_soon c w).2 = w_tr w.
Proof.
  unfold loop_call_soon, loop_call. rewrite !run_bind, run_self. cbv beta iota.
  destruct (_loop (w_tr w)); [|done]. unfold on_loop, zoom.
  by destruct (call_soon c (lget w)) as [[]].
Qed.

(** Scheduling a callback: the entry is appended, behind a fresh flag. *)
Lemma call_soon_run c w :
  _loop (w_tr w) = true → closed (w_loop w) = false →
  (loop_call_soon c w).1 = Ret tt ∧
  ready (w_loop (loop_call_soon c w).2) =
    ready (w_loop w) ++ [MkReady c (next_id (reactor (w_loop w)))].
Proof.
  intros Hl Hc. unfold loop_call_soon. rewrite run_bind, run_loop_call by done.
  unfold on_loop, zoom, call_soon, check_closed. simpl. by rewrite !run_bind, run_gets, Hc.
Qed.

Lemma call_soon_frame c w :
  w_tr (loop_call_soon c w).2 = w_tr w ∧ w_trace (loop_call_soon c w).2 = w_trace w.
Proof.
  split; [apply call_soon_tr|].
  unfold loop_call_soon, loop_call. rewrite !run_bind, run_self. cbv beta iota.
  destruct (_loop (w_tr w)); [|done]. unfold on_loop, zoom.
  by destruct (call_soon c (lget w)) as [[]].
Qed.

(** Removing a watcher touches the reactor only. *)
Lemma unregister_frame d w :
  w_tr (unregister d w) = w_tr w ∧ w_trace (unregister d w) = w_trace w ∧
  ready (w_loop (unregister d w)) = ready (w_loop w) ∧
  closed (w_loop (unregister d w)) = closed (w_loop w).
Proof.
  unfold unregister, remove_watcher, on_reactor. rewrite run_bind, run_gets. cbv beta iota.
  destruct (closed (w_loop w)) eqn:Hc; [done|].
  destruct (detach_watcher _ _ _). by rewrite <- Hc.
Qed.

Lemma unregister_reactor d w :
  reactor (w_loop (unregister d w)) =
  if closed (w_loop w) then reactor (w_loop w)
  else (detach_watcher (_sock_fd (w_tr w)) d (reactor (w_loop w))).2.
Proof.
  unfold unregister, remove_watcher, on_reactor. rewrite run_bind, run_gets. cbv beta iota.
  destruct (closed (w_loop w)); [done|]. by destruct (detach_watcher _ _ _).
Qed.
Lemma unregister_wf d w : wf (reactor (w_loop w)) → wf (reactor (w_loop (unregister d w))).
Proof.
  intros. rewrite unregister_reactor. destruct (closed _); [done|by apply detach_wf].
Qed.
Lemma unregister_next d w :
  next_id (reactor (w_loop (unregister d w))) = next_id (reactor (w_loop w)).
Proof.
  rewrite unregister_reactor. destruct (closed _); [done|]. apply detach_next.
Qed.
Lemma unregister_env d w : w_env (unregister d w) = w_env w.
Proof. done. Qed.

(** The effect of [clear_writes] and [stop_reading] together. *)
Lemma torn_down_frame w :
  let w' := stop_reading (clear_writes w) in
  _buffer (w_tr w') = [] ∧ _closing (w_tr w') = true ∧ _loop (w_tr w') = _loop (w_tr w) ∧
  _conn_lost (w_tr w') = _conn_lost (w_tr w) ∧ w_trace w' = w_trace w ∧
  ready (w_loop w') = ready (w_loop w) ∧ closed (w_loop w') = closed (w_loop w).
Proof.
  assert (∀ w1, let w' := stop_reading w1 in
    _buffer (w_tr w') = _buffer (w_tr w1) ∧ _closing (w_tr w') = true ∧
    _loop (w_tr w') = _loop (w_tr w1) ∧ _conn_lost (w_tr w') = _conn_lost (w_tr w1) ∧
    w_trace w' = w_trace w1 ∧ ready (w_loop w') = ready (w_loop w1) ∧
    closed (w_loop w') = closed (w_loop w1)) as Hstop.
  { intros w1. unfold stop_reading. destruct (_closing (w_tr w1)) eqn:Hc; [by split_and!|].
    destruct (unregister_frame true (update (set_closing true) w1)) as (H1 & H2 & H3 & H4).
    cbv zeta. by rewrite H1, H2, H3, H4. }
  cbv zeta. destruct (Hstop (clear_writes w)) as (-> & -> & -> & -> & -> & -> & ->).
  unfold clear_writes. destruct (_buffer (w_tr w)) eqn:Hb; [by split_and!|].
  destruct (unregister_frame false (update (set_buffer []) w)) as (H1 & H2 & H3 & H4).
  by rewrite H1, H2, H3, H4.
Qed.

(** The registration of an fd direction, in the world's reactor. *)
Definition watched w (d : bool) : option slot_id :=
  registered (reactor (w_loop w)) (_sock_fd (w_tr w)) d.

Lemma unregister_watched d d' w :
  closed (w_loop w) = false →
  watched (unregister d w) d' = if decide (d = d') then None else watched w d'.
Proof.
  intros Hc. destruct (unregister_frame d w) as [Ht _]. unfold watched. rewrite Ht.
  unfold unregister, remove_watcher, on_reactor. rewrite run_bind, run_gets, Hc.
  cbv beta iota. pose proof (detach_registered (_sock_fd (w_tr w)) d (reactor (w_loop w))
    (_sock_fd (w_tr w)) d') as Hd.
  destruct (detach_watcher _ _ _) as [b r]. cbn [snd] in Hd. simpl. rewrite Hd.
  repeat case_decide; tauto.
Qed.

Lemma call_soon_watched c w d : watched (loop_call_soon c w).2 d = watched w d.
Proof.
  unfold watched. rewrite call_soon_tr. unfold loop_call_soon, loop_call.
  rewrite !run_bind, run_self. cbv beta iota. destruct (_loop (w_tr w)); [|done].
  unfold on_loop, zoom, call_soon, check_closed. rewrite !run_bind, run_gets.
  by destruct (closed (lget w)).
Qed.

(** Registering through the loop: if the call returns, the direction has a
    watcher and the transport is as before. *)
Lemma add_watched fd d (f : Reactor → FdHandle * Reactor) (w : W) h w' :
  (∀ r, is_Some (registered (f r).2 fd d)) →
  (open_fd fd;; on_loop (on_reactor f)) w = (Ret h, w') →
  w_tr w' = w_tr w ∧ is_Some (registered (reactor (w_loop w')) fd d).
Proof.
  intros Hf. rewrite run_bind. unfold open_fd, on_loop, zoom, check_closed.
  rewrite run_bind. simpl. rewrite run_bind, run_gets. destruct (closed (w_loop w)); [done|].
  simpl. case_decide; [done|]. unfold kernel, zoom. simpl.
  destruct (k_dup fd (w_env w)) as [[[]|] e]; [|done]. unfold on_reactor. simpl.
  specialize (Hf (reactor (w_loop w))). destruct (f (reactor (w_loop w))) as [h' r].
  intros [= <- <-]. done.
Qed.

Lemma install_watched fd d mk r : is_Some (registered (install fd d mk r).2 fd d).
Proof. rewrite install_registered, decide_True by done. by eexists. Qed.

Lemma register_reader_watched (w w' : W) :
  is_reading (w_tr w) = true → _register_reader w = (Ret tt, w') →
  w_tr w' = w_tr w ∧ is_Some (watched w' true).
Proof.
  intros Hr. unfold _register_reader. rewrite run_bind, run_self, Hr. simpl.
  rewrite run_bind, run_self, run_bind, run_self. cbv beta iota.
  assert (∀ f, (∀ r, is_Some (registered (f r).2 (_sock_fd (w_tr w)) true)) →
    (loop_call (open_fd (_sock_fd (w_tr w));; on_loop (on_reactor f) : M W FdHandle);;
     mret tt : M W unit) w = (Ret tt, w') →
    w_tr w' = w_tr w ∧ is_Some (watched w' true)) as Hgo.
  { intros f Hf. rewrite run_bind. unfold loop_call. rewrite run_bind, run_self. cbv beta iota.
    destruct (_loop (w_tr w)); [|done].
    destruct ((open_fd _;; _) w) as [[h|] w1] eqn:Hrun; [|done].
    intros [= <-]. destruct (add_watched _ _ _ _ _ _ Hf Hrun) as [Ht Hs].
    unfold watched. by rewrite Ht. }
  destruct (_drain_kind (w_tr w)) as [[]|]; apply Hgo; intros r; apply install_watched.
Qed.

Lemma is_polling_watched fd d r : is_polling fd d r = true → is_Some (registered r fd d).
Proof. unfold is_polling. by destruct (registered r fd d). Qed.

Lemma open_fd_run fd e' (w : W) :
  closed (w_loop w) = false → (0 ≤ fd)%Z → k_dup fd (w_env w) = (Ret tt, e') →
  open_fd fd w = (Ret tt, lset e' w).
Proof.
  intros Hc Hfd Hk. unfold open_fd, on_loop, zoom, check_closed.
  rewrite run_bind, run_bind, run_gets. change (lget w) with (w_loop w). rewrite Hc.
  rewrite run_ret. cbv beta iota. rewrite decide_False by lia. unfold kernel, zoom.
  change (lget (lset (w_loop w) w)) with (w_env w). by rewrite Hk.
Qed.

(** What a transport in each mode registers. *)
Definition reader_slot (kind : option drain_kind) (f : flag_id) : FdSlotState :=
  match kind with
  | None => MkSlot (Some CbReadReady) None None false (Some f)
  | Some Tcp => MkSlot None (Some CbDrainStream) (Some CbDrainError) false (Some f)
  | Some Udp => MkSlot None (Some CbDrainDatagram) (Some CbDrainError) false (Some f)
  end.

Lemma register_reader_run e' (w : W) :
  _loop (w_tr w) = true → closed (w_loop w) = false → is_reading (w_tr w) = true →
  (0 ≤ _sock_fd (w_tr w))%Z → k_dup (_sock_fd (w_tr w)) (w_env w) = (Ret tt, e') →
  _register_reader w =
    (Ret tt, lset (set_reactor (install (_sock_fd (w_tr w)) true
                                  (reader_slot (_drain_kind (w_tr w)))
                                  (reactor (w_loop w))).2 (w_loop w)) (lset e' w)).
Proof.
  intros Hl Hc Hr Hfd Hk. unfold _register_reader. rewrite run_bind, run_self, Hr. cbn [negb].
  rewrite run_bind, run_self, run_bind, run_self. cbv beta iota.
  assert (∀ f, (loop_call (open_fd (_sock_fd (w_tr w));; on_loop (on_reactor f) : M W FdHandle);;
                mret tt : M W unit) w =
    (Ret tt, lset (set_reactor (f (reactor (w_loop w))).2 (w_loop w)) (lset e' w))) as Hgo.
  { intros f. rewrite run_bind, run_loop_call, run_bind by done.
    rewrite (open_fd_run _ e') by done. cbv beta iota. unfold on_loop, zoom, on_reactor.
    change (lget (lset e' w)) with (w_loop w). by destruct (f (reactor (w_loop w))). }
  destruct (_drain_kind (w_tr w)) as [[]|]; apply Hgo.
Qed.

(** [_force_close] loses the connection, whatever it finds. *)
Lemma force_close_keeps_loop exc :
  moves (λ w w' : W, _loop (w_tr w') = _loop (w_tr w)) (_force_close exc).
Proof.
  assert (PreOrder (λ w w' : W, _loop (w_tr w') = _loop (w_tr w)))
    by (split; [done|intros ???; congruence]).
  unfold _force_close, loop_remove_writer, loop_remove_reader, loop_call_soon, loop_call,
    _remove_writer, _remove_reader, on_loop.
  moves_auto; try done; by apply moves_zoom.
Qed.

Lemma force_close_torn exc w : torn (w_tr (_force_close exc w).2) = true.
Proof.
  destruct (_loop (w_tr w)) eqn:Hl; cycle 1.
  { unfold torn. rewrite force_close_keeps_loop, Hl. apply orb_true_r. }
  rewrite force_close_run by done.
  case_decide as Hc; [unfold torn; simpl; by rewrite bool_decide_eq_true_2|].
  by rewrite call_soon_tr.
Qed.
End teardown.
