(* ===== verification/Reads.v ===== *)
(** * Read side of a transport: order and loss

    What a paused transport stores and what it delivers, as one relation
    [Rio] that every method of a transport moves along, for any class of
    transport: the base class's methods are proved here once, the subclasses
    add theirs and the contract of delivering one item. *)

From Stdlib Require Import Strings.Byte.
From stdpp Require Import base tactics list gmap strings.
From S2P Require Import Prelude State Reactor Env Loop.
From S2P Require Import SelectorTransport.

(** ** Deliveries *)

(** What a protocol has been given, in the form the replay buffer holds it: a
    stream's end of file is its empty chunk. *)
Definition delivery (ev : event) : option replay_item :=
  match ev with
  | EvDataReceived _ d => Some (RData d None)
  | EvEofReceived _ => Some (RData [] None)
  | EvDatagramReceived _ d a => Some (RData d (Some a))
  | _ => None
  end.

Definition is_dead {B X} (t : transport B X) : bool :=
  bool_decide (_conn_lost t ≠ 0) || _closing t.

Definition linked {B X} (t : transport B X) : Prop :=
  _loop t = true ∧ is_Some (_protocol t).

(** How a class of transports shows a stored item to its protocol, if the item
    is payload (a stream has no addresses, and the errors of a datagram socket
    are not payload). *)
Class Shown (X : Type) := shown : replay_item → option replay_item.

Section reads.
Context {E B X : Type} `{!Shown X}.
Local Abbreviation W := (world E B X).

Definition received (w : W) : list replay_item :=
  omap delivery (w_trace w) ++ omap shown (_replay (w_tr w)).

(** Nothing is stored unless reading is paused. *)
Definition settled (t : transport B X) : Prop :=
  _paused t = true ∨ _replay t = [].

(** From [w] to [w']: a closed transport stays closed, and unless the
    transport got closed, what was delivered followed by what is stored is the
    same sequence, the replay buffer only lost items at its front, and it is
    still settled if it was. *)
Record Rio (w w' : W) : Prop := {
  io_dead : is_dead (w_tr w) = true → is_dead (w_tr w') = true;
  io_keep : is_dead (w_tr w') = false → linked (w_tr w) →
            linked (w_tr w') ∧ received w' = received w ∧
            _replay (w_tr w') `suffix_of` _replay (w_tr w) ∧
            (settled (w_tr w) → settled (w_tr w'));
}.

#[export] Instance Rio_preorder : PreOrder Rio.
Proof.
  split.
  - intros w. by split.
  - intros w1 w2 w3 [d1 k1] [d2 k2]. split; [auto|].
    intros Hd3 Hl1. destruct (is_dead (w_tr w2)) eqn:Hd2.
    { specialize (d2 eq_refl). congruence. }
    destruct (k1 eq_refl Hl1) as (Hl2 & <- & ? & ?).
    destruct (k2 Hd3 Hl2) as (? & ? & ? & ?). split_and!; [done|done|by etrans|auto].
Qed.

(** The part of the world [Rio] speaks about. *)
Definition io_view (w : W) :=
  let t := w_tr w in
  (_conn_lost t, _closing t, _loop t, _protocol t, _replay t, _paused t,
   omap delivery (w_trace w)).

Lemma Rio_view w w' : io_view w = io_view w' → Rio w w'.
Proof.
  unfold io_view. intros Hv. simplify_eq.
  split; unfold is_dead, linked, received, settled; repeat match goal with
    | Hv : _ = _ |- _ => rewrite Hv; clear Hv end; auto.
Qed.

(** Once the transport is closed, only that matters. *)
Lemma Rio_dead w w' : is_dead (w_tr w') = true → Rio w w'.
Proof. intros Hd. split; [done|congruence]. Qed.

Lemma Rio_unlinked w w' : is_dead (w_tr w) = false → ¬ linked (w_tr w) → Rio w w'.
Proof. intros Hd Hl. split; [congruence|done]. Qed.

Context `{!Kernel E} `{!Protocol W} `{!TransportClass E B X}.

(** Callbacks reach the transport through its methods, so they move along
    [Rio] too. *)
Context `{!Obeys Rio}.

Lemma rio_self {A} (f : transport B X → A) : moves Rio (self f).
Proof. apply moves_gets, _. Qed.
Lemma rio_loop_get {A} (f : LoopState → A) : moves Rio (loop_get (W := W) f).
Proof. apply moves_gets, _. Qed.
Lemma rio_put_view f :
  (∀ t, (_conn_lost (f t), _closing (f t), _loop (f t), _protocol (f t), _replay (f t),
         _paused (f t)) =
        (_conn_lost t, _closing t, _loop t, _protocol t, _replay t, _paused t)) →
  moves Rio (put (E := E) f).
Proof.
  intros Hf. apply moves_modify. intros w. apply Rio_view. specialize (Hf (w_tr w)).
  unfold io_view; simpl. simplify_eq. congruence.
Qed.
Lemma rio_closing : moves Rio (put (E := E) (set_closing true)).
Proof. apply moves_modify. intros w. apply Rio_dead. unfold is_dead; simpl. by rewrite orb_true_r. Qed.
Lemma rio_incr_conn_lost : moves Rio (incr_conn_lost (E := E)).
Proof. apply moves_modify. intros w. by apply Rio_dead. Qed.
Lemma rio_put_protocol p : moves Rio (put (E := E) (set_protocol_attr (Some p))).
Proof.
  apply moves_modify. intros w. split; [done|].
  intros _ [? _]. done.
Qed.
Lemma rio_pause : moves Rio (put (E := E) (set_paused true)).
Proof.
  apply moves_modify. intros w. split; [done|]. intros _ ?. split_and!; try done.
  intros _. by left.
Qed.
Lemma rio_on_loop {A} (m : M LoopState A) : moves Rio (on_loop (W := W) m).
Proof. apply moves_zoom. intros w. by apply Rio_view. Qed.
Lemma rio_kernel {A} (m : M E A) : moves Rio (kernel (W := W) m).
Proof. apply moves_zoom. intros w. by apply Rio_view. Qed.
Lemma rio_log ev : delivery ev = None → moves Rio (log (W := W) ev).
Proof.
  intros Hev. apply moves_modify. intros w. apply Rio_view. unfold io_view; simpl.
  rewrite omap_app. simpl. by rewrite Hev, app_nil_r.
Qed.
#[local] Hint Resolve rio_self rio_loop_get rio_closing rio_pause rio_incr_conn_lost
  rio_put_protocol rio_on_loop rio_kernel : moves.
#[local] Hint Extern 1 (moves Rio (log _)) => (apply rio_log; reflexivity) : moves.
#[local] Hint Extern 1 (moves Rio (put _)) => (apply rio_put_view; reflexivity) : moves.
#[local] Hint Extern 5 (PreOrder _) => (apply Rio_preorder) : moves.

Ltac rio := moves_auto.

Lemma rio_loop_call {A} (m : M W A) : moves Rio m → moves Rio (loop_call m).
Proof. intros. unfold loop_call. rio. Qed.
Lemma rio_sock_call {A} (m : Z → M W A) : (∀ fd, moves Rio (m fd)) → moves Rio (sock_call m).
Proof. intros. unfold sock_call. rio. Qed.
#[local] Hint Resolve rio_loop_call rio_sock_call : moves.
Lemma rio_protocol_call {A} ev (m : proto → M W A) :
  (∀ p, delivery (ev p) = None) → (∀ p, moves Rio (m p)) → moves Rio (protocol_call ev m).
Proof. intros. unfold protocol_call. rio. by apply rio_log. Qed.
#[local] Hint Extern 1 (moves Rio (protocol_call _ _)) =>
  (apply rio_protocol_call; [reflexivity|]) : moves.

(** *** The base class's methods *)

Lemma rio_debug_log : moves Rio (debug_log (E := E)).
Proof. unfold debug_log. rio. Qed.
Lemma rio_loop_call_soon cb : moves Rio (loop_call_soon (E := E) cb).
Proof. unfold loop_call_soon. rio. Qed.
Lemma rio_call_exception_handler e : moves Rio (call_exception_handler e).
Proof. unfold call_exception_handler. rio. Qed.
Lemma rio_remove_reader : moves Rio (loop_remove_reader (E := E)).
Proof. unfold loop_remove_reader, _remove_reader. rio. Qed.
Lemma rio_remove_writer : moves Rio (loop_remove_writer (E := E)).
Proof. unfold loop_remove_writer, _remove_writer. rio. Qed.
Lemma rio_open_fd fd : moves Rio (open_fd (W := W) fd).
Proof. unfold open_fd. rio. Qed.
#[local] Hint Resolve rio_debug_log rio_loop_call_soon rio_call_exception_handler
  rio_remove_reader rio_remove_writer rio_open_fd : moves.
Lemma rio_add_writer cb : moves Rio (loop_add_writer (E := E) cb).
Proof. unfold loop_add_writer, _add_writer. rio. Qed.
Lemma rio_register_reader : moves Rio (_register_reader (E := E) (B := B) (X := X)).
Proof. unfold _register_reader, _add_tcp_reader, _add_udp_reader, _add_reader. rio. Qed.
#[local] Hint Resolve rio_add_writer rio_register_reader : moves.
Lemma rio_pause_reading : moves Rio (pause_reading (E := E)).
Proof. unfold pause_reading. rio. Qed.
Lemma rio_base_close : moves Rio (SelectorTransport.close (E := E) (B := B) (X := X)).
Proof. unfold SelectorTransport.close. rio. Qed.
Lemma rio_force_close e : moves Rio (_force_close (E := E) e).
Proof. unfold _force_close. rio. Qed.
#[local] Hint Resolve rio_pause_reading rio_base_close rio_force_close : moves.
Lemma rio_fatal e : moves Rio (_fatal_error e).
Proof. unfold _fatal_error. rio. Qed.
Lemma rio_maybe_pause_protocol : moves Rio (_maybe_pause_protocol (E := E)).
Proof. unfold _maybe_pause_protocol. rio. Qed.
Lemma rio_maybe_resume_protocol : moves Rio (_maybe_resume_protocol (E := E)).
Proof. unfold _maybe_resume_protocol. rio. Qed.
#[local] Hint Resolve rio_fatal rio_maybe_pause_protocol rio_maybe_resume_protocol : moves.

(** Teardown only runs on closed transports. *)
Definition stays_dead : relation W := keeps (λ w, is_dead (w_tr w) = true).
Lemma Rio_stays_dead {A} (m : M W A) : moves Rio m → moves stays_dead m.
Proof. intros Hm w Hd. exact (io_dead _ _ (Hm w) Hd). Qed.
Lemma stays_dead_put f :
  (∀ t : transport B X, is_dead (f t) = is_dead t) →
  moves stays_dead (put (E := E) f).
Proof. intros Hf. apply moves_modify. intros w. unfold stays_dead, keeps; simpl. by rewrite Hf. Qed.
Lemma base_connection_lost_stays_dead e :
  moves stays_dead (SelectorTransport._call_connection_lost (E := E) e).
Proof.
  unfold SelectorTransport._call_connection_lost, server_detach, sys_close.
  moves_auto; try (apply Rio_stays_dead; rio; fail); by apply stays_dead_put.
Qed.

(** ** Delivering one item *)

Definition alive (w : W) : Prop := is_dead (w_tr w) = false ∧ linked (w_tr w).

(** Either the transport got closed, or the call returned, the transport is
    alive and [l] is what is delivered or stored. *)
Definition closed_or (l : list replay_item) (replay : list replay_item)
    (out : res unit * W) : Prop :=
  is_dead (w_tr out.2) = true ∨
  (out.1 = Ret tt ∧ alive out.2 ∧ received out.2 = l ∧
   _replay (w_tr out.2) `suffix_of` replay).

Lemma Rio_alive w w' :
  Rio w w' → alive w →
  is_dead (w_tr w') = true ∨
  (alive w' ∧ received w' = received w ∧ _replay (w_tr w') `suffix_of` _replay (w_tr w)).
Proof.
  intros Hr [Hd Hl]. destruct (is_dead (w_tr w')) eqn:Hd'; [by left|right].
  destruct (io_keep _ _ Hr Hd' Hl) as (? & ? & ? & _). by split_and!.
Qed.

(** Continuing after a callback: [m] moves along [Rio] and, when it finds the
    transport alive, returns or closes it. *)
Lemma closed_or_tail (m : M W unit) w w1 :
  Rio w w1 → alive w → moves Rio m →
  (alive w1 → (m w1).1 = Ret tt ∨ is_dead (w_tr (m w1).2) = true) →
  closed_or (received w) (_replay (w_tr w)) (m w1).
Proof.
  intros Hr Ha Hm Hret. destruct (Rio_alive _ _ Hr Ha) as [Hd|(Ha1 & <- & Hs)].
  { left. by apply (io_dead _ _ (Hm w1)). }
  destruct (Rio_alive _ _ (Hm w1) Ha1) as [?|(? & ? & ?)]; [by left|].
  destruct (Hret Ha1) as [?|?]; [right|by left]. split_and!; try done. by etrans.
Qed.

Lemma remove_reader_ret (w : W) :
  _loop (w_tr w) = true → (loop_remove_reader w).1 = Ret tt.
Proof.
  intros Hl. unfold loop_remove_reader, loop_call, self. mrun. rewrite Hl.
  unfold _remove_reader, on_loop, zoom, remove_watcher, on_reactor. mrun.
  destruct (closed (w_loop w)); simpl; [done|].
  by destruct (detach_watcher _ _ _).
Qed.
Lemma remove_writer_run (w : W) :
  _loop (w_tr w) = true →
  (loop_remove_writer w).1 = Ret tt ∧ w_tr (loop_remove_writer w).2 = w_tr w.
Proof.
  intros Hl. unfold loop_remove_writer, loop_call, self. mrun. rewrite Hl.
  unfold _remove_writer, on_loop, zoom, remove_watcher, on_reactor. mrun.
  destruct (closed (w_loop w)); simpl; [done|].
  by destruct (detach_watcher _ _ _).
Qed.

(** [_fatal_error] and [close] leave the transport closed. *)
Definition mark_closing_then (c : M W unit) : M W unit :=
  closing ← self _closing;
  when_ (negb closing) (put (set_closing true);; loop_remove_reader);;
  c.

Lemma mark_closing_closes (c : M W unit) w :
  moves Rio c → is_dead (w_tr (mark_closing_then c w).2) = true.
Proof.
  intros Hc. unfold mark_closing_then. assert (moves stays_dead ((loop_remove_reader : M W unit);; c)) as Hm
    by (apply Rio_stays_dead; rio).
  unfold self. mrun. destruct (_closing (w_tr w)) eqn:Hcl; simpl.
  - mrun. refine (io_dead _ _ (Hc w) _). unfold is_dead. by rewrite Hcl, orb_true_r.
  - refine (Hm (set_tr (set_closing true (w_tr w)) w) _). unfold is_dead; simpl.
    by rewrite orb_true_r.
Qed.

Lemma force_close_closes e (w : W) :
  _loop (w_tr w) = true → is_dead (w_tr (_force_close e w).2) = true.
Proof.
  intros Hl. unfold _force_close, self. mrun. case_decide as Hlost.
  { unfold is_dead; simpl. by rewrite bool_decide_eq_true_2. }
  assert (∀ w, is_dead (w_tr (mark_closing_then
    (incr_conn_lost;; loop_call_soon (CbCallConnectionLost e)) w).2) = true) as Hrest
    by (intros; apply mark_closing_closes; rio).
  mrun. destruct (_buffer (w_tr w)); [apply Hrest|].
  pose proof (remove_writer_run (set_tr (set_buffer [] (w_tr w)) w) Hl) as [Hr _].
  unfold put. mrun. destruct (loop_remove_writer _) as [[[]|] w2]; simpl in Hr;
    [apply Hrest|done].
Qed.

Lemma fatal_closes e (w : W) : alive w → is_dead (w_tr (_fatal_error e w).2) = true.
Proof.
  intros [Hd Hl]. unfold _fatal_error.
  assert (∀ (m : M W unit), moves Rio m → (m w).1 = Ret tt →
    is_dead (w_tr ((m;; _force_close (Some e)) w).2) = true) as Hgo.
  { intros m Hm Hr. rewrite run_bind. specialize (Hm w).
    destruct (m w) as [[[]|] w1]; simpl in *; [|done].
    destruct (is_dead (w_tr w1)) eqn:Hd1; [by apply rio_force_close|].
    apply force_close_closes. by apply (io_keep _ _ Hm Hd1 Hl). }
  destruct Hl as [Hl _]. destruct (is_OSError e); apply Hgo; try rio;
    unfold debug_log, loop_call, self, call_exception_handler; mrun; by rewrite Hl.
Qed.

Lemma base_close_closes (w : W) : is_dead (w_tr (SelectorTransport.close w).2) = true.
Proof.
  unfold SelectorTransport.close, put, self. mrun.
  destruct (_closing (w_tr w)) eqn:Hc; simpl.
  { mrun. unfold is_dead; simpl. by rewrite Hc, orb_true_r. }
  assert (is_dead (w_tr (set_tr (set_closing true (w_tr w)) w)) = true) as Hd
    by (unfold is_dead; simpl; by rewrite orb_true_r).
  pose proof (io_dead _ _ (rio_remove_reader _) Hd) as Hd2.
  rewrite run_bind, run_modify, run_bind.
  destruct (loop_remove_reader (set_tr _ _)) as [[[]|] w2]; [|done].
  match goal with |- is_dead (w_tr (?m w2).2) = true =>
    refine (io_dead _ _ ((_ : moves Rio m) w2) Hd2) end.
  rio.
Qed.

(** A protocol callback of the read side, entered on an alive transport, with
    the handler and continuation the methods use. *)
Lemma read_callback_spec {A} ev (m : proto → M W A) (k : A → M W unit) (w : W) x :
  (∀ p, delivery (ev p) = Some x) →
  (∀ p, moves Rio (m p)) →
  (∀ p w e, (m p w).1 = Raise e → is_exit e = false) →
  (∀ a, moves Rio (k a)) →
  (∀ a w, alive w → (k a w).1 = Ret tt ∨ is_dead (w_tr (k a w).2) = true) →
  alive w →
  closed_or (omap delivery (w_trace w) ++ x :: omap shown (_replay (w_tr w)))
    (_replay (w_tr w)) (try_else (protocol_call ev m) (except_cb _fatal_error) k w).
Proof.
  intros Hev Hm Hexit Hk Hret Ha. pose proof Ha as [Hd [Hl [p Hp]]].
  unfold try_else. rewrite (run_protocol_call _ _ p) by done.
  set (w1 := add_event (ev p) w). assert (alive w1) as Ha1 by done.
  replace (_ ++ _) with (received w1); cycle 1.
  { unfold received; simpl. rewrite omap_app; simpl. by rewrite Hev, <- app_assoc. }
  change (_replay (w_tr w)) with (_replay (w_tr w1)).
  pose proof (Hm p w1) as Hr. specialize (Hexit p w1).
  destruct (m p w1) as [[a|e] w2]; cbn [fst snd] in *.
  - apply closed_or_tail; auto.
  - unfold except_cb. rewrite Hexit by done.
    apply closed_or_tail; auto using rio_fatal. intros. right. by apply fatal_closes.
Qed.

(** What a subclass owes: calling a re-delivery closure on an open transport
    delivers its item, next in order, and returns, unless it closes the
    transport. *)
Class ReplayLaws : Prop := {
  replay_spec i (w : W) :
    alive w →
    closed_or (omap delivery (w_trace w) ++ option_list (shown i) ++ omap shown (_replay (w_tr w)))
      (_replay (w_tr w)) (run_replay i w)
}.
Context `{!ReplayLaws}.

(** ** Flushing and resuming *)

Lemma flush_guard_false (w : W) :
  flush_guard (w_tr w) = false →
  is_dead (w_tr w) = true ∨ _paused (w_tr w) = true ∨ _replay (w_tr w) = [].
Proof.
  unfold flush_guard, is_dead. destruct (decide (_replay (w_tr w) = [])); [auto|].
  destruct (_paused (w_tr w)); [auto|]. destruct (_closing (w_tr w)); [auto with bool|].
  destruct (decide (_conn_lost (w_tr w) = 0)) as [->|].
  - by rewrite bool_decide_eq_true_2.
  - rewrite (bool_decide_eq_true_2 (_ ≠ 0)) by done. auto.
Qed.

Lemma flush_guard_true (w : W) :
  flush_guard (w_tr w) = true → is_dead (w_tr w) = false ∧ _replay (w_tr w) ≠ [].
Proof.
  unfold flush_guard, is_dead. rewrite !andb_true_iff, !negb_true_iff, !bool_decide_eq_true.
  intros (((? & ?) & ->) & ->). by rewrite bool_decide_eq_false_2 by lia.
Qed.

Lemma flush_guard_dead (w : W) :
  is_dead (w_tr w) = true → flush_guard (w_tr w) = false.
Proof.
  intros Hd. destruct (flush_guard (w_tr w)) eqn:Hg; [|done].
  apply flush_guard_true in Hg as [? _]. congruence.
Qed.

Lemma flush_loop_stop n (w : W) :
  flush_guard (w_tr w) = false → flush_loop n w = (Ret tt, w).
Proof. intros Hg. destruct n; [done|]. simpl. by rewrite run_bind, run_self, Hg. Qed.

(** The loop ends with its guard false (so the iteration bound, the length of
    the buffer, is never what stops it), having delivered a prefix of the
    buffer in order. *)
Lemma flush_loop_spec n (w : W) :
  alive w → length (_replay (w_tr w)) ≤ n →
  closed_or (received w) (_replay (w_tr w)) (flush_loop n w) ∧
  flush_guard (w_tr (flush_loop n w).2) = false.
Proof.
  revert w. induction n as [|n IH]; intros w Ha Hn; simpl.
  { split; [right; by split_and!|]. unfold flush_guard.
    destruct (_replay (w_tr w)); [done|simpl in Hn; lia]. }
  rewrite run_bind, run_self. destruct (flush_guard (w_tr w)) eqn:Hg; simpl; cycle 1.
  { split; [right; by split_and!|done]. }
  rewrite run_bind, run_self. apply flush_guard_true in Hg as [_ Hne].
  destruct (_replay (w_tr w)) as [|i rest] eqn:Hrep; [done|]. simpl in Hn.
  rewrite run_bind, run_put, run_bind.
  set (w1 := set_tr _ w). assert (alive w1) as Ha1 by done.
  pose proof (replay_spec i w1 Ha1) as Hspec.
  destruct Hspec as [Hd|(Hr & Ha2 & Hrec & Hsuf)];
    destruct (run_replay i w1) as [[[]|e] w2]; cbn [fst snd] in *; cbv beta iota; try done.
  - rewrite flush_loop_stop by by apply flush_guard_dead.
    split; [by left|by apply flush_guard_dead].
  - split; [by left|by apply flush_guard_dead].
  - destruct (IH w2 Ha2) as [[Hd|(Hr' & Ha3 & Hrec' & Hsuf')] Hg3].
    { apply suffix_length in Hsuf. simpl in Hsuf. lia. }
    { split; [by left|done]. }
    split; [right|done]. split_and!; try done.
    + rewrite Hrec', Hrec. unfold received. rewrite Hrep. simpl. by destruct (shown i).
    + etrans; [done|]. etrans; [done|]. by apply suffix_cons_r.
Qed.

Lemma rio_flush_replay : moves Rio (_flush_replay (E := E) (B := B) (X := X)).
Proof.
  intros w. unfold _flush_replay. rewrite run_bind, run_self.
  destruct (is_dead (w_tr w)) eqn:Hd.
  { by rewrite flush_loop_stop by by apply flush_guard_dead. }
  destruct (decide (_loop (w_tr w) = true ∧ is_Some (_protocol (w_tr w)))) as [Hl|Hl];
    [|by apply Rio_unlinked].
  destruct (flush_loop_spec (length (_replay (w_tr w))) w) as [[?|(_ & [? ?] & ? & ?)] Hg];
    [done|done|by apply Rio_dead|].
  split; [congruence|]. intros _ _. split_and!; try done. intros _.
  destruct (flush_guard_false _ Hg) as [?|[?|?]]; [congruence|by left|by right].
Qed.

#[local] Hint Resolve rio_flush_replay : moves.

(** What follows the flush in [resume_reading]. *)
Definition resume_rest : M W unit :=
  paused ← self _paused; closing ← self _closing;
  if paused || closing then mret tt else
  fd ← self _sock_fd;
  polling ← loop_call (loop_get (_is_polling fd false));
  when_ (negb polling) _register_reader;;
  debug_log.

Lemma rio_resume_rest : moves Rio resume_rest.
Proof. unfold resume_rest. rio. Qed.
#[local] Hint Resolve rio_resume_rest : moves.

Lemma rio_resume_reading : moves Rio (resume_reading (E := E) (B := B) (X := X)).
Proof.
  intros w. unfold resume_reading. rewrite run_bind, run_self, run_bind, run_self.
  destruct (_closing (w_tr w)) eqn:Hc; [done|].
  destruct (_paused (w_tr w)) eqn:Hp; [|done]. cbn [orb negb].
  rewrite run_bind, run_put. cbv beta iota.
  set (w1 := set_tr _ w). fold resume_rest.
  destruct (is_dead (w_tr w)) eqn:Hd.
  { apply Rio_dead. assert (moves Rio (_flush_replay ;; resume_rest)) as Hm by rio.
    by apply (io_dead _ _ (Hm w1)). }
  destruct (decide (_loop (w_tr w) = true ∧ is_Some (_protocol (w_tr w)))) as [Hl|Hl];
    [|by apply Rio_unlinked].
  assert (alive w1) as Ha1 by done.
  change ((_flush_replay ;; resume_rest) w1) with
    ((flush_loop (length (_replay (w_tr w1))) ;; resume_rest) w1).
  rewrite run_bind.
  destruct (flush_loop_spec (length (_replay (w_tr w1))) w1 Ha1) as [Hcl Hg]; [done|].
  pose proof (rio_resume_rest (flush_loop (length (_replay (w_tr w1))) w1).2) as Hrest.
  destruct Hcl as [Hd2|(Hr & Ha2 & Hrec & Hsuf)];
    destruct (flush_loop _ w1) as [[[]|e] w2]; cbn [fst snd] in *; try done.
  - by apply Rio_dead, Hrest.
  - by apply Rio_dead.
  - destruct Ha2 as [Hd2 Hl2]. split; [congruence|]. intros Hd3 _.
    destruct (io_keep _ _ Hrest Hd3 Hl2) as (? & Hrec3 & Hsuf3 & Hset).
    split_and!; [done|by rewrite Hrec3, Hrec|by etrans|]. intros _. apply Hset.
    destruct (flush_guard_false _ Hg) as [?|[?|?]]; [congruence|by left|by right].
Qed.

Lemma resume_rest_watched (w w' : W) :
  resume_rest w = (Ret tt, w') → _paused (w_tr w') = false → is_dead (w_tr w') = false →
  is_Some (watched w' true).
Proof.
  unfold resume_rest. rewrite run_bind, run_self, run_bind, run_self. cbv beta iota.
  destruct (_paused (w_tr w) || _closing (w_tr w)) eqn:Hpc; simpl.
  { intros [= <-] Hp. unfold is_dead. rewrite Hp in *. simpl in Hpc. rewrite Hpc.
    by rewrite orb_true_r. }
  apply orb_false_iff in Hpc as [Hp Hc].
  rewrite run_bind, run_self, run_bind. unfold loop_call at 1. rewrite run_bind, run_self.
  cbv beta iota. destruct (_loop (w_tr w)) eqn:Hl; [|done].
  unfold loop_get. rewrite run_gets. cbv beta iota. rewrite run_bind.
  destruct (_is_polling _ false _) eqn:Hpoll; cbn [negb when_].
  - rewrite run_ret, run_debug_log by done. intros [= <-] _ _. by eapply is_polling_watched.
  - destruct (_register_reader w) as [[[]|] w1] eqn:Hreg; [|done].
    apply register_reader_watched in Hreg as [Ht Hs];
      [|unfold is_reading, is_closing; by rewrite Hp, Hc].
    rewrite run_debug_log by (by rewrite Ht). by intros [= <-].
Qed.

Lemma resume_reading_watched (w w' : W) :
  _paused (w_tr w) = true → _closing (w_tr w) = false →
  resume_reading w = (Ret tt, w') → _paused (w_tr w') = false → is_dead (w_tr w') = false →
  is_Some (watched w' true).
Proof.
  intros Hp Hc. unfold resume_reading. rewrite run_bind, run_self, run_bind, run_self, Hp, Hc.
  cbn [orb negb]. rewrite run_bind, run_put, run_bind. cbv beta iota. fold resume_rest.
  destruct (_flush_replay _) as [[[]|] w1]; [|done]. apply resume_rest_watched.
Qed.
#[local] Hint Resolve rio_resume_reading : moves.

(** ** Arrivals *)

(** A payload handed over by the watcher task: stored while paused, delivered
    otherwise; in both cases it comes last. *)
Lemma drain_guarded_spec i w :
  settled (w_tr w) → alive w →
  is_dead (w_tr (drain_guarded i w).2) = true ∨
  (alive (drain_guarded i w).2 ∧ settled (w_tr (drain_guarded i w).2) ∧
   received (drain_guarded i w).2 = received w ++ option_list (shown i)).
Proof.
  intros Hs Ha. pose proof Ha as [Hd Hl]. unfold drain_guarded.
  rewrite run_bind, run_self, run_bind, run_self. fold (is_dead (w_tr w)).
  rewrite Hd, run_bind, run_self. destruct (_paused (w_tr w)) eqn:Hp.
  - right. rewrite run_put. cbn [snd]. split_and!; [done|by left|].
    unfold received; simpl. by rewrite omap_app, app_assoc, omap_one.
  - destruct Hs as [?|Hs]; [congruence|].
    destruct (replay_spec i w Ha) as [?|(_ & ? & Hrec & Hsuf)]; [by left|right].
    rewrite Hs in *. apply suffix_nil_inv in Hsuf.
    split_and!; [done|by right|]. rewrite Hrec. unfold received. rewrite Hs. simpl.
    by rewrite !app_nil_r.
Qed.


(** Closed transports ignore what arrives. *)
Lemma drain_guarded_dead i (w : W) :
  is_dead (w_tr w) = true → drain_guarded i w = (Ret tt, w).
Proof.
  intros Hd. unfold drain_guarded. rewrite run_bind, run_self, run_bind, run_self.
  fold (is_dead (w_tr w)). by rewrite Hd.
Qed.
End reads.

#[export] Hint Resolve rio_self rio_loop_get rio_closing rio_pause rio_incr_conn_lost
  rio_put_protocol rio_on_loop rio_kernel rio_loop_call rio_sock_call rio_debug_log
  rio_loop_call_soon rio_call_exception_handler rio_remove_reader rio_remove_writer
  rio_open_fd rio_add_writer rio_register_reader rio_pause_reading rio_base_close
  rio_force_close rio_fatal rio_maybe_pause_protocol rio_maybe_resume_protocol
  rio_flush_replay rio_resume_reading : moves.
#[export] Hint Extern 1 (moves Rio (log _)) => (apply rio_log; reflexivity) : moves.
#[export] Hint Extern 1 (moves Rio (put _)) => (apply rio_put_view; reflexivity) : moves.
#[export] Hint Extern 1 (moves Rio (protocol_call _ _)) =>
  (apply rio_protocol_call; [reflexivity|]) : moves.
#[export] Hint Extern 5 (PreOrder _) => (typeclasses eauto) : moves.
#[export] Hint Extern 5 (ReplayLaws) => (typeclasses eauto) : moves.
