(* ===== verification/SocketTransport.v ===== *)
(** * [_SelectorSocketTransport] (python/tokioop/transports.py, lines 254-610)

    The stream transport: drain-mode delivery, the two callback-mode read
    paths, and the buffered write side. *)

From Stdlib Require Import Strings.Byte.
From stdpp Require Import base tactics list gmap strings.
From S2P Require Import Prelude State Reactor Env Loop.
From S2P Require Import SelectorTransport.

(** ** State *)

(** The values of [_read_ready_cb] and [_write_ready]. *)
Inductive read_ready_method := read_ready__get_buffer | read_ready__data_received.
Inductive write_ready_method := write_sendmsg | write_send.

(** The attributes the subclass adds. *)
Record stream := MkStream {
  _eof : bool;
  _empty_waiter : option fut_id;
  _read_ready_cb : option read_ready_method;
  _write_ready : option write_ready_method;
}.

Definition set_eof (b : bool) (x : stream) : stream :=
  MkStream b (_empty_waiter x) (_read_ready_cb x) (_write_ready x).
Definition set_empty_waiter (f : option fut_id) (x : stream) : stream :=
  MkStream (_eof x) f (_read_ready_cb x) (_write_ready x).
Definition set_read_ready_cb (m : option read_ready_method) (x : stream) : stream :=
  MkStream (_eof x) (_empty_waiter x) m (_write_ready x).
Definition set_write_ready (m : option write_ready_method) (x : stream) : stream :=
  MkStream (_eof x) (_empty_waiter x) (_read_ready_cb x) m.

Definition MAX_STREAM_READS_PER_EVENT : nat := 16.
Definition max_size : nat := 256 * 1024.

(** [_adjust_leftover_buffer]: drop the first [nbytes] bytes of the queued
    chunks ([IndexError]: the deque ran empty). *)
Fixpoint adjust_loop (nbytes : nat) (buffer : list bytes) : option (list bytes) :=
  match nbytes with
  | 0 => Some buffer
  | _ =>
      match buffer with
      | [] => None
      | b :: rest =>
          let b_len := length b in
          if decide (b_len ≤ nbytes) then adjust_loop (nbytes - b_len) rest
          else Some (drop nbytes b :: rest)
      end
  end.

Section socket.
Context {E : Type} `{!Kernel E} `{!Protocol (world E bytes stream)}.
Local Abbreviation W := (world E bytes stream).

Definition put_ext (f : stream → stream) : M W unit :=
  put (λ t, set_ext (f (ext t)) t).
Definition get_ext {A} (f : stream → A) : M W A := self (λ t, f (ext t)).

(** The base class's [get_write_buffer_size]: [sum(map(len, self._buffer))]. *)
Definition stream_buffer_size (t : transport bytes stream) : nat :=
  sum_list (length <$> _buffer t).

(** *** Errors on the way of a delivery *)

(** [_fatal_error], [close], ... do not call the overridden methods, so they
    are used here with the class's own two. *)
Definition fatal (exc : exn) : M W unit := _fatal_error exc.

Definition close : M W unit :=
  put_ext (set_read_ready_cb None);;
  SelectorTransport.close.

(** *** End of file *)

Definition _read_ready__on_eof : M W unit :=
  debug_log;;
  try_else (protocol_call EvEofReceived p_eof_received)
    (except_cb fatal)
    (λ keep_open, if (keep_open : bool) then loop_remove_reader else close).

(** *** Drain mode *)

Definition _deliver_stream (data : bytes) : M W unit :=
  match data with
  | [] => _read_ready__on_eof
  | _ =>
      try_except (protocol_call (λ p, EvDataReceived p data) (λ p, p_data_received p data))
        (except_cb fatal)
  end.

Definition _deliver_error (exc : exn) : M W unit := fatal exc.

Definition stream_run_replay (i : replay_item) : M W unit :=
  match i with
  | RData data _ => _deliver_stream data
  | RError exc => _deliver_error exc
  end.

#[export] Instance socket_class : TransportClass E bytes stream := {|
  get_write_buffer_size := stream_buffer_size;
  run_replay := stream_run_replay |}.

Definition _drain_stream (data : bytes) : M W unit := drain_guarded (RData data None).
Definition _drain_error (exc : exn) : M W unit := drain_guarded (RError exc).

(** *** Callback mode *)

Definition _read_ready__get_buffer : M W unit :=
  lost ← self _conn_lost;
  if decide (lost ≠ 0) then mret tt else
  p ← self _protocol;
  try_else
    (len ← match p with
           | Some p => p_get_buffer p
           | None => raise AttributeError
           end;
     if decide (len = 0)
     then raise (RuntimeError "get_buffer() returned an empty buffer")
     else mret len)
    (except_cb fatal)
    (λ len,
      try_else (sock_call (λ fd, kernel (k_recv_into fd len)))
        (except_io (mret tt) fatal)
        (λ nbytes,
          if decide (nbytes = 0) then _read_ready__on_eof else
          try_except
            (protocol_call (λ p, EvBufferUpdated p nbytes) (λ p, p_buffer_updated p nbytes))
            (except_cb fatal))).

(** One iteration of the burst loop; [true] means [return]. *)
Definition read_one : M W bool :=
  try_else (sock_call (λ fd, sys_recv fd max_size))
    (except_io (mret true) (λ exc, fatal exc;; mret true))
    (λ data,
      match data with
      | [] => _read_ready__on_eof;; mret true
      | _ =>
          try_else
            (protocol_call (λ p, EvDataReceived p data) (λ p, p_data_received p data))
            (except_cb (λ exc, fatal exc;; mret true))
            (λ _,
              lost ← self _conn_lost; closing ← self _closing; paused ← self _paused;
              mret (bool_decide (lost ≠ 0) || closing || paused))
      end).

Fixpoint read_burst (n : nat) : M W unit :=
  match n with
  | 0 => mret tt
  | S n => stop ← read_one; if (stop : bool) then mret tt else read_burst n
  end.

Definition _read_ready__data_received : M W unit :=
  lost ← self _conn_lost;
  if decide (lost ≠ 0) then mret tt else
  read_burst MAX_STREAM_READS_PER_EVENT.

Definition _read_ready : M W unit :=
  m ← get_ext _read_ready_cb;
  match m with
  | Some read_ready__get_buffer => _read_ready__get_buffer
  | Some read_ready__data_received => _read_ready__data_received
  | None => raise (TypeError "'NoneType' object is not callable")
  end.

(** *** Protocol switching *)

(** [built]: whether [__init__] has already set [_closing] and [_paused];
    before that [_register_reader] reads a missing attribute. *)
Definition set_protocol_ (built : bool) (protocol : proto) : M W unit :=
  let buffered := is_BufferedProtocol protocol in
  put_ext (set_read_ready_cb
    (Some (if buffered then read_ready__get_buffer else read_ready__data_received)));;
  let kind := if buffered then None else Some Tcp in
  old ← self _drain_kind;
  (if decide (kind ≠ old) then
     put (set_drain_kind kind);;
     alive ← self _loop;
     lclosed ← loop_get closed;
     closing ← self _closing;
     paused ← self _paused;
     fd ← self _sock_fd;
     polling ← loop_get (_is_polling fd false);
     when_ (alive && negb lclosed && negb closing && negb paused && polling)
       (loop_remove_reader;;
        if built then _register_reader else raise AttributeError)
   else mret tt);;
  SelectorTransport.set_protocol protocol.

Definition set_protocol : proto → M W unit := set_protocol_ true.

(** *** Writing *)

Definition shutdown_wr : M W unit := sock_call sys_shutdown.

(** The common tail of the three write errors. *)
Definition set_waiter_exception (exc : exn) : M W unit :=
  w ← get_ext _empty_waiter;
  match w with
  | Some f => on_loop (set_exception f exc)
  | None => mret tt
  end.

Definition _call_connection_lost (exc : option exn) : M W unit :=
  try_finally (SelectorTransport._call_connection_lost exc)
    (put_ext (set_write_ready None);;
     set_waiter_exception (ConnectionError "Connection is closed by peer")).

(** [if self._closing: self._call_connection_lost(None)
     elif self._eof: self._sock.shutdown(socket.SHUT_WR)]. *)
Definition write_finished : M W unit :=
  closing ← self _closing;
  eof ← get_ext _eof;
  if (closing : bool) then _call_connection_lost None
  else when_ eof shutdown_wr.

(** [else:] branch shared by [_write_sendmsg] and [_write_send]. *)
Definition write_progress : M W unit :=
  _maybe_resume_protocol;;
  buffer ← self _buffer;
  match buffer with
  | _ :: _ => mret tt
  | [] =>
      loop_remove_writer;;
      w ← get_ext _empty_waiter;
      match w with
      | Some f => on_loop (set_result f VNone)
      | None => mret tt
      end;;
      write_finished
  end.

(** [except BaseException as exc:] branch of both. *)
Definition write_failed (exc : exn) : M W unit :=
  loop_remove_writer;;
  put (set_buffer []);;
  fatal exc;;
  set_waiter_exception exc.

Definition _get_sendmsg_buffer (t : transport bytes stream) : list bytes :=
  take SC_IOV_MAX (_buffer t).

Definition _adjust_leftover_buffer (nbytes : nat) : M W unit :=
  buffer ← self _buffer;
  match adjust_loop nbytes buffer with
  | Some b => put (set_buffer b)
  | None => put (set_buffer []);; raise IndexError
  end.

Definition _write_sendmsg : M W unit :=
  buffer ← self _buffer;
  match buffer with
  | [] => raise AssertionError
  | _ =>
      lost ← self _conn_lost;
      if decide (lost ≠ 0) then mret tt else
      iov ← self _get_sendmsg_buffer;
      try_else
        (nbytes ← sock_call (λ fd, sys_sendmsg fd iov);
         _adjust_leftover_buffer nbytes)
        (except_io (mret tt) write_failed)
        (λ _, write_progress)
  end.

Definition _write_send : M W unit :=
  buffer ← self _buffer;
  match buffer with
  | [] => raise AssertionError
  | b :: rest =>
      lost ← self _conn_lost;
      if decide (lost ≠ 0) then mret tt else
      try_else
        (put (set_buffer rest);;
         n ← sock_call (λ fd, sys_send fd b);
         when_ (bool_decide (n ≠ length b))
           (put (λ t, set_buffer (drop n b :: _buffer t) t)))
        (except_io (mret tt) write_failed)
        (λ _, write_progress)
  end.

(** [self._loop._add_writer(self._sock_fd, self._write_ready)]: the bound
    method is looked up now. *)
Definition add_write_ready : M W unit :=
  m ← get_ext _write_ready;
  loop_add_writer match m with
                  | Some write_sendmsg => CbWriteSendmsg
                  | Some write_send => CbWriteSend
                  | None => CbNone
                  end.

(** Calling [self._write_ready]. *)
Definition call_write_ready : M W unit :=
  m ← get_ext _write_ready;
  match m with
  | Some write_sendmsg => _write_sendmsg
  | Some write_send => _write_send
  | None => raise (TypeError "'NoneType' object is not callable")
  end.

Definition conn_lost_write : M W unit :=
  lost ← self _conn_lost;
  when_ (bool_decide (LOG_THRESHOLD_FOR_CONNLOST_WRITES ≤ lost)) (log EvWarning);;
  incr_conn_lost.

Definition append_buffer (data : bytes) : M W unit :=
  put (λ t, set_buffer (_buffer t ++ [data]) t);;
  _maybe_pause_protocol.

Definition write (arg : write_arg) : M W unit :=
  match arg with
  | NotBytes => raise (TypeError "data argument must be a bytes, bytearray, or memoryview object")
  | BytesLike data =>
      eof ← get_ext _eof;
      if (eof : bool) then raise (RuntimeError "Cannot call write() after write_eof()") else
      waiter ← get_ext _empty_waiter;
      if bool_decide (is_Some waiter) then raise (RuntimeError "unable to write; sendfile is in progress") else
      if decide (data = []) then mret tt else
      lost ← self _conn_lost;
      if decide (lost ≠ 0) then conn_lost_write else
      buffer ← self _buffer;
      match buffer with
      | _ :: _ => append_buffer data
      | [] =>
          (* [None]: the method returned *)
          rest ← try_else (sock_call (λ fd, sys_send fd data))
                   (except_io (mret (Some data)) (λ exc, fatal exc;; mret None))
                   (λ n, match drop n data with
                         | [] => mret None
                         | rest => mret (Some rest)
                         end);
          match rest with
          | None => mret tt
          | Some rest =>
              add_write_ready;;
              append_buffer rest
          end
      end
  end.

Definition write_eof : M W unit :=
  closing ← self _closing; eof ← get_ext _eof;
  if (closing || eof) then mret tt else
  put_ext (set_eof true);;
  buffer ← self _buffer;
  match buffer with [] => shutdown_wr | _ => mret tt end.

Definition can_write_eof : bool := true.

Definition writelines (list_of_data : list bytes) : M W unit :=
  eof ← get_ext _eof;
  if (eof : bool) then raise (RuntimeError "Cannot call writelines() after write_eof()") else
  waiter ← get_ext _empty_waiter;
  if bool_decide (is_Some waiter) then raise (RuntimeError "unable to writelines; sendfile is in progress") else
  if decide (list_of_data = []) then mret tt else
  lost ← self _conn_lost;
  if decide (lost ≠ 0) then conn_lost_write else
  put (λ t, set_buffer (_buffer t ++ list_of_data) t);;
  call_write_ready;;
  buffer ← self _buffer;
  match buffer with
  | [] => mret tt
  | _ => add_write_ready;; _maybe_pause_protocol
  end.

(** *** [sendfile] support *)

Definition _make_empty_waiter : M W fut_id :=
  waiter ← get_ext _empty_waiter;
  if bool_decide (is_Some waiter) then raise (RuntimeError "Empty waiter is already set") else
  f ← loop_call (on_loop create_future);
  put_ext (set_empty_waiter (Some f));;
  buffer ← self _buffer;
  match buffer with
  | [] => on_loop (set_result f VNone)
  | _ => mret tt
  end;;
  mret f.

Definition _reset_empty_waiter : M W unit := put_ext (set_empty_waiter None).

(** *** Construction *)

Definition __init__ (sock : Z) (protocol : proto) (waiter : option fut_id)
    (extra : option addr) (server : option nat) : M W unit :=
  put (λ _, new_transport (Some Tcp) (MkStream false None None None));;
  SelectorTransport.__init__ (set_protocol_ false) sock protocol extra server;;
  put_ext (set_eof false);;
  put_ext (set_empty_waiter None);;
  put_ext (set_write_ready (Some (if HAS_SENDMSG then write_sendmsg else write_send)));;
  call_soon_connection_made;;
  loop_call_soon CbRegisterReader;;
  match waiter with
  | Some f => loop_call_soon (CbSetResultUnlessCancelled f)
  | None => mret tt
  end.

(** *** What the application calls and the loop runs *)

Inductive api :=
  | ApiPauseReading
  | ApiResumeReading
  | ApiClose
  | ApiAbort
  | ApiWrite (arg : write_arg)
  | ApiWritelines (l : list bytes)
  | ApiWriteEof
  | ApiSetProtocol (p : proto).

Definition run_api (a : api) : M W unit :=
  match a with
  | ApiPauseReading => pause_reading
  | ApiResumeReading => resume_reading
  | ApiClose => close
  | ApiAbort => abort
  | ApiWrite arg => write arg
  | ApiWritelines l => writelines l
  | ApiWriteEof => write_eof
  | ApiSetProtocol p => set_protocol p
  end.

(** A callback of the transport run by the loop, and a drain completion with
    its payload ([deliver_drain_data] in src/event_loop.rs: [b""] marks the
    end of the stream). *)
Inductive firing :=
  | FireCallback (c : callback)
  | FireTcpChunk (payload : bytes)
  | FireTcpEof
  | FireReadError (e : exn).

Definition run_firing (f : firing) : M W unit :=
  match f with
  | FireCallback CbReadReady => _read_ready
  | FireCallback CbWriteSendmsg => _write_sendmsg
  | FireCallback CbWriteSend => _write_send
  | FireCallback CbNone => raise (TypeError "'NoneType' object is not callable")
  | FireCallback CbRegisterReader => _register_reader
  | FireCallback (CbConnectionMade p) => log (EvConnectionMade p);; p_connection_made p
  | FireCallback (CbCallConnectionLost exc) => _call_connection_lost exc
  | FireCallback (CbSetResultUnlessCancelled f) =>
      on_loop (set_result_unless_cancelled f VNone)
  | FireCallback _ => mret tt
  | FireTcpChunk payload => _drain_stream payload
  | FireTcpEof => _drain_stream []
  | FireReadError e => _drain_error e
  end.
End socket.
