(* ===== verification/StreamReads.v ===== *)
(** * Read side of the stream transport

    The methods of [_SelectorSocketTransport] move along [Rio], delivering an
    item meets the contract of Reads.v, and with it the theorem that data handed
    over by drain-mode watchers reaches the protocol in order and without loss
    under any interleaving with the transport's API, protocol callbacks that
    call back into the transport included. *)

From Stdlib Require Import Strings.Byte.
From stdpp Require Import base tactics list gmap strings.
From S2P Require Import Prelude State Reactor Env Loop.
From S2P Require Import SelectorTransport Reads SocketTransport.

(** A stream shows its chunks without an address. *)
#[export] Instance stream_shown : Shown stream := λ i,
  match i with RData d _ => Some (RData d None) | RError e => Some (RError e) end.

Section reads.
Context {E : Type} `{!Kernel E} `{!Protocol (world E bytes stream)}.
Local Abbreviation W := (world E bytes stream).

(** What the application's callbacks must satisfy: they reach the transport
    through its methods only (so they move along [Rio]), and the two read
    callbacks do not raise [SystemExit] or [KeyboardInterrupt]. *)
Class ReadLaws : Prop := {
  rl_obeys :: Obeys (Rio (E := E) (B := bytes) (X := stream));
  rl_data_exit p d (w : W) e : (p_data_received p d w).1 = Raise e → is_exit e = false;
  rl_eof_exit p (w : W) e : (p_eof_received p w).1 = Raise e → is_exit e = false;
}.
Context `{!ReadLaws}.

Ltac rio := moves_auto.

Lemma rio_put_ext f : moves Rio (put_ext (E := E) f).
Proof. by apply rio_put_view. Qed.
#[local] Hint Resolve rio_put_ext : moves.

(** *** The stream transport's methods *)

Lemma rio_close : moves Rio (close (E := E)).
Proof. unfold close. rio. Qed.
Lemma rio_get_ext {A} (f : stream → A) : moves Rio (get_ext (E := E) f).
Proof. unfold get_ext. rio. Qed.
Lemma rio_sock_send fd d : moves Rio (sys_send (W := W) fd d).
Proof. unfold sys_send. rio. Qed.
Lemma rio_sock_sendmsg fd d : moves Rio (sys_sendmsg (W := W) fd d).
Proof. unfold sys_sendmsg. rio. Qed.
Lemma rio_shutdown_wr : moves Rio (shutdown_wr (E := E)).
Proof. unfold shutdown_wr, sys_shutdown. rio. Qed.
#[local] Hint Resolve rio_close rio_get_ext rio_sock_send rio_sock_sendmsg rio_shutdown_wr : moves.
Lemma rio_set_waiter_exception e : moves Rio (set_waiter_exception (E := E) e).
Proof. unfold set_waiter_exception. rio. Qed.
Lemma rio_add_write_ready : moves Rio (add_write_ready (E := E)).
Proof. unfold add_write_ready. rio. Qed.
Lemma rio_adjust n : moves Rio (_adjust_leftover_buffer (E := E) n).
Proof. unfold _adjust_leftover_buffer. rio. Qed.
#[local] Hint Resolve rio_set_waiter_exception rio_add_write_ready rio_adjust : moves.

Lemma call_connection_lost_stays_dead e : moves stays_dead (_call_connection_lost (E := E) e).
Proof.
  unfold _call_connection_lost, SelectorTransport._call_connection_lost, server_detach, sys_close.
  moves_auto; try (apply Rio_stays_dead; rio; fail); by apply stays_dead_put.
Qed.

Lemma rio_write_finished : moves Rio (write_finished (E := E)).
Proof.
  intros w. unfold write_finished, get_ext, self. mrun.
  destruct (_closing (w_tr w)) eqn:Hc.
  - apply Rio_dead, call_connection_lost_stays_dead. unfold is_dead. by rewrite Hc, orb_true_r.
  - apply (moves_when Rio). intros _. rio.
Qed.
#[local] Hint Resolve rio_write_finished : moves.
Lemma rio_write_progress : moves Rio (write_progress (E := E)).
Proof. unfold write_progress. rio. Qed.
Lemma rio_write_failed e : moves Rio (write_failed (E := E) e).
Proof. unfold write_failed. rio. Qed.
#[local] Hint Resolve rio_write_progress rio_write_failed : moves.
Lemma rio_write_sendmsg : moves Rio (_write_sendmsg (E := E)).
Proof. unfold _write_sendmsg. rio. Qed.
Lemma rio_write_send : moves Rio (_write_send (E := E)).
Proof. unfold _write_send. rio. Qed.
#[local] Hint Resolve rio_write_sendmsg rio_write_send : moves.
Lemma rio_call_write_ready : moves Rio (call_write_ready (E := E)).
Proof. unfold call_write_ready. rio. Qed.
Lemma rio_conn_lost_write : moves Rio (conn_lost_write (E := E)).
Proof. unfold conn_lost_write. rio. Qed.
Lemma rio_append_buffer d : moves Rio (append_buffer (E := E) d).
Proof. unfold append_buffer. rio. Qed.
#[local] Hint Resolve rio_call_write_ready rio_conn_lost_write rio_append_buffer : moves.
Lemma rio_write a : moves Rio (write (E := E) a).
Proof. unfold write. rio. Qed.
Lemma rio_write_eof : moves Rio (write_eof (E := E)).
Proof. unfold write_eof. rio. Qed.
Lemma rio_writelines l : moves Rio (writelines (E := E) l).
Proof. unfold writelines. rio. Qed.
Lemma rio_set_protocol p : moves Rio (set_protocol (E := E) p).
Proof. unfold set_protocol, set_protocol_, SelectorTransport.set_protocol. rio. Qed.
(** ** Delivering one item *)

Lemma close_closes (w : W) : is_dead (w_tr (close w).2) = true.
Proof. apply base_close_closes. Qed.

#[export] Instance stream_replay_laws : ReplayLaws (E := E) (B := bytes) (X := stream).
Proof.
  split. intros i w.
  intros Ha. destruct i as [d a|e]; cycle 1.
  { left. by apply fatal_closes. }
  destruct d as [|b d]; simpl.
  - unfold _read_ready__on_eof. rewrite run_bind, run_debug_log by apply Ha.
    apply (read_callback_spec EvEofReceived).
    + done.
    + apply ob_eof_received.
    + apply rl_eof_exit.
    + intros []; rio.
    + intros [] w1 Ha1; [left; apply remove_reader_ret, Ha1|right; apply close_closes].
    + done.
  - apply (read_callback_spec (λ p, EvDataReceived p (b :: d)) _ mret).
    + done.
    + intros p. apply ob_data_received.
    + intros p w1 e. apply rl_data_exit.
    + rio.
    + intros []. by left.
    + done.
Qed.

Lemma rio_run_api a : moves Rio (run_api (E := E) a).
Proof.
  destruct a; simpl; eauto using rio_write, rio_writelines, rio_write_eof, rio_set_protocol
    with moves nocore.
Qed.

(** ** Histories *)

(** A history: payloads arriving from the kernel and calls of the API, in any
    order; what a step raises goes to the loop, which continues. *)
Inductive step :=
  | Arrive (i : replay_item)
  | Call (a : api).

Definition run_step (s : step) : M W unit :=
  match s with
  | Arrive (RData d _) => run_firing (match d with [] => FireTcpEof | _ => FireTcpChunk d end)
  | Arrive (RError e) => run_firing (FireReadError e)
  | Call a => run_api a
  end.

Definition run_steps (l : list step) (w : W) : W := foldl (λ w s, (run_step s w).2) w l.

Definition arrivals (l : list step) : list replay_item :=
  omap (λ s, match s with Arrive i => shown i | Call _ => None end) l.

Lemma run_step_arrive i w :
  ∃ i', shown i' = shown i ∧ run_step (Arrive i) w = drain_guarded i' w.
Proof.
  destruct i as [d a|e]; [|by exists (RError e)].
  exists (RData d None). split; [done|]. by destruct d.
Qed.

Lemma run_step_dead s w :
  is_dead (w_tr w) = true → is_dead (w_tr (run_step s w).2) = true.
Proof.
  intros Hd. destruct s as [i|a]; [|by apply rio_run_api].
  destruct (run_step_arrive i w) as (i' & _ & ->). by rewrite drain_guarded_dead.
Qed.

Lemma run_steps_dead l w :
  is_dead (w_tr w) = true → is_dead (w_tr (run_steps l w)) = true.
Proof.
  unfold run_steps. revert w. induction l; intros w Hd; simpl; auto using run_step_dead.
Qed.

Lemma run_step_spec s w :
  settled (w_tr w) → alive w →
  is_dead (w_tr (run_step s w).2) = true ∨
  (alive (run_step s w).2 ∧ settled (w_tr (run_step s w).2) ∧
   received (run_step s w).2 = received w ++ arrivals [s]).
Proof.
  intros Hs Ha. destruct s as [i|a].
  - destruct (run_step_arrive i w) as (i' & Hi & ->). simpl. rewrite <- Hi.
    by apply drain_guarded_spec.
  - pose proof Ha as [Hd Hl]. change (run_step (Call a)) with (run_api a).
    destruct (is_dead (w_tr (run_api a w).2)) eqn:Hd'; [by left|right].
    destruct (io_keep _ _ (rio_run_api a w) Hd' Hl) as (? & ? & ? & ?).
    simpl. rewrite app_nil_r. split_and!; auto. by split.
Qed.

Lemma run_steps_spec l w :
  settled (w_tr w) → alive w → is_dead (w_tr (run_steps l w)) = false →
  alive (run_steps l w) ∧ settled (w_tr (run_steps l w)) ∧
  received (run_steps l w) = received w ++ arrivals l.
Proof.
  revert w. induction l as [|s l IH]; intros w Hs Ha Hd.
  { simpl. by rewrite app_nil_r. }
  change (run_steps (s :: l) w) with (run_steps l (run_step s w).2) in *.
  destruct (run_step_spec s w Hs Ha) as [Hd1|(Ha1 & Hs1 & Hr1)].
  { apply (run_steps_dead l) in Hd1. congruence. }
  destruct (IH _ Hs1 Ha1 Hd) as (? & ? & ->). split_and!; try done.
  rewrite Hr1, <- app_assoc. unfold arrivals. by rewrite <- omap_app.
Qed.
End reads.
