(* ===== verification/StreamWrites.v ===== *)
(** * Write side of the stream transport: the outgoing byte stream

    The bytes the kernel has accepted followed by the bytes still buffered, as
    one sequence, and how every method moves it: writing appends to it, a
    write-ready event leaves it unchanged, whatever the kernel accepts. *)

From Stdlib Require Import Strings.Byte.
From stdpp Require Import base tactics list gmap strings.
From S2P Require Import Prelude State Reactor Env Loop.
From S2P Require Import SelectorTransport SocketTransport.

(** ** [_adjust_leftover_buffer] *)

Lemma adjust_loop_spec n buf :
  match adjust_loop n buf with
  | Some buf' => n ≤ length (concat buf) ∧ concat buf' = drop n (concat buf)
  | None => length (concat buf) < n
  end.
Proof.
  revert n. induction buf as [|b buf IH]; intros [|n]; simpl; try (done || (split; [lia|done])).
  - lia.
  - rewrite length_app. case_decide as Hb.
    + specialize (IH (S n - length b)). rewrite drop_app_ge by lia.
      destruct (adjust_loop _ _); [destruct IH; split; [lia|done]|lia].
    + simpl. split; [lia|]. rewrite drop_app_le by lia. by destruct b.
Qed.

Lemma adjust_loop_some n buf :
  n ≤ length (concat buf) →
  ∃ buf', adjust_loop n buf = Some buf' ∧ concat buf' = drop n (concat buf).
Proof.
  intros Hn. pose proof (adjust_loop_spec n buf) as Hs.
  destruct (adjust_loop n buf) as [buf'|]; [|lia]. exists buf'. by split; [|apply Hs].
Qed.

(** Chunks are dropped whole, except the one the count ends in. *)
Lemma adjust_loop_cut n buf buf' :
  adjust_loop n buf = Some buf' → ∃ k c, buf' = c ++ drop k buf ∧ length c ≤ 1.
Proof.
  revert n. induction buf as [|b buf IH]; intros [|n]; simpl.
  - intros [= <-]. exists 0, []. split; [done|simpl; lia].
  - done.
  - intros [= <-]. exists 0, []. split; [done|simpl; lia].
  - case_decide.
    + intros (k & c & -> & Hc)%IH. by exists (S k), c.
    + intros [= <-]. exists 1, [drop (S n) b]. split; [done|simpl; lia].
Qed.

(** When everything is accepted nothing is left, unless empty chunks are. *)
Lemma adjust_loop_all buf :
  Forall (λ b, b ≠ []) buf → adjust_loop (length (concat buf)) buf = Some [].
Proof.
  induction 1 as [|b buf Hb Hbuf IH]; [done|]. simpl. rewrite length_app.
  destruct b as [|x b]; [done|]. simpl. rewrite decide_True by lia.
  replace (length b + length (concat buf) - length b) with (length (concat buf)) by lia. done.
Qed.

(** What a system call that accepts [n] bytes of the first chunks leaves. *)
Lemma concat_take_prefix (k n : nat) (buf : list bytes) :
  n ≤ length (concat (take k buf)) →
  take n (concat (take k buf)) = take n (concat buf) ∧ n ≤ length (concat buf).
Proof.
  intros Hn. rewrite <- (take_drop k buf) at 2 3. rewrite concat_app, length_app.
  split; [|lia]. by rewrite take_app_le.
Qed.

Section writes.
Context {E : Type}.
Local Abbreviation W := (world E bytes stream).

(** ** The outgoing stream *)

Definition outgoing (w : W) : bytes :=
  sent (w_trace w) ++ concat (_buffer (w_tr w)).

Definition sendmsg_only (t : transport bytes stream) : Prop :=
  _write_ready (ext t) ≠ Some write_send.

(** [grow] relates the outgoing stream before and after: equality, or
    [prefix_of] when callbacks may write too. *)
Context (grow : relation bytes) `{!PreOrder grow}.

Record Rout (w w' : W) : Prop := {
  out_torn : torn (w_tr w) = true → torn (w_tr w') = true;
  out_closed : closed (w_loop w') = closed (w_loop w);
  out_fd : _sock_fd (w_tr w') = _sock_fd (w_tr w);
  out_sendmsg : sendmsg_only (w_tr w) → sendmsg_only (w_tr w');
  out_grow : torn (w_tr w') = false → sendmsg_only (w_tr w) →
             grow (outgoing w) (outgoing w');
}.

#[export] Instance Rout_preorder : PreOrder Rout.
Proof.
  split.
  - intros w. by split.
  - intros w1 w2 w3 [t1 c1 f1 s1 g1] [t2 c2 f2 s2 g2]. split; try congruence; auto.
    intros Ht3 Hs1. destruct (torn (w_tr w2)) eqn:Ht2.
    { specialize (t2 eq_refl). congruence. }
    etrans; [by apply g1|]. auto.
Qed.

Lemma Rout_view w w' :
  (_conn_lost (w_tr w'), _loop (w_tr w'), _sock_fd (w_tr w'), _buffer (w_tr w'),
   _write_ready (ext (w_tr w')), closed (w_loop w'), sent (w_trace w')) =
  (_conn_lost (w_tr w), _loop (w_tr w), _sock_fd (w_tr w), _buffer (w_tr w),
   _write_ready (ext (w_tr w)), closed (w_loop w), sent (w_trace w)) →
  Rout w w'.
Proof.
  intros Hv. simplify_eq. split; unfold torn, sendmsg_only, outgoing;
    repeat match goal with Hv : _ = _ |- _ => rewrite Hv; clear Hv end; done.
Qed.

Context `{!Kernel E} `{!Protocol W}.

(** The callbacks reach the transport through its methods only, so they move
    along [Rout] too: with [grow] equality, they do not write. *)
Context `{!Obeys Rout}.

(** *** Loop operations never close the loop *)

Definition same_closed : relation LoopState := λ s s', closed s' = closed s.
#[local] Instance same_closed_preorder : PreOrder same_closed.
Proof. split; [done|]. unfold same_closed. intros ???. congruence. Qed.

Lemma same_closed_modify f :
  (∀ s, closed (f s) = closed s) → moves same_closed (modify f).
Proof. intros. by apply moves_modify. Qed.
Lemma same_closed_check : moves same_closed check_closed.
Proof. unfold check_closed. moves_auto. Qed.
Lemma same_closed_call_soon c : moves same_closed (call_soon c).
Proof. unfold call_soon. moves_auto; first [apply same_closed_check|try intros ?; unfold same_closed; reflexivity]. Qed.
Lemma same_closed_on_reactor {A} (f : Reactor → A * Reactor) : moves same_closed (on_reactor f).
Proof. intros s. unfold on_reactor. by destruct (f (reactor s)). Qed.
Lemma same_closed_remove d fd : moves same_closed (remove_watcher d fd).
Proof. unfold remove_watcher. moves_auto; apply same_closed_on_reactor. Qed.
Lemma same_closed_schedule l : moves same_closed (schedule_callbacks l).
Proof. induction l; simpl; moves_auto; auto using same_closed_call_soon. Qed.
Lemma same_closed_finish f o : moves same_closed (fut_finish f o).
Proof.
  intros s. unfold fut_finish. destruct (futs s !! f) as [[[] cbs]|]; try done.
  apply (same_closed_schedule cbs (set_futs _ s)).
Qed.
Lemma same_closed_create : moves same_closed create_future.
Proof. unfold create_future. moves_auto; first [apply same_closed_check|try intros ?; unfold same_closed; reflexivity]. Qed.
Lemma same_closed_unless_cancelled f v : moves same_closed (set_result_unless_cancelled f v).
Proof. unfold set_result_unless_cancelled, set_result. moves_auto. apply same_closed_finish. Qed.
#[local] Hint Resolve same_closed_unless_cancelled same_closed_check same_closed_call_soon same_closed_on_reactor
  same_closed_remove same_closed_finish same_closed_create : moves.

(** *** Primitives *)

Lemma out_self {A} (f : transport bytes stream → A) : moves Rout (self f).
Proof. apply moves_gets, _. Qed.
Lemma out_loop_get {A} (f : LoopState → A) : moves Rout (loop_get (W := W) f).
Proof. apply moves_gets, _. Qed.
Lemma out_put_view f :
  (∀ t, (_conn_lost (f t), _loop (f t), _sock_fd (f t), _buffer (f t), _write_ready (ext (f t))) =
        (_conn_lost t, _loop t, _sock_fd t, _buffer t, _write_ready (ext t))) →
  moves Rout (put (E := E) f).
Proof.
  intros Hf. apply moves_modify. intros w. apply Rout_view. specialize (Hf (w_tr w)).
  simpl. simplify_eq. congruence.
Qed.
Lemma out_put_ext f :
  (∀ x, _write_ready (f x) = _write_ready x) → moves Rout (put_ext (E := E) f).
Proof. intros Hf. apply out_put_view. intros t. simpl. by rewrite Hf. Qed.
Lemma out_write_ready_none : moves Rout (put_ext (E := E) (set_write_ready None)).
Proof. apply moves_modify. intros w. by split. Qed.
Lemma out_put_torn f :
  (∀ t, torn (f t) = true) →
  (∀ t, (_sock_fd (f t), _write_ready (ext (f t))) = (_sock_fd t, _write_ready (ext t))) →
  moves Rout (put (E := E) f).
Proof.
  intros Ht Hf. apply moves_modify. intros w. specialize (Hf (w_tr w)). simplify_eq.
  split; simpl; try done.
  - unfold sendmsg_only. congruence.
  - by rewrite Ht.
Qed.
Lemma out_on_loop {A} (m : M LoopState A) :
  moves same_closed m → moves Rout (on_loop (W := W) m).
Proof.
  intros Hm. apply moves_zoom. intros w. apply Rout_view. simpl. by rewrite Hm.
Qed.
Lemma out_kernel {A} (m : M E A) : moves Rout (kernel (W := W) m).
Proof. apply moves_zoom. intros w. by apply Rout_view. Qed.
Lemma out_log ev : sent [ev] = [] → moves Rout (log (W := W) ev).
Proof.
  intros Hev. apply moves_modify. intros w. apply Rout_view; simpl.
  by rewrite sent_app, Hev, app_nil_r.
Qed.
#[local] Hint Resolve out_self out_loop_get out_write_ready_none out_kernel : moves.
#[local] Hint Extern 1 (moves Rout (log _)) => (apply out_log; reflexivity) : moves.
#[local] Hint Extern 1 (moves Rout (put _)) => (apply out_put_view; reflexivity) : moves.
#[local] Hint Extern 2 (moves Rout (put _)) => (apply out_put_torn; [|reflexivity];
  intros; unfold torn; simpl; rewrite ?orb_true_r; reflexivity) : moves.
#[local] Hint Extern 1 (moves Rout (put_ext _)) => (apply out_put_ext; reflexivity) : moves.
#[local] Hint Extern 1 (moves Rout (on_loop _)) =>
  (apply out_on_loop; solve [auto with moves nocore]) : moves.

#[local] Hint Extern 5 (PreOrder _) => (apply Rout_preorder) : moves.
Ltac out := moves_auto.

Lemma out_incr_conn_lost : moves Rout (incr_conn_lost (E := E)).
Proof. unfold incr_conn_lost. out. Qed.
Lemma out_loop_call {A} (m : M W A) : moves Rout m → moves Rout (loop_call m).
Proof. intros. unfold loop_call. out. Qed.
Lemma out_unless_cancelled f v :
  moves Rout (on_loop (W := W) (set_result_unless_cancelled f v)).
Proof. out. Qed.
Lemma out_sock_call {A} (m : Z → M W A) : (∀ fd, moves Rout (m fd)) → moves Rout (sock_call m).
Proof. intros. unfold sock_call. out. Qed.
Lemma out_protocol_call {A} ev (m : proto → M W A) :
  (∀ p, sent [ev p] = []) → (∀ p, moves Rout (m p)) → moves Rout (protocol_call ev m).
Proof. intros. unfold protocol_call. out. by apply out_log. Qed.
#[local] Hint Resolve out_incr_conn_lost out_loop_call out_sock_call : moves.
#[local] Hint Extern 1 (moves Rout (protocol_call _ _)) =>
  (apply out_protocol_call; [reflexivity|]) : moves.

(** *** Methods that leave the write side alone *)

Lemma out_debug_log : moves Rout (debug_log (E := E)).
Proof. unfold debug_log. out. Qed.
Lemma out_loop_call_soon cb : moves Rout (loop_call_soon (E := E) cb).
Proof. unfold loop_call_soon. out. Qed.
Lemma out_call_exception_handler e : moves Rout (call_exception_handler e).
Proof. unfold call_exception_handler. out. Qed.
Lemma out_remove_reader : moves Rout (loop_remove_reader (E := E)).
Proof. unfold loop_remove_reader, _remove_reader. out. Qed.
Lemma out_remove_writer : moves Rout (loop_remove_writer (E := E)).
Proof. unfold loop_remove_writer, _remove_writer. out. Qed.
Lemma out_open_fd fd : moves Rout (open_fd (W := W) fd).
Proof. unfold open_fd. out. Qed.
#[local] Hint Resolve out_debug_log out_loop_call_soon out_call_exception_handler
  out_remove_reader out_remove_writer out_open_fd : moves.
Lemma out_add_writer cb : moves Rout (loop_add_writer (E := E) cb).
Proof. unfold loop_add_writer, _add_writer. out. Qed.
Lemma out_register_reader : moves Rout (_register_reader (E := E) (B := bytes) (X := stream)).
Proof. unfold _register_reader, _add_tcp_reader, _add_udp_reader, _add_reader. out. Qed.
#[local] Hint Resolve out_add_writer out_register_reader : moves.
Lemma out_pause_reading : moves Rout (pause_reading (E := E)).
Proof. unfold pause_reading. out. Qed.
Lemma out_base_close : moves Rout (SelectorTransport.close (E := E) (B := bytes) (X := stream)).
Proof. unfold SelectorTransport.close. out. Qed.
#[local] Hint Resolve out_pause_reading out_base_close : moves.
Lemma out_close : moves Rout (close (E := E)).
Proof. unfold close. out. Qed.
Lemma out_get_ext {A} (f : stream → A) : moves Rout (get_ext (E := E) f).
Proof. unfold get_ext. out. Qed.
Lemma out_shutdown_wr : moves Rout (shutdown_wr (E := E)).
Proof. unfold shutdown_wr, sys_shutdown. out. Qed.
Lemma out_set_waiter_exception e : moves Rout (set_waiter_exception (E := E) e).
Proof. unfold set_waiter_exception, set_exception. out. Qed.
Lemma out_maybe_pause_protocol : moves Rout (_maybe_pause_protocol (E := E)).
Proof. unfold _maybe_pause_protocol. out. Qed.
Lemma out_maybe_resume_protocol : moves Rout (_maybe_resume_protocol (E := E)).
Proof. unfold _maybe_resume_protocol. out. Qed.
#[local] Hint Resolve out_close out_get_ext out_shutdown_wr out_set_waiter_exception
  out_maybe_pause_protocol out_maybe_resume_protocol : moves.
Lemma out_call_connection_lost e : moves Rout (_call_connection_lost (E := E) e).
Proof.
  unfold _call_connection_lost, SelectorTransport._call_connection_lost, server_detach,
    sys_close. out.
Qed.
Lemma out_set_protocol p : moves Rout (set_protocol (E := E) p).
Proof. unfold set_protocol, set_protocol_, SelectorTransport.set_protocol. out. Qed.
Lemma out_write_eof : moves Rout (write_eof (E := E)).
Proof. unfold write_eof. out. Qed.
Lemma out_add_write_ready : moves Rout (add_write_ready (E := E)).
Proof. unfold add_write_ready. out. Qed.
Lemma out_conn_lost_write : moves Rout (conn_lost_write (E := E)).
Proof. unfold conn_lost_write. out. Qed.
#[local] Hint Resolve out_call_connection_lost out_set_protocol out_write_eof
  out_add_write_ready out_conn_lost_write : moves.
Lemma out_write_finished : moves Rout (write_finished (E := E)).
Proof. unfold write_finished. out. Qed.
#[local] Hint Resolve out_write_finished : moves.
Lemma out_write_progress : moves Rout (write_progress (E := E)).
Proof. unfold write_progress, set_result. out. Qed.
#[local] Hint Resolve out_write_progress : moves.
End writes.

(** ** Losing the connection *)

(** The frame of [Rout], with nothing said about the stream. *)
Definition Any : relation bytes := λ _ _, True.
#[export] Instance Any_preorder : PreOrder Any.
Proof. by split. Qed.

#[export] Hint Resolve out_unless_cancelled out_self out_loop_get out_write_ready_none out_kernel out_incr_conn_lost
  out_loop_call out_sock_call out_debug_log out_loop_call_soon out_call_exception_handler
  out_remove_reader out_remove_writer out_open_fd out_add_writer out_register_reader
  out_pause_reading out_base_close out_close out_get_ext out_shutdown_wr
  out_set_waiter_exception out_maybe_pause_protocol out_maybe_resume_protocol
  out_call_connection_lost out_set_protocol out_write_eof out_add_write_ready
  out_conn_lost_write out_write_finished out_write_progress : moves.
#[export] Hint Extern 5 (PreOrder _) => (typeclasses eauto) : moves.

Section losing.
Context {E : Type} `{!Kernel E} `{!Protocol (world E bytes stream)}.
Local Abbreviation W := (world E bytes stream).
Local Abbreviation Rany := (Rout (E := E) Any).
Context `{!Obeys (Rout (E := E) Any)}.

Lemma any_put f :
  (∀ t, (_conn_lost (f t), _loop (f t), _sock_fd (f t), _write_ready (ext (f t))) =
        (_conn_lost t, _loop t, _sock_fd t, _write_ready (ext t))) →
  moves Rany (put (E := E) f).
Proof.
  intros Hf. apply moves_modify. intros w. specialize (Hf (w_tr w)). simplify_eq.
  split; unfold torn, sendmsg_only; simpl; try congruence; try done.
  by repeat match goal with H : _ = _ |- _ => rewrite H; clear H end.
Qed.
#[local] Hint Extern 1 (moves Rany (put _)) => (apply any_put; reflexivity) : moves.

Lemma any_force_close e : moves Rany (_force_close (E := E) e).
Proof. unfold _force_close. moves_auto. Qed.
#[local] Hint Resolve any_force_close : moves.
Lemma any_fatal e : moves Rany (fatal (E := E) e).
Proof. unfold fatal, _fatal_error. moves_auto. Qed.
#[local] Hint Resolve any_fatal : moves.
Lemma any_write_failed e : moves Rany (write_failed (E := E) e).
Proof. unfold write_failed. moves_auto. Qed.

#[local] Hint Resolve any_write_failed : moves.
Lemma any_log ev : moves Rany (log (W := W) ev).
Proof. apply moves_modify. intros w. by split. Qed.
#[local] Hint Resolve any_log : moves.
Lemma any_sock_send fd d : moves Rany (sys_send (W := W) fd d).
Proof. unfold sys_send. moves_auto. Qed.
#[local] Hint Resolve any_sock_send : moves.
Lemma any_write_send : moves Rany (_write_send (E := E)).
Proof. unfold _write_send. moves_auto. Qed.

Lemma stays_torn {A} (m : M W A) (w : W) :
  moves Rany m → torn (w_tr w) = true → torn (w_tr (m w).2) = true.
Proof. intros Hm. apply (out_torn _ _ _ (Hm w)). Qed.

Lemma not_torn_loop {X} (t : transport bytes X) :
  bool_decide (_conn_lost t ≠ 0) || negb (_loop t) = false → _loop t = true.
Proof. intros [_ Hl]%orb_false_iff. by destruct (_loop t). Qed.

(** Whatever runs first, as long as it only raises on a torn transport. *)
Lemma then_torn {A} (m : M W A) (k : A → M W unit) (w : W) :
  moves Rany m → (∀ a, moves Rany (k a)) →
  (torn (w_tr w) = false → ∃ a, (m w).1 = Ret a) →
  (∀ a w, torn (w_tr (k a w).2) = true) →
  torn (w_tr ((m ≫= k) w).2) = true.
Proof.
  intros Hm Hk Hr Hkt. destruct (torn (w_tr w)) eqn:Ht.
  { apply stays_torn; [|done]. by apply moves_bind; [apply _|..]. }
  destruct Hr as [a Ha]; [done|]. rewrite run_bind.
  destruct (m w) as [r w1]; simpl in Ha; subst. apply Hkt.
Qed.

Lemma fatal_torn e (w : W) : torn (w_tr (fatal e w).2) = true.
Proof.
  unfold fatal, _fatal_error. apply (then_torn _ (λ _, _)); try (moves_auto; fail).
  - intros Hl%not_torn_loop. exists tt. destruct (is_OSError e).
    + by rewrite run_debug_log.
    + by rewrite run_loop_call.
  - intros _ w1. apply force_close_torn.
Qed.

Lemma write_failed_torn e (w : W) : torn (w_tr (write_failed e w).2) = true.
Proof.
  unfold write_failed. apply (then_torn _ (λ _, _)); try (moves_auto; fail).
  { intros Hl%not_torn_loop. exists tt. by rewrite run_remove_writer. }
  intros _ w1. apply (then_torn _ (λ _, _)); try (moves_auto; fail).
  { intros _. by exists tt. }
  intros _ w2. pose proof (fatal_torn e w2) as Ht. rewrite run_bind.
  destruct (fatal e w2) as [[[]|] w3]; cbn [snd] in *; [|done].
  apply stays_torn; [|done]. moves_auto.
Qed.
End losing.

(** ** The write paths *)

Section flow.
Context {E : Type} `{!Kernel E} `{!KernelLaws E} `{!Protocol (world E bytes stream)}.
Local Abbreviation W := (world E bytes stream).
Context (grow : relation bytes) `{!PreOrder grow} `{!Obeys (Rout (E := E) grow)}.

Lemma Rout_any (w w' : W) : Rout grow w w' → Rout Any w w'.
Proof. by intros [????]; split. Qed.
#[local] Instance any_laws : Obeys (Rout (E := E) Any).
Proof. eapply obeys_weaken; [apply Rout_any|done]. Qed.

(** A method that loses the connection moves along [Rout]. *)
Lemma Rout_losing {A} (m : M W A) :
  moves (Rout Any) m → (∀ w, torn (w_tr (m w).2) = true) → moves (Rout grow) m.
Proof.
  intros Hm Ht w. destruct (Hm w). split; try done. by rewrite Ht.
Qed.
Lemma out_force_close e : moves (Rout grow) (_force_close (E := E) e).
Proof. apply Rout_losing; [apply any_force_close|apply force_close_torn]. Qed.
Lemma out_fatal e : moves (Rout grow) (fatal (E := E) e).
Proof. apply Rout_losing; [apply any_fatal|apply fatal_torn]. Qed.
Lemma out_write_failed e : moves (Rout grow) (write_failed (E := E) e).
Proof. apply Rout_losing; [apply any_write_failed|apply write_failed_torn]. Qed.
#[local] Hint Resolve out_force_close out_fatal out_write_failed : moves.

(** The kernel's answer to a write: nothing happened, or the accepted bytes
    are logged. *)
Lemma sock_write_spec (m : M E nat) data (w : W) :
  (∀ e n e', m e = (Ret n, e') → n ≤ length data) →
  let out := (n ← kernel m; log (EvSend (take n data));; mret n) w in
  w_tr out.2 = w_tr w ∧ closed (w_loop out.2) = closed (w_loop w) ∧
  match out.1 with
  | Ret n => n ≤ length data ∧ sent (w_trace out.2) = sent (w_trace w) ++ take n data
  | Raise _ => w_trace out.2 = w_trace w
  end.
Proof.
  intros Hm. cbv zeta. rewrite run_bind. unfold kernel, zoom.
  destruct (m (lget w)) as [[n|e] e'] eqn:He; cbn [fst snd]; cbv beta iota; [|done].
  rewrite run_bind, run_log. cbv beta iota. rewrite run_ret. cbn [fst snd].
  split_and!; try done; [by eapply Hm|].
  unfold add_event; cbn [w_trace]. rewrite sent_app. f_equal. apply app_nil_r.
Qed.

(** Sending the queued chunks and dropping what was accepted. *)
Lemma out_sendmsg_body (w : W) :
  Rout grow w ((n ← sock_call (λ fd, sys_sendmsg fd (_get_sendmsg_buffer (w_tr w)));
                _adjust_leftover_buffer n) w).2.
Proof.
  rewrite run_bind. unfold sock_call. rewrite run_bind, run_self, run_bind, run_self.
  destruct (_sock (w_tr w)); [|done]. set (iov := _get_sendmsg_buffer (w_tr w)).
  destruct (sock_write_spec (k_sendmsg (_sock_fd (w_tr w)) iov) (concat iov) w)
    as (Ht & Hc & Hs); [intros ???; apply k_sendmsg_le|].
  fold (sys_sendmsg (W := W) (_sock_fd (w_tr w)) iov) in *.
  destruct (sys_sendmsg _ iov w) as [[n|e] w1]; cbn [fst snd] in *; cbv beta iota; cycle 1.
  { apply (Rout_view grow). by rewrite Ht, Hc, Hs. }
  destruct Hs as [Hn Hs]. unfold iov, _get_sendmsg_buffer in *.
  apply concat_take_prefix in Hn as [Hpre Hn].
  destruct (adjust_loop_some n (_buffer (w_tr w))) as (buf & Hadj & Hbuf); [done|].
  unfold _adjust_leftover_buffer. rewrite run_bind, run_self, Ht, Hadj, run_put. cbn [snd].
  assert (outgoing (set_tr (set_buffer buf (w_tr w1)) w1) = outgoing w) as Ho.
  { unfold outgoing; simpl. rewrite Hs, Hbuf, Hpre, <- app_assoc. by rewrite take_drop. }
  split; try (simpl; rewrite Ht; done); [done|]. intros _ _. by rewrite Ho.
Qed.

Lemma out_write_sendmsg : moves (Rout grow) (_write_sendmsg (E := E)).
Proof.
  intros w. unfold _write_sendmsg. rewrite run_bind, run_self. cbv beta iota.
  destruct (_buffer (w_tr w)) eqn:Hb; [done|].
  rewrite run_bind, run_self. case_decide; [done|]. rewrite run_bind, run_self.
  pose proof (out_sendmsg_body w) as Hbody. unfold try_else.
  destruct ((n ← sock_call _; _) w) as [[[]|e] w1]; cbn [snd] in *; (etrans; [done|]).
  - apply out_write_progress; typeclasses eauto.
  - apply (moves_except_io (Rout grow)); auto using out_write_failed. apply moves_ret, _.
Qed.

(** [pieces d w out]: the call appended a prefix of [d] to the stream, all of
    it if it returned. *)
Definition appended (d : bytes) (w : W) (out : res unit * W) : Prop :=
  Rout Any w out.2 ∧
  (torn (w_tr out.2) = false → sendmsg_only (w_tr w) →
   ∃ d1, d1 `prefix_of` d ∧ grow (outgoing w ++ d1) (outgoing out.2) ∧
         (out.1 = Ret tt → d1 = d)).

(** The call ends the way it would have from a state where [d] is already
    part of the stream. *)
Lemma appended_from d (w w1 : W) (out : res unit * W) :
  Rout Any w w1 → outgoing w1 = outgoing w ++ d → Rout grow w1 out.2 → appended d w out.
Proof.
  intros Hf Ho Hr. split; [by etrans; [|eapply Rout_any]|]. intros Ht Hs.
  exists d. split; [done|]. rewrite <- Ho. split; [|done].
  apply (out_grow _ _ _ Hr Ht). by apply (out_sendmsg _ _ _ Hf).
Qed.
(** Nothing was appended. *)
Lemma appended_none d (w : W) (out : res unit * W) :
  Rout grow w out.2 → (out.1 = Ret tt → torn (w_tr out.2) = true ∨ d = []) → appended d w out.
Proof.
  intros Hr Hret. split; [by eapply Rout_any|]. intros Ht Hs.
  exists []. split; [apply prefix_nil|]. rewrite app_nil_r.
  split; [by apply (out_grow _ _ _ Hr)|]. intros [?| ->]%Hret; [congruence|done].
Qed.

Lemma any_append_buffer d (w : W) :
  outgoing (set_tr (set_buffer (_buffer (w_tr w) ++ [d]) (w_tr w)) w) = outgoing w ++ d.
Proof.
  unfold outgoing; simpl. rewrite concat_app; simpl. by rewrite app_nil_r, app_assoc.
Qed.
Lemma append_buffer_appended d (w : W) : appended d w (append_buffer d w).
Proof.
  unfold append_buffer. rewrite run_bind, run_put.
  eapply appended_from; [|apply any_append_buffer|].
  - apply (any_put (λ t, set_buffer (_buffer t ++ [d]) t)). done.
  - apply out_maybe_pause_protocol; typeclasses eauto.
Qed.

(** After a partial send, the rest is registered and buffered. *)
Lemma write_rest d1 rest (w w1 : W) :
  Rout Any w w1 → outgoing w1 = outgoing w ++ d1 →
  appended (d1 ++ rest) w ((add_write_ready;; append_buffer rest) w1).
Proof.
  intros Hf Ho. rewrite run_bind.
  pose proof (out_add_write_ready eq w1) as Hadd.
  assert (Rout Any w (add_write_ready w1).2) as Hf2.
  { etrans; [done|]. destruct Hadd. by split. }
  destruct (add_write_ready w1) as [[[]|e] w2]; cbn [snd] in *; cbv beta iota.
  - destruct (append_buffer_appended rest w2) as [Hf3 Ha]. split; [by etrans|].
    intros Ht Hs. destruct Ha as (d2 & Hp & Hg & Hd);
      [done|by apply (out_sendmsg _ _ _ Hf2)|].
    assert (outgoing w1 = outgoing w2) as Heq.
    { apply (out_grow _ _ _ Hadd); [|by apply (out_sendmsg _ _ _ Hf)].
      destruct (torn (w_tr w2)) eqn:Ht2; [|done].
      pose proof (out_torn _ _ _ Hf3 Ht2). congruence. }
    exists (d1 ++ d2). split; [by apply prefix_app|]. split.
    + by rewrite app_assoc, <- Ho, Heq.
    + by intros ->%Hd.
  - split; [done|]. intros Ht Hs. exists d1. split; [by eexists|]. split; [|done].
    rewrite <- Ho, (out_grow _ _ _ Hadd); [done..|by apply (out_sendmsg _ _ _ Hf)].
Qed.

Lemma sock_send_raise_view (w : W) (w1 : W) :
  w_tr w1 = w_tr w → closed (w_loop w1) = closed (w_loop w) → w_trace w1 = w_trace w →
  Rout grow w w1.
Proof. intros H1 H2 H3. apply (Rout_view grow). by rewrite H1, H2, H3. Qed.

Lemma appended_lost d (w : W) (m : M W unit) :
  moves (Rout grow) m → torn (w_tr w) = true → appended d w (m w).
Proof.
  intros Hm Ht. apply appended_none; [apply Hm|]. left. apply (out_torn _ _ _ (Hm w) Ht).
Qed.

Lemma sock_send_spec d (w : W) :
  let out := sock_call (λ fd, sys_send fd d) w in
  match out.1 with
  | Ret n => _buffer (w_tr w) = [] → Rout Any w out.2 ∧ outgoing out.2 = outgoing w ++ take n d
  | Raise _ => Rout grow w out.2 ∧ outgoing out.2 = outgoing w
  end.
Proof.
  cbv zeta. unfold sock_call. rewrite run_bind, run_self, run_bind, run_self.
  destruct (_sock (w_tr w)); [|done].
  destruct (sock_write_spec (k_send (_sock_fd (w_tr w)) d) d w)
    as (Ht & Hc & Hs); [intros ???; apply k_send_le|].
  fold (sys_send (W := W) (_sock_fd (w_tr w)) d) in *.
  destruct (sys_send _ d w) as [[n|e] w1]; cbn [fst snd] in *.
  - intros Hb. destruct Hs as [_ Hs]. split.
    + by split; simpl; rewrite ?Ht.
    + unfold outgoing. rewrite Ht, Hb, Hs. simpl. by rewrite !app_nil_r.
  - split; [by apply sock_send_raise_view|]. unfold outgoing. by rewrite Ht, Hs.
Qed.

(** [write]: unless the connection is lost meanwhile, the bytes passed are
    appended to the stream; all of them if the call returns. *)
Lemma write_appended d (w : W) : appended d w (write (BytesLike d) w).
Proof.
  unfold write, get_ext. rewrite run_bind, run_self.
  destruct (_eof (ext (w_tr w))); [by apply appended_none|].
  rewrite run_bind, run_self.
  destruct (bool_decide _); [by apply appended_none|].
  case_decide as Hd; [by apply appended_none; auto|].
  rewrite run_bind, run_self. case_decide as Hl.
  { apply appended_lost; [|by unfold torn; rewrite bool_decide_eq_true_2].
    apply out_conn_lost_write; typeclasses eauto. }
  rewrite run_bind, run_self. destruct (_buffer (w_tr w)) eqn:Hb; cycle 1.
  { apply append_buffer_appended. }
  rewrite run_bind. unfold try_else.
  pose proof (sock_send_spec d w) as Hs.
  destruct (sock_call _ w) as [[n|e] w1]; cbn [fst snd] in *.
  - destruct (Hs Hb) as [Hf Ho]. destruct (drop n d) as [|x rest] eqn:Hdrop.
    + eapply (appended_from _ _ w1); [done| |done].
      pose proof (take_drop n d) as Htd. rewrite Hdrop, app_nil_r in Htd.
      by rewrite Ho, Htd.
    + rewrite <- (take_drop n d), Hdrop. cbv beta iota. by apply write_rest.
  - destruct Hs as [Hf Ho]. unfold except_io.
    destruct (try_again e).
    { apply (write_rest []); [by eapply Rout_any|]. by rewrite Ho, app_nil_r. }
    destruct (is_exit e); [by apply appended_none|].
    rewrite run_bind. pose proof (fatal_torn e w1) as Ht. pose proof (out_fatal e w1) as Hft.
    destruct (fatal e w1) as [[[]|e'] w2]; cbn [snd] in *; cbv beta iota;
      (apply appended_none; [by etrans|by left + done]).
Qed.

(** [writelines] appends all its chunks before it tries to send. *)
Lemma writelines_appended l (w : W) : appended (concat l) w (writelines l w).
Proof.
  unfold writelines, get_ext. rewrite run_bind, run_self.
  destruct (_eof (ext (w_tr w))); [by apply appended_none|].
  rewrite run_bind, run_self.
  destruct (bool_decide _); [by apply appended_none|].
  case_decide as Hd; [by apply appended_none; [|rewrite Hd; auto]|].
  rewrite run_bind, run_self. case_decide as Hl.
  { apply appended_lost; [|by unfold torn; rewrite bool_decide_eq_true_2].
    apply out_conn_lost_write; typeclasses eauto. }
  rewrite run_bind, run_put. cbv beta iota.
  set (w1 := set_tr _ w).
  assert (outgoing w1 = outgoing w ++ concat l) as Ho.
  { unfold outgoing, w1; simpl. by rewrite concat_app, app_assoc. }
  assert (Rout Any w w1) as Hf
    by by apply (any_put (λ t, set_buffer (_buffer t ++ l) t)).
  assert (moves (Rout grow) (buffer ← self (E := E) _buffer;
    match buffer with
    | [] => mret tt
    | _ => add_write_ready;; _maybe_pause_protocol
    end)) as Hrest by moves_auto.
  rewrite run_bind. unfold call_write_ready, get_ext. rewrite run_bind, run_self.
  destruct (_write_ready (ext (w_tr w1))) as [[]|] eqn:Hm; cbv beta iota.
  - pose proof (out_write_sendmsg w1) as Hw.
    destruct (_write_sendmsg w1) as [[[]|e] w2]; cbn [snd] in *; cbv beta iota;
      [|by eapply appended_from].
    eapply appended_from; [done..|]. etrans; [done|]. apply Hrest.
  - split; [|by intros _ []]. etrans; [done|]. pose proof (any_write_send w1) as Hw.
    destruct (_write_send w1) as [[[]|e] w2]; cbn [snd] in *; [|done].
    etrans; [done|]. eapply Rout_any, Hrest.
  - by eapply appended_from.
Qed.

(** *** The read side does not touch the stream *)

#[local] Hint Resolve out_write_sendmsg : moves.
#[local] Hint Extern 1 (moves (Rout grow) (put _)) => (apply (out_put_view grow); reflexivity) : moves.
#[local] Hint Extern 1 (moves (Rout grow) (log _)) => (apply (out_log grow); reflexivity) : moves.
#[local] Hint Extern 1 (moves (Rout grow) (protocol_call _ _)) =>
  (apply (out_protocol_call grow); [reflexivity|]) : moves.

Lemma out_on_eof : moves (Rout grow) (_read_ready__on_eof (E := E)).
Proof. unfold _read_ready__on_eof. moves_auto. Qed.
#[local] Hint Resolve out_on_eof : moves.
Lemma out_deliver_stream d : moves (Rout grow) (_deliver_stream (E := E) d).
Proof. unfold _deliver_stream. moves_auto. Qed.
#[local] Hint Resolve out_deliver_stream : moves.
Lemma out_run_replay i : moves (Rout grow) (run_replay (E := E) (X := stream) i).
Proof. destruct i; simpl; unfold _deliver_error; moves_auto. Qed.
#[local] Hint Resolve out_run_replay : moves.
Lemma out_drain_guarded i : moves (Rout grow) (drain_guarded (E := E) i).
Proof. unfold drain_guarded. moves_auto. Qed.
Lemma out_flush_loop n : moves (Rout grow) (flush_loop (E := E) (X := stream) n).
Proof. induction n; cbn [flush_loop]; moves_auto. Qed.
#[local] Hint Resolve out_drain_guarded out_flush_loop : moves.
Lemma out_resume_reading : moves (Rout grow) (resume_reading (E := E) (X := stream)).
Proof. unfold resume_reading, _flush_replay. moves_auto. Qed.
Lemma out_get_buffer : moves (Rout grow) (_read_ready__get_buffer (E := E)).
Proof.
  unfold _read_ready__get_buffer. moves_auto.
Qed.
Lemma out_read_one : moves (Rout grow) (read_one (E := E)).
Proof.
  unfold read_one, sys_recv. moves_auto. apply (out_sock_call grow). moves_auto.
Qed.
#[local] Hint Resolve out_resume_reading out_get_buffer out_read_one : moves.
Lemma out_read_burst n : moves (Rout grow) (read_burst (E := E) n).
Proof. induction n; cbn [read_burst]; moves_auto. Qed.
#[local] Hint Resolve out_read_burst : moves.
Lemma out_read_ready : moves (Rout grow) (_read_ready (E := E)).
Proof. unfold _read_ready, _read_ready__data_received. moves_auto. Qed.
#[local] Hint Resolve out_read_ready : moves.

(** Everything the loop runs, [_write_send] apart. *)
Lemma out_run_firing f :
  f ≠ FireCallback CbWriteSend → moves (Rout grow) (run_firing (E := E) f).
Proof.
  intros Hf. unfold run_firing, _drain_stream, _drain_error.
  destruct f as [[]| | |]; try congruence; moves_auto.
Qed.

(** ** Histories *)

Inductive wstep :=
  | WCall (a : api)
  | WFire (f : firing).

Definition run_wstep (s : wstep) : M W unit :=
  match s with
  | WCall a => run_api a
  | WFire f => run_firing f
  end.

(** What a step asks to write. *)
Definition written (s : wstep) : bytes :=
  match s with
  | WCall (ApiWrite (BytesLike d)) => d
  | WCall (ApiWritelines l) => concat l
  | _ => []
  end.

Definition not_write_send (s : wstep) : Prop := s ≠ WFire (FireCallback CbWriteSend).

Lemma run_wstep_appended s (w : W) :
  not_write_send s → appended (written s) w (run_wstep s w).
Proof.
  intros Hs. assert (moves (Rout grow) (run_wstep s) →
    written s = [] → appended (written s) w (run_wstep s w)) as Hnone.
  { intros Hm ->. apply appended_none; [apply Hm|auto]. }
  destruct s as [[]|f]; try (apply Hnone; [|done]; simpl; moves_auto; fail).
  - destruct arg; [apply write_appended|]. apply Hnone; [|done]. simpl. moves_auto.
  - apply writelines_appended.
  - apply Hnone; [|done]. apply out_run_firing. by intros ->.
Qed.

(** The outcomes of the steps, and the final state. *)
Fixpoint run_wsteps (l : list wstep) (w : W) : list (res unit) * W :=
  match l with
  | [] => ([], w)
  | s :: l =>
      let '(r, w1) := run_wstep s w in
      let '(rs, w2) := run_wsteps l w1 in (r :: rs, w2)
  end.

Lemma run_wsteps_any l (w : W) :
  Forall not_write_send l → Rout Any w (run_wsteps l w).2.
Proof.
  intros Hl. revert w. induction Hl as [|s l Hs Hl IH]; intros w; simpl; [done|].
  destruct (run_wstep_appended s w Hs) as [Hf _].
  destruct (run_wstep s w) as [r w1]; cbn [snd] in *. specialize (IH w1).
  destruct (run_wsteps l w1) as [rs w2]; cbn [snd] in *. by etrans.
Qed.
End flow.

(** With callbacks that do not write, the stream is what it was followed by
    the pieces the calls appended, in the order of the calls. *)
Lemma run_wsteps_spec {E} `{!Kernel E, !KernelLaws E} `{!Protocol (world E bytes stream)}
    `{!Obeys (Rout (E := E) eq)} l (w : world E bytes stream) :
  Forall not_write_send l → sendmsg_only (w_tr w) →
  torn (w_tr (run_wsteps l w).2) = false →
  ∃ ds, Forall2 (λ so d, d `prefix_of` written so.1 ∧ (so.2 = Ret tt → d = written so.1))
          (zip l (run_wsteps l w).1) ds ∧
        outgoing (run_wsteps l w).2 = outgoing w ++ concat ds.
Proof.
  intros Hl. revert w. induction Hl as [|s l Hs Hl IH]; intros w Hsm Ht.
  { exists []. simpl. by rewrite app_nil_r. }
  simpl in *. destruct (run_wstep_appended eq s w Hs) as [Hf Ha].
  destruct (run_wstep s w) as [r w1]; cbn [fst snd] in *.
  pose proof (run_wsteps_any eq l w1 Hl) as Hf1. specialize (IH w1).
  destruct (run_wsteps l w1) as [rs w2]; cbn [fst snd] in *.
  destruct (torn (w_tr w1)) eqn:Ht1.
  { pose proof (out_torn _ _ _ Hf1 Ht1). congruence. }
  destruct Ha as (d & Hp & Ho & Hd); [done..|].
  destruct IH as (ds & HF & Hds); [by apply (out_sendmsg _ _ _ Hf)|done|].
  exists (d :: ds). split; [by constructor|]. rewrite Hds, <- Ho. simpl. by rewrite app_assoc.
Qed.
