(* ===== verification/Script.v ===== *)
(** * Concrete environments

    A kernel that answers from a list and protocols that follow a script of
    API calls: the instances on which the interfaces of the development
    ([KernelLaws], [ReadLaws], ...) are shown to hold, used by the witnesses. *)

From Stdlib Require Import Strings.Byte.
From stdpp Require Import base tactics list gmap strings.
From S2P Require Import Prelude State Reactor Env Loop.
From S2P Require Import SelectorTransport Reads SocketTransport StreamReads StreamWrites.

(** ** A kernel that answers from a list *)

Inductive answer :=
  | AnsN (n : nat)
  | AnsData (d : bytes)
  | AnsErr (e : exn).

Abbreviation script_env := (list answer).

(** Each system call that needs an answer takes the next one; when the list is
    exhausted everything is accepted and there is nothing to read. *)
Definition ask {A} (ok : answer → option A) (dflt : res A) : M script_env A := λ e,
  match e with
  | [] => (dflt, [])
  | AnsErr x :: e' => (Raise x, e')
  | a :: e' => (from_option Ret dflt (ok a), e')
  end.

Definition ans_n (limit : nat) (a : answer) : option nat :=
  match a with AnsN n => Some (min n limit) | _ => None end.
Definition ans_data (limit : nat) (a : answer) : option bytes :=
  match a with AnsData d => Some (take limit d) | _ => None end.

Definition localhost : addr := AInet "127.0.0.1" 80.

Definition script_kernel (sendmsg : bool) : Kernel script_env := {|
  HAS_SENDMSG := sendmsg;
  SC_IOV_MAX := 1024;
  k_send _ data := ask (ans_n (length data)) (Ret (length data));
  k_sendmsg _ bufs := ask (ans_n (length (concat bufs))) (Ret (length (concat bufs)));
  k_sendto _ data _ := ask (ans_n (length data)) (Ret (length data));
  k_recv _ n := ask (ans_data n) (Raise (OSError EAGAIN));
  k_recv_into _ n := ask (ans_n n) (Raise (OSError EAGAIN));
  k_recvfrom _ n := d ← ask (ans_data n) (Raise (OSError EAGAIN)); mret (d, localhost);
  k_recvfrom_into _ n := d ← ask (ans_n n) (Raise (OSError EAGAIN)); mret (d, localhost);
  k_connect _ _ := ask (λ _, Some tt) (Ret tt);
  k_so_error _ := ask (λ a, match a with AnsN n => Some (Z.of_nat n) | _ => None end) (Ret 0%Z);
  k_accept _ := n ← ask (ans_n 1024) (Raise (OSError EAGAIN)); mret (Z.of_nat n, localhost);
  k_shutdown _ := mret tt;
  k_close _ := mret tt;
  k_dup _ := mret tt;
  k_getsockname _ := mret localhost;
  k_getpeername _ := mret localhost;
|}.

Lemma ask_inv {A} (ok : answer → option A) dflt e a e' :
  ask ok dflt e = (Ret a, e') → dflt = Ret a ∨ ∃ x, ok x = Some a.
Proof.
  destruct e as [|[n|d|x] e]; simpl; intros ?; simplify_eq; auto;
    destruct (ok _) eqn:E; simpl in *; simplify_eq; eauto.
Qed.

#[export] Instance script_kernel_laws b :
  @KernelLaws script_env (script_kernel b).
Proof.
  split; simpl; intros ????? [[= ?]|[[] Ha]]%ask_inv; simplify_eq/=; try lia.
  rewrite length_take. lia.
Qed.

(** A kernel on which every call fails with [x]. *)
Definition failing_kernel (x : exn) : Kernel script_env := {|
  HAS_SENDMSG := true;
  SC_IOV_MAX := 1024;
  k_send _ _ := raise x;
  k_sendmsg _ _ := raise x;
  k_sendto _ _ _ := raise x;
  k_recv _ _ := raise x;
  k_recv_into _ _ := raise x;
  k_recvfrom _ _ := raise x;
  k_recvfrom_into _ _ := raise x;
  k_connect _ _ := raise x;
  k_so_error _ := raise x;
  k_accept _ := raise x;
  k_shutdown _ := raise x;
  k_close _ := raise x;
  k_dup _ := raise x;
  k_getsockname _ := raise x;
  k_getpeername _ := raise x;
|}.

(** ** Protocols that follow a script *)

Record reaction := MkReaction {
  r_calls : list api;
  r_answer : option bool; (* [None]: the callback raises *)
}.

Definition no_reaction : reaction := MkReaction [] (Some false).

(** Callbacks that do nothing. *)
Definition silent {W} : Protocol W := {|
  p_connection_made _ := mret tt;
  p_data_received _ _ := mret tt;
  p_eof_received _ := mret false;
  p_get_buffer _ := mret 1024;
  p_buffer_updated _ _ := mret tt;
  p_datagram_received _ _ _ := mret tt;
  p_error_received _ _ := mret tt;
  p_pause_writing _ := mret tt;
  p_resume_writing _ := mret tt;
  p_connection_lost _ _ := mret tt;
  p_exception_handler _ := mret tt;
|}.

(** They keep every promise. *)
#[export] Instance silent_obeys {W} (R : relation W) `{!PreOrder R} : @Obeys W silent R.
Proof. split; intros; apply moves_ret, _. Qed.

Section scripted.
Context {E : Type} (K : Kernel E).
Local Abbreviation W := (world E bytes stream).

Fixpoint run_apis (P : Protocol W) (l : list api) : M W unit :=
  match l with
  | [] => mret tt
  | a :: l => run_api (Protocol0 := P) a;; run_apis P l
  end.

(** The body of a scripted callback: the calls, inside a [try] that drops
    their errors, then the answer. *)
Definition react (P : Protocol W) (r : reaction) : M W bool :=
  swallow (run_apis P (r_calls r));;
  match r_answer r with
  | Some b => mret b
  | None => raise (UserError 0)
  end.

(** A protocol that reacts to each event by its script; callbacks entered
    from within callbacks do so down to depth [n]. *)
Fixpoint scripted (script : event → reaction) (n : nat) : Protocol W :=
  match n with
  | 0 => silent
  | S n =>
      let P := scripted script n in
      let go ev := (react P (script ev);; mret tt) in {|
        p_connection_made p := go (EvConnectionMade p);
        p_data_received p d := go (EvDataReceived p d);
        p_eof_received p := react P (script (EvEofReceived p));
        p_get_buffer _ := mret 1024;
        p_buffer_updated p k := go (EvBufferUpdated p k);
        p_datagram_received p d a := go (EvDatagramReceived p d a);
        p_error_received p e := go (EvErrorReceived p e);
        p_pause_writing p := go (EvPauseWriting p);
        p_resume_writing p := go (EvResumeWriting p);
        p_connection_lost p e := go (EvConnectionLost p e);
        p_exception_handler e := go (EvExceptionHandler e);
      |}
  end.

(** Scripted protocols keep every promise the methods keep. *)
Lemma react_moves (R : relation W) `{!PreOrder R} P r :
  (∀ a, a ∈ r_calls r → moves R (run_api (Protocol0 := P) a)) → moves R (react P r).
Proof.
  intros Hr. unfold react. moves_auto. revert Hr. generalize (r_calls r) as l.
  induction l as [|a l IH]; intros Hl; simpl; moves_auto.
  - apply Hl. by left.
  - apply IH. intros. apply Hl. by right.
Qed.

Lemma scripted_step (R : relation W) `{!PreOrder R} script n :
  (∀ ev a, a ∈ r_calls (script ev) → moves R (run_api (Protocol0 := scripted script n) a)) →
  @Obeys W (scripted script (S n)) R.
Proof.
  intros Hapi. assert (∀ ev, moves R (react (scripted script n) (script ev))) as Hr
    by (intros ev; apply react_moves; eauto).
  assert (∀ ev, moves R (react (scripted script n) (script ev);; mret tt)) as Hgo
    by (intros; moves_auto; apply Hr).
  split; intros; simpl; first [apply Hgo|apply Hr|apply moves_ret, _].
Qed.

Lemma scripted_obeys (R : relation W) `{!PreOrder R} script n :
  (∀ P ev a, @Obeys W P R → a ∈ r_calls (script ev) →
             moves R (run_api (Protocol0 := P) a)) →
  @Obeys W (scripted script n) R.
Proof.
  intros Hapi. induction n as [|n IH]; [by apply silent_obeys|].
  apply scripted_step; eauto.
Qed.

Lemma react_exit P r w e : (react P r w).1 = Raise e → is_exit e = false.
Proof. unfold react. rewrite run_bind. destruct (r_answer r); simpl; by intros [= <-]. Qed.

#[export] Instance scripted_read_laws script n : @ReadLaws E (scripted script n).
Proof.
  induction n as [|n IH].
  { split; [apply silent_obeys, _|done..]. }
  split.
  - apply scripted_step; [apply _|]. intros ev a _. by apply rio_run_api.
  - intros p d w e. simpl. rewrite run_bind.
    destruct (react _ _ w) as [[b|e'] w'] eqn:Hx; simpl; intros [= <-].
    eapply react_exit. by rewrite Hx.
  - intros p w e. apply react_exit.
Qed.

(** Scripted protocols may write: the outgoing stream grows at its end. *)
Lemma appended_prefix d (w : W) out :
  appended prefix d w out → Rout prefix w out.2.
Proof.
  intros [[Ht Hc Hf Hs _] Ha]. split; try done. intros Ht2 Hs2.
  destruct (Ha Ht2 Hs2) as (d1 & _ & [k Hk] & _). rewrite Hk, <- app_assoc. by eexists.
Qed.

#[export] Instance scripted_out_obeys `{!KernelLaws E} script n :
  @Obeys W (scripted script n) (Rout prefix).
Proof.
  apply scripted_obeys; [apply _|]. intros P ev a HP _ w.
  apply (appended_prefix (written (WCall a))).
  by apply (run_wstep_appended (Protocol0 := P) prefix (WCall a)).
Qed.
End scripted.

(** ** Worlds to start from *)

Definition start_transport {X} (kind : option drain_kind) (x : X) : transport bytes X :=
  MkTransport bytes X true 5 true (Some (MkProto 1 false)) true None (Some localhost)
    (Some localhost) [] 0 false false [] kind false default_high_water default_low_water x.

Definition start_world (env : script_env) : world script_env bytes stream :=
  MkWorld empty_loop
    (start_transport (Some Tcp)
       (MkStream false None (Some read_ready__data_received) (Some write_sendmsg)))
    env [] {[ 5%Z ]}.
