(* ===== verification/StreamFrame.v ===== *)
(** * Preorders every stream method moves along

    [Calm R] lists what a preorder [R] must tolerate for all methods of the
    stream transport to move along it: the loop's methods and the kernel,
    assignments to attributes [R] does not look at, and, as units, the flow-control
    and teardown methods.  The instances: a torn transport stays torn, the
    alternation of [pause_writing] and [resume_writing], the uniqueness of
    [connection_lost], and [Rloop]. *)

From Stdlib Require Import Strings.Byte.
From stdpp Require Import base tactics list gmap strings.
From S2P Require Import Prelude State Reactor Env Loop LoopFrame.
From S2P Require Import SelectorTransport SocketTransport StreamWrites.

Section calm.
Context {E : Type} `{!Kernel E} `{!Protocol (world E bytes stream)}.
Local Abbreviation W := (world E bytes stream).

(** The attributes and events a calm preorder may look at. *)
Definition calm_view (t : transport bytes stream) :=
  (_conn_lost t, _loop t, _sock t, _protocol t, _protocol_connected t, _protocol_paused t).
Definition calm_event (ev : event) : bool :=
  match ev with
  | EvPauseWriting _ | EvResumeWriting _ | EvConnectionLost _ _ => false
  | _ => true
  end.

Class Calm (R : relation W) : Prop := {
  calm_preorder : PreOrder R;
  calm_on_loop A (m : M LoopState A) : moves Rloop m → moves R (on_loop m);
  calm_kernel A (m : M E A) : moves R (kernel m);
  calm_put f : (∀ t, calm_view (f t) = calm_view t) → moves R (put f);
  calm_log ev : calm_event ev = true → moves R (log ev);
  calm_incr_conn_lost : moves R incr_conn_lost;
  calm_maybe_pause : moves R _maybe_pause_protocol;
  calm_maybe_resume : moves R _maybe_resume_protocol;
  calm_teardown exc : moves R (SelectorTransport._call_connection_lost exc);
  calm_obeys :: Obeys R;
}.

Context (R : relation W) `{!Calm R}.
#[local] Instance calm_preorder_inst : PreOrder R := calm_preorder.

#[local] Hint Resolve calm_on_loop calm_kernel calm_incr_conn_lost calm_maybe_pause
  calm_maybe_resume calm_teardown : moves.
#[local] Hint Extern 1 (moves R (put _)) => (apply calm_put; reflexivity) : moves.
#[local] Hint Extern 1 (moves R (log _)) => (apply calm_log; reflexivity) : moves.

Lemma calm_self {A} (f : transport bytes stream → A) : moves R (self f).
Proof. apply moves_gets, _. Qed.
Lemma calm_loop_get {A} (f : LoopState → A) : moves R (loop_get (W := W) f).
Proof. apply moves_gets, _. Qed.
Lemma calm_put_ext f : moves R (put_ext (E := E) f).
Proof. by apply calm_put. Qed.
Lemma calm_get_ext {A} (f : stream → A) : moves R (get_ext (E := E) f).
Proof. apply calm_self. Qed.
#[local] Hint Resolve calm_self calm_loop_get calm_put_ext calm_get_ext : moves.
Lemma calm_loop_call {A} (m : M W A) : moves R m → moves R (loop_call m).
Proof. intros. unfold loop_call. moves_auto. Qed.
Lemma calm_sock_call {A} (m : Z → M W A) : (∀ fd, moves R (m fd)) → moves R (sock_call m).
Proof. intros. unfold sock_call. moves_auto. Qed.
Lemma calm_protocol_call {A} ev (m : proto → M W A) :
  (∀ p, calm_event (ev p) = true) → (∀ p, moves R (m p)) → moves R (protocol_call ev m).
Proof. intros. unfold protocol_call. moves_auto. by apply calm_log. Qed.
#[local] Hint Resolve calm_loop_call calm_sock_call : moves.
#[local] Hint Extern 1 (moves R (protocol_call _ _)) =>
  (apply calm_protocol_call; [reflexivity|]) : moves.

(** *** System calls *)
Lemma calm_sock_send fd d : moves R (sys_send (W := W) fd d).
Proof. unfold sys_send. moves_auto. Qed.
Lemma calm_sock_sendmsg fd l : moves R (sys_sendmsg (W := W) fd l).
Proof. unfold sys_sendmsg. moves_auto. Qed.
Lemma calm_sock_recv fd n : moves R (sys_recv (W := W) fd n).
Proof. unfold sys_recv. moves_auto. Qed.
Lemma calm_shutdown_wr : moves R (shutdown_wr (E := E)).
Proof. unfold shutdown_wr, sys_shutdown. moves_auto. Qed.
Lemma calm_open_fd fd : moves R (open_fd (W := W) fd).
Proof. unfold open_fd. moves_auto. Qed.
#[local] Hint Resolve calm_sock_send calm_sock_sendmsg calm_sock_recv calm_shutdown_wr
  calm_open_fd : moves.

(** *** Base class *)
Lemma calm_debug_log : moves R (debug_log (E := E)).
Proof. unfold debug_log. moves_auto. Qed.
Lemma calm_loop_call_soon cb : moves R (loop_call_soon (E := E) cb).
Proof. unfold loop_call_soon. moves_auto. Qed.
Lemma calm_call_exception_handler e : moves R (call_exception_handler e).
Proof. unfold call_exception_handler. moves_auto. Qed.
Lemma calm_remove_reader : moves R (loop_remove_reader (E := E)).
Proof. unfold loop_remove_reader, _remove_reader. moves_auto. Qed.
Lemma calm_remove_writer : moves R (loop_remove_writer (E := E)).
Proof. unfold loop_remove_writer, _remove_writer. moves_auto. Qed.
#[local] Hint Resolve calm_debug_log calm_loop_call_soon calm_call_exception_handler
  calm_remove_reader calm_remove_writer : moves.
Lemma calm_add_write_ready : moves R (add_write_ready (E := E)).
Proof. unfold add_write_ready, loop_add_writer, _add_writer. moves_auto. Qed.
Lemma calm_register_reader : moves R (_register_reader (E := E) (B := bytes) (X := stream)).
Proof. unfold _register_reader, _add_tcp_reader, _add_udp_reader, _add_reader. moves_auto. Qed.
Lemma calm_force_close e : moves R (_force_close (E := E) e).
Proof. unfold _force_close. moves_auto. Qed.
#[local] Hint Resolve calm_add_write_ready calm_register_reader calm_force_close : moves.
Lemma calm_fatal e : moves R (fatal (E := E) e).
Proof. unfold fatal, _fatal_error. moves_auto. Qed.
Lemma calm_pause_reading : moves R (pause_reading (E := E)).
Proof. unfold pause_reading. moves_auto. Qed.
Lemma calm_close : moves R (close (E := E)).
Proof. unfold close, SelectorTransport.close. moves_auto. Qed.
#[local] Hint Resolve calm_fatal calm_pause_reading calm_close : moves.

(** *** Reading *)
Lemma calm_on_eof : moves R (_read_ready__on_eof (E := E)).
Proof. unfold _read_ready__on_eof. moves_auto. Qed.
#[local] Hint Resolve calm_on_eof : moves.
Lemma calm_run_replay i : moves R (run_replay (E := E) (X := stream) i).
Proof. destruct i; simpl; unfold _deliver_error, _deliver_stream; moves_auto. Qed.
#[local] Hint Resolve calm_run_replay : moves.
Lemma calm_drain_guarded i : moves R (drain_guarded (E := E) i).
Proof. unfold drain_guarded. moves_auto. Qed.
Lemma calm_flush_loop n : moves R (flush_loop (E := E) (X := stream) n).
Proof. induction n; cbn [flush_loop]; moves_auto. Qed.
#[local] Hint Resolve calm_drain_guarded calm_flush_loop : moves.
Lemma calm_resume_reading : moves R (resume_reading (E := E) (X := stream)).
Proof. unfold resume_reading, _flush_replay. moves_auto. Qed.
Lemma calm_ready_get_buffer : moves R (_read_ready__get_buffer (E := E)).
Proof. unfold _read_ready__get_buffer. moves_auto. Qed.
Lemma calm_read_one : moves R (read_one (E := E)).
Proof. unfold read_one. moves_auto. Qed.
#[local] Hint Resolve calm_resume_reading calm_ready_get_buffer calm_read_one : moves.
Lemma calm_read_burst n : moves R (read_burst (E := E) n).
Proof. induction n; cbn [read_burst]; moves_auto. Qed.
#[local] Hint Resolve calm_read_burst : moves.
Lemma calm_read_ready : moves R (_read_ready (E := E)).
Proof. unfold _read_ready, _read_ready__data_received. moves_auto. Qed.

(** *** Writing *)
Lemma calm_set_waiter_exception e : moves R (set_waiter_exception (E := E) e).
Proof. unfold set_waiter_exception. moves_auto. Qed.
#[local] Hint Resolve calm_read_ready calm_set_waiter_exception : moves.
Lemma calm_call_connection_lost e : moves R (_call_connection_lost (E := E) e).
Proof. unfold _call_connection_lost. moves_auto. Qed.
#[local] Hint Resolve calm_call_connection_lost : moves.
Lemma calm_write_progress : moves R (write_progress (E := E)).
Proof. unfold write_progress, write_finished. moves_auto. Qed.
Lemma calm_write_failed e : moves R (write_failed (E := E) e).
Proof. unfold write_failed. moves_auto. Qed.
#[local] Hint Resolve calm_write_progress calm_write_failed : moves.
Lemma calm_write_sendmsg : moves R (_write_sendmsg (E := E)).
Proof. unfold _write_sendmsg, _adjust_leftover_buffer. moves_auto. Qed.
Lemma calm_write_send : moves R (_write_send (E := E)).
Proof. unfold _write_send. moves_auto. Qed.
Lemma calm_conn_lost_write : moves R (conn_lost_write (E := E)).
Proof. unfold conn_lost_write. moves_auto. Qed.
#[local] Hint Resolve calm_write_sendmsg calm_write_send calm_conn_lost_write : moves.
Lemma calm_write a : moves R (write (E := E) a).
Proof. unfold write, append_buffer. moves_auto. Qed.
Lemma calm_writelines l : moves R (writelines (E := E) l).
Proof. unfold writelines, call_write_ready. moves_auto. Qed.
Lemma calm_write_eof : moves R (write_eof (E := E)).
Proof. unfold write_eof. moves_auto. Qed.
#[local] Hint Resolve calm_write calm_writelines calm_write_eof : moves.

(** Replacing the protocol is left to the relation. *)
Definition rebinds : Prop :=
  ∀ p, moves R (SelectorTransport.set_protocol (E := E) (B := bytes) (X := stream) p).

Lemma calm_set_protocol p : rebinds → moves R (set_protocol (E := E) p).
Proof.
  intros Hp. unfold set_protocol, set_protocol_. moves_auto.
Qed.

Definition sets_protocol (s : wstep) : bool :=
  match s with WCall (ApiSetProtocol _) => true | _ => false end.

Lemma calm_run_api a :
  rebinds ∨ sets_protocol (WCall a) = false → moves R (run_api (E := E) a).
Proof.
  intros Hs. destruct a; simpl; unfold abort; moves_auto.
  apply calm_set_protocol. by destruct Hs.
Qed.

Lemma calm_run_wstep s : rebinds ∨ sets_protocol s = false → moves R (run_wstep s).
Proof.
  intros Hs. destruct s as [a|f]; [by apply calm_run_api|]. simpl. clear Hs.
  destruct f as [[]| | |]; simpl; unfold _drain_stream, _drain_error; moves_auto.
Qed.

Lemma calm_run_wsteps l (w : W) :
  rebinds ∨ Forall (λ s, sets_protocol s = false) l → R w (run_wsteps l w).2.
Proof.
  revert w. induction l as [|s l IH]; intros w Hl; simpl; [done|].
  assert (rebinds ∨ sets_protocol s = false) as Hs
    by (destruct Hl as [?|Hl]; [by left|inversion Hl; auto]).
  pose proof (calm_run_wstep s Hs w) as Hr. destruct (run_wstep s w) as [r w1].
  specialize (IH w1). destruct (run_wsteps l w1) as [rs w2]. cbn [snd] in *.
  etrans; [done|]. apply IH. destruct Hl as [?|Hl]; [by left|inversion Hl; auto].
Qed.
End calm.

(** ** A torn transport stays torn *)

Section torn.
Context {E : Type} `{!Kernel E} `{!Protocol (world E bytes stream)}.
Local Abbreviation W := (world E bytes stream).

Definition Rtorn : relation W := keeps (λ w, torn (w_tr w) = true).

Lemma torn_modify (f : W → W) :
  (∀ w, torn (w_tr w) = true → torn (w_tr (f w)) = true) → moves Rtorn (modify f).
Proof. intros. by apply moves_modify. Qed.

#[export] Instance torn_calm `{!Obeys Rtorn} : Calm Rtorn.
Proof.
  assert (∀ A (m : M LoopState A), moves Rtorn (on_loop m)) as Hloop
    by (intros; apply moves_zoom; intros w Ht; exact Ht).
  assert (∀ A (m : M E A), moves Rtorn (kernel m)) as Hkernel
    by (intros; apply moves_zoom; intros w Ht; exact Ht).
  assert (∀ f, (∀ t : transport bytes stream, torn t = true → torn (f t) = true) →
    moves Rtorn (put f)) as Hput by (intros f Hf w Ht; by apply Hf).
  assert (∀ ev, moves Rtorn (log ev)) as Hlog by (intros ev w Ht; exact Ht).
  assert (∀ f, (∀ t : transport bytes stream, (_conn_lost (f t), _loop (f t)) = (_conn_lost t, _loop t)) →
    moves Rtorn (put f)) as Hview.
  { intros f Hf. apply Hput. intros t. injection (Hf t) as H1 H2. unfold torn. by rewrite H1, H2. }
  split; try typeclasses eauto; auto.
  - intros f Hf. apply Hview. intros t. injection (Hf t) as H1 H2. by rewrite H1, H2.
  - by apply Hput.
  - unfold _maybe_pause_protocol, protocol_call, call_exception_handler, loop_call. moves_auto; auto.
  - unfold _maybe_resume_protocol, protocol_call, call_exception_handler, loop_call. moves_auto; auto.
  - intros exc. unfold SelectorTransport._call_connection_lost, server_detach, protocol_call,
      sock_call, sys_close.
    moves_auto; auto. all: apply Hput; intros t _; unfold torn; simpl; by rewrite orb_true_r.
Qed.
End torn.

(** ** Flow control alternates *)

Section flow_control.
Context {E : Type} `{!Kernel E} `{!Protocol (world E bytes stream)}.
Local Abbreviation W := (world E bytes stream).

(** [true] for an entered [pause_writing], [false] for [resume_writing]. *)
Definition flow_event (ev : event) : option bool :=
  match ev with
  | EvPauseWriting _ => Some true
  | EvResumeWriting _ => Some false
  | _ => None
  end.

(** Pauses and resumptions alternate, starting with a pause, and the last one
    agrees with [_protocol_paused]. *)
Definition flow_ok (w : W) : Prop :=
  ∃ n, omap flow_event (w_trace w) =
       concat (replicate n [true; false]) ++
       (if _protocol_paused (w_tr w) then [true] else []).

Definition bound (t : transport bytes stream) : Prop := is_Some (_protocol t).

Record Rflow (w w' : W) : Prop := {
  fl_torn : torn (w_tr w) = true → torn (w_tr w') = true;
  fl_keep : torn (w_tr w') = false → bound (w_tr w) →
            bound (w_tr w') ∧ (flow_ok w → flow_ok w');
}.

#[export] Instance Rflow_preorder : PreOrder Rflow.
Proof.
  split.
  - intros w. by split.
  - intros w1 w2 w3 [t1 k1] [t2 k2]. split; [auto|]. intros Ht3 Hb1.
    destruct (torn (w_tr w2)) eqn:Ht2; [specialize (t2 eq_refl); congruence|].
    destruct (k1 eq_refl Hb1) as [Hb2 ?]. destruct (k2 Ht3 Hb2). auto.
Qed.

Lemma Rflow_view (w w' : W) :
  calm_view (w_tr w') = calm_view (w_tr w) →
  omap flow_event (w_trace w') = omap flow_event (w_trace w) → Rflow w w'.
Proof.
  intros [= H1 H2 H3 H4 _ H5] Ht.
  assert (torn (w_tr w') = torn (w_tr w)) as Htn by (unfold torn; by rewrite H1, H2).
  assert (flow_ok w → flow_ok w') as Hok by (unfold flow_ok; by rewrite H5, Ht).
  split; [by rewrite Htn|]. intros _. unfold bound. by rewrite H4.
Qed.
Lemma Rflow_lost (w w' : W) : torn (w_tr w') = true → Rflow w w'.
Proof. intros Ht. by split; [|rewrite Ht]. Qed.

(** Entering the callback restores the agreement the assignment broke. *)
Lemma Rflow_pause p (w : W) :
  _protocol_paused (w_tr w) = false →
  Rflow w (add_event (EvPauseWriting p) (set_tr (set_protocol_paused true (w_tr w)) w)).
Proof.
  intros Hp. split; [done|]. intros _ ?. split; [done|]. intros [n Hn]. exists n. simpl.
  rewrite omap_app, Hn, Hp. simpl. by rewrite app_nil_r.
Qed.
Lemma Rflow_resume p (w : W) :
  _protocol_paused (w_tr w) = true →
  Rflow w (add_event (EvResumeWriting p) (set_tr (set_protocol_paused false (w_tr w)) w)).
Proof.
  intros Hp. split; [done|]. intros _ ?. split; [done|]. intros [n Hn]. exists (S n).
  rewrite replicate_S_end, concat_app. cbn [w_trace add_event set_tr w_tr].
  rewrite omap_app, Hn, Hp, app_nil_r, <- app_assoc. done.
Qed.

Context `{!Obeys Rflow}.
#[local] Instance obeys_torn : Obeys (Rtorn (E := E)).
Proof. eapply obeys_weaken; [|done]. intros w w' H. exact (fl_torn _ _ H). Qed.

(** The two flow-control methods: only the bound, untorn case remains. *)
Lemma Rflow_intro {A} (m : M W A) (w : W) :
  moves Rtorn m →
  (∀ p, _protocol (w_tr w) = Some p → Rflow w (m w).2) → Rflow w (m w).2.
Proof.
  intros Hm Hb. destruct (_protocol (w_tr w)) as [p|] eqn:Hp; [by eapply Hb|].
  split; [apply Hm|]. intros _ [? ?]. congruence.
Qed.

Lemma try_protocol_call {A} ev (m : proto → M W A) h p (w : W) :
  _protocol (w_tr w) = Some p →
  try_except (protocol_call ev m) h w = try_except (m p) h (add_event (ev p) w).
Proof. intros Hp. unfold try_except, try_else. by rewrite (run_protocol_call _ _ p). Qed.

#[export] Instance flow_calm : Calm Rflow.
Proof.
  assert (∀ A (m : M LoopState A), moves Rflow (on_loop m)) as Hloop
    by (intros; apply moves_zoom; intros w; by apply Rflow_view).
  assert (∀ A (m : M E A), moves Rflow (kernel m)) as Hkernel
    by (intros; apply moves_zoom; intros w; by apply Rflow_view).
  assert (∀ ev, flow_event ev = None → moves Rflow (log ev)) as Hlog.
  { intros ev Hev w. apply Rflow_view; [done|]. simpl. rewrite omap_app; simpl.
    by rewrite Hev, app_nil_r. }
  assert (∀ f, (∀ t, calm_view (f t) = calm_view t) → moves Rflow (put f)) as Hput
    by (intros f Hf w; apply Rflow_view; [apply Hf|done]).
  assert (∀ m : M W unit, moves Rflow m → moves Rflow (try_except m
    (except_cb (λ exc, loop_call (call_exception_handler exc))))) as Htry.
  { intros. unfold loop_call, call_exception_handler. moves_auto; by apply Hlog. }
  split; try typeclasses eauto; auto.
  - intros ev Hev. apply Hlog. by destruct ev.
  - intros w. by apply Rflow_lost.
  - intros w. apply Rflow_intro; [apply calm_maybe_pause|]. intros p Hp.
    unfold _maybe_pause_protocol. rewrite run_bind, run_self. cbv beta iota.
    case_decide; [done|]. destruct (_protocol_paused _) eqn:Hpp; [done|].
    rewrite run_bind, run_put, (try_protocol_call _ _ _ p) by done.
    etrans; [by apply (Rflow_pause p)|]. apply Htry, ob_pause_writing.
  - intros w. apply Rflow_intro; [apply calm_maybe_resume|]. intros p Hp.
    unfold _maybe_resume_protocol. rewrite run_bind, run_self. cbv beta iota.
    destruct (_protocol_paused _) eqn:Hpp; [|done]. simpl.
    case_bool_decide; [|done].
    rewrite run_bind, run_put, (try_protocol_call _ _ _ p) by done.
    etrans; [by apply (Rflow_resume p)|]. apply Htry, ob_resume_writing.
  - intros exc. unfold SelectorTransport._call_connection_lost, server_detach, protocol_call,
      sock_call, sys_close.
    moves_auto; auto.
    all: intros w; apply Rflow_lost; unfold torn; simpl; by rewrite orb_true_r.
Qed.

Lemma flow_rebinds : rebinds Rflow.
Proof. intros p w. split; [done|]. intros _ _. split; [by eexists|done]. Qed.
End flow_control.

(** ** [connection_lost] is called at most once *)

Section lost_once.
Context {E : Type} `{!Kernel E} `{!Protocol (world E bytes stream)}.
Local Abbreviation W := (world E bytes stream).

Definition lost_event (ev : event) : option unit :=
  match ev with EvConnectionLost _ _ => Some tt | _ => None end.
Definition lost_count (w : W) : nat := length (omap lost_event (w_trace w)).

(** Not called and still open, or called and the protocol let go. *)
Definition lost_ok (w : W) : Prop :=
  (lost_count w = 0 ∧ _sock (w_tr w) = true) ∨
  (lost_count w ≤ 1 ∧ _protocol (w_tr w) = None).
Definition Rlost : relation W := keeps lost_ok.

(** [close(2)] reports no error, and the application's [connection_lost] does
    not run the transport's teardown again. *)
Class LostLaws : Prop := {
  ll_obeys :: Obeys Rlost;
  ll_close fd e : (k_close fd e).1 = Ret tt;
  ll_count p exc w : lost_count (p_connection_lost p exc w).2 = lost_count w;
  ll_sock p exc w : _sock (w_tr (p_connection_lost p exc w).2) = _sock (w_tr w);
}.

Lemma lost_count_log ev (w : W) :
  lost_event ev = None → lost_count (add_event ev w) = lost_count w.
Proof.
  intros Hev. unfold lost_count. simpl. rewrite omap_app; simpl. by rewrite Hev, app_nil_r.
Qed.

Lemma lost_view (w w' : W) :
  lost_count w' = lost_count w → _sock (w_tr w') = _sock (w_tr w) →
  _protocol (w_tr w') = _protocol (w_tr w) → Rlost w w'.
Proof. intros H1 H2 H3. unfold Rlost, keeps, lost_ok. by rewrite H1, H2, H3. Qed.

Context `{!LostLaws}.

(** The [finally] block of the base class's [_call_connection_lost]. *)
Definition release : M W unit :=
  sock_call sys_close;; put set_gone;; server_detach;; put (set_server None).

Lemma release_open (w : W) :
  _sock (w_tr w) = true →
  (release w).1 = Ret tt ∧ _protocol (w_tr (release w).2) = None ∧
  _sock (w_tr (release w).2) = false ∧ _loop (w_tr (release w).2) = false ∧
  _server (w_tr (release w).2) = None ∧
  ext (w_tr (release w).2) = ext (w_tr w) ∧
  w_trace (release w).2 = w_trace w ++ EvSockClose :: option_list (EvDetach <$> _server (w_tr w)).
Proof.
  intros Hs. unfold release. rewrite run_bind, run_sock_call by done.
  unfold sys_close, kernel, zoom. rewrite run_bind, run_log. cbv beta iota.
  pose proof (ll_close (_sock_fd (w_tr w)) (lget (add_event EvSockClose w))) as Hc.
  destruct (k_close _ _) as [r e]; simpl in Hc; subst r. cbv beta iota.
  rewrite run_bind, run_put. cbv beta iota. unfold server_detach.
  rewrite !run_bind, run_self. cbn [w_tr set_tr lset]. cbv beta iota.
  change (_server (set_gone _)) with (_server (w_tr w)).
  destruct (_server (w_tr w)) as [s|]; split_and!; try done; simpl.
  by rewrite <- app_assoc.
Qed.

Lemma release_gone (w : W) :
  _protocol (w_tr w) = None →
  _protocol (w_tr (release w).2) = None ∧ lost_count (release w).2 = lost_count w.
Proof.
  set (R := λ w1 w2 : W, (_protocol (w_tr w1) = None → _protocol (w_tr w2) = None) ∧
                         lost_count w2 = lost_count w1).
  assert (PreOrder R) by (split; [done|]; intros ??? [] []; split; [auto|congruence]).
  assert (moves R release) as Hm.
  { unfold release, sock_call, sys_close, server_detach. moves_auto.
    all: try (intros w1; split; [done|by apply lost_count_log]).
    all: try (apply moves_zoom; by intros w1).
    all: by intros w1. }
  intros Hp. destruct (Hm w) as [H1 H2]. auto.
Qed.

Lemma lost_release (w : W) :
  lost_count w ≤ 1 → _sock (w_tr w) = true ∨ _protocol (w_tr w) = None →
  lost_ok (release w).2.
Proof.
  intros Hc [Hs|Hp]; right.
  - destruct (release_open w Hs) as (_ & ? & _ & _ & _ & _ & Ht). split; [|done].
    unfold lost_count. rewrite Ht, omap_app, length_app. unfold lost_count in Hc.
    destruct (_server (w_tr w)); simpl; lia.
  - destruct (release_gone w Hp) as [? ->]. done.
Qed.

Lemma lost_finally {A} (m : M W A) (w : W) :
  lost_ok (release (m w).2).2 → lost_ok (try_finally m release w).2.
Proof.
  unfold try_finally. destruct (m w) as [r w1]; cbn [snd].
  by destruct (release w1) as [[]].
Qed.

Lemma lost_teardown exc : moves Rlost (SelectorTransport._call_connection_lost (E := E) exc).
Proof.
  intros w Hok. apply lost_finally. rewrite run_bind, run_self. cbv beta iota.
  destruct (_protocol_connected (w_tr w)); cbn [when_]; cycle 1.
  { rewrite run_ret. apply lost_release; destruct Hok as [[Hc ?]|[? ?]]; simpl; auto.
    lia. }
  destruct (_protocol (w_tr w)) as [p|] eqn:Hp; cycle 1.
  { unfold protocol_call. rewrite run_bind, run_self, Hp, run_raise.
    apply lost_release; [|by right]. destruct Hok as [[Hc ?]|[? ?]]; simpl; lia. }
  destruct Hok as [[Hc Hs]|[_ ?]]; [|congruence].
  rewrite (run_protocol_call _ _ p) by done. apply lost_release.
  - rewrite ll_count. unfold lost_count in *; simpl. rewrite omap_app, length_app, Hc. simpl. lia.
  - left. by rewrite ll_sock.
Qed.

#[export] Instance lost_calm : Calm Rlost.
Proof.
  assert (∀ A (m : M LoopState A), moves Rlost (on_loop m)) as Hloop
    by (intros; apply moves_zoom; intros w; by apply lost_view).
  assert (∀ A (m : M E A), moves Rlost (kernel m)) as Hkernel
    by (intros; apply moves_zoom; intros w; by apply lost_view).
  assert (∀ ev, lost_event ev = None → moves Rlost (log ev)) as Hlog.
  { intros ev Hev w. apply lost_view; [by apply lost_count_log|done..]. }
  assert (∀ f, (∀ t, (_sock (f t), _protocol (f t)) = (_sock t, _protocol t)) →
    moves Rlost (put f)) as Hput.
  { intros f Hf w. injection (Hf (w_tr w)) as H1 H2. by apply lost_view. }
  split; try typeclasses eauto; auto.
  - intros f Hf. apply Hput. intros t. injection (Hf t) as H1 H2 H3 H4 H5 H6. congruence.
  - intros ev Hev. apply Hlog. by destruct ev.
  - by apply Hput.
  - unfold _maybe_pause_protocol, protocol_call, call_exception_handler, loop_call.
    moves_auto; auto.
  - unfold _maybe_resume_protocol, protocol_call, call_exception_handler, loop_call.
    moves_auto; auto.
  - apply lost_teardown.
Qed.
End lost_once.

(** ** The loop moves by its methods only *)

Section loop_only.
Context {E : Type} `{!Kernel E} `{!Protocol (world E bytes stream)}.
Local Abbreviation W := (world E bytes stream).

Definition Rinner (w w' : W) : Prop := Rloop (w_loop w) (w_loop w').
#[export] Instance Rinner_preorder : PreOrder Rinner.
Proof. split; [intros w|intros w1 w2 w3]; unfold Rinner; [done|apply transitivity]. Qed.

Lemma inner_same (w w' : W) : w_loop w' = w_loop w → Rinner w w'.
Proof. unfold Rinner. by intros ->. Qed.

#[export] Instance inner_calm `{!Obeys Rinner} : Calm Rinner.
Proof.
  assert (∀ A (m : M LoopState A), moves Rloop m → moves Rinner (on_loop m)) as Hloop
    by (intros A m Hm; apply moves_zoom; intros w; apply Hm).
  assert (∀ A (m : M E A), moves Rinner (kernel m)) as Hkernel
    by (intros; apply moves_zoom; intros w; by apply inner_same).
  assert (∀ f, moves Rinner (put f)) as Hput by (intros f w; by apply inner_same).
  assert (∀ ev, moves Rinner (log ev)) as Hlog by (intros ev w; by apply inner_same).
  split; try typeclasses eauto; auto.
  - apply Hput.
  - unfold _maybe_pause_protocol, protocol_call, call_exception_handler, loop_call. moves_auto; auto.
  - unfold _maybe_resume_protocol, protocol_call, call_exception_handler, loop_call. moves_auto; auto.
  - intros exc. unfold SelectorTransport._call_connection_lost, server_detach, protocol_call,
      sock_call, sys_close.
    moves_auto; auto.
Qed.
Lemma inner_rebinds : rebinds Rinner.
Proof. intros p w. by apply inner_same. Qed.
End loop_only.
