(* ===== verification/StreamProps.v ===== *)
(** * The stream transport: what it promises

    The properties of [_SelectorSocketTransport], each with a concrete instance
    on the kernel and the protocols of Script.v. *)

From Stdlib Require Import Strings.Byte.
From stdpp Require Import base tactics list gmap strings.
From S2P Require Import Prelude State Reactor Env Loop.
From S2P Require Import SelectorTransport Reads SocketTransport StreamReads StreamWrites Script.
From S2P Require Import StreamFrame ReactorProps.

(** ** Concrete data for the instances *)

Definition a_bytes : bytes := [x61].
Definition b_bytes : bytes := [x62; x63].
Definition c_bytes : bytes := [x64; x65; x66].

(** Pauses reading when it is given [a_bytes], writes [c_bytes] when it is
    given [b_bytes]. *)
Definition pausing_script (ev : event) : reaction :=
  match ev with
  | EvDataReceived _ d =>
      if decide (d = a_bytes) then MkReaction [ApiPauseReading] (Some false)
      else if decide (d = b_bytes) then MkReaction [ApiWrite (BytesLike c_bytes)] (Some false)
      else no_reaction
  | _ => no_reaction
  end.

#[local] Instance demo_kernel : Kernel script_env := script_kernel true.
Abbreviation demo_world := (world script_env bytes stream).

(** Scripted protocols keep the laws of flow control, and those of teardown if
    their [connection_lost] only looks on and they do not replace themselves. *)
#[export] Instance scripted_flow_obeys script n :
  @Obeys demo_world (scripted demo_kernel script n) Rflow.
Proof.
  apply scripted_obeys; [apply _|]. intros P ev a HP _.
  apply (calm_run_api Rflow). left. apply flow_rebinds.
Qed.

Lemma scripted_lost_laws script n :
  (∀ p e, r_calls (script (EvConnectionLost p e)) = []) →
  (∀ ev a, a ∈ r_calls (script ev) → sets_protocol (WCall a) = false) →
  @LostLaws script_env demo_kernel (scripted demo_kernel script n).
Proof.
  intros Hlost Hset. induction n as [|n IH].
  { split; try done. apply silent_obeys, _. }
  split; try done.
  - apply scripted_step; [apply _|]. intros ev a Ha. apply (calm_run_api Rlost).
    right. by eapply Hset.
  - intros p e w. simpl. unfold react. rewrite Hlost. simpl.
    rewrite !run_bind. by destruct (r_answer _).
  - intros p e w. simpl. unfold react. rewrite Hlost. simpl.
    rewrite !run_bind. by destruct (r_answer _).
Qed.

Section props.
Context {E : Type} `{!Kernel E} `{!Protocol (world E bytes stream)}.
Local Abbreviation W := (world E bytes stream).

(** C1: In drain mode nothing is lost, duplicated or reordered.  Take any
    interleaving of payloads handed over by the reactor (data, end of file,
    read errors) with calls of the transport's API, the application's
    callbacks calling back into the transport as they like.  As long as the
    transport is not closed, what the protocol has been given followed by
    what the replay buffer holds is exactly what it was before followed by
    the payloads in order of arrival; and when reading is not paused the
    replay buffer is empty, so everything has been delivered. *)
Theorem stream_delivery_order `{!ReadLaws} l (w : W) :
  settled (w_tr w) → alive w → is_dead (w_tr (run_steps l w)) = false →
  received (run_steps l w) = received w ++ arrivals l ∧
  (_paused (w_tr (run_steps l w)) = false →
   omap delivery (w_trace (run_steps l w)) = received w ++ arrivals l).
Proof.
  intros Hs Ha Hd. destruct (run_steps_spec l w Hs Ha Hd) as (_ & [Hp|Hr] & <-).
  - by rewrite Hp.
  - split; [done|]. intros _. unfold received. by rewrite Hr, app_nil_r.
Qed.

(** C2: The outgoing byte stream.  Take any interleaving of API calls and of
    callbacks run by the loop (write-ready events, deliveries, read errors),
    with callbacks that do not write themselves and a kernel that may accept
    any part of what it is offered.  Unless the connection is lost, the bytes
    accepted by the kernel followed by the bytes buffered are what they were,
    followed by what the calls appended in the order of the calls: all their
    data for calls that returned, a prefix of it for calls that raised. *)
Theorem stream_write_order `{!KernelLaws E} `{!Obeys (Rout (E := E) eq)} l (w : W) :
  Forall not_write_send l → sendmsg_only (w_tr w) →
  torn (w_tr (run_wsteps l w).2) = false →
  ∃ ds, Forall2 (λ so d, d `prefix_of` written so.1 ∧ (so.2 = Ret tt → d = written so.1))
          (zip l (run_wsteps l w).1) ds ∧
        outgoing (run_wsteps l w).2 = outgoing w ++ concat ds.
Proof. apply run_wsteps_spec. Qed.

(** C6: Flow control.  Along any history [pause_writing] and [resume_writing]
    are entered alternately, starting with a pause, and [_protocol_paused]
    says which one was last; callbacks may call back into the transport. *)
Theorem flow_control_alternates `{!Obeys (Rflow (E := E))} l (w : W) :
  flow_ok w → bound (w_tr w) → torn (w_tr (run_wsteps l w).2) = false →
  flow_ok (run_wsteps l w).2.
Proof.
  intros Hok Hb Ht.
  apply (fl_keep _ _ (calm_run_wsteps Rflow l w (or_introl flow_rebinds)) Ht Hb), Hok.
Qed.

(** C7: [connection_lost] is entered at most once, whatever the application
    and the loop do, including aborts, errors and teardown from inside a
    write-ready event (the protocol is not replaced meanwhile). *)
Theorem connection_lost_once `{!LostLaws (E := E)} l (w : W) :
  lost_ok w → Forall (λ s, sets_protocol s = false) l →
  lost_count (run_wsteps l w).2 ≤ 1.
Proof.
  intros Hok Hl. destruct (calm_run_wsteps Rlost l w (or_intror Hl) Hok) as [[-> _]|[? _]]; lia.
Qed.

(** [_force_close] and [abort]: at the first call the pending output is
    dropped, reading stops, and exactly one [_call_connection_lost] with the
    given exception is scheduled, behind everything scheduled before; once the
    connection is lost the call does nothing. *)
Theorem force_close_once exc (w : W) :
  _loop (w_tr w) = true → closed (w_loop w) = false →
  let w' := (_force_close exc w).2 in
  (_force_close exc w).1 = Ret tt ∧
  if decide (_conn_lost (w_tr w) = 0) then
    _buffer (w_tr w') = [] ∧ _closing (w_tr w') = true ∧ _conn_lost (w_tr w') = 1 ∧
    w_trace w' = w_trace w ∧
    re_callback <$> ready (w_loop w') =
      (re_callback <$> ready (w_loop w)) ++ [CbCallConnectionLost exc]
  else w' = w.
Proof.
  intros Hl Hc. cbv zeta. rewrite force_close_run by done.
  destruct (_conn_lost (w_tr w)) as [|n] eqn:Hn; simpl; [|done].
  destruct (torn_down_frame w) as (Hb & Hcl & Hl' & Hn' & Ht & Hr & Hc').
  set (w1 := count_lost _).
  assert (_loop (w_tr w1) = true) as Hl1 by (simpl; by rewrite Hl').
  assert (closed (w_loop w1) = false) as Hc1 by (simpl; by rewrite Hc').
  destruct (call_soon_run (CbCallConnectionLost exc) w1 Hl1 Hc1) as [-> ->].
  destruct (call_soon_frame (CbCallConnectionLost exc) w1) as [-> ->].
  simpl. rewrite Hb, Hcl, Hn', Hn, Ht, Hr. split_and!; try done. by rewrite fmap_app.
Qed.

(** C8: [close].  Reading stops and no method of the loop is left to read; with
    nothing buffered one [_call_connection_lost(None)] is scheduled and the
    writer removed, with output pending the buffer and its writer stay and
    the connection is not counted as lost, so that the write-ready event
    finishes it.  Closing again changes nothing more. *)
Theorem close_graceful (w : W) :
  _loop (w_tr w) = true → closed (w_loop w) = false →
  let w' := (close w).2 in
  (close w).1 = Ret tt ∧ _closing (w_tr w') = true ∧
  _buffer (w_tr w') = _buffer (w_tr w) ∧ w_trace w' = w_trace w ∧
  match _closing (w_tr w), _buffer (w_tr w) with
  | true, _ =>
      w_loop w' = w_loop w ∧ _conn_lost (w_tr w') = _conn_lost (w_tr w)
  | false, [] =>
      watched w' true = None ∧ watched w' false = None ∧
      _conn_lost (w_tr w') = S (_conn_lost (w_tr w)) ∧
      re_callback <$> ready (w_loop w') =
        (re_callback <$> ready (w_loop w)) ++ [CbCallConnectionLost None]
  | false, _ :: _ =>
      watched w' true = None ∧ watched w' false = watched w false ∧
      _conn_lost (w_tr w') = _conn_lost (w_tr w) ∧
      ready (w_loop w') = ready (w_loop w)
  end.
Proof.
  intros Hl Hc. cbv zeta. unfold close, put_ext. rewrite run_bind, run_put. cbv beta iota.
  set (w0 := set_tr _ w). rewrite close_run by done.
  change (_closing (w_tr w0)) with (_closing (w_tr w)).
  change (_buffer (w_tr w0)) with (_buffer (w_tr w)).
  destruct (_closing (w_tr w)) eqn:Hcl; [by split_and!|].
  cbv zeta. set (w1 := update _ w0). set (w2 := unregister true w1).
  destruct (unregister_frame true w1) as (H1 & H2 & H3 & H4). fold w2 in H1, H2, H3, H4.
  pose proof (unregister_watched true true w1 Hc) as Hr.
  pose proof (unregister_watched true false w1 Hc) as Hw. fold w2 in Hr, Hw.
  destruct (_buffer (w_tr w)) as [|b buf] eqn:Hb; cbn [fst snd]; cycle 1.
  { rewrite H1, H2, H3, Hr, Hw. by split_and!. }
  set (w3 := unregister false (count_lost w2)).
  assert (closed (w_loop (count_lost w2)) = false) as Hc2
    by (change (closed (w_loop w2) = false); by rewrite H4).
  destruct (unregister_frame false (count_lost w2)) as (G1 & G2 & G3 & G4).
  fold w3 in G1, G2, G3, G4.
  destruct (call_soon_run (CbCallConnectionLost None) w3) as [-> Hq];
    [rewrite G1; change (_loop (w_tr w2) = true); by rewrite H1|by rewrite G4|].
  rewrite !call_soon_watched. destruct (call_soon_frame (CbCallConnectionLost None) w3) as [-> ->].
  assert (w_tr (count_lost w2) = set_conn_lost (S (_conn_lost (w_tr w1))) (w_tr w1)) as Ht2
    by (unfold count_lost, update; cbn [w_tr set_tr]; by rewrite H1).
  rewrite Hq, G1, G2, G3, Ht2. unfold w3. rewrite !unregister_watched by done.
  change (watched (count_lost w2) true) with (watched w2 true).
  change (ready (w_loop (count_lost w2))) with (ready (w_loop w2)).
  change (w_trace (count_lost w2)) with (w_trace w2).
  rewrite Hr, H2, H3, fmap_app. by split_and!.
Qed.

(** C9: [resume_reading] on an open, paused transport.  It terminates and,
    unless the transport got closed or was paused again meanwhile, everything
    stored has been delivered, in order and before anything newer, and the
    read direction has a watcher again. *)
Theorem resume_reading_settles `{!ReadLaws} (w : W) :
  alive w → _paused (w_tr w) = true →
  let out := resume_reading w in
  is_dead (w_tr out.2) = true ∨
  (received out.2 = received w ∧
   (_paused (w_tr out.2) = true ∨
    (omap delivery (w_trace out.2) = received w ∧
     (out.1 = Ret tt → is_Some (watched out.2 true))))).
Proof.
  intros [Hd Hl] Hp. cbv zeta. pose proof (rio_resume_reading w) as Hr.
  destruct (is_dead (w_tr (resume_reading w).2)) eqn:Hd'; [by left|right].
  destruct (io_keep _ _ Hr Hd' Hl) as (_ & Hrec & _ & Hset). split; [done|].
  destruct (Hset (or_introl Hp)) as [?|Hrep]; [by left|].
  destruct (_paused (w_tr (resume_reading w).2)) eqn:Hp'; [by left|right]. split.
  - rewrite <- Hrec. unfold received. by rewrite Hrep, app_nil_r.
  - intros Hret. apply (resume_reading_watched w); try done.
    + unfold is_dead in Hd. by apply orb_false_iff in Hd as [_ ?].
    + rewrite (surjective_pairing (resume_reading w)) at 1. by rewrite Hret.
Qed.

(** C10: Teardown.  When the loop runs [_call_connection_lost], the protocol
    hears about it once with the given exception, then, whatever that callback
    does or raises, the socket is closed, the server is told, and the
    transport has let go of socket, protocol, loop, server and write handler;
    the callback's outcome is the outcome of the call. *)
Theorem teardown_releases `{!LostLaws (E := E)} p exc (w : W) :
  _protocol (w_tr w) = Some p → _protocol_connected (w_tr w) = true →
  _sock (w_tr w) = true →
  let cb := p_connection_lost p exc (add_event (EvConnectionLost p exc) w) in
  let out := _call_connection_lost exc w in
  _empty_waiter (ext (w_tr cb.2)) = None →
  out.1 = cb.1 ∧
  w_trace out.2 = w_trace cb.2 ++ EvSockClose :: option_list (EvDetach <$> _server (w_tr cb.2)) ∧
  _sock (w_tr out.2) = false ∧ _loop (w_tr out.2) = false ∧
  _protocol (w_tr out.2) = None ∧ _server (w_tr out.2) = None ∧
  _write_ready (ext (w_tr out.2)) = None.
Proof.
  intros Hp Hconn Hs. cbv zeta. intros Hwait.
  set (cb := p_connection_lost p exc _) in *.
  assert (_sock (w_tr cb.2) = true) as Hs2 by (unfold cb; by rewrite ll_sock).
  destruct (release_open cb.2 Hs2) as (R1 & R2 & R3 & R4 & R5 & R6 & R7).
  assert (SelectorTransport._call_connection_lost exc w = (cb.1, (release cb.2).2)) as Hbase.
  { unfold SelectorTransport._call_connection_lost, try_finally.
    rewrite run_bind, run_self, Hconn. cbn [when_]. rewrite (run_protocol_call _ _ p) by done.
    fold cb. destruct cb as [r w1]. cbn [fst snd] in *. fold (release w1).
    change ((sock_call sys_close;; _) w1) with (release w1).
    destruct (release w1) as [r1 w2]. cbn in R1. by subst r1. }
  unfold _call_connection_lost, try_finally. rewrite Hbase.
  unfold put_ext. rewrite run_bind, run_put. cbv beta iota.
  unfold set_waiter_exception, get_ext. rewrite run_bind, run_self.
  set (w3 := set_tr _ _).
  assert (_empty_waiter (ext (w_tr w3)) = None) as ->
    by (unfold w3; simpl; by rewrite R6).
  simpl. by rewrite R2, R3, R4, R5, R7.
Qed.

(** The fast path of [write].  With nothing buffered and a kernel that
    accepts everything, [write] is one [send]: no state of the transport or the
    loop changes and nothing is buffered or registered. *)
Theorem write_direct d e' (w : W) :
  _eof (ext (w_tr w)) = false → _empty_waiter (ext (w_tr w)) = None → d ≠ [] →
  _conn_lost (w_tr w) = 0 → _buffer (w_tr w) = [] → _sock (w_tr w) = true →
  k_send (_sock_fd (w_tr w)) d (w_env w) = (Ret (length d), e') →
  write (BytesLike d) w = (Ret tt, add_event (EvSend d) (lset e' w)).
Proof.
  intros He Hw Hd Hc Hb Hs Hk. unfold write, get_ext.
  rewrite run_bind, run_self, He, run_bind, run_self, Hw. simpl.
  rewrite decide_False by done. rewrite run_bind, run_self, decide_False by lia.
  rewrite run_bind, run_self, Hb, run_bind. unfold try_else.
  rewrite run_sock_call by done. unfold sys_send, kernel, zoom. rewrite run_bind.
  change (lget w) with (w_env w). rewrite Hk. cbv beta iota.
  rewrite run_bind, run_log. cbv beta iota. rewrite run_ret. cbv beta iota.
  rewrite drop_all, firstn_all. by rewrite run_ret.
Qed.

(** The calls [write] and [writelines] refuse: not bytes, after
    [write_eof], during [sendfile]; the world is left as it was. *)
Theorem write_refused (w : W) :
  write NotBytes w =
    (Raise (TypeError "data argument must be a bytes, bytearray, or memoryview object"), w) ∧
  ∀ d l,
    if _eof (ext (w_tr w)) then
      write (BytesLike d) w = (Raise (RuntimeError "Cannot call write() after write_eof()"), w) ∧
      writelines l w = (Raise (RuntimeError "Cannot call writelines() after write_eof()"), w)
    else if bool_decide (is_Some (_empty_waiter (ext (w_tr w)))) then
      write (BytesLike d) w = (Raise (RuntimeError "unable to write; sendfile is in progress"), w) ∧
      writelines l w = (Raise (RuntimeError "unable to writelines; sendfile is in progress"), w)
    else d = [] → write (BytesLike d) w = (Ret tt, w) ∧ writelines [] w = (Ret tt, w).
Proof.
  split; [done|]. intros d l. unfold write, writelines, get_ext.
  rewrite !run_bind, !run_self. destruct (_eof _); [done|].
  rewrite !run_bind, !run_self. destruct (bool_decide _); [done|]. by intros ->.
Qed.

(** After the connection is lost [write] and [writelines] send nothing
    and buffer nothing; every call is counted, and from the fifth on a warning
    is given. *)
Theorem write_after_loss d l (w : W) :
  _eof (ext (w_tr w)) = false → _empty_waiter (ext (w_tr w)) = None →
  d ≠ [] → l ≠ [] → _conn_lost (w_tr w) ≠ 0 →
  let n := _conn_lost (w_tr w) in
  let w' := count_lost (if decide (5 ≤ n) then add_event EvWarning w else w) in
  write (BytesLike d) w = (Ret tt, w') ∧ writelines l w = (Ret tt, w').
Proof.
  intros He Hw Hd Hl Hn. cbv zeta. set (w' := count_lost _).
  assert (conn_lost_write w = (Ret tt, w')) as Hc.
  { unfold conn_lost_write, w', LOG_THRESHOLD_FOR_CONNLOST_WRITES.
    rewrite run_bind, run_self, run_bind. destruct (decide (5 ≤ _)) as [H5|H5].
    - rewrite (bool_decide_eq_true_2 _ H5). cbn [when_]. by rewrite run_log.
    - rewrite (bool_decide_eq_false_2 _ H5). cbn [when_]. by rewrite run_ret. }
  unfold write, writelines, get_ext.
  rewrite !run_bind, !run_self, He. rewrite !run_bind, !run_self, Hw.
  rewrite bool_decide_eq_false_2 by (by intros []).
  rewrite (decide_False (P := d = [])), (decide_False (P := l = [])) by done.
  rewrite !run_bind, !run_self. by rewrite !(decide_True (P := _ ≠ 0)).
Qed.

(** [_adjust_leftover_buffer] drops exactly the first [nbytes] bytes of
    the queued chunks, cutting at most one of them; it raises [IndexError],
    having emptied the queue, just when fewer bytes were queued. *)
Theorem adjust_leftover nbytes (w : W) :
  let out := _adjust_leftover_buffer nbytes w in
  if decide (nbytes ≤ length (concat (_buffer (w_tr w)))) then
    out.1 = Ret tt ∧
    concat (_buffer (w_tr out.2)) = drop nbytes (concat (_buffer (w_tr w))) ∧
    (∃ k c, _buffer (w_tr out.2) = c ++ drop k (_buffer (w_tr w)) ∧ length c ≤ 1)
  else out.1 = Raise IndexError ∧ _buffer (w_tr out.2) = [].
Proof.
  cbv zeta. unfold _adjust_leftover_buffer. rewrite run_bind, run_self. cbv beta iota.
  pose proof (adjust_loop_spec nbytes (_buffer (w_tr w))) as Hs.
  pose proof (adjust_loop_cut nbytes (_buffer (w_tr w))) as Hcut.
  destruct (adjust_loop _ _) as [buf|]; case_decide; try lia; [|done].
  destruct Hs as [_ Hs]. split_and!; [done|done|]. by apply Hcut.
Qed.

(** C11: A write-ready event that flushes everything: one [sendmsg] of the
    whole buffer, the writer removed, and then what was waiting for the last
    byte happens: teardown of a closing transport, or the half-close that
    [write_eof] asked for. *)
Theorem write_ready_completes e' (w : W) :
  let buf := _buffer (w_tr w) in
  _conn_lost (w_tr w) = 0 → buf ≠ [] → Forall (λ b, b ≠ []) buf → length buf ≤ SC_IOV_MAX →
  _sock (w_tr w) = true → _loop (w_tr w) = true → _protocol_paused (w_tr w) = false →
  _empty_waiter (ext (w_tr w)) = None →
  k_sendmsg (_sock_fd (w_tr w)) buf (w_env w) = (Ret (length (concat buf)), e') →
  let w1 := unregister false (update (set_buffer [])
              (add_event (EvSend (concat buf)) (lset e' w))) in
  _write_sendmsg w =
    if _closing (w_tr w) then _call_connection_lost None w1
    else if _eof (ext (w_tr w)) then shutdown_wr w1 else (Ret tt, w1).
Proof.
  cbv zeta. intros Hc Hne Hall Hiov Hs Hl Hp Hw Hk. unfold _write_sendmsg.
  rewrite run_bind, run_self. destruct (_buffer (w_tr w)) as [|b0 rest] eqn:Hb; [done|].
  rewrite run_bind, run_self, decide_False by lia. rewrite run_bind, run_self.
  unfold _get_sendmsg_buffer. rewrite Hb, firstn_all2 by done.
  unfold try_else. rewrite run_bind, run_sock_call by done.
  unfold sys_sendmsg, kernel, zoom. rewrite run_bind.
  change (lget w) with (w_env w). rewrite Hk. cbv beta iota.
  rewrite run_bind, run_log, run_ret. cbv beta iota. rewrite firstn_all.
  unfold _adjust_leftover_buffer. rewrite run_bind, run_self.
  change (_buffer (w_tr (add_event _ _))) with (_buffer (w_tr w)).
  rewrite Hb, adjust_loop_all, run_put by done. cbv beta iota.
  set (w2 := set_tr _ _). unfold write_progress, _maybe_resume_protocol.
  rewrite run_bind, run_bind, run_self.
  change (_protocol_paused (id (w_tr w2))) with (_protocol_paused (w_tr w)).
  rewrite Hp. cbn [andb]. rewrite run_ret. cbv beta iota.
  rewrite run_bind, run_self. change (_buffer (w_tr w2)) with (@nil bytes). cbv beta iota.
  rewrite run_bind, run_remove_writer by done. cbv beta iota.
  change (update (set_buffer []) (add_event (EvSend (concat (b0 :: rest))) (lset e' w))) with w2.
  set (w3 := unregister false w2).
  assert (w_tr w3 = w_tr w2) as Ht by apply unregister_frame.
  assert (_empty_waiter (ext (w_tr w3)) = None) as Hw3 by (rewrite Ht; exact Hw).
  unfold get_ext. rewrite run_bind, run_self, Hw3, run_bind, run_ret. cbv beta iota.
  unfold write_finished, get_ext. rewrite run_bind, run_self, run_bind, run_self, Ht.
  change (_closing (w_tr w2)) with (_closing (w_tr w)).
  change (_eof (ext (w_tr w2))) with (_eof (ext (w_tr w))).
  by destruct (_closing (w_tr w)), (_eof (ext (w_tr w))).
Qed.

(** Replacing the protocol of a reading transport by one of the other
    kind ([BufferedProtocol] or not) re-registers the reader: the new watcher
    of the fd serves the mode the new protocol needs, and the old one is
    gone. *)
Theorem set_protocol_switches p e' (w : W) :
  let kind := if is_BufferedProtocol p then None else Some Tcp in
  _drain_kind (w_tr w) ≠ kind → is_reading (w_tr w) = true →
  _loop (w_tr w) = true → closed (w_loop w) = false → wf (reactor (w_loop w)) →
  _is_polling (_sock_fd (w_tr w)) false (w_loop w) = true →
  (0 ≤ _sock_fd (w_tr w))%Z → k_dup (_sock_fd (w_tr w)) (w_env w) = (Ret tt, e') →
  let out := set_protocol p w in
  out.1 = Ret tt ∧ _protocol (w_tr out.2) = Some p ∧ _drain_kind (w_tr out.2) = kind ∧
  ∃ sl f, watched out.2 true = Some sl ∧
    slots (reactor (w_loop out.2)) !! sl = Some (reader_slot kind f) ∧
    watched w true ≠ Some sl.
Proof.
  cbv zeta. intros Hk Hr Hl Hc Hwf Hpoll Hfd Hdup.
  set (kind := if is_BufferedProtocol p then None else Some Tcp) in *.
  unfold is_reading, is_closing in Hr. apply andb_true_iff in Hr as [Hncl Hnp].
  apply negb_true_iff in Hncl, Hnp.
  unfold set_protocol, set_protocol_, put_ext. rewrite run_bind, run_put. cbv beta iota zeta.
  rewrite run_bind, run_self. cbn [w_tr set_tr]. cbv beta iota. fold kind. rewrite run_bind.
  rewrite decide_True by (by intros ?). rewrite run_bind, run_put. cbv beta iota.
  set (w1 := set_tr _ (set_tr _ w)).
  unfold loop_get. do 6 rewrite run_bind, ?run_self, ?run_gets. cbv beta iota.
  change (_loop (w_tr w1)) with (_loop (w_tr w)). change (lget w1) with (w_loop w).
  change (_closing (w_tr w1)) with (_closing (w_tr w)).
  change (_paused (w_tr w1)) with (_paused (w_tr w)).
  change (_sock_fd (w_tr w1)) with (_sock_fd (w_tr w)).
  rewrite Hl, Hc, Hncl, Hnp, Hpoll. cbn [andb negb when_].
  rewrite run_bind, run_remove_reader by done. cbv beta iota.
  destruct (unregister_frame true w1) as (H1 & _ & _ & H4).
  set (w2 := unregister true w1) in *.
  assert (wf (reactor (w_loop w2))) as Hwf2 by by apply unregister_wf.
  assert (w_env w2 = w_env w) as Henv by exact (unregister_env true w1).
  rewrite (register_reader_run e'); rewrite ?H1, ?H4, ?Henv; try done;
    [|unfold is_reading, is_closing; simpl; by rewrite Hncl, Hnp].
  unfold SelectorTransport.set_protocol. rewrite run_bind, run_put, run_put. cbn [fst snd].
  destruct (install_slot (_sock_fd (w_tr w1)) true (reader_slot (_drain_kind (w_tr w1))) _ Hwf2)
    as (Hslot & _ & _).
  split_and!; try done.
  exists (S (next_id (reactor (w_loop w2)))), (next_id (reactor (w_loop w2))). split_and!.
  - etrans; [apply (install_registered (reader_slot (_drain_kind (w_tr w1)))
      (_sock_fd (w_tr w1)) true)|]. by rewrite decide_True.
  - exact Hslot.
  - intros Hold. destruct (wf_live _ Hwf _ _ _ Hold) as (s & f & Hs & _).
    pose proof (fresh_slot _ (wf_heap _ Hwf) _ (mk_is_Some _ _ Hs)) as Hf.
    unfold w2 in Hf. rewrite unregister_next in Hf. simpl in Hf. lia.
Qed.

(** On a paused transport [set_protocol] only records the new mode: the
    watcher of the old mode stays, and [resume_reading], finding the fd
    polled, keeps it.  The transport then reads in a mode its protocol is not
    served by. *)
Theorem set_protocol_paused_keeps_mode p (w : W) :
  let kind := if is_BufferedProtocol p then None else Some Tcp in
  _paused (w_tr w) = true → _closing (w_tr w) = false → _loop (w_tr w) = true →
  _replay (w_tr w) = [] → _is_polling (_sock_fd (w_tr w)) false (w_loop w) = true →
  let w1 := (set_protocol p w).2 in
  let w2 := (resume_reading w1).2 in
  _drain_kind (w_tr w2) = kind ∧ _paused (w_tr w2) = false ∧ w_loop w2 = w_loop w.
Proof.
  cbv zeta. intros Hp Hc Hl Hrep Hpoll.
  set (kind := if is_BufferedProtocol p then None else Some Tcp) in *.
  assert (∃ w1, set_protocol p w = (Ret tt, w1) ∧ _paused (w_tr w1) = true ∧
    _closing (w_tr w1) = false ∧ _loop (w_tr w1) = true ∧ _replay (w_tr w1) = [] ∧
    _sock_fd (w_tr w1) = _sock_fd (w_tr w) ∧ w_loop w1 = w_loop w ∧
    _drain_kind (w_tr w1) = kind) as (w1 & -> & Hp1 & Hc1 & Hl1 & Hr1 & Hf1 & Hlp & Hk1).
  { unfold set_protocol, set_protocol_, put_ext. rewrite run_bind, run_put. cbv beta iota zeta.
    rewrite run_bind, run_self. cbn [w_tr set_tr]. cbv beta iota. fold kind. rewrite run_bind.
    destruct (decide (kind ≠ _)) as [Hd|Hd].
    - rewrite run_bind, run_put. unfold loop_get.
      do 6 rewrite run_bind, ?run_self, ?run_gets. cbv beta iota. simpl.
      rewrite Hp. cbn [negb]. rewrite !andb_false_r. cbn [andb when_]. by eexists.
    - rewrite run_ret. eexists. split; [done|]. split_and!; try done. simpl.
      destruct (decide (kind = _drain_kind (w_tr w))); [done|tauto]. }
  cbn [snd]. unfold resume_reading.
  rewrite run_bind, run_self, run_bind, run_self, Hc1, Hp1. cbn [orb negb].
  rewrite run_bind, run_put, run_bind. cbv beta iota. set (w2 := set_tr _ w1).
  unfold _flush_replay. rewrite run_bind, run_self.
  change (_replay (w_tr w2)) with (_replay (w_tr w1)). rewrite Hr1. cbn [length flush_loop].
  rewrite run_ret, run_bind, run_self, run_bind, run_self.
  change (_closing (w_tr w2)) with (_closing (w_tr w1)).
  change (_paused (w_tr w2)) with false. rewrite Hc1. cbn [orb].
  rewrite run_bind, run_self, run_bind, run_loop_call by done.
  unfold loop_get. rewrite run_gets. change (lget w2) with (w_loop w1).
  change (_sock_fd (w_tr w2)) with (_sock_fd (w_tr w1)). rewrite Hlp, Hf1, Hpoll.
  cbn [negb when_]. rewrite run_bind, run_ret, run_debug_log by done. done.
Qed.

(** [_write_send] (the write handler without [sendmsg]) takes the first
    chunk off the buffer before it sends: when the kernel is not ready, the
    chunk is gone. *)
Theorem write_send_blocked_drops b rest e e' (w : W) :
  _buffer (w_tr w) = b :: rest → _conn_lost (w_tr w) = 0 → _sock (w_tr w) = true →
  k_send (_sock_fd (w_tr w)) b (w_env w) = (Raise e, e') → try_again e = true →
  let out := _write_send w in
  out.1 = Ret tt ∧ _buffer (w_tr out.2) = rest ∧
  outgoing w = sent (w_trace w) ++ b ++ concat rest ∧
  outgoing out.2 = sent (w_trace w) ++ concat rest.
Proof.
  cbv zeta. intros Hb Hc Hs Hk He. unfold _write_send. rewrite run_bind, run_self, Hb.
  rewrite run_bind, run_self, decide_False by lia. unfold try_else.
  rewrite run_bind, run_put. cbv beta iota. rewrite run_bind, run_sock_call by done.
  unfold sys_send, kernel, zoom. rewrite run_bind. set (w1 := set_tr _ w).
  change (_sock_fd (w_tr w1)) with (_sock_fd (w_tr w)).
  change (lget w1) with (w_env w). rewrite Hk. unfold except_io. rewrite He.
  unfold outgoing. rewrite Hb. done.
Qed.

(** A buffered empty chunk never leaves: the write-ready event sends
    nothing, and neither removes the writer nor finishes a closing
    transport. *)
Theorem empty_chunk_stays e' (w : W) :
  _buffer (w_tr w) = [[]] → _conn_lost (w_tr w) = 0 → _sock (w_tr w) = true →
  _protocol_paused (w_tr w) = false → SC_IOV_MAX ≠ 0 →
  k_sendmsg (_sock_fd (w_tr w)) [[]] (w_env w) = (Ret 0, e') →
  _write_sendmsg w = (Ret tt, add_event (EvSend []) (lset e' w)).
Proof.
  intros Hb Hc Hs Hp Hiov Hk. unfold _write_sendmsg. rewrite run_bind, run_self, Hb.
  rewrite run_bind, run_self, decide_False by lia. rewrite run_bind, run_self.
  unfold _get_sendmsg_buffer. rewrite Hb, firstn_all2 by (simpl; lia).
  unfold try_else. rewrite run_bind, run_sock_call by done.
  unfold sys_sendmsg, kernel, zoom. rewrite run_bind.
  change (lget w) with (w_env w). rewrite Hk. cbv beta iota.
  rewrite run_bind, run_log, run_ret. cbv beta iota.
  unfold _adjust_leftover_buffer. rewrite run_bind, run_self.
  change (_buffer (w_tr (add_event _ _))) with (_buffer (w_tr w)). rewrite Hb. cbn [adjust_loop].
  rewrite run_put. cbv beta iota. set (w1 := set_tr _ _).
  assert (w1 = add_event (EvSend []) (lset e' w)) as ->.
  { unfold w1, add_event, set_tr. simpl. f_equal. destruct (w_tr w). simpl in Hb. by subst. }
  unfold write_progress, _maybe_resume_protocol. rewrite run_bind, run_bind, run_self.
  change (_protocol_paused (id (w_tr (add_event _ _)))) with (_protocol_paused (w_tr w)).
  rewrite Hp. cbn [andb]. rewrite run_ret, run_bind, run_self.
  change (_buffer (w_tr (add_event _ _))) with (_buffer (w_tr w)). by rewrite Hb.
Qed.
End props.

(** ** Instances *)

(** On the kernel [script_kernel true]; callbacks call back into the transport
    down to depth 2. *)
#[local] Instance demo_protocol : Protocol demo_world := scripted demo_kernel pausing_script 2.

(** The protocol pauses on the first chunk, so the second and the end of file
    are stored; resuming delivers them and the protocol answers. *)
Definition delivery_history : list step :=
  [Arrive (RData a_bytes None); Arrive (RData b_bytes None); Arrive (RData c_bytes None);
   Call ApiResumeReading].

Lemma stream_delivery_order_witness :
  is_dead (w_tr (run_steps delivery_history (start_world []))) = false ∧
  omap delivery (w_trace (run_steps delivery_history (start_world []))) =
    [RData a_bytes None; RData b_bytes None; RData c_bytes None].
Proof.
  split; [vm_compute; reflexivity|].
  apply (stream_delivery_order delivery_history (start_world []));
    [right; reflexivity|split; [reflexivity|split; [reflexivity|eexists; reflexivity]]
    |vm_compute; reflexivity|vm_compute; reflexivity].
Defined.

(** Three writes against a kernel that takes one byte, blocks, then takes two
    bytes of what is queued: the rest is buffered in order. *)
Definition write_history : list wstep :=
  [WCall (ApiWrite (BytesLike b_bytes)); WCall (ApiWrite (BytesLike a_bytes));
   WFire (FireCallback CbWriteSendmsg); WFire (FireCallback CbWriteSendmsg);
   WCall (ApiWritelines [c_bytes]); WCall (ApiWrite NotBytes)].
Definition write_env : script_env := [AnsN 1; AnsErr (OSError EAGAIN); AnsN 1; AnsN 2].

Lemma stream_write_order_witness :
  let w' := (run_wsteps (Protocol0 := silent) write_history (start_world write_env)).2 in
  sent (w_trace w') = b_bytes ++ a_bytes ++ [x64] ∧
  ∃ ds, outgoing w' = concat ds ∧ concat ds = b_bytes ++ a_bytes ++ c_bytes.
Proof.
  split; [vm_compute; reflexivity|].
  destruct (stream_write_order (Protocol0 := silent) write_history (start_world write_env))
    as (ds & _ & Hds); [repeat constructor; discriminate|discriminate|vm_compute; reflexivity|].
  exists ds. split; [exact Hds|]. rewrite <- (app_nil_l (concat ds)).
  etrans; [symmetry; exact Hds|]. vm_compute; reflexivity.
Defined.

(** The starting world with other attributes. *)
Definition tweak (f : transport bytes stream → transport bytes stream) (env : script_env) :
    demo_world :=
  update f (start_world env).

Definition small_marks (t : transport bytes stream) : transport bytes stream :=
  MkTransport bytes stream (_sock t) (_sock_fd t) (_loop t) (_protocol t) (_protocol_connected t)
    (_server t) (_peername t) (_sockname t) (_buffer t) (_conn_lost t) (_closing t) (_paused t)
    (_replay t) (_drain_kind t) (_protocol_paused t) 2 1 (ext t).

(** Two rounds of filling the buffer above the mark and draining it. *)
Definition flow_history : list wstep :=
  [WCall (ApiWrite (BytesLike c_bytes)); WFire (FireCallback CbWriteSendmsg);
   WCall (ApiWrite (BytesLike c_bytes)); WCall (ApiWrite (BytesLike a_bytes));
   WFire (FireCallback CbWriteSendmsg)].
Definition flow_env : script_env :=
  [AnsErr (OSError EAGAIN); AnsN 3; AnsErr (OSError EAGAIN); AnsN 2].

Lemma flow_control_alternates_witness :
  omap flow_event (w_trace (run_wsteps flow_history (tweak small_marks flow_env)).2) =
    [true; false; true] ∧
  flow_ok (run_wsteps flow_history (tweak small_marks flow_env)).2.
Proof.
  split; [vm_compute; reflexivity|].
  apply (flow_control_alternates flow_history (tweak small_marks flow_env));
    [exists 0; reflexivity|eexists; reflexivity|vm_compute; reflexivity].
Defined.

Lemma pausing_keeps_protocol ev a :
  a ∈ r_calls (pausing_script ev) → sets_protocol (WCall a) = false.
Proof.
  destruct ev; simpl; repeat case_decide; simpl; intros Ha;
    repeat apply elem_of_cons in Ha as [->|Ha]; try done; by apply elem_of_nil in Ha.
Qed.
Lemma demo_lost_laws : @LostLaws script_env demo_kernel (scripted demo_kernel pausing_script 2).
Proof. apply scripted_lost_laws; [done|apply pausing_keeps_protocol]. Qed.

(** A pending write, [close], [abort], a late write-ready event, and the
    scheduled teardown, twice. *)
Definition lost_history : list wstep :=
  [WCall (ApiWrite (BytesLike c_bytes)); WCall ApiClose; WCall ApiAbort;
   WFire (FireCallback CbWriteSendmsg);
   WFire (FireCallback (CbCallConnectionLost None));
   WFire (FireCallback (CbCallConnectionLost None)); WCall ApiAbort].

Lemma connection_lost_once_witness :
  let w' := (run_wsteps lost_history (start_world [AnsErr (OSError EAGAIN)])).2 in
  lost_count w' = 1 ∧ lost_count w' ≤ 1.
Proof.
  split; [vm_compute; reflexivity|].
  apply (@connection_lost_once _ _ _ demo_lost_laws).
  - left. split; reflexivity.
  - repeat constructor.
Defined.

Lemma force_close_once_witness :
  let w' := (_force_close (Some (OSError 32)) (tweak (set_buffer [c_bytes]) [])).2 in
  _buffer (w_tr w') = [] ∧
  re_callback <$> ready (w_loop w') = [CbCallConnectionLost (Some (OSError 32))].
Proof.
  destruct (force_close_once (Some (OSError 32)) (tweak (set_buffer [c_bytes]) []) eq_refl eq_refl)
    as (_ & Hb & _ & _ & _ & Hr).
  split; [exact Hb|exact Hr].
Defined.

Lemma close_graceful_witness :
  let w' := (close (tweak (set_buffer [c_bytes]) [])).2 in
  _buffer (w_tr w') = [c_bytes] ∧ watched w' true = None ∧ ready (w_loop w') = [].
Proof.
  destruct (close_graceful (tweak (set_buffer [c_bytes]) []) eq_refl eq_refl)
    as (_ & _ & Hb & _ & Hr & _ & _ & Hq).
  split; [exact Hb|]. split; [exact Hr|exact Hq].
Defined.

(** Paused with two items stored. *)
Definition paused_world : demo_world :=
  tweak (λ t, set_replay [RData b_bytes None; RData c_bytes None] (set_paused true t)) [].

Lemma resume_reading_settles_witness :
  omap delivery (w_trace (resume_reading paused_world).2) = [RData b_bytes None; RData c_bytes None] ∧
  is_Some (watched (resume_reading paused_world).2 true).
Proof.
  destruct (resume_reading_settles paused_world) as [Hd|(Hr & [Hp|[Hdel Hw]])].
  - split; [reflexivity|split; [reflexivity|eexists; reflexivity]].
  - reflexivity.
  - vm_compute in Hd. discriminate.
  - vm_compute in Hp. discriminate.
  - split; [exact Hdel|]. apply Hw. vm_compute. reflexivity.
Defined.

Lemma teardown_releases_witness :
  let w := tweak (set_server (Some 3)) [] in
  w_trace (_call_connection_lost None w).2 =
    [EvConnectionLost (MkProto 1 false) None; EvSockClose; EvDetach 3].
Proof.
  destruct (@teardown_releases _ _ _ demo_lost_laws (MkProto 1 false) None
    (tweak (set_server (Some 3)) []) eq_refl eq_refl eq_refl eq_refl) as (_ & Ht & _).
  exact Ht.
Defined.

Lemma write_direct_witness :
  write (BytesLike c_bytes) (start_world [AnsN 3]) =
    (Ret tt, add_event (EvSend c_bytes) (start_world [])).
Proof.
  apply (write_direct c_bytes [] (start_world [AnsN 3])); try reflexivity. discriminate.
Defined.

Lemma write_after_loss_witness :
  (write (BytesLike c_bytes) (tweak (set_conn_lost 5) [])).1 = Ret tt ∧
  w_trace (write (BytesLike c_bytes) (tweak (set_conn_lost 5) [])).2 = [EvWarning].
Proof.
  destruct (write_after_loss c_bytes [c_bytes] (tweak (set_conn_lost 5) [])) as [H _];
    [reflexivity|reflexivity|discriminate|discriminate|discriminate|].
  rewrite H. split; reflexivity.
Defined.

(** A closing transport whose buffer of two chunks is accepted at once. *)
Definition closing_world : demo_world :=
  tweak (λ t, set_closing true (set_buffer [b_bytes; c_bytes] t)) [AnsN 5].

Lemma write_ready_completes_witness :
  _write_sendmsg closing_world = _call_connection_lost None
    (unregister false (update (set_buffer [])
       (add_event (EvSend (concat (_buffer (w_tr closing_world)))) (lset (S:=script_env) [] closing_world)))).
Proof.
  pose proof (write_ready_completes [] closing_world) as H. cbv zeta in H.
  rewrite (eq_refl : _closing (w_tr closing_world) = true) in H.
  apply H; try reflexivity.
  - discriminate.
  - repeat constructor; discriminate.
  - apply Nat.leb_le. reflexivity.
Defined.

Definition polled_world : demo_world := (_register_reader (start_world [])).2.

Lemma polled_wf : wf (reactor (w_loop polled_world)).
Proof.
  unfold polled_world. rewrite (register_reader_run []) by done. apply install_wf; try done.
  - intros f. right. by eexists.
  - apply empty_wf.
Qed.

Lemma set_protocol_switches_witness :
  let w' := (set_protocol (MkProto 2 true) polled_world).2 in
  _drain_kind (w_tr w') = None ∧
  ∃ sl f, watched w' true = Some sl ∧ slots (reactor (w_loop w')) !! sl = Some (reader_slot None f).
Proof.
  destruct (set_protocol_switches (MkProto 2 true) [] polled_world) as (_ & _ & Hk & sl & f & H1 & H2 & _);
    try reflexivity; [discriminate|apply polled_wf|discriminate|].
  split; [exact Hk|]. exists sl, f. split; [exact H1|exact H2].
Defined.

Lemma set_protocol_paused_keeps_mode_witness :
  let w := update (set_paused true) polled_world in
  let w2 := (resume_reading (set_protocol (MkProto 2 true) w).2).2 in
  _drain_kind (w_tr w2) = None ∧ w_loop w2 = w_loop polled_world.
Proof.
  destruct (set_protocol_paused_keeps_mode (MkProto 2 true) (update (set_paused true) polled_world))
    as (Hk & _ & Hl); try reflexivity.
  split; [exact Hk|exact Hl].
Defined.

Lemma write_send_blocked_drops_witness :
  let w := tweak (set_buffer [b_bytes; c_bytes]) [AnsErr (OSError EAGAIN)] in
  outgoing w = b_bytes ++ c_bytes ∧ outgoing (_write_send w).2 = c_bytes.
Proof.
  destruct (write_send_blocked_drops b_bytes [c_bytes] (OSError EAGAIN) []
    (tweak (set_buffer [b_bytes; c_bytes]) [AnsErr (OSError EAGAIN)])) as (_ & _ & H1 & H2);
    try reflexivity.
  split; [exact H1|exact H2].
Defined.

Lemma empty_chunk_stays_witness :
  let w := tweak (λ t, set_closing true (set_buffer [[]] t)) [AnsN 0] in
  _buffer (w_tr (_write_sendmsg w).2) = [[]].
Proof.
  cbv zeta. rewrite (empty_chunk_stays []); try reflexivity. discriminate.
Defined.
