(* ===== verification/DatagramTransport.v ===== *)
(** * [_SelectorDatagramTransport] (python/tokioop/transports.py, lines 613-733)

    The datagram transport: drain-mode delivery and the queue of datagrams that
    could not be sent at once. *)

From Stdlib Require Import Strings.Byte.
From stdpp Require Import base tactics list gmap strings.
From S2P Require Import Prelude State Reactor Env Loop.
From S2P Require Import SelectorTransport.

(** ** State *)

(** An element of [_buffer]. *)
Abbreviation datagram := (bytes * option addr)%type.

(** The attributes the subclass adds. *)
Record dgram := MkDgram {
  _address : option addr;
  _buffer_size : Z;
}.

Definition _header_size : Z := 8.

Definition add_size (n : Z) (x : dgram) : dgram := MkDgram (_address x) (_buffer_size x + n).

(** What a queued datagram counts for. *)
Definition dgram_cost (data : bytes) : Z := (Z.of_nat (length data) + _header_size)%Z.

Section datagram.
Context {E : Type} `{!Kernel E} `{!Protocol (world E datagram dgram)}.
Local Abbreviation W := (world E datagram dgram).

Definition add_to_size (n : Z) : M W unit :=
  put (λ t, set_ext (add_size n (ext t)) t).

(** *** Delivery *)

Definition _deliver_datagram (data : bytes) (a : addr) : M W unit :=
  try_except (protocol_call (λ p, EvDatagramReceived p data a)
                (λ p, p_datagram_received p data a))
    (except_cb _fatal_error).

(** No [try] here: what [error_received] raises goes to the caller. *)
Definition deliver_error_ (exc : exn) : M W unit :=
  protocol_call (λ p, EvErrorReceived p exc) (λ p, p_error_received p exc).

Definition dgram_run_replay (i : replay_item) : M W unit :=
  match i with
  | RData data a => _deliver_datagram data (default AUnnamed a)
  | RError exc => deliver_error_ exc
  end.

#[export] Instance datagram_class : TransportClass E datagram dgram := {|
  get_write_buffer_size t := Z.to_nat (_buffer_size (ext t));
  run_replay := dgram_run_replay |}.

Definition _drain_datagram (data : bytes) (a : addr) : M W unit :=
  drain_guarded (RData data (Some a)).
Definition drain_error_ (exc : exn) : M W unit := drain_guarded (RError exc).

(** *** Sending *)

(** [if self._extra["peername"]: self._sock.send(data)
     else: self._sock.sendto(data, addr)]; a datagram is accepted whole. *)
Definition send_datagram (data : bytes) (a : option addr) : M W unit :=
  peer ← self _peername;
  sock_call (λ fd,
    (if addr_truthy peer then kernel (k_send fd data) else kernel (k_sendto fd data a));;
    log (EvSendto data (if addr_truthy peer then None else a))).

Definition append_datagram (data : bytes) (a : option addr) : M W unit :=
  put (λ t, set_buffer (_buffer t ++ [(data, a)]) t);;
  add_to_size (dgram_cost data);;
  _maybe_pause_protocol.

(** The clauses after a blocked send:
    [except OSError: self._protocol.error_received(exc)], [except (SystemExit,
    KeyboardInterrupt): raise], [except BaseException: self._fatal_error]. *)
Definition send_failed (exc : exn) : M W unit :=
  if is_OSError exc then deliver_error_ exc
  else if is_exit exc then raise exc
  else _fatal_error exc.

Definition sendto (arg : write_arg) (a : option addr) : M W unit :=
  match arg with
  | NotBytes => raise (TypeError "data argument must be a bytes-like object")
  | BytesLike data =>
      address ← self (λ t, _address (ext t));
      if addr_truthy address && negb (bool_decide (a = None ∨ a = address))
      then raise (ValueError "Invalid address: must be None or the remote address") else
      let a := if addr_truthy address then address else a in
      lost ← self _conn_lost;
      if bool_decide (lost ≠ 0) && addr_truthy address then
        when_ (bool_decide (LOG_THRESHOLD_FOR_CONNLOST_WRITES ≤ lost)) (log EvWarning);;
        incr_conn_lost
      else
        buffer ← self _buffer;
        match buffer with
        | _ :: _ => append_datagram data a
        | [] =>
            try_else (send_datagram data a)
              (λ exc,
                if try_again exc then
                  loop_add_writer CbSendtoReady;; append_datagram data a
                else send_failed exc)
              (λ _, mret tt)
        end
  end.

(** The loop of [_sendto_ready], [n] bounding the iterations; [true] means the
    method goes on after the loop. *)
Fixpoint sendto_loop (n : nat) : M W bool :=
  match n with
  | 0 => mret true
  | S n =>
      buffer ← self _buffer;
      match buffer with
      | [] => mret true
      | (data, a) :: rest =>
          put (set_buffer rest);;
          add_to_size (- dgram_cost data);;
          try_else (send_datagram data a)
            (λ exc,
              if try_again exc then
                put (λ t, set_buffer ((data, a) :: _buffer t) t);;
                add_to_size (dgram_cost data);;
                mret true
              else send_failed exc;; mret false)
            (λ _, sendto_loop n)
      end
  end.

Definition _sendto_ready : M W unit :=
  n ← self (λ t, length (_buffer t));
  go ← sendto_loop n;
  if negb go then mret tt else
  _maybe_resume_protocol;;
  buffer ← self _buffer;
  match buffer with
  | _ :: _ => mret tt
  | [] =>
      loop_remove_writer;;
      closing ← self _closing;
      when_ closing (_call_connection_lost None)
  end.

(** *** Construction *)

Definition dgram_init (sock : Z) (protocol : proto) (address : option addr)
    (waiter : option fut_id) (extra : option addr) : M W unit :=
  put (λ _, new_transport (Some Udp) (MkDgram None 0));;
  __init__ set_protocol sock protocol extra None;;
  put (λ t, set_ext (MkDgram address 0) t);;
  call_soon_connection_made;;
  loop_call_soon CbRegisterReader;;
  match waiter with
  | Some f => loop_call_soon (CbSetResultUnlessCancelled f)
  | None => mret tt
  end.

(** *** What the application calls and the loop runs *)

Inductive dgram_api :=
  | DgPauseReading
  | DgResumeReading
  | DgClose
  | DgAbort
  | DgSendto (arg : write_arg) (a : option addr).

Definition run_dgram_api (a : dgram_api) : M W unit :=
  match a with
  | DgPauseReading => pause_reading
  | DgResumeReading => resume_reading
  | DgClose => close
  | DgAbort => abort
  | DgSendto arg a => sendto arg a
  end.

Inductive dgram_firing :=
  | FireSendtoReady
  | FireDatagram (payload : bytes) (a : addr)
  | FireDgramError (e : exn)
  | FireDgramLost (exc : option exn)
  | FireDgramRegister.

Definition run_dgram_firing (f : dgram_firing) : M W unit :=
  match f with
  | FireSendtoReady => _sendto_ready
  | FireDatagram payload a => _drain_datagram payload a
  | FireDgramError e => drain_error_ e
  | FireDgramLost exc => _call_connection_lost exc
  | FireDgramRegister => _register_reader
  end.
End datagram.
