(* ===== verification/DatagramProps.v ===== *)
(** * The datagram transport: what it promises

    Order of delivery, the queue of unsent datagrams against a reference
    definition, and the accounting of [_buffer_size]. *)

From Stdlib Require Import Strings.Byte.
From stdpp Require Import base tactics list gmap strings.
From S2P Require Import Prelude State Reactor Env Loop.
From S2P Require Import SelectorTransport Reads DatagramTransport Script.

(** A datagram transport shows its payloads with their address. *)
#[export] Instance dgram_shown : Shown dgram := λ i,
  match i with RData d a => Some (RData d (Some (default AUnnamed a))) | RError _ => None end.

(** ** Delivery *)

Section delivery.
Context {E : Type} `{!Kernel E} `{!Protocol (world E datagram dgram)}.
Local Abbreviation W := (world E datagram dgram).

(** The application's callbacks: they reach the transport through its methods,
    [datagram_received] does not raise [SystemExit] or [KeyboardInterrupt],
    and [error_received], which is called without protection, raises nothing. *)
Class DatagramLaws : Prop := {
  dl_obeys :: Obeys (Rio (E := E) (B := datagram) (X := dgram));
  dl_exit p d a (w : W) e : (p_datagram_received p d a w).1 = Raise e → is_exit e = false;
  dl_error p e (w : W) : (p_error_received p e w).1 = Ret tt;
}.
Context `{!DatagramLaws}.

#[export] Instance datagram_replay_laws :
  ReplayLaws (E := E) (B := datagram) (X := dgram).
Proof.
  split. intros i w Ha. destruct i as [d a|e].
  - apply (read_callback_spec (λ p, EvDatagramReceived p d (default AUnnamed a)) _ mret).
    + done.
    + intros p. apply ob_datagram_received.
    + intros p w1 e. apply dl_exit.
    + intros []. moves_auto.
    + intros []. by left.
    + done.
  - pose proof Ha as [Hd [Hl [p Hp]]]. simpl. unfold deliver_error_.
    rewrite (run_protocol_call _ _ p) by done.
    set (w1 := add_event (EvErrorReceived p e) w). assert (alive w1) as Ha1 by done.
    pose proof (ob_error_received p e w1) as Hr. pose proof (dl_error p e w1) as Hret.
    destruct (Rio_alive _ _ Hr Ha1) as [?|(? & Hrec & ?)]; [by left|right].
    split_and!; try done. rewrite Hrec. unfold received; simpl.
    by rewrite omap_app, <- app_assoc.
Qed.

(** *** The methods move along [Rio] *)

Lemma rio_add_to_size n : moves Rio (add_to_size (E := E) n).
Proof. by apply rio_put_view. Qed.
#[local] Hint Resolve rio_add_to_size : moves.
Lemma rio_append_datagram d a : moves Rio (append_datagram (E := E) d a).
Proof. unfold append_datagram. moves_auto. Qed.
Lemma rio_send_datagram d a : moves Rio (send_datagram (E := E) d a).
Proof. unfold send_datagram. moves_auto. Qed.
Lemma rio_deliver_error e : moves Rio (deliver_error_ (E := E) e).
Proof. unfold deliver_error_. moves_auto. Qed.
#[local] Hint Resolve rio_append_datagram rio_send_datagram rio_deliver_error : moves.
Lemma rio_send_failed e : moves Rio (send_failed (E := E) e).
Proof. unfold send_failed. moves_auto. Qed.
#[local] Hint Resolve rio_send_failed : moves.
Lemma rio_sendto a d : moves Rio (sendto (E := E) a d).
Proof. unfold sendto. moves_auto. Qed.
Lemma rio_sendto_loop n : moves Rio (sendto_loop (E := E) n).
Proof. induction n; cbn [sendto_loop]; moves_auto. Qed.
#[local] Hint Resolve rio_sendto rio_sendto_loop : moves.
Lemma rio_finish_closing :
  moves Rio (closing ← self (E := E) _closing;
             when_ closing (_call_connection_lost None) : M W unit).
Proof.
  intros w. rewrite run_bind, run_self.
  destruct (_closing (w_tr w)) eqn:Hc; cbn [when_]; [|done].
  apply Rio_dead, base_connection_lost_stays_dead. unfold is_dead. by rewrite Hc, orb_true_r.
Qed.
#[local] Hint Resolve rio_finish_closing : moves.
Lemma rio_sendto_ready : moves Rio (_sendto_ready (E := E)).
Proof. unfold _sendto_ready. moves_auto. Qed.

Lemma rio_run_dgram_api a : moves Rio (run_dgram_api (E := E) a).
Proof. destruct a; simpl; unfold abort; moves_auto. Qed.

(** *** Histories *)

Inductive dg_step :=
  | DgArrive (payload : bytes) (a : addr)
  | DgError (e : exn)
  | DgSendReady
  | DgCall (a : dgram_api).

Definition run_dg_step (s : dg_step) : M W unit :=
  match s with
  | DgArrive d a => run_dgram_firing (FireDatagram d a)
  | DgError e => run_dgram_firing (FireDgramError e)
  | DgSendReady => run_dgram_firing FireSendtoReady
  | DgCall a => run_dgram_api a
  end.

Definition run_dg_steps (l : list dg_step) (w : W) : W :=
  foldl (λ w s, (run_dg_step s w).2) w l.

Definition dg_arrivals (l : list dg_step) : list replay_item :=
  omap (λ s, match s with DgArrive d a => Some (RData d (Some a)) | _ => None end) l.

Lemma run_dg_step_spec s (w : W) :
  settled (w_tr w) → alive w →
  is_dead (w_tr (run_dg_step s w).2) = true ∨
  (alive (run_dg_step s w).2 ∧ settled (w_tr (run_dg_step s w).2) ∧
   received (run_dg_step s w).2 = received w ++ dg_arrivals [s]).
Proof.
  intros Hs Ha. assert (∀ m : M W unit, moves Rio m → is_dead (w_tr (m w).2) = true ∨
    (alive (m w).2 ∧ settled (w_tr (m w).2) ∧ received (m w).2 = received w ++ [])) as Hrio.
  { intros m Hm. destruct (is_dead (w_tr (m w).2)) eqn:Hd; [by left|right].
    destruct Ha as [_ Hl]. destruct (io_keep _ _ (Hm w) Hd Hl) as (? & ? & _ & ?).
    rewrite app_nil_r. split_and!; auto. by split. }
  destruct s as [d a|e| |a]; simpl.
  - exact (drain_guarded_spec (RData d (Some a)) w Hs Ha).
  - exact (drain_guarded_spec (RError e) w Hs Ha).
  - apply Hrio, rio_sendto_ready.
  - apply Hrio, rio_run_dgram_api.
Qed.

Lemma run_dg_step_dead s (w : W) :
  is_dead (w_tr w) = true → is_dead (w_tr (run_dg_step s w).2) = true.
Proof.
  intros Hd. destruct s as [d a|e| |a]; simpl.
  - unfold _drain_datagram. by rewrite drain_guarded_dead.
  - unfold drain_error_. by rewrite drain_guarded_dead.
  - by apply rio_sendto_ready.
  - by apply rio_run_dgram_api.
Qed.

Lemma run_dg_steps_dead l (w : W) :
  is_dead (w_tr w) = true → is_dead (w_tr (run_dg_steps l w)) = true.
Proof.
  unfold run_dg_steps. revert w. induction l; intros w Hd; simpl; auto using run_dg_step_dead.
Qed.

Lemma run_dg_steps_spec l (w : W) :
  settled (w_tr w) → alive w → is_dead (w_tr (run_dg_steps l w)) = false →
  alive (run_dg_steps l w) ∧ settled (w_tr (run_dg_steps l w)) ∧
  received (run_dg_steps l w) = received w ++ dg_arrivals l.
Proof.
  revert w. induction l as [|s l IH]; intros w Hs Ha Hd.
  { simpl. by rewrite app_nil_r. }
  change (run_dg_steps (s :: l) w) with (run_dg_steps l (run_dg_step s w).2) in *.
  destruct (run_dg_step_spec s w Hs Ha) as [Hd1|(Ha1 & Hs1 & Hr1)].
  { apply (run_dg_steps_dead l) in Hd1. congruence. }
  destruct (IH _ Hs1 Ha1 Hd) as (? & ? & ->). split_and!; try done.
  rewrite Hr1, <- app_assoc. unfold dg_arrivals. by rewrite <- omap_app.
Qed.

(** C14: In drain mode no datagram is lost, duplicated or reordered while the
    transport is open: under any interleaving of arrivals, socket errors,
    write-ready events and API calls, the datagrams given to the protocol
    followed by those stored are the ones before followed by the arrivals in
    order, each with its own sender; when not paused none is stored. *)
Theorem datagram_delivery_order l (w : W) :
  settled (w_tr w) → alive w → is_dead (w_tr (run_dg_steps l w)) = false →
  received (run_dg_steps l w) = received w ++ dg_arrivals l ∧
  (_paused (w_tr (run_dg_steps l w)) = false →
   omap delivery (w_trace (run_dg_steps l w)) = received w ++ dg_arrivals l).
Proof.
  intros Hs Ha Hd. destruct (run_dg_steps_spec l w Hs Ha Hd) as (_ & [Hp|Hr] & <-).
  - by rewrite Hp.
  - split; [done|]. intros _. unfold received. by rewrite Hr, app_nil_r.
Qed.
End delivery.

(** ** The queue of unsent datagrams *)

(** What the queue counts for. *)
Definition total (q : list datagram) : Z := foldr (λ x n, dgram_cost x.1 + n)%Z 0%Z q.

Lemma total_app q1 q2 : total (q1 ++ q2) = (total q1 + total q2)%Z.
Proof. induction q1 as [|x q1 IH]; simpl; [done|]. rewrite IH. lia. Qed.

Lemma total_nonneg q : (0 ≤ total q)%Z.
Proof. induction q as [|x q IH]; simpl; [done|]. unfold dgram_cost, _header_size. lia. Qed.

Section queue.
Context {E : Type} `{!Kernel E} `{!Protocol (world E datagram dgram)}.
Local Abbreviation W := (world E datagram dgram).

(** *** Reference definition *)

(** Offering one datagram to the kernel. *)
Definition offer (peer : option addr) (fd : Z) (x : datagram) : M E unit :=
  if addr_truthy peer then k_send fd x.1;; mret tt else k_sendto fd x.1 x.2;; mret tt.

(** Offering a queue in order: what was sent, what stays queued, and the
    error, other than not being ready, that ended it; the datagram that failed
    is in neither list. *)
Fixpoint transmit (peer : option addr) (fd : Z) (q : list datagram) (e : E) :
    list datagram * list datagram * option exn * E :=
  match q with
  | [] => ([], [], None, e)
  | x :: q' =>
      match offer peer fd x e with
      | (Ret _, e') =>
          let '(s, l, r, e'') := transmit peer fd q' e' in (x :: s, l, r, e'')
      | (Raise err, e') =>
          if try_again err then ([], x :: q', None, e') else ([], q', Some err, e')
      end
  end.

(** Order is kept, and at most the failing datagram is dropped. *)
Lemma transmit_split peer fd q e s l r e' :
  transmit peer fd q e = (s, l, r, e') →
  match r with
  | None => q = s ++ l
  | Some _ => ∃ x, q = s ++ x :: l
  end.
Proof.
  revert e s l r e'. induction q as [|x q IH]; intros e s l r e'; simpl.
  { by intros [= <- <- <- <-]. }
  destruct (offer peer fd x e) as [[[]|err] e1].
  - destruct (transmit peer fd q e1) as [[[s' l'] r'] e2] eqn:Ht. intros [= <- <- <- <-].
    specialize (IH _ _ _ _ _ Ht). destruct r'; [destruct IH as [y ->]; by exists y|by subst].
  - destruct (try_again err); intros [= <- <- <- <-]; [done|by exists x].
Qed.

(** *** The methods against it *)

Definition sent_event (peer : option addr) (x : datagram) : event :=
  EvSendto x.1 (if addr_truthy peer then None else x.2).

(** The world after [s] was sent and [l] left, the size being [n]. *)
Definition queue_state (s l : list datagram) (n : Z) (e : E) (w : W) : W :=
  MkWorld (w_loop w) (set_ext (MkDgram (_address (ext (w_tr w))) n) (set_buffer l (w_tr w))) e
    (w_trace w ++ (sent_event (_peername (w_tr w)) <$> s)) (w_transports w).

Lemma send_datagram_run d a (w : W) :
  _sock (w_tr w) = true →
  send_datagram d a w =
    let '(r, e') := offer (_peername (w_tr w)) (_sock_fd (w_tr w)) (d, a) (w_env w) in
    match r with
    | Ret _ => (Ret tt, add_event (sent_event (_peername (w_tr w)) (d, a)) (lset e' w))
    | Raise x => (Raise x, lset e' w)
    end.
Proof.
  intros Hs. unfold send_datagram, offer, sent_event. rewrite run_bind, run_self.
  cbv beta iota. rewrite run_sock_call by done. cbn [fst snd].
  destruct (addr_truthy (_peername (w_tr w))); rewrite !run_bind; unfold kernel, zoom;
    change (lget w) with (w_env w); [destruct (k_send _ _ _) as [[]]|
    destruct (k_sendto _ _ _ _) as [[]]]; done.
Qed.

Lemma queue_state_id l n (w : W) :
  _buffer (w_tr w) = l → n = _buffer_size (ext (w_tr w)) →
  queue_state [] l n (w_env w) w = w.
Proof.
  intros <- ->. unfold queue_state. cbn [fmap list_fmap]. rewrite app_nil_r.
  destruct w as [lp t ? ? ?]. destruct t as [? ? ? ? ? ? ? ? ? ? ? ? ? ? ? ? ? x]. by destruct x.
Qed.

(** Taking the first datagram off the queue. *)
Definition popped (d : bytes) (rest : list datagram) (e : E) (w : W) : W :=
  queue_state [] rest (_buffer_size (ext (w_tr w)) - dgram_cost d) e w.

Lemma queue_state_popped s l n e ev e1 d rest (w : W) :
  queue_state s l n e (add_event ev (lset (S := E) e1 (popped d rest (w_env w) w))) =
  MkWorld (w_loop w) (set_ext (MkDgram (_address (ext (w_tr w))) n) (set_buffer l (w_tr w))) e
    (w_trace w ++ ev :: (sent_event (_peername (w_tr w)) <$> s)) (w_transports w).
Proof.
  unfold queue_state, popped, add_event; simpl. by rewrite app_nil_r, <- app_assoc.
Qed.

Lemma sendto_loop_pop n d a rest (w : W) :
  _buffer (w_tr w) = (d, a) :: rest → _sock (w_tr w) = true →
  sendto_loop (S n) w =
    let '(r, e') := offer (_peername (w_tr w)) (_sock_fd (w_tr w)) (d, a) (w_env w) in
    match r with
    | Ret _ => sendto_loop n (add_event (sent_event (_peername (w_tr w)) (d, a))
                                (lset e' (popped d rest (w_env w) w)))
    | Raise x =>
        if try_again x then
          (Ret true, queue_state [] ((d, a) :: rest) (_buffer_size (ext (w_tr w))) e' w)
        else (send_failed x;; mret false) (popped d rest e' w)
    end.
Proof.
  intros Hb Hs. cbn [sendto_loop]. rewrite run_bind, run_self, Hb. cbv beta iota.
  unfold add_to_size. rewrite !run_bind, !run_put. cbv beta iota. rewrite run_bind, run_put.
  cbv beta iota. set (w1 := set_tr _ (set_tr _ w)).
  assert (w1 = popped d rest (w_env w) w) as Hw1.
  { unfold w1, popped, queue_state, add_size, set_tr; simpl. rewrite app_nil_r. done. }
  unfold try_else. rewrite send_datagram_run by (by rewrite Hw1). rewrite Hw1.
  change (_peername (w_tr (popped d rest (w_env w) w))) with (_peername (w_tr w)).
  change (_sock_fd (w_tr (popped d rest (w_env w) w))) with (_sock_fd (w_tr w)).
  change (w_env (popped d rest (w_env w) w)) with (w_env w).
  destruct (offer _ _ _ _) as [[[]|x] e']; cbv beta iota; [done|].
  destruct (try_again x).
  - rewrite run_bind, run_put, run_bind, run_put, run_ret. cbv beta iota.
    unfold popped, queue_state, set_tr, add_size; simpl. by rewrite !app_nil_r, Z.sub_add.
  - done.
Qed.

(** The loop of [_sendto_ready] is the reference definition. *)
Lemma sendto_loop_run n (w : W) :
  _sock (w_tr w) = true → length (_buffer (w_tr w)) ≤ n →
  sendto_loop n w =
    let '(s, l, r, e') := transmit (_peername (w_tr w)) (_sock_fd (w_tr w))
                            (_buffer (w_tr w)) (w_env w) in
    let w' := queue_state s l (_buffer_size (ext (w_tr w)) - (total (_buffer (w_tr w)) - total l))
                e' w in
    match r with
    | None => (Ret true, w')
    | Some x => (send_failed x;; mret false) w'
    end.
Proof.
  revert w. induction n as [|n IH]; intros w Hs Hn;
    destruct (_buffer (w_tr w)) as [|[d a] rest] eqn:Hb; simpl in Hn; try lia.
  - simpl. by rewrite queue_state_id by (done || lia).
  - cbn [sendto_loop]. rewrite run_bind, run_self, Hb. simpl.
    by rewrite queue_state_id by (done || lia).
  - rewrite (sendto_loop_pop _ d a rest) by done. cbn [transmit].
    destruct (offer _ _ _ _) as [[[]|x] e1]; cycle 1.
    { destruct (try_again x); simpl.
      - do 2 f_equal. lia.
      - f_equal. unfold popped. f_equal. lia. }
    set (w2 := add_event _ _). rewrite (IH w2) by (done || simpl; lia).
    change (_peername (w_tr w2)) with (_peername (w_tr w)).
    change (_sock_fd (w_tr w2)) with (_sock_fd (w_tr w)).
    change (_buffer (w_tr w2)) with rest. change (w_env w2) with e1.
    change (_buffer_size (ext (w_tr w2))) with (_buffer_size (ext (w_tr w)) - dgram_cost d)%Z.
    destruct (transmit _ _ rest e1) as [[[s l] r] e'] eqn:Ht. cbv zeta.
    assert (queue_state s l (_buffer_size (ext (w_tr w)) - dgram_cost d - (total rest - total l)) e' w2
      = queue_state ((d, a) :: s) l
          (_buffer_size (ext (w_tr w)) - (total ((d, a) :: rest) - total l)) e' w) as ->.
    { unfold w2. rewrite queue_state_popped. unfold queue_state. simpl. do 3 f_equal. lia. }
    done.
Qed.

(** C15: A write-ready event on a datagram transport is the reference
    definition [transmit]: the queue is offered to the kernel in order until
    it is empty, the kernel is not ready, or a send fails; what was sent, in
    order, followed by what stays queued is the queue, except for the datagram
    whose send failed, which is dropped and its error reported.  The size
    goes down by exactly what left the queue. *)
Theorem sendto_ready_refines (w : W) :
  _sock (w_tr w) = true →
  let q := _buffer (w_tr w) in
  let '(s, l, r, e') := transmit (_peername (w_tr w)) (_sock_fd (w_tr w)) q (w_env w) in
  let w' := queue_state s l (_buffer_size (ext (w_tr w)) - (total q - total l)) e' w in
  match r with
  | None =>
      q = s ++ l ∧
      _sendto_ready w =
        (_maybe_resume_protocol;;
         buffer ← self _buffer;
         match buffer with
         | _ :: _ => mret tt
         | [] => loop_remove_writer;; closing ← self _closing;
                 when_ closing (_call_connection_lost None)
         end) w'
  | Some x => (∃ y, q = s ++ y :: l) ∧ _sendto_ready w = send_failed x w'
  end.
Proof.
  intros Hs. cbv zeta. unfold _sendto_ready. rewrite run_bind, run_self. cbv beta iota.
  rewrite run_bind, sendto_loop_run by done.
  destruct (transmit _ _ _ _) as [[[s l] r] e'] eqn:Ht.
  pose proof (transmit_split _ _ _ _ _ _ _ _ Ht) as Hq.
  destruct r as [x|]; (split; [done|]); cbv beta iota zeta; [|done].
  rewrite run_bind. by destruct (send_failed x _) as [[[]|] w1].
Qed.

(** *** Accounting *)

Definition acct (w : W) : Prop := _buffer_size (ext (w_tr w)) = total (_buffer (w_tr w)).

Record Racct (w w' : W) : Prop := {
  ra_torn : torn (w_tr w) = true → torn (w_tr w') = true;
  ra_acct : torn (w_tr w') = false → acct w → acct w';
}.
#[export] Instance Racct_preorder : PreOrder Racct.
Proof.
  split; [by split|]. intros w1 w2 w3 [t1 a1] [t2 a2]. split; [auto|].
  intros Ht Ha. destruct (torn (w_tr w2)) eqn:Ht2; [specialize (t2 eq_refl); congruence|auto].
Qed.

(** *** [sendto], branch by branch *)

(** [sendto].  On a transport with a fixed remote address any other
    address is refused, and the fixed one is what is used; once the connection
    is lost such a transport counts the call and drops the data; with
    datagrams queued the new one goes behind them without a system call; with
    none queued it is sent at once, and when the kernel is not ready it is
    queued with a write handler registered first. *)
Theorem sendto_cases data a (w : W) :
  let fixed := _address (ext (w_tr w)) in
  let dest := if addr_truthy fixed then fixed else a in
  let out := sendto (BytesLike data) a w in
  sendto NotBytes a w = (Raise (TypeError "data argument must be a bytes-like object"), w) ∧
  if addr_truthy fixed && negb (bool_decide (a = None ∨ a = fixed)) then
    out = (Raise (ValueError "Invalid address: must be None or the remote address"), w)
  else if bool_decide (_conn_lost (w_tr w) ≠ 0) && addr_truthy fixed then
    out = (Ret tt, count_lost (if decide (5 ≤ _conn_lost (w_tr w))
                               then add_event EvWarning w else w))
  else match _buffer (w_tr w) with
  | _ :: _ => out = append_datagram data dest w
  | [] =>
      _sock (w_tr w) = true →
      match offer (_peername (w_tr w)) (_sock_fd (w_tr w)) (data, dest) (w_env w) with
      | (Ret _, e') =>
          out = (Ret tt, add_event (sent_event (_peername (w_tr w)) (data, dest)) (lset e' w))
      | (Raise x, e') =>
          out = (if try_again x then loop_add_writer CbSendtoReady;; append_datagram data dest
                 else send_failed x) (lset e' w)
      end
  end.
Proof.
  cbv zeta. split; [done|]. unfold sendto. rewrite run_bind, run_self. cbv beta iota.
  destruct (addr_truthy _ && negb _) eqn:Hbad; [done|].
  rewrite run_bind, run_self. cbv beta iota.
  destruct (bool_decide (_conn_lost (w_tr w) ≠ 0) && _).
  { unfold LOG_THRESHOLD_FOR_CONNLOST_WRITES. rewrite run_bind.
    destruct (decide (5 ≤ _)) as [H5|H5].
    - rewrite (bool_decide_eq_true_2 _ H5). cbn [when_]. by rewrite run_log.
    - rewrite (bool_decide_eq_false_2 _ H5). cbn [when_]. by rewrite run_ret. }
  rewrite run_bind, run_self. cbv beta iota. destruct (_buffer (w_tr w)); [|done].
  intros Hs. unfold try_else. rewrite send_datagram_run by done.
  destruct (offer _ _ _ _) as [[[]|x] e']; [done|]. by destruct (try_again x).
Qed.

Context `{!Obeys Racct}.

Lemma ra_view (w w' : W) :
  (_conn_lost (w_tr w'), _loop (w_tr w'), _buffer (w_tr w'), ext (w_tr w')) =
  (_conn_lost (w_tr w), _loop (w_tr w), _buffer (w_tr w), ext (w_tr w)) → Racct w w'.
Proof. intros [= H1 H2 H3 H4]. split; unfold torn, acct; by rewrite ?H1, ?H2, ?H3, ?H4. Qed.
Lemma ra_put f :
  (∀ t, (_conn_lost (f t), _loop (f t), _buffer (f t), ext (f t)) =
        (_conn_lost t, _loop t, _buffer t, ext t)) → moves Racct (put (E := E) f).
Proof. intros Hf w. apply ra_view, Hf. Qed.
Lemma ra_lost f : (∀ t, torn (f t) = true) → moves Racct (put (E := E) f).
Proof. intros Hf w. split; simpl; by rewrite Hf. Qed.
Lemma ra_log ev : moves Racct (log (W := W) ev).
Proof. intros w. by apply ra_view. Qed.
Lemma ra_on_loop {A} (m : M LoopState A) : moves Racct (on_loop (W := W) m).
Proof. apply moves_zoom. intros w. by apply ra_view. Qed.
Lemma ra_kernel {A} (m : M E A) : moves Racct (kernel (W := W) m).
Proof. apply moves_zoom. intros w. by apply ra_view. Qed.
Lemma ra_self {A} (f : transport datagram dgram → A) : moves Racct (self f).
Proof. apply moves_gets, _. Qed.
Lemma ra_loop_get {A} (f : LoopState → A) : moves Racct (loop_get (W := W) f).
Proof. apply moves_gets, _. Qed.
#[local] Hint Resolve ra_log ra_on_loop ra_kernel ra_self ra_loop_get : moves.
#[local] Hint Extern 1 (moves Racct (put _)) => (apply ra_put; reflexivity) : moves.
#[local] Hint Extern 2 (moves Racct (put _)) => (apply ra_lost;
  intros; unfold torn; simpl; rewrite ?orb_true_r; reflexivity) : moves.
#[local] Hint Extern 5 (PreOrder _) => (typeclasses eauto) : moves.

Lemma ra_loop_call {A} (m : M W A) : moves Racct m → moves Racct (loop_call m).
Proof. intros. unfold loop_call. moves_auto. Qed.
Lemma ra_sock_call {A} (m : Z → M W A) : (∀ fd, moves Racct (m fd)) → moves Racct (sock_call m).
Proof. intros. unfold sock_call. moves_auto. Qed.
Lemma ra_protocol_call {A} ev (m : proto → M W A) :
  (∀ p, moves Racct (m p)) → moves Racct (protocol_call ev m).
Proof. intros. unfold protocol_call. moves_auto. Qed.
#[local] Hint Resolve ra_loop_call ra_sock_call : moves.
#[local] Hint Extern 1 (moves Racct (protocol_call _ _)) => (apply ra_protocol_call) : moves.
Lemma ra_debug_log : moves Racct (debug_log (E := E)).
Proof. unfold debug_log. moves_auto. Qed.
Lemma ra_loop_call_soon cb : moves Racct (loop_call_soon (E := E) cb).
Proof. unfold loop_call_soon. moves_auto. Qed.
Lemma ra_call_exception_handler e : moves Racct (call_exception_handler e).
Proof. unfold call_exception_handler. moves_auto. Qed.
Lemma ra_remove_reader : moves Racct (loop_remove_reader (E := E)).
Proof. unfold loop_remove_reader, _remove_reader. moves_auto. Qed.
Lemma ra_remove_writer : moves Racct (loop_remove_writer (E := E)).
Proof. unfold loop_remove_writer, _remove_writer. moves_auto. Qed.
Lemma ra_open_fd fd : moves Racct (open_fd (W := W) fd).
Proof. unfold open_fd. moves_auto. Qed.
Lemma ra_incr : moves Racct (incr_conn_lost (E := E)).
Proof. by apply ra_lost. Qed.
Lemma ra_force_close e : moves Racct (_force_close (E := E) e).
Proof. intros w. pose proof (force_close_torn e w) as Ht. by split; rewrite Ht. Qed.
#[local] Hint Resolve ra_debug_log ra_loop_call_soon ra_call_exception_handler ra_remove_reader
  ra_remove_writer ra_open_fd ra_incr ra_force_close : moves.
Lemma ra_fatal e : moves Racct (_fatal_error (E := E) e).
Proof. unfold _fatal_error. moves_auto. Qed.
Lemma ra_add_writer cb : moves Racct (loop_add_writer (E := E) cb).
Proof. unfold loop_add_writer, _add_writer. moves_auto. Qed.
Lemma ra_register : moves Racct (_register_reader (E := E) (B := datagram) (X := dgram)).
Proof. unfold _register_reader, _add_tcp_reader, _add_udp_reader, _add_reader. moves_auto. Qed.
#[local] Hint Resolve ra_fatal ra_add_writer ra_register : moves.
Lemma ra_pause : moves Racct (_maybe_pause_protocol (E := E)).
Proof. unfold _maybe_pause_protocol. moves_auto. Qed.
Lemma ra_resume : moves Racct (_maybe_resume_protocol (E := E)).
Proof. unfold _maybe_resume_protocol. moves_auto. Qed.
Lemma ra_pause_reading : moves Racct (pause_reading (E := E) (B := datagram) (X := dgram)).
Proof. unfold pause_reading. moves_auto. Qed.
Lemma ra_close : moves Racct (close (E := E) (B := datagram) (X := dgram)).
Proof. unfold close. moves_auto. Qed.
Lemma ra_teardown e : moves Racct (_call_connection_lost (E := E) e).
Proof. unfold _call_connection_lost, server_detach, sys_close. moves_auto. Qed.
Lemma ra_deliver_error e : moves Racct (deliver_error_ (E := E) e).
Proof. unfold deliver_error_. moves_auto. Qed.
#[local] Hint Resolve ra_pause ra_resume ra_pause_reading ra_close ra_teardown ra_deliver_error : moves.
Lemma ra_run_replay i : moves Racct (run_replay (E := E) (X := dgram) i).
Proof. destruct i; simpl; unfold _deliver_datagram; moves_auto. Qed.
#[local] Hint Resolve ra_run_replay : moves.
Lemma ra_flush_loop n : moves Racct (flush_loop (E := E) (X := dgram) n).
Proof. induction n; cbn [flush_loop]; moves_auto. Qed.
#[local] Hint Resolve ra_flush_loop : moves.
Lemma ra_resume_reading : moves Racct (resume_reading (E := E) (B := datagram) (X := dgram)).
Proof. unfold resume_reading, _flush_replay. moves_auto. Qed.
Lemma ra_drain i : moves Racct (drain_guarded (E := E) (X := dgram) i).
Proof. unfold drain_guarded. moves_auto. Qed.
Lemma ra_send_failed e : moves Racct (send_failed (E := E) e).
Proof. unfold send_failed. moves_auto. Qed.
Lemma ra_send_datagram d a : moves Racct (send_datagram (E := E) d a).
Proof. unfold send_datagram. moves_auto. Qed.
#[local] Hint Resolve ra_resume_reading ra_drain ra_send_failed ra_send_datagram : moves.

(** *** The three places where the queue changes *)

(** A change of the queue and the matching change of the size, then [m]. *)
Lemma ra_change {A} f n (m : M W A) (w : W) :
  (∀ t, (_conn_lost (f t), _loop (f t), ext (f t)) = (_conn_lost t, _loop t, ext t)) →
  total (_buffer (f (w_tr w))) = (total (_buffer (w_tr w)) + n)%Z →
  moves Racct m → Racct w ((put f;; add_to_size n;; m) w).2.
Proof.
  intros Hf Hn Hm. unfold add_to_size. rewrite run_bind, run_put, run_bind, run_put.
  injection (Hf (w_tr w)) as H1 H2 H3.
  etrans; [|apply Hm]. split; unfold torn, acct; simpl; rewrite ?H1, ?H2, ?H3; [done|].
  intros _ Ha. simpl. by rewrite Ha, Hn.
Qed.

Lemma ra_append_datagram d a : moves Racct (append_datagram (E := E) d a).
Proof.
  intros w. apply ra_change; [done| |apply ra_pause]. simpl.
  rewrite total_app; simpl. lia.
Qed.

Lemma ra_requeue d a :
  moves Racct (put (E := E) (λ t, set_buffer ((d, a) :: _buffer t) t);;
               add_to_size (dgram_cost d);; mret true).
Proof. intros w. apply ra_change; [done|simpl; lia|apply moves_ret, _]. Qed.
#[local] Hint Resolve ra_requeue : moves.

Lemma ra_sendto_loop n : moves Racct (sendto_loop (E := E) n).
Proof.
  induction n as [|n IH]; [apply moves_ret, _|]. intros w. cbn [sendto_loop].
  rewrite run_bind, run_self. cbv beta iota.
  destruct (_buffer (w_tr w)) as [|[d a] rest] eqn:Hb; [done|].
  apply ra_change; [done|simpl; rewrite Hb; simpl; lia|].
  moves_auto.
Qed.
#[local] Hint Resolve ra_append_datagram ra_sendto_loop : moves.

Lemma ra_sendto a d : moves Racct (sendto (E := E) a d).
Proof. unfold sendto. moves_auto. Qed.
Lemma ra_sendto_ready : moves Racct (_sendto_ready (E := E)).
Proof. unfold _sendto_ready. moves_auto. Qed.
#[local] Hint Resolve ra_sendto ra_sendto_ready : moves.

Lemma ra_run_dgram_api a : moves Racct (run_dgram_api (E := E) a).
Proof. destruct a; simpl; unfold abort; moves_auto. Qed.

Lemma ra_run_dg_step s : moves Racct (run_dg_step (E := E) s).
Proof.
  destruct s; simpl; unfold _drain_datagram, drain_error_; moves_auto. apply ra_run_dgram_api.
Qed.

(** C16: The size reported for flow control.  Along any history, whatever
    callbacks do, [_buffer_size] is the payload of the queued datagrams plus
    eight bytes for each, so never negative, until the connection is lost. *)
Theorem datagram_accounting l (w : W) :
  acct w → torn (w_tr (run_dg_steps l w)) = false →
  acct (run_dg_steps l w) ∧ (0 ≤ _buffer_size (ext (w_tr (run_dg_steps l w))))%Z.
Proof.
  intros Ha Ht. assert (∀ l w, Racct w (run_dg_steps l w)) as Hr.
  { clear l w Ha Ht. unfold run_dg_steps. induction l as [|s l IH]; intros w; simpl; [done|].
    etrans; [apply (ra_run_dg_step s w)|apply IH]. }
  assert (acct (run_dg_steps l w)) as H by by apply (ra_acct _ _ (Hr l w)).
  split; [done|]. rewrite H. apply total_nonneg.
Qed.
End queue.

(** ** Instances *)

#[local] Instance demo_kernel : Kernel script_env := script_kernel true.
#[local] Instance demo_protocol : Protocol (world script_env datagram dgram) := silent.

Lemma silent_datagram_laws : @DatagramLaws script_env demo_protocol.
Proof. split; [apply silent_obeys, _|done|done]. Qed.

(** An unconnected transport; [q] is queued. *)
Definition dgram_world (q : list datagram) (env : script_env) : world script_env datagram dgram :=
  MkWorld empty_loop
    (MkTransport datagram dgram true 6 true (Some (MkProto 1 false)) true None None None q 0
       false false [] (Some Udp) false default_high_water default_low_water
       (MkDgram None (total q)))
    env [] {[ 6%Z ]}.

Definition dg_history : list dg_step :=
  [DgArrive [x61] localhost; DgCall DgPauseReading; DgArrive [] localhost;
   DgError (OSError 111); DgArrive [x62] AUnnamed; DgCall DgResumeReading].

Lemma datagram_delivery_order_witness :
  omap delivery (w_trace (run_dg_steps dg_history (dgram_world [] []))) =
    [RData [x61] (Some localhost); RData [] (Some localhost); RData [x62] (Some AUnnamed)].
Proof.
  apply (@datagram_delivery_order _ _ _ silent_datagram_laws dg_history (dgram_world [] [])).
  - right. reflexivity.
  - split; [reflexivity|split; [reflexivity|eexists; reflexivity]].
  - vm_compute. reflexivity.
  - vm_compute. reflexivity.
Defined.

Definition dg_queue : list datagram :=
  [([x61], Some localhost); ([x62], Some localhost); ([x63], Some localhost)].

(** The second send fails with ECONNREFUSED. *)
Lemma sendto_ready_refines_witness :
  let w := dgram_world dg_queue [AnsN 1; AnsErr (OSError 111)] in
  _buffer (w_tr (_sendto_ready w).2) = [([x63], Some localhost)] ∧
  _sendto_ready w = send_failed (OSError 111)
    (queue_state [([x61], Some localhost)] [([x63], Some localhost)]
       (total dg_queue - (total dg_queue - 9)) [] w).
Proof.
  split; [vm_compute; reflexivity|].
  destruct (sendto_ready_refines (dgram_world dg_queue [AnsN 1; AnsErr (OSError 111)]) eq_refl)
    as [_ H]. exact H.
Defined.

Lemma datagram_accounting_witness :
  _buffer_size (ext (w_tr (run_dg_steps
    [DgCall (DgSendto (BytesLike [x61; x62]) (Some localhost)); DgSendReady]
    (dgram_world [] [AnsErr (OSError EAGAIN); AnsErr (OSError EAGAIN)])))) = 10%Z ∧
  acct (run_dg_steps
    [DgCall (DgSendto (BytesLike [x61; x62]) (Some localhost)); DgSendReady]
    (dgram_world [] [AnsErr (OSError EAGAIN); AnsErr (OSError EAGAIN)])).
Proof.
  split; [vm_compute; reflexivity|].
  apply (datagram_accounting
    [DgCall (DgSendto (BytesLike [x61; x62]) (Some localhost)); DgSendReady]);
    [reflexivity|vm_compute; reflexivity].
Defined.

(** An unconnected transport and a kernel that is not ready: the datagram is
    queued behind a registered write handler. *)
Lemma sendto_cases_witness :
  _buffer (w_tr (sendto (BytesLike [x61]) (Some localhost)
    (dgram_world [] [AnsErr (OSError EAGAIN)])).2) = [([x61], Some localhost)] ∧
  sendto (BytesLike [x61]) (Some localhost) (dgram_world [] [AnsErr (OSError EAGAIN)]) =
    (loop_add_writer CbSendtoReady;; append_datagram [x61] (Some localhost))
      (lset (S := script_env) [] (dgram_world [] [AnsErr (OSError EAGAIN)])).
Proof.
  split; [vm_compute; reflexivity|].
  exact (proj2 (sendto_cases [x61] (Some localhost)
    (dgram_world [] [AnsErr (OSError EAGAIN)])) eq_refl).
Defined.
