(* ===== verification/SockOps.v ===== *)
(** * The [sock_*] coroutines (python/tokioop/loop.py, lines 237-538)

    Each coroutine up to its [await], and the callbacks the loop runs until the
    future is done.  A coroutine ends by returning a value, by raising, or
    waiting for a future whose outcome is its own. *)

From Stdlib Require Import Strings.Byte.
From stdpp Require Import base tactics list gmap strings.
From S2P Require Import Prelude State Reactor Env Loop.

(** ** State *)

(** The socket objects passed in: their fd, whether they are [SSLSocket]s, and
    whether their timeout is zero. *)
Record socket := MkSocket {
  fileno : Z;
  is_SSLSocket : bool;
  nonblocking : bool;
}.

(** The loop, the system, the trace, and [loop._transports] (an fd's transport,
    by its [is_closing()]). *)
Record sworld (E : Type) := MkSworld {
  sw_loop : LoopState;
  sw_env : E;
  sw_trace : list event;
  sw_transports : gmap Z bool;
}.
Arguments MkSworld {E}.
Arguments sw_loop {E}.
Arguments sw_env {E}.
Arguments sw_trace {E}.
Arguments sw_transports {E}.

#[export] Instance sworld_loop {E} : HasLoop (sworld E) := {|
  lget w := sw_loop w;
  lset l w := MkSworld l (sw_env w) (sw_trace w) (sw_transports w) |}.
#[export] Instance sworld_env {E} : HasEnv (sworld E) E := {|
  lget w := sw_env w;
  lset e w := MkSworld (sw_loop w) e (sw_trace w) (sw_transports w) |}.
#[export] Instance sworld_trace {E} : HasTrace (sworld E) := {|
  lget w := sw_trace w;
  lset l w := MkSworld (sw_loop w) (sw_env w) l (sw_transports w) |}.

(** How a coroutine goes on. *)
Inductive coro :=
  | Return (v : value)
  | Await (fut : fut_id).

Section sock_ops.
Context {E : Type} `{!Kernel E}.
Local Abbreviation W := (sworld E).

Definition transport_closing (fd : Z) (w : W) : option bool := sw_transports w !! fd.

(** [_check_ssl_socket] of asyncio, then
    [if self.get_debug() and sock.gettimeout() != 0: raise ValueError]. *)
Definition check_socket (sock : socket) : M W unit :=
  if is_SSLSocket sock then raise (TypeError "Socket cannot be of type SSLSocket") else
  dbg ← loop_get debug;
  if (dbg : bool) && negb (nonblocking sock)
  then raise (ValueError "the socket must be non-blocking")
  else mret tt.

(** [try: return m  except (BlockingIOError, InterruptedError): pass]. *)
Definition try_now {A} (m : M W A) : M W (option A) :=
  try_else m (λ e, if try_again e then mret None else raise e) (λ a, mret (Some a)).

(** Registering [cb] with the future's clean-up. *)
Definition wait_read (fd : Z) (fut : fut_id) (cb : callback) : M W unit :=
  _ensure_fd_no_transport transport_closing (Fileno fd);;
  handle ← _add_reader fd cb;
  on_loop (add_done_callback fut (CbSockReadDone fd fut handle)).
Definition wait_write (fd : Z) (fut : fut_id) (cb : callback) : M W unit :=
  _ensure_fd_no_transport transport_closing (Fileno fd);;
  handle ← _add_writer fd cb;
  on_loop (add_done_callback fut (CbSockWriteDone fd fut handle)).

(** The common body of the callbacks:
    [if fut.done(): return], the call, [fut.set_exception] or
    [fut.set_result]. *)
Definition attempt (fut : fut_id) (m : M W value) : M W unit :=
  done ← loop_get (fut_done fut);
  if (done : bool) then mret tt else
  try_else m
    (except_io (mret tt) (λ exc, on_loop (set_exception fut exc)))
    (λ v, on_loop (set_result fut v)).

(** *** Receiving *)

Definition recv_value (fd : Z) (n : nat) : M W value :=
  data ← sys_recv fd n; mret (VBytes data).
Definition recv_into_value (fd : Z) (len : nat) : M W value :=
  n ← kernel (k_recv_into fd len); mret (VInt (Z.of_nat n)).
Definition recvfrom_value (fd : Z) (n : nat) : M W value :=
  r ← kernel (k_recvfrom fd n); mret (VFrom r.1 r.2).
Definition recvfrom_into_value (fd : Z) (n : nat) : M W value :=
  r ← kernel (k_recvfrom_into fd n); mret (VIntFrom (Z.of_nat r.1) r.2).

(** The four coroutines differ in the call and the callback. *)
Definition read_op (sock : socket) (m : Z → M W value) (cb : fut_id → Z → callback) : M W coro :=
  check_socket sock;;
  now ← try_now (m (fileno sock));
  match now with
  | Some v => mret (Return v)
  | None =>
      fut ← on_loop create_future;
      wait_read (fileno sock) fut (cb fut (fileno sock));;
      mret (Await fut)
  end.

Definition sock_recv (sock : socket) (n : nat) : M W coro :=
  read_op sock (λ fd, recv_value fd n) (λ fut fd, CbSockRecv fut fd n).
Definition sock_recv_into (sock : socket) (buflen : nat) : M W coro :=
  read_op sock (λ fd, recv_into_value fd buflen) (λ fut fd, CbSockRecvInto fut fd buflen).
Definition sock_recvfrom (sock : socket) (bufsize : nat) : M W coro :=
  read_op sock (λ fd, recvfrom_value fd bufsize) (λ fut fd, CbSockRecvfrom fut fd bufsize).
(** [nbytes = 0] means the whole buffer. *)
Definition sock_recvfrom_into (sock : socket) (buflen nbytes : nat) : M W coro :=
  let n := if decide (nbytes = 0) then buflen else nbytes in
  read_op sock (λ fd, recvfrom_into_value fd n) (λ fut fd, CbSockRecvfromInto fut fd n).

Definition _sock_recv (fut : fut_id) (sock : Z) (n : nat) : M W unit :=
  attempt fut (recv_value sock n).
Definition _sock_recv_into (fut : fut_id) (sock : Z) (len : nat) : M W unit :=
  attempt fut (recv_into_value sock len).
Definition _sock_recvfrom (fut : fut_id) (sock : Z) (n : nat) : M W unit :=
  attempt fut (recvfrom_value sock n).
Definition _sock_recvfrom_into (fut : fut_id) (sock : Z) (n : nat) : M W unit :=
  attempt fut (recvfrom_into_value sock n).

(** [handle.cancelled()] is asked first: a handle that was replaced must not
    remove the watcher that replaced it. *)
Definition _sock_read_done (fd : Z) (fut : fut_id) (handle : FdHandle) : M W unit :=
  c ← handle_cancelled handle;
  if (c : bool) then mret tt
  else remove_reader transport_closing (Fileno fd);; mret tt.
Definition _sock_write_done (fd : Z) (fut : fut_id) (handle : FdHandle) : M W unit :=
  c ← handle_cancelled handle;
  if (c : bool) then mret tt
  else remove_writer transport_closing (Fileno fd);; mret tt.

(** *** Sending *)

(** The one-element list [[n]] shared by the callback's firings. *)
Definition new_cell (n : nat) : M W nat :=
  id ← on_loop alloc_flag;
  on_loop (modify (λ s, set_cells (<[id := n]> (cells s)) s));;
  mret id.
Definition cell_get (id : nat) (s : LoopState) : nat := default 0 (cells s !! id).
Definition cell_set (id n : nat) : M W unit :=
  on_loop (modify (λ s, set_cells (<[id := n]> (cells s)) s)).

Definition sock_sendall (sock : socket) (data : bytes) : M W coro :=
  check_socket sock;;
  now ← try_now (sys_send (fileno sock) data);
  let n := default 0 now in
  if decide (n = length data) then mret (Return VNone) else
  fut ← on_loop create_future;
  _ensure_fd_no_transport transport_closing (Fileno (fileno sock));;
  pos ← new_cell n;
  handle ← _add_writer (fileno sock) (CbSockSendall fut (fileno sock) data pos);
  on_loop (add_done_callback fut (CbSockWriteDone (fileno sock) fut handle));;
  mret (Await fut).

Definition _sock_sendall (fut : fut_id) (sock : Z) (view : bytes) (pos : nat) : M W unit :=
  done ← loop_get (fut_done fut);
  if (done : bool) then mret tt else
  start ← loop_get (cell_get pos);
  try_else (sys_send sock (drop start view))
    (except_io (mret tt) (λ exc, on_loop (set_exception fut exc)))
    (λ n,
      let start := start + n in
      if decide (start = length view) then on_loop (set_result fut VNone)
      else cell_set pos start).

Definition sendto_value (fd : Z) (data : bytes) (a : addr) : M W value :=
  n ← sys_sendto fd data (Some a); mret (VInt (Z.of_nat n)).

Definition sock_sendto (sock : socket) (data : bytes) (a : addr) : M W coro :=
  check_socket sock;;
  now ← try_now (sendto_value (fileno sock) data a);
  match now with
  | Some v => mret (Return v)
  | None =>
      fut ← on_loop create_future;
      wait_write (fileno sock) fut (CbSockSendto fut (fileno sock) data a);;
      mret (Await fut)
  end.
Definition _sock_sendto (fut : fut_id) (sock : Z) (data : bytes) (a : addr) : M W unit :=
  attempt fut (sendto_value sock data a).

(** *** Connecting and accepting *)

Definition _sock_connect (fut : fut_id) (sock : Z) (address : addr) : M W unit :=
  try_else (kernel (k_connect sock address))
    (except_io (wait_write sock fut (CbSockConnect fut sock address))
      (λ exc, on_loop (set_exception fut exc)))
    (λ _, on_loop (set_result fut VNone)).

(** [sock_connect] with the address already resolved. *)
Definition sock_connect (sock : socket) (address : addr) : M W coro :=
  check_socket sock;;
  fut ← on_loop create_future;
  _sock_connect fut (fileno sock) address;;
  mret (Await fut).

Definition _sock_connect_cb (fut : fut_id) (sock : Z) (address : addr) : M W unit :=
  attempt fut
    (err ← kernel (k_so_error sock);
     if decide (err ≠ 0)%Z then raise (OSError err) else mret VNone).

Definition _sock_accept (fut : fut_id) (sock : Z) : M W unit :=
  done ← loop_get (fut_done fut);
  if (done : bool) then mret tt else
  try_else (kernel (k_accept sock))
    (except_io (wait_read sock fut (CbSockAccept fut sock))
      (λ exc, on_loop (set_exception fut exc)))
    (λ r, on_loop (set_result fut (VConn r.1 r.2))).

Definition sock_accept (sock : socket) : M W coro :=
  check_socket sock;;
  fut ← on_loop create_future;
  _sock_accept fut (fileno sock);;
  mret (Await fut).

(** *** What the loop runs *)

Definition run_sock_callback (c : callback) : M W unit :=
  match c with
  | CbSockRecv fut sock n => _sock_recv fut sock n
  | CbSockRecvInto fut sock len => _sock_recv_into fut sock len
  | CbSockRecvfrom fut sock n => _sock_recvfrom fut sock n
  | CbSockRecvfromInto fut sock n => _sock_recvfrom_into fut sock n
  | CbSockSendall fut sock data pos => _sock_sendall fut sock data pos
  | CbSockSendto fut sock data a => _sock_sendto fut sock data a
  | CbSockConnect fut sock a => _sock_connect_cb fut sock a
  | CbSockAccept fut sock => _sock_accept fut sock
  | CbSockReadDone fd fut handle => _sock_read_done fd fut handle
  | CbSockWriteDone fd fut handle => _sock_write_done fd fut handle
  | _ => mret tt
  end.
End sock_ops.
