(* ===== verification/SockProps.v ===== *)
(** * The [sock_*] coroutines: what they promise

    Integrity and progress of [sock_sendall], single completion of the
    receiving operations, the clean-up of watchers, and the guard against
    descriptors that belong to a transport. *)

From Stdlib Require Import Strings.Byte.
From stdpp Require Import base tactics list gmap strings.
From S2P Require Import Prelude State Reactor ReactorProps Env Loop LoopFrame SockOps.
From S2P Require Import Script.

(** ** Futures *)

(** Scheduling on an open loop. *)
Lemma schedule_ready cbs s :
  closed s = false →
  (schedule_callbacks cbs s).1 = Ret tt ∧
  re_callback <$> ready (schedule_callbacks cbs s).2 = (re_callback <$> ready s) ++ cbs.
Proof.
  revert s. induction cbs as [|c cbs IH]; intros s Hc; simpl; [by rewrite app_nil_r|].
  rewrite run_bind. unfold call_soon, check_closed. rewrite !run_bind, run_gets, Hc.
  rewrite run_ret. cbv beta iota. unfold alloc_flag. rewrite run_bind. cbn [new_flag].
  cbv beta iota. rewrite run_bind, run_modify, run_ret. cbv beta iota.
  set (s1 := set_ready _ _). destruct (IH s1 Hc) as [-> Hr]. split; [done|].
  rewrite Hr. unfold s1; simpl. by rewrite fmap_app, <- app_assoc.
Qed.

Section sock.
Context {E : Type} `{!Kernel E}.
Local Abbreviation W := (sworld E).

Definition fut_at (f : fut_id) (w : W) : option future := futs (sw_loop w) !! f.

Lemma on_loop_finish f o cbs (w : W) :
  fut_at f w = Some (MkFuture Pending cbs) →
  let w' := (on_loop (fut_finish f o) w).2 in
  fut_at f w' = Some (MkFuture o []) ∧ cells (sw_loop w') = cells (sw_loop w) ∧
  sw_trace w' = sw_trace w ∧ sw_env w' = sw_env w.
Proof.
  intros Hf. cbv zeta. unfold on_loop, zoom, fut_at in *. change (lget w) with (sw_loop w).
  pose proof (fut_finish_pending f o cbs (sw_loop w) Hf) as [H1 H2].
  destruct (fut_finish f o (sw_loop w)) as [r s]. cbn [snd] in *.
  simpl. rewrite H1, H2. by rewrite lookup_insert_eq.
Qed.

Lemma fut_done_at f (w : W) :
  fut_done f (sw_loop w) =
  match fut_at f w with Some (MkFuture Pending _) => false | _ => true end.
Proof.
  unfold fut_done, fut_lookup, fut_at. by destruct (futs (sw_loop w) !! f) as [[[] ?]|].
Qed.

(** ** [sock_sendall] *)

(** The state of one [sock_sendall]: [base] is what the socket had been sent
    before.  While the future is pending a proper prefix of the data, as long
    as the cell says, has been sent; a result means all of it. *)
Definition sendall_ok (base : bytes) (fut : fut_id) (pos : nat) (data : bytes) (w : W) : Prop :=
  match fut_at fut w with
  | Some (MkFuture Pending _) =>
      let k := cell_get pos (sw_loop w) in
      k < length data ∧ sent (sw_trace w) = base ++ take k data
  | Some (MkFuture (Result v) _) => v = VNone ∧ sent (sw_trace w) = base ++ data
  | _ => ∃ k, sent (sw_trace w) = base ++ take k data
  end.

(** What happens to it: write-ready events, and cancellation by the task. *)
Inductive sendall_event := SendReady | CancelFut.
Definition run_sendall_event (fut : fut_id) (sock : Z) (data : bytes) (pos : nat)
    (ev : sendall_event) : M W unit :=
  match ev with
  | SendReady => run_sock_callback (CbSockSendall fut sock data pos)
  | CancelFut => on_loop (fut_cancel fut);; mret tt
  end.
Definition run_sendall_events fut sock data pos (l : list sendall_event) (w : W) : W :=
  foldl (λ w ev, (run_sendall_event fut sock data pos ev w).2) w l.

(** The callback the reactor runs when [fd] is writable: the one in the slot
    registered for its write direction, unless that slot is dead. *)
Definition writer_callback (fd : Z) (w : W) : option callback :=
  sl ← registered (reactor (sw_loop w)) fd false;
  s ← slots (reactor (sw_loop w)) !! sl;
  if dead s then None else cb s.
Definition fire_writer (fd : Z) : M W unit :=
  c ← gets (writer_callback fd);
  match c with Some c => run_sock_callback c | None => mret tt end.

(** The same history as the reactor produces it: a write-ready event runs
    whatever is registered on the socket. *)
Definition fire_event (fut : fut_id) (fd : Z) (ev : sendall_event) : M W unit :=
  match ev with
  | SendReady => fire_writer fd
  | CancelFut => on_loop (fut_cancel fut);; mret tt
  end.
Definition fire_events (fut : fut_id) (fd : Z) (l : list sendall_event) (w : W) : W :=
  foldl (λ w ev, (fire_event fut fd ev w).2) w l.

(** Completing the future leaves the watchers alone. *)
Definition same_watchers : relation LoopState := λ s s',
  fds (reactor s') = fds (reactor s) ∧ slots (reactor s') = slots (reactor s).
#[local] Instance same_watchers_preorder : PreOrder same_watchers.
Proof. unfold same_watchers. split; [done|]. intros ??? [-> ->] [-> ->]. done. Qed.

Lemma same_watchers_finish f o : moves same_watchers (fut_finish f o).
Proof.
  assert (∀ c, moves same_watchers (call_soon c)) as Hsoon.
  { intros c. unfold call_soon, check_closed. moves_auto; try by split. }
  assert (∀ cbs, moves same_watchers (schedule_callbacks cbs)) as Hcbs.
  { induction cbs; simpl; moves_auto; done. }
  intros s. unfold fut_finish. destruct (futs s !! f) as [[[] cbs]|]; try by split.
  destruct (Hcbs cbs (set_futs (<[f := MkFuture o []]> (futs s)) s)) as [H1 H2]. by split.
Qed.

Lemma same_watchers_event fut fd data pos ev :
  moves (λ w w' : W, same_watchers (sw_loop w) (sw_loop w')) (run_sendall_event fut fd data pos ev).
Proof.
  assert (PreOrder (λ w w' : W, same_watchers (sw_loop w) (sw_loop w'))) as Hp.
  { split; [intros w; reflexivity|]. intros ??? H1 H2. by etrans. }
  assert (∀ A (m : M LoopState A), moves same_watchers m →
    moves (λ w w' : W, same_watchers (sw_loop w) (sw_loop w')) (on_loop m)) as Hz.
  { intros A m Hm w. unfold on_loop, zoom. change (lget w) with (sw_loop w).
    specialize (Hm (sw_loop w)). by destruct (m (sw_loop w)). }
  assert (∀ f o, moves (λ w w' : W, same_watchers (sw_loop w) (sw_loop w'))
    (on_loop (fut_finish f o))) as Hf by (intros; apply Hz, same_watchers_finish).
  destruct ev; simpl.
  - unfold _sock_sendall, loop_get, except_io, set_result, set_exception, cell_set.
    unfold sys_send.
    moves_auto; try apply Hf; try (apply Hz; moves_auto); try done.
    apply moves_zoom. intros w. done.
  - unfold fut_cancel. moves_auto. apply Hz. moves_auto. apply same_watchers_finish.
Qed.

Lemma writer_callback_event fut fd data pos ev fd' (w : W) :
  writer_callback fd' (run_sendall_event fut fd data pos ev w).2 = writer_callback fd' w.
Proof.
  destruct (same_watchers_event fut fd data pos ev w) as [H1 H2].
  unfold writer_callback, registered. by rewrite H1, H2.
Qed.

(** While [sock_sendall]'s own callback is the registered one, it is the one
    that runs. *)
Lemma fire_events_sendall fut fd data pos l (w : W) :
  writer_callback fd w = Some (CbSockSendall fut fd data pos) →
  fire_events fut fd l w = run_sendall_events fut fd data pos l w ∧
  writer_callback fd (fire_events fut fd l w) = Some (CbSockSendall fut fd data pos).
Proof.
  unfold fire_events, run_sendall_events. revert w.
  induction l as [|ev l IH]; intros w Hw; simpl; [done|].
  assert (fire_event fut fd ev w = run_sendall_event fut fd data pos ev w) as ->.
  { destruct ev; [|done]. simpl. unfold fire_writer. by rewrite run_bind, run_gets, Hw. }
  apply IH. by rewrite writer_callback_event.
Qed.

(** One system call: the world changes in its environment and, if bytes are
    accepted, its trace. *)
Lemma sys_send_run sock data (w : W) :
  (∃ n e', k_send sock data (sw_env w) = (Ret n, e') ∧
     sys_send sock data w =
       (Ret n, MkSworld (sw_loop w) e' (sw_trace w ++ [EvSend (take n data)]) (sw_transports w))) ∨
  (∃ x e', k_send sock data (sw_env w) = (Raise x, e') ∧
     sys_send sock data w = (Raise x, MkSworld (sw_loop w) e' (sw_trace w) (sw_transports w))).
Proof.
  unfold sys_send, kernel, zoom. rewrite run_bind. change (lget w) with (sw_env w).
  destruct (k_send sock data (sw_env w)) as [[n|x] e']; [left|right]; by eexists _, _.
Qed.

Lemma sent_send tr b : sent (tr ++ [EvSend b]) = sent tr ++ b.
Proof. rewrite sent_app. f_equal. apply app_nil_r. Qed.

(** A write-ready event on a pending [sock_sendall]. *)
Lemma sendall_ready_step `{!KernelLaws E} base fut sock data pos cbs (w : W) :
  fut_at fut w = Some (MkFuture Pending cbs) →
  sendall_ok base fut pos data w →
  let w' := (_sock_sendall fut sock data pos w).2 in
  let k := cell_get pos (sw_loop w) in
  sendall_ok base fut pos data w' ∧
  (∀ n e', k_send sock (drop k data) (sw_env w) = (Ret n, e') →
     sent (sw_trace w') = base ++ take (k + n) data ∧
     if decide (k + n = length data) then fut_at fut w' = Some (MkFuture (Result VNone) [])
     else fut_at fut w' = Some (MkFuture Pending cbs) ∧ cell_get pos (sw_loop w') = k + n).
Proof.
  intros Hf Hok. cbv zeta. unfold sendall_ok in Hok. rewrite Hf in Hok.
  destruct Hok as [Hk Hsent]. set (k := cell_get pos (sw_loop w)) in *.
  unfold _sock_sendall, loop_get. rewrite run_bind, run_gets.
  change (lget w) with (sw_loop w). rewrite fut_done_at, Hf.
  rewrite run_bind, run_gets. change (lget w) with (sw_loop w). fold k.
  unfold try_else.
  destruct (sys_send_run sock (drop k data) w) as [(n & e' & Hs & ->)|(x & e' & Hs & ->)].
  - pose proof (k_send_le _ _ _ _ _ Hs) as Hn. rewrite length_drop in Hn.
    set (w1 := MkSworld _ _ _ _).
    assert (sent (sw_trace w1) = base ++ take (k + n) data) as Hsent1.
    { unfold w1; cbn [sw_trace]. rewrite sent_send, Hsent, <- app_assoc. f_equal.
      by rewrite take_take_drop. }
    assert (fut_at fut w1 = Some (MkFuture Pending cbs)) as Hf1 by exact Hf.
    case_decide as Hend.
    + destruct (on_loop_finish fut (Result VNone) cbs w1 Hf1) as (F1 & F2 & F3 & F4).
      unfold set_result. split.
      * unfold sendall_ok. rewrite F1, F3, Hsent1, Hend, firstn_all. done.
      * intros n' e'' Hs'. rewrite Hs in Hs'. simplify_eq. rewrite F3, Hsent1.
        by rewrite decide_True.
    + unfold cell_set, on_loop, zoom. rewrite run_modify. cbn [snd].
      set (w2 := lset _ w1).
      assert (cell_get pos (sw_loop w2) = k + n) as Hcell.
      { unfold w2, cell_get; simpl. by rewrite lookup_insert_eq. }
      assert (fut_at fut w2 = Some (MkFuture Pending cbs)) as Hf2 by exact Hf1.
      change (sw_trace w2) with (sw_trace w1).
      split.
      * unfold sendall_ok. rewrite Hf2, Hcell. split; [lia|exact Hsent1].
      * intros n' e'' Hs'. rewrite Hs in Hs'. simplify_eq. by rewrite decide_False.
  - set (w1 := MkSworld _ _ _ _). split; [|intros; congruence].
    assert (fut_at fut w1 = Some (MkFuture Pending cbs)) as Hf1 by exact Hf.
    unfold except_io. destruct (try_again x); [|destruct (is_exit x)].
    + rewrite run_ret. unfold sendall_ok. cbn [snd]. by rewrite Hf1.
    + rewrite run_raise. unfold sendall_ok. cbn [snd]. by rewrite Hf1.
    + unfold set_exception.
      destruct (on_loop_finish fut (Exception x) cbs w1 Hf1) as (F1 & F2 & F3 & F4).
      unfold sendall_ok. rewrite F1, F3. by exists k.
Qed.

(** Once the future is done nothing is sent. *)
Lemma sendall_done_step fut sock data pos (w : W) :
  fut_done fut (sw_loop w) = true → _sock_sendall fut sock data pos w = (Ret tt, w).
Proof.
  intros Hd. unfold _sock_sendall, loop_get. rewrite run_bind, run_gets.
  change (lget w) with (sw_loop w). by rewrite Hd.
Qed.

Lemma sendall_cancel_step base fut pos data (w : W) :
  sendall_ok base fut pos data w →
  sendall_ok base fut pos data ((on_loop (fut_cancel fut);; mret tt : M W unit) w).2.
Proof.
  intros Hok. assert (∀ (m : M LoopState bool) (w : W),
    ((on_loop m;; mret tt : M W unit) w).2 = (on_loop m w).2) as Hsnd.
  { intros m w1. rewrite run_bind. by destruct (on_loop m w1) as [[]]. }
  rewrite Hsnd. unfold on_loop, zoom, fut_cancel. change (lget w) with (sw_loop w).
  rewrite run_bind, run_gets. cbv beta iota. rewrite fut_done_at.
  destruct (fut_at fut w) as [[[] cbs]|] eqn:Hf; try exact Hok.
  rewrite run_bind. destruct (on_loop_finish fut Cancelled cbs w Hf) as (F1 & _ & F3 & _).
  unfold on_loop, zoom in F1, F3. change (lget w) with (sw_loop w) in F1, F3.
  destruct (fut_finish fut Cancelled (sw_loop w)) as [[[]|] s]; cbn [fst snd] in *;
    cbv beta iota; unfold sendall_ok in *; rewrite Hf in Hok; destruct Hok as [_ Hs];
    simpl in *; rewrite F1; by eexists.
Qed.

Lemma sendall_event_ok `{!KernelLaws E} base fut sock data pos ev (w : W) :
  sendall_ok base fut pos data w →
  sendall_ok base fut pos data (run_sendall_event fut sock data pos ev w).2.
Proof.
  intros Hok. destruct ev; [|by apply sendall_cancel_step]. simpl.
  destruct (fut_done fut (sw_loop w)) eqn:Hd; [by rewrite sendall_done_step|].
  rewrite fut_done_at in Hd. destruct (fut_at fut w) as [[[] cbs]|] eqn:Hf; try done.
  by apply (sendall_ready_step base fut sock data pos cbs).
Qed.

Lemma sendall_events_ok `{!KernelLaws E} base fut sock data pos l (w : W) :
  sendall_ok base fut pos data w →
  sendall_ok base fut pos data (run_sendall_events fut sock data pos l w).
Proof.
  unfold run_sendall_events. revert w. induction l as [|ev l IH]; intros w Hok; simpl; [done|].
  apply IH. by apply sendall_event_ok.
Qed.

(** Every write-ready event the kernel takes bytes at makes progress. *)
Definition sendall_within (n : nat) (fut : fut_id) (pos : nat) (data : bytes) (w : W) : Prop :=
  match fut_at fut w with
  | Some (MkFuture Pending _) => length data - cell_get pos (sw_loop w) ≤ n
  | Some (MkFuture (Result _) _) => True
  | _ => False
  end.

Lemma sendall_progress `{!KernelLaws E} base fut sock data pos n (w : W) :
  (∀ d e, d ≠ [] → ∃ m e', k_send sock d e = (Ret m, e') ∧ m ≠ 0) →
  sendall_ok base fut pos data w → sendall_within n fut pos data w →
  let w' := run_sendall_events fut sock data pos (replicate n SendReady) w in
  fut_lookup fut (sw_loop w') = Result VNone ∧ sent (sw_trace w') = base ++ data.
Proof.
  intros Hk. cbv zeta. revert w. unfold run_sendall_events.
  assert (∀ w, sendall_ok base fut pos data w → sendall_within 0 fut pos data w →
    fut_lookup fut (sw_loop w) = Result VNone ∧ sent (sw_trace w) = base ++ data) as Hend.
  { intros w. unfold sendall_ok, sendall_within, fut_lookup.
    change (futs (sw_loop w) !! fut) with (fut_at fut w).
    destruct (fut_at fut w) as [[[|v| |] cbs]|]; simpl; try done; [lia|].
    by intros [-> ->]. }
  induction n as [|n IH]; intros w Hok Hn; simpl; [by apply Hend|].
  apply IH; [apply (sendall_event_ok base fut sock data pos SendReady w Hok)|].
  unfold sendall_within in Hn.
  destruct (fut_at fut w) as [[[|v| |] cbs]|] eqn:Hf; try done; cycle 1.
  { rewrite sendall_done_step by (by rewrite fut_done_at, Hf). cbn [snd].
    unfold sendall_within. by rewrite Hf. }
  pose proof (sendall_ready_step base fut sock data pos cbs w Hf Hok) as [_ Hstep].
  unfold sendall_ok in Hok. rewrite Hf in Hok. destruct Hok as [Hlt _].
  destruct (Hk (drop (cell_get pos (sw_loop w)) data) (sw_env w)) as (m & e' & Hs & Hm).
  { intros Hnil. apply (f_equal length) in Hnil. rewrite length_drop in Hnil. simpl in Hnil. lia. }
  destruct (Hstep m e' Hs) as [_ Hnext]. unfold sendall_within.
  case_decide; [by rewrite Hnext|]. destruct Hnext as [-> ->]. lia.
Qed.

(** *** The coroutine up to its [await] *)

Lemma check_socket_inv sock (w : W) r w1 :
  check_socket sock w = (r, w1) → w1 = w.
Proof.
  unfold check_socket, loop_get. destruct (is_SSLSocket sock); [by intros [= _ <-]|].
  rewrite run_bind, run_gets. cbv beta iota. by destruct (_ && _); intros [= _ <-].
Qed.

Lemma create_future_inv (w w1 : W) fut :
  on_loop create_future w = (Ret fut, w1) →
  fut = next_id (reactor (sw_loop w)) ∧
  fut_at fut w1 = Some (MkFuture Pending []) ∧
  sw_trace w1 = sw_trace w ∧ sw_env w1 = sw_env w ∧ sw_transports w1 = sw_transports w ∧
  reactor (sw_loop w1) = (new_flag (reactor (sw_loop w))).2.
Proof.
  unfold on_loop, zoom, create_future, check_closed. change (lget w) with (sw_loop w).
  rewrite !run_bind, run_gets. destruct (closed (sw_loop w)); [by intros [= ]|].
  rewrite run_ret. unfold alloc_flag. cbv beta iota. rewrite run_bind. simpl.
  intros [= <- <-]. split_and!; try done. unfold fut_at; simpl. by rewrite lookup_insert_eq.
Qed.

Lemma ensure_inv fo (w w1 : W) n :
  _ensure_fd_no_transport transport_closing fo w = (Ret n, w1) → w1 = w.
Proof.
  unfold _ensure_fd_no_transport. destruct fo as [m|[m|]]; rewrite run_bind;
    try (by intros [= ]); rewrite run_ret; cbv beta iota; rewrite run_bind, run_gets;
    destruct (transport_closing m w) as [[]|]; by intros [= _ <-].
Qed.

Lemma open_fd_inv fd (w w1 : W) :
  open_fd fd w = (Ret tt, w1) → ∃ e, w1 = lset (S := E) e w.
Proof.
  unfold open_fd, on_loop, zoom, check_closed. rewrite run_bind.
  change (lget w) with (sw_loop w). rewrite run_bind, run_gets.
  destruct (closed (sw_loop w)); [by intros [= ]|]. rewrite run_ret. cbv beta iota.
  case_decide; [by intros [= ]|]. unfold kernel, zoom.
  destruct (k_dup fd _) as [r e]. intros [= -> <-]. by exists e.
Qed.

Lemma add_writer_inv fd c (w w1 : W) h :
  _add_writer fd c w = (Ret h, w1) →
  futs (sw_loop w1) = futs (sw_loop w) ∧ cells (sw_loop w1) = cells (sw_loop w) ∧
  sw_trace w1 = sw_trace w ∧
  h = (add_watcher fd false c (reactor (sw_loop w))).1 ∧
  reactor (sw_loop w1) = (add_watcher fd false c (reactor (sw_loop w))).2.
Proof.
  unfold _add_writer. rewrite run_bind. destruct (open_fd fd w) as [[[]|] w2] eqn:Ho;
    [|by intros [= ]]. apply open_fd_inv in Ho as [e ->].
  unfold on_loop, zoom, on_reactor. change (lget (lset e w)) with (sw_loop w).
  destruct (add_watcher fd false c (reactor (sw_loop w))) as [h' r]. by intros [= <- <-].
Qed.

Lemma add_done_callback_pending fut c (w : W) cbs :
  fut_at fut w = Some (MkFuture Pending cbs) →
  on_loop (add_done_callback fut c) w =
    (Ret tt, lset (set_futs (<[fut := MkFuture Pending (cbs ++ [c])]> (futs (sw_loop w)))
                (sw_loop w)) w).
Proof.
  intros Hf. unfold on_loop, zoom, add_done_callback. change (lget w) with (sw_loop w).
  unfold fut_at in Hf. by rewrite Hf.
Qed.

Lemma try_now_send_inv sock data (w w1 : W) now :
  try_now (sys_send sock data) w = (Ret now, w1) →
  sw_loop w1 = sw_loop w ∧ sw_transports w1 = sw_transports w ∧
  sent (sw_trace w1) = sent (sw_trace w) ++ take (default 0 now) data ∧
  (KernelLaws E → default 0 now ≤ length data).
Proof.
  unfold try_now, try_else.
  destruct (sys_send_run sock data w) as [(n & e' & Hs & ->)|(x & e' & Hs & ->)].
  - intros [= <- <-]. simpl. split_and!; try done; [by rewrite sent_send|].
    intros. by eapply k_send_le.
  - destruct (try_again x); intros [= <- <-]. simpl. rewrite app_nil_r.
    split_and!; try done. intros. lia.
Qed.

Lemma watcher_slot fd d c r :
  wf r →
  (sl ← registered (add_watcher fd d c r).2 fd d;
   s ← slots (add_watcher fd d c r).2 !! sl;
   if dead s then None else cb s) = Some c.
Proof.
  intros Hwf. unfold add_watcher. rewrite install_registered, decide_True by done.
  cbn [mbind option_bind].
  match goal with |- context [install _ _ ?mk _] =>
    destruct (install_slot fd d mk r Hwf) as [-> _] end. done.
Qed.

Lemma sock_sendall_inv `{!KernelLaws E} sock data (w w' : W) c :
  sock_sendall sock data w = (Ret c, w') →
  match c with
  | Return v => v = VNone ∧ sent (sw_trace w') = sent (sw_trace w) ++ data
  | Await fut =>
      ∃ pos, pos = S fut ∧ sendall_ok (sent (sw_trace w)) fut pos data w' ∧
        fut_done fut (sw_loop w') = false ∧
        (wf (reactor (sw_loop w)) →
         writer_callback (fileno sock) w' = Some (CbSockSendall fut (fileno sock) data pos))
  end.
Proof.
  unfold sock_sendall. rewrite run_bind.
  destruct (check_socket sock w) as [[[]|] w0] eqn:Hc; [|by intros [= ]].
  apply check_socket_inv in Hc as ->. rewrite run_bind.
  destruct (try_now _ w) as [[now|] w1] eqn:Hn; [|by intros [= ]].
  apply try_now_send_inv in Hn as (Hl1 & _ & Hs1 & Hle). specialize (Hle _).
  rewrite <- Hl1. cbv beta iota zeta. case_decide as Hall.
  { rewrite run_ret. intros [= <- <-]. split; [done|]. by rewrite Hs1, Hall, firstn_all. }
  rewrite run_bind. destruct (on_loop create_future w1) as [[fut|] w2] eqn:Hf; [|by intros [= ]].
  apply create_future_inv in Hf as (Hfid & Hf2 & Ht2 & _ & _ & Hr2).
  rewrite run_bind. destruct (_ensure_fd_no_transport _ _ w2) as [[?|] w3] eqn:He;
    [|by intros [= ]]. apply ensure_inv in He as ->. cbv beta iota.
  rewrite run_bind. unfold new_cell. rewrite run_bind.
  unfold on_loop at 1, zoom, alloc_flag at 1. change (lget w2) with (sw_loop w2).
  cbn [new_flag]. cbv beta iota. rewrite run_bind.
  unfold on_loop at 1, zoom. rewrite run_modify, run_ret. cbv beta iota.
  set (pos := next_id (reactor (sw_loop w2))). set (w3 := lset _ (lset _ w2)).
  rewrite run_bind. destruct (_add_writer _ _ w3) as [[h|] w4] eqn:Hw; [|by intros [= ]].
  apply add_writer_inv in Hw as (Hf4 & Hc4 & Ht4 & Hh & Hr4).
  assert (fut_at fut w4 = Some (MkFuture Pending [])) as Hfut4
    by (unfold fut_at; rewrite Hf4; exact Hf2).
  rewrite run_bind, (add_done_callback_pending _ _ _ _ Hfut4), run_ret.
  set (w5 := lset _ w4). intros [= <- <-].
  assert (fut_at fut w5 = Some (MkFuture Pending [CbSockWriteDone (fileno sock) fut h])) as Hfut5
    by (unfold fut_at, w5; simpl; by rewrite lookup_insert_eq).
  exists pos. split_and!.
  - unfold pos. by rewrite Hr2, Hfid.
  - unfold sendall_ok. rewrite Hfut5.
    assert (cell_get pos (sw_loop w5) = default 0 now) as ->.
    { unfold cell_get, w5; simpl. rewrite Hc4. simpl. by rewrite lookup_insert_eq. }
    split; [lia|]. unfold w5; simpl. rewrite Ht4. unfold w3; simpl. by rewrite Ht2.
  - by rewrite fut_done_at, Hfut5.
  - intros Hwf. unfold writer_callback. change (reactor (sw_loop w5)) with (reactor (sw_loop w4)).
    rewrite Hr4. apply watcher_slot.
    change (reactor (sw_loop w3)) with (new_flag (reactor (sw_loop w2))).2.
    rewrite Hr2. by do 2 apply new_flag_wf.
Qed.

(** The run of a waiting [sock_sendall] through the reactor. *)
Lemma sock_sendall_waits `{!KernelLaws E} sock data (w w' : W) fut l :
  wf (reactor (sw_loop w)) →
  sock_sendall sock data w = (Ret (Await fut), w') →
  ∃ pos, sendall_ok (sent (sw_trace w)) fut pos data w' ∧
    fut_done fut (sw_loop w') = false ∧
    let w2 := fire_events fut (fileno sock) l w' in
    w2 = run_sendall_events fut (fileno sock) data pos l w' ∧
    writer_callback (fileno sock) w2 = Some (CbSockSendall fut (fileno sock) data pos).
Proof.
  intros Hwf Hrun. apply sock_sendall_inv in Hrun as (pos & _ & Hok & Hd & Hcb).
  exists pos. split; [done|]. split; [done|]. apply fire_events_sendall. by apply Hcb.
Qed.

(** C17: [sock_sendall] sends its data once, in order, whole.  However the
    kernel splits it, and whatever write-ready events (each runs the callback
    that is registered on the socket) and cancellations follow: if the coroutine
    returns at once all of it has been sent; otherwise a writer stays registered
    for as long as nothing removes it and what has been sent is a prefix of the
    data, a proper one while the future waits; a result is only given when
    everything has been sent; after an error or a cancellation a prefix has
    been.  The reactor's tables are as its operations leave them. *)
Theorem sock_sendall_integrity `{!KernelLaws E} sock data c (w w' : W) :
  wf (reactor (sw_loop w)) →
  sock_sendall sock data w = (Ret c, w') →
  match c with
  | Return v => v = VNone ∧ sent (sw_trace w') = sent (sw_trace w) ++ data
  | Await fut => ∀ l,
      let w2 := fire_events fut (fileno sock) l w' in
      is_Some (writer_callback (fileno sock) w2) ∧
      ∃ k, sent (sw_trace w2) = sent (sw_trace w) ++ take k data ∧
        match fut_lookup fut (sw_loop w2) with
        | Pending => k < length data
        | Result v => v = VNone ∧ k = length data
        | _ => True
        end
  end.
Proof.
  intros Hwf Hrun. destruct c as [v|fut]; [by apply sock_sendall_inv in Hrun|]. intros l.
  destruct (sock_sendall_waits sock data w w' fut l Hwf Hrun) as (pos & Hok & _ & Hrun' & Hcb).
  cbv zeta in *. split; [by eexists|]. rewrite Hrun'.
  apply (sendall_events_ok _ _ (fileno sock) _ _ l) in Hok. unfold sendall_ok in Hok.
  unfold fut_lookup. change (futs (sw_loop ?x) !! fut) with (fut_at fut x).
  destruct (fut_at fut _) as [[[|v|exc|] cbs]|]; simpl.
  - destruct Hok as [Hk Hs]. by eexists.
  - destruct Hok as [-> Hs]. exists (length data). by rewrite firstn_all.
  - destruct Hok as [k Hs]. by exists k.
  - destruct Hok as [k Hs]. by exists k.
  - destruct Hok as [k Hs]. by exists k.
Qed.

(** C18: Progress of [sock_sendall].  If the kernel takes at least one byte at
    every write-ready event, then after as many runs of the writer registered on
    the socket as there are bytes the future has its result and everything has
    been sent. *)
Theorem sock_sendall_completes `{!KernelLaws E} sock data fut (w w' : W) :
  wf (reactor (sw_loop w)) →
  (∀ d e, d ≠ [] → ∃ m e', k_send (fileno sock) d e = (Ret m, e') ∧ m ≠ 0) →
  sock_sendall sock data w = (Ret (Await fut), w') →
  let w2 := fire_events fut (fileno sock) (replicate (length data) SendReady) w' in
  fut_lookup fut (sw_loop w2) = Result VNone ∧
  sent (sw_trace w2) = sent (sw_trace w) ++ data.
Proof.
  intros Hwf Hk Hrun.
  destruct (sock_sendall_waits sock data w w' fut (replicate (length data) SendReady) Hwf Hrun)
    as (pos & Hok & Hd & -> & _).
  apply sendall_progress; try done.
  unfold sendall_within. rewrite fut_done_at in Hd.
  destruct (fut_at fut w') as [[[] ?]|]; try done. lia.
Qed.

(** ** One completion *)

(** Completing a pending future on an open loop: the outcome is stored, its
    callbacks are scheduled behind what is ready. *)
Lemma on_loop_finish_open f o cbs (w : W) :
  fut_at f w = Some (MkFuture Pending cbs) → closed (sw_loop w) = false →
  (on_loop (fut_finish f o) w).1 = Ret tt ∧
  fut_lookup f (sw_loop (on_loop (fut_finish f o) w).2) = o ∧
  re_callback <$> ready (sw_loop (on_loop (fut_finish f o) w).2) =
    (re_callback <$> ready (sw_loop w)) ++ cbs.
Proof.
  intros Hf Hc. destruct (on_loop_finish f o cbs w Hf) as (H1 & _).
  unfold fut_lookup. change (futs (sw_loop ?x) !! f) with (fut_at f x). rewrite H1.
  unfold on_loop, zoom, fut_finish. change (lget w) with (sw_loop w).
  unfold fut_at in Hf. rewrite Hf.
  destruct (schedule_ready cbs (set_futs (<[f:=MkFuture o []]> (futs (sw_loop w))) (sw_loop w)) Hc)
    as [Hr Hq].
  destruct (schedule_callbacks _ _) as [r s]; cbn [fst snd] in *. subst r. done.
Qed.

(** What a readiness callback does to its future. *)
Definition outcome_of (r : res value) : option fut_state :=
  match r with
  | Ret v => Some (Result v)
  | Raise x => if try_again x || is_exit x then None else Some (Exception x)
  end.

Lemma attempt_pending fut (m : M W value) cbs (w : W) :
  fut_at fut w = Some (MkFuture Pending cbs) →
  attempt fut m w =
    match m w with
    | (Ret v, w1) => on_loop (fut_finish fut (Result v)) w1
    | (Raise x, w1) =>
        except_io (mret tt) (λ exc, on_loop (fut_finish fut (Exception exc))) x w1
    end.
Proof.
  intros Hf. unfold attempt, loop_get. rewrite run_bind, run_gets.
  change (lget w) with (sw_loop w). rewrite fut_done_at, Hf. unfold try_else.
  by destruct (m w) as [[v|x] w1].
Qed.

(** The readiness callbacks of [sock_recv], [sock_recv_into],
    [sock_recvfrom], [sock_recvfrom_into], [sock_sendto] and [sock_connect]
    complete their future exactly once.  One system call is made while the
    future is pending: not ready, it stays pending and the watcher stays;
    otherwise the future gets the value or the error of that call and its
    callbacks are scheduled; once it is done, cancelled included, nothing is
    called any more. *)
Theorem attempt_completes_once fut (m : M W value) cbs (w : W) :
  closed (sw_loop w) = false →
  sw_loop (m w).2 = sw_loop w →
  let out := attempt fut m w in
  (fut_done fut (sw_loop w) = true → out = (Ret tt, w)) ∧
  (fut_at fut w = Some (MkFuture Pending cbs) →
   match outcome_of (m w).1 with
   | Some o =>
       out.1 = Ret tt ∧ fut_lookup fut (sw_loop out.2) = o ∧
       re_callback <$> ready (sw_loop out.2) = (re_callback <$> ready (sw_loop w)) ++ cbs ∧
       sw_trace out.2 = sw_trace (m w).2 ∧ attempt fut m out.2 = (Ret tt, out.2)
   | None =>
       out.2 = (m w).2 ∧ fut_at fut out.2 = Some (MkFuture Pending cbs)
   end).
Proof.
  intros Hc Hl. cbv zeta. split.
  { intros Hd. unfold attempt, loop_get. rewrite run_bind, run_gets.
    change (lget w) with (sw_loop w). by rewrite Hd. }
  intros Hf.
  assert (∀ o, fut_lookup fut (sw_loop (on_loop (fut_finish fut o) (m w).2).2) = o →
    o ≠ Pending → attempt fut m (on_loop (fut_finish fut o) (m w).2).2 =
      (Ret tt, (on_loop (fut_finish fut o) (m w).2).2)) as Hagain.
  { intros o Ho Hne. unfold attempt, loop_get. rewrite run_bind, run_gets.
    change (lget ?x) with (sw_loop x). unfold fut_done. rewrite Ho. by destruct o. }
  rewrite (attempt_pending fut m cbs w Hf).
  assert (fut_at fut (m w).2 = Some (MkFuture Pending cbs)) as Hf1
    by (unfold fut_at; by rewrite Hl).
  assert (closed (sw_loop (m w).2) = false) as Hc1 by by rewrite Hl.
  assert (∀ o, let out := on_loop (fut_finish fut o) (m w).2 in
    out.1 = Ret tt ∧ fut_lookup fut (sw_loop out.2) = o ∧
    re_callback <$> ready (sw_loop out.2) = (re_callback <$> ready (sw_loop w)) ++ cbs ∧
    sw_trace out.2 = sw_trace (m w).2) as Hfin.
  { intros o. cbv zeta. rewrite <- Hl.
    destruct (on_loop_finish_open fut o cbs (m w).2 Hf1 Hc1) as (-> & -> & ->).
    by destruct (on_loop_finish fut o cbs (m w).2 Hf1) as (_ & _ & -> & _). }
  destruct (m w) as [[v|x] w1]; cbn [fst snd outcome_of] in *.
  - destruct (Hfin (Result v)) as (-> & H2 & -> & ->). split_and!; try done.
    by apply Hagain.
  - unfold except_io. destruct (try_again x); cbn [orb]; [done|].
    destruct (is_exit x); [done|].
    destruct (Hfin (Exception x)) as (-> & H2 & -> & ->). split_and!; try done.
    by apply Hagain.
Qed.

(** ** Clean-up and guards *)

Definition guard_error : exn := RuntimeError "File descriptor is used by transport".

(** The public [add_reader], [remove_reader], [add_writer] and
    [remove_writer].  On a descriptor of a transport that is not closing they
    raise and change nothing; otherwise they are the loop's own operations;
    an object without a usable [fileno()] is a [ValueError]. *)
Theorem public_watchers_guarded fo cb (w : W) :
  match match fo with Fileno n => Some n | FileObj f => f end with
  | None =>
      add_reader transport_closing fo cb w = (Raise (ValueError "Invalid file object"), w) ∧
      remove_writer transport_closing fo w = (Raise (ValueError "Invalid file object"), w)
  | Some fd =>
      match sw_transports w !! fd with
      | Some false =>
          add_reader transport_closing fo cb w = (Raise guard_error, w) ∧
          add_writer transport_closing fo cb w = (Raise guard_error, w) ∧
          remove_reader transport_closing fo w = (Raise guard_error, w) ∧
          remove_writer transport_closing fo w = (Raise guard_error, w)
      | _ =>
          add_reader transport_closing fo cb w = (_add_reader fd cb;; mret tt) w ∧
          add_writer transport_closing fo cb w = (_add_writer fd cb;; mret tt) w ∧
          remove_reader transport_closing fo w = _remove_reader fd w ∧
          remove_writer transport_closing fo w = _remove_writer fd w
      end
  end.
Proof.
  unfold add_reader, add_writer, remove_reader, remove_writer, _ensure_fd_no_transport.
  destruct fo as [fd|[fd|]]; [..|done]; rewrite !run_bind, run_ret, run_bind, run_gets;
    unfold transport_closing; by destruct (sw_transports w !! fd) as [[]|].
Qed.

Lemma remove_reader_free fd (w : W) :
  sw_transports w !! fd ≠ Some false → closed (sw_loop w) = false →
  remove_reader transport_closing (Fileno fd) w =
    (Ret (detach_watcher fd true (reactor (sw_loop w))).1,
     lset (set_reactor (detach_watcher fd true (reactor (sw_loop w))).2 (sw_loop w)) w).
Proof.
  intros Ht Hc. unfold remove_reader, _ensure_fd_no_transport.
  rewrite run_bind, run_bind, run_ret, run_bind, run_gets. unfold transport_closing.
  destruct (sw_transports w !! fd) as [[]|] eqn:Hfd; [|done|];
    rewrite run_ret; cbv beta iota; unfold _remove_reader, on_loop, zoom, remove_watcher,
      on_reactor; change (lget w) with (sw_loop w); rewrite run_bind, run_gets, Hc;
    by destruct (detach_watcher fd true (reactor (sw_loop w))).
Qed.

(** C19: The clean-up callback of a receiving coroutine removes the watcher
    that coroutine registered and no other: if its handle has been cancelled
    (the descriptor was registered again, or removed) it does nothing; if not
    the read direction is unregistered, its handle cancelled, and every other
    direction left alone. *)
Theorem read_done_cleans_up fd fut h hs (w : W) :
  reachable (reactor (sw_loop w), hs) → h ∈ hs → h_fd h = fd → h_is_read h = true →
  closed (sw_loop w) = false → sw_transports w !! fd ≠ Some false →
  let out := _sock_read_done fd fut h w in
  let r' := reactor (sw_loop out.2) in
  out.1 = Ret tt ∧
  if cancelled h (reactor (sw_loop w)) then out.2 = w
  else registered r' fd true = None ∧ cancelled h r' = true ∧
       ∀ fd' d', ¬ (fd' = fd ∧ d' = true) →
         registered r' fd' d' = registered (reactor (sw_loop w)) fd' d'.
Proof.
  intros [Hwf Hi]%reachable_rinv Hh Hfd Hd Hc Ht. cbn [fst snd] in *. cbv zeta.
  unfold _sock_read_done, handle_cancelled, loop_get.
  rewrite run_bind, run_gets. change (lget w) with (sw_loop w).
  destruct (cancelled h (reactor (sw_loop w))) eqn:Hcan; [done|].
  rewrite run_bind, remove_reader_free by done. rewrite run_ret. split; [done|].
  cbn [snd]. change (reactor (sw_loop (lset ?l w))) with (reactor l). simpl. split_and!.
  - by rewrite detach_registered, decide_True.
  - unfold cancelled. rewrite <- Hfd, <- Hd.
    destruct (detach_issued (h_fd h) (h_is_read h) (reactor (sw_loop w)) h Hwf (Hi h Hh))
      as [-> |(sl & s & Hr & _)]; [done|].
    rewrite detach_registered, decide_True in Hr by done. done.
  - intros fd' d' Hne. rewrite detach_registered, decide_False; [done|].
    intros [H1 H2]. apply Hne. by rewrite H1, H2.
Qed.

(** A connection attempt in progress.  The write-ready callback of
    [sock_connect] reads the pending socket error once: none, and the future
    succeeds; one the loop retries on, and it stays pending; any other, and it
    fails with that error.  The connection address is never connected to
    again. *)
Theorem connect_outcome fut sock a cbs err e' (w : W) :
  fut_at fut w = Some (MkFuture Pending cbs) → closed (sw_loop w) = false →
  k_so_error sock (sw_env w) = (Ret err, e') →
  let out := run_sock_callback (CbSockConnect fut sock a) w in
  out.1 = Ret tt ∧ sw_env out.2 = e' ∧
  fut_lookup fut (sw_loop out.2) =
    if decide (err = 0%Z) then Result VNone
    else if try_again (OSError err) then Pending else Exception (OSError err).
Proof.
  intros Hf Hc Hk. cbv zeta. cbn [run_sock_callback]. unfold _sock_connect_cb.
  rewrite (attempt_pending _ _ cbs w Hf), run_bind.
  unfold kernel, zoom. change (lget w) with (sw_env w). rewrite Hk. cbv beta iota.
  set (w1 := lset e' w).
  assert (fut_at fut w1 = Some (MkFuture Pending cbs)) as Hf1 by exact Hf.
  assert (∀ o, let out := on_loop (fut_finish fut o) w1 in
    out.1 = Ret tt ∧ sw_env out.2 = e' ∧ fut_lookup fut (sw_loop out.2) = o) as Hfin.
  { intros o. cbv zeta. destruct (on_loop_finish_open fut o cbs w1 Hf1 Hc) as (-> & -> & _).
    by destruct (on_loop_finish fut o cbs w1 Hf1) as (_ & _ & _ & ->). }
  destruct (decide (err = 0)%Z) as [->|Hne].
  - rewrite decide_False by (intros Hn; by apply Hn). rewrite run_ret. apply Hfin.
  - rewrite decide_True by done. rewrite run_raise. unfold except_io.
    destruct (try_again (OSError err)).
    + rewrite run_ret. split_and!; try done. unfold fut_lookup.
      change (futs (sw_loop ?x) !! fut) with (fut_at fut x). cbn [snd]. by rewrite Hf1.
    + apply Hfin.
Qed.
End sock.

(** ** The properties at work *)

Local Abbreviation demo := (sworld script_env).
Definition demo_sock : socket := MkSocket 7 false true.
Definition demo_start (env : script_env) : demo := MkSworld empty_loop env [] ∅.
Definition hello : bytes := [x68; x65; x6c; x6c; x6f].


(** Two bytes go at once, then the kernel takes one, is not ready, and takes
    the rest. *)
Definition demo_sendall : demo :=
  (sock_sendall (Kernel0 := script_kernel true) demo_sock hello
     (demo_start [AnsN 2; AnsN 1; AnsErr (OSError EAGAIN); AnsN 9])).2.
Definition demo_events : list sendall_event := [SendReady; SendReady; SendReady; CancelFut].

Lemma sock_sendall_integrity_witness :
  let w2 := fire_events (Kernel0 := script_kernel true) 0 7 demo_events demo_sendall in
  fut_lookup 0 (sw_loop demo_sendall) = Pending ∧
  is_Some (writer_callback 7 w2) ∧ fut_lookup 0 (sw_loop w2) = Result VNone ∧
  sent (sw_trace w2) = hello.
Proof.
  cbv zeta. split; [vm_compute; reflexivity|].
  destruct (sock_sendall_integrity (Kernel0 := script_kernel true) demo_sock hello (Await 0)
    (demo_start [AnsN 2; AnsN 1; AnsErr (OSError EAGAIN); AnsN 9]) demo_sendall
    empty_wf ltac:(vm_compute; reflexivity) demo_events) as [Hreg (k & Hs & Hf)].
  split; [exact Hreg|].
  assert (fut_lookup 0 (sw_loop (fire_events (Kernel0 := script_kernel true) 0 7 demo_events
    demo_sendall)) = Result VNone) as Hr by (vm_compute; reflexivity).
  split; [exact Hr|]. change (fileno demo_sock) with 7%Z in *. rewrite Hr in Hf.
  destruct Hf as [_ ->]. exact Hs.
Defined.

(** A kernel that takes one byte at a time. *)
Definition slow_kernel : Kernel script_env := {|
  HAS_SENDMSG := false;
  SC_IOV_MAX := 1;
  k_send _ data e := (Ret (min 1 (length data)), e);
  k_sendmsg _ bufs e := (Ret (min 1 (length (concat bufs))), e);
  k_sendto _ data _ e := (Ret (length data), e);
  k_recv _ _ e := (Raise (OSError EAGAIN), e);
  k_recv_into _ _ e := (Raise (OSError EAGAIN), e);
  k_recvfrom _ _ e := (Raise (OSError EAGAIN), e);
  k_recvfrom_into _ _ e := (Raise (OSError EAGAIN), e);
  k_connect _ _ e := (Ret tt, e);
  k_so_error _ e := (Ret 0%Z, e);
  k_accept _ e := (Raise (OSError EAGAIN), e);
  k_shutdown _ e := (Ret tt, e);
  k_close _ e := (Ret tt, e);
  k_dup _ e := (Ret tt, e);
  k_getsockname _ e := (Ret localhost, e);
  k_getpeername _ e := (Ret localhost, e);
|}.
#[local] Instance slow_kernel_laws : @KernelLaws script_env slow_kernel.
Proof. split; simpl; intros; simplify_eq; destruct (length _); simpl; lia. Qed.

Lemma sock_sendall_completes_witness :
  let w2 := fire_events (Kernel0 := slow_kernel) 0 7 (replicate 5 SendReady)
              (sock_sendall (Kernel0 := slow_kernel) demo_sock hello (demo_start [])).2 in
  fut_lookup 0 (sw_loop w2) = Result VNone ∧ sent (sw_trace w2) = hello.
Proof.
  apply (sock_sendall_completes (Kernel0 := slow_kernel) demo_sock hello 0 (demo_start [])
    (sock_sendall (Kernel0 := slow_kernel) demo_sock hello (demo_start [])).2).
  - exact empty_wf.
  - intros d e Hd. exists (min 1 (length d)), e. split; [reflexivity|].
    destruct d; [done|]. simpl. lia.
  - vm_compute; reflexivity.
Defined.

(** A [sock_recv] that waits, and the clean-up callback with its handle. *)
Definition demo_recv (env : script_env) : demo :=
  (sock_recv (Kernel0 := script_kernel true) demo_sock 16 (demo_start env)).2.
Definition demo_handle : FdHandle := MkFdHandle 7 true 1.

Lemma attempt_completes_once_witness :
  fut_lookup 0 (sw_loop (demo_recv [AnsErr (OSError EAGAIN); AnsData hello])) = Pending ∧
  let out := attempt 0 (recv_value (Kernel0 := script_kernel true) 7 16)
               (demo_recv [AnsErr (OSError EAGAIN); AnsData hello]) in
  fut_lookup 0 (sw_loop out.2) = Result (VBytes hello) ∧
  re_callback <$> ready (sw_loop out.2) = [CbSockReadDone 7 0 demo_handle].
Proof.
  split; [vm_compute; reflexivity|]. cbv zeta.
  destruct (attempt_completes_once 0 (recv_value (Kernel0 := script_kernel true) 7 16)
    [CbSockReadDone 7 0 demo_handle] (demo_recv [AnsErr (OSError EAGAIN); AnsData hello])
    ltac:(vm_compute; reflexivity) ltac:(vm_compute; reflexivity)) as [_ H].
  specialize (H ltac:(vm_compute; reflexivity)).
  destruct H as (_ & H2 & H3 & _). split; [exact H2|exact H3].
Defined.

(** An issued handle and the world it belongs to, reached by one registration
    after the future was made. *)
Definition demo_wait : demo := demo_recv [AnsErr (OSError EAGAIN)].

Lemma demo_wait_reachable : reachable (reactor (sw_loop demo_wait), [demo_handle]).
Proof.
  eapply rtc_l; [by eapply (step_flag 0 empty_reactor)|].
  eapply rtc_l; [by eapply (step_add 7 true (CbSockRecv 0 7 16))|]. vm_compute. apply rtc_refl.
Qed.

Lemma read_done_cleans_up_witness :
  registered (reactor (sw_loop demo_wait)) 7 true = Some 2 ∧
  registered (reactor (sw_loop (_sock_read_done 7 0 demo_handle demo_wait).2)) 7 true = None.
Proof.
  split; [vm_compute; reflexivity|].
  destruct (read_done_cleans_up 7 0 demo_handle [demo_handle] demo_wait demo_wait_reachable)
    as [_ H]; [by left|reflexivity|reflexivity|vm_compute; reflexivity|discriminate|].
  rewrite (eq_refl : cancelled demo_handle (reactor (sw_loop demo_wait)) = false) in H.
  exact (proj1 H).
Defined.

Lemma connect_outcome_witness :
  fut_lookup 0 (sw_loop (run_sock_callback (Kernel0 := script_kernel true)
    (CbSockConnect 0 7 localhost)
    (sock_connect (Kernel0 := script_kernel true) demo_sock localhost
       (demo_start [AnsErr (OSError EAGAIN); AnsN 111])).2).2) = Exception (OSError 111).
Proof.
  destruct (connect_outcome (Kernel0 := script_kernel true) 0 7 localhost
    [CbSockWriteDone 7 0 (MkFdHandle 7 false 1)] 111 []
    (sock_connect (Kernel0 := script_kernel true) demo_sock localhost
       (demo_start [AnsErr (OSError EAGAIN); AnsN 111])).2) as (_ & _ & H);
    [vm_compute; reflexivity..|]. exact H.
Defined.
