(* ===== verification/Serving.v ===== *)
(** * Listening sockets (python/tokioop/loop.py, lines 1350-1437 and 1496-1498)

    [_start_serving], [_accept_connection] and [_stop_serving] on a loop with its
    timers: the accept loop of one readiness event, and the retry after the
    process has run out of resources. *)

From Stdlib Require Import Strings.Byte.
From stdpp Require Import base tactics list gmap strings.
From S2P Require Import Prelude State Reactor Env Loop Scheduler.

(** ** State *)

(** Outside the loop: the system, the clock, the listening sockets that have been
    closed, and the contexts handed to [call_exception_handler] (with the default
    handler, which prints them). *)
Record serving (E : Type) := MkServing {
  v_env : E;
  v_clock : f64;
  v_closed : gset Z;
  v_reports : list exn;
}.
Arguments MkServing {E}.
Arguments v_env {E}.
Arguments v_clock {E}.
Arguments v_closed {E}.
Arguments v_reports {E}.

Definition set_app {A} (a : A) (w : sched A) : sched A :=
  MkSched (s_loop w) (timers w) (next_seq w) (io w) (running w) (stop_requested w) (ran w)
    (released w) (permit w) a.

#[export] Instance serving_env {E} : HasEnv (sched (serving E)) E := {|
  lget w := v_env (app w);
  lset e w := set_app (MkServing e (v_clock (app w)) (v_closed (app w)) (v_reports (app w))) w |}.

(** Errors that mean the process is out of resources. *)
Definition out_of_resources (e : exn) : bool :=
  match errno_of e with
  | Some n => bool_decide (n = EMFILE ∨ n = ENFILE ∨ n = ENOBUFS ∨ n = ENOMEM)
  | None => false
  end.

(** [constants.ACCEPT_RETRY_DELAY]: one second. *)
Definition ACCEPT_RETRY_DELAY : f64 := Fin one.

Section serving.
Context {E : Type} `{!Kernel E}.
Local Abbreviation W := (sched (serving E)).

(** [sock.fileno()]: a socket is named by its fd, and answers -1 once closed. *)
Definition fileno (sock : Z) (w : W) : Z :=
  if decide (sock ∈ v_closed (app w)) then (-1)%Z else sock.

(** [self.call_exception_handler({...})] with the default handler, which only
    logs. *)
Definition report (exc : exn) : M W unit :=
  modify (λ w, set_app (MkServing (v_env (app w)) (v_clock (app w)) (v_closed (app w))
                          (v_reports (app w) ++ [exc])) w).

(** [create_task(self._accept_connection2(...))]: the first step is scheduled. *)
Definition create_task (first_step : callback) : M W unit :=
  on_loop check_closed;; on_loop (call_soon first_step);; mret tt.

Definition _start_serving (sock : Z) (backlog : nat) : M W unit :=
  fd ← gets (fileno sock);
  _add_reader fd (CbAcceptConnection sock backlog);; mret tt.

(** One round of the loop of [_accept_connection]; [true] means the loop goes on.
    [conn.setblocking(False)] is part of accepting. *)
Definition accept_one (sock : Z) (backlog : nat) : M W bool :=
  fd ← gets (fileno sock);
  try_else (kernel (k_accept fd))
    (λ exc,
      if is_ConnectionAbortedError exc then mret true
      else if try_again exc then mret false
      else if out_of_resources exc then
        report exc;;
        fd ← gets (fileno sock);
        _remove_reader fd;;
        call_later v_clock ACCEPT_RETRY_DELAY (CbStartServing sock backlog);;
        mret true
      else raise exc)
    (λ r, create_task (CbAcceptConnection2 r.1 r.2);; mret true).

(** [for _ in range(n)]. *)
Fixpoint accept_loop (n : nat) (sock : Z) (backlog : nat) : M W unit :=
  match n with
  | 0 => mret tt
  | S n =>
      go ← accept_one sock backlog;
      if (go : bool) then accept_loop n sock backlog else mret tt
  end.

Definition _accept_connection (sock : Z) (backlog : nat) : M W unit :=
  accept_loop (backlog + 1) sock backlog.

Definition _stop_serving (sock : Z) : M W unit :=
  fd ← gets (fileno sock);
  _remove_reader fd;;
  modify (λ w, set_app (MkServing (v_env (app w)) (v_clock (app w)) ({[sock]} ∪ v_closed (app w))
                          (v_reports (app w))) w).

(** What the loop runs for a listening socket. *)
Definition run_serving_callback (c : callback) : M W unit :=
  match c with
  | CbStartServing sock backlog => _start_serving sock backlog
  | CbAcceptConnection sock backlog => _accept_connection sock backlog
  | _ => mret tt
  end.

(** ** Reference definition *)

(** What accepting up to [n] times finds, up to the first time nothing is there
    or an error ends it. *)
Inductive accepted :=
  | Conn (conn : Z) (peer : addr)
  | Aborted
  | Exhausted (exc : exn)
  | Blocked
  | Failed (exc : exn).

Definition classify (r : res (Z * addr)) : accepted :=
  match r with
  | Ret (c, a) => Conn c a
  | Raise exc =>
      if is_ConnectionAbortedError exc then Aborted
      else if try_again exc then Blocked
      else if out_of_resources exc then Exhausted exc
      else Failed exc
  end.
Definition last_accept (a : accepted) : bool :=
  match a with Blocked | Failed _ => true | _ => false end.

Fixpoint accepts (n : nat) (fd : Z) (e : E) : list accepted * E :=
  match n with
  | 0 => ([], e)
  | S n =>
      let '(r, e) := k_accept fd e in
      if last_accept (classify r) then ([classify r], e)
      else let '(l, e) := accepts n fd e in (classify r :: l, e)
  end.

(** What follows from it. *)
Definition task_of (a : accepted) : option callback :=
  match a with Conn c p => Some (CbAcceptConnection2 c p) | _ => None end.
Definition exhaustion (a : accepted) : option exn :=
  match a with Exhausted exc => Some exc | _ => None end.
Definition accept_outcome (l : list accepted) : res unit :=
  match last l with Some (Failed exc) => Raise exc | _ => Ret tt end.
End serving.
