(* ===== verification/ServingProps.v ===== *)
(** * Listening sockets: what accepting promises

    One readiness event accepts what is there, in order and within its bound,
    and leaves the listener registered or a retry pending; what a retry can lose;
    closing. *)

From Stdlib Require Import Strings.Byte.
From stdpp Require Import base tactics list gmap strings.
From S2P Require Import Prelude State Reactor ReactorProps Env Loop Scheduler SchedulerProps Serving.
From S2P Require Import Script.

Section serving.
Context {E : Type} `{!Kernel E}.
Local Abbreviation W := (sched (serving E)).

Definition listener (fd : Z) (w : W) : option slot_id := registered (reactor (s_loop w)) fd true.

(** ** What accepting changes *)

(** The world after accepting [l] on [sock]. *)
Record serves (sock : Z) (backlog : nat) (l : list accepted) (w w' : W) : Prop := {
  sv_ready : re_callback <$> ready (s_loop w') =
             (re_callback <$> ready (s_loop w)) ++ omap task_of l;
  sv_reports : v_reports (app w') = v_reports (app w) ++ omap exhaustion l;
  sv_timers : ∃ ts, timers w' = timers w ++ ts ∧ length ts = length (omap exhaustion l) ∧
    Forall (λ t, when t = fadd (v_clock (app w)) ACCEPT_RETRY_DELAY ∧
                 re_callback (entry t) = CbStartServing sock backlog) ts;
  sv_registered fd d : registered (reactor (s_loop w')) fd d =
    if decide (omap exhaustion l ≠ [] ∧ fd = fileno sock w ∧ d = true) then None
    else registered (reactor (s_loop w)) fd d;
  sv_open : closed (s_loop w') = closed (s_loop w);
  sv_clock : v_clock (app w') = v_clock (app w);
  sv_closed : v_closed (app w') = v_closed (app w);
}.

Lemma serves_fileno sock backlog l (w w' : W) :
  serves sock backlog l w w' → fileno sock w' = fileno sock w.
Proof. intros H. unfold fileno. by rewrite (sv_closed _ _ _ _ _ H). Qed.

Lemma serves_nil sock backlog (w w' : W) e :
  w' = lset (S := E) e w → serves sock backlog [] w w'.
Proof.
  intros ->. split; try done; simpl; rewrite ?app_nil_r; try done.
  exists []. by rewrite app_nil_r.
Qed.

Lemma serves_app sock backlog l1 l2 (w w1 w2 : W) :
  serves sock backlog l1 w w1 → serves sock backlog l2 w1 w2 →
  serves sock backlog (l1 ++ l2) w w2.
Proof.
  intros H1 H2. pose proof (serves_fileno _ _ _ _ _ H1) as Hfd.
  destruct H1 as [r1 p1 (t1 & T1 & n1 & F1) g1 o1 c1 k1].
  destruct H2 as [r2 p2 (t2 & T2 & n2 & F2) g2 o2 c2 k2].
  split; rewrite ?omap_app; try congruence.
  - by rewrite r2, r1, app_assoc.
  - by rewrite p2, p1, app_assoc.
  - exists (t1 ++ t2). rewrite T2, T1, <- app_assoc, !length_app, n1, n2. split_and!; [done..|].
    rewrite c1 in F2. by apply Forall_app.
  - intros fd d. rewrite g2, g1, Hfd.
    destruct (omap exhaustion l1) eqn:He1; simpl; [|].
    + repeat case_decide; tauto.
    + repeat case_decide; try done; exfalso; intuition congruence.
Qed.

(** ** One round *)

Lemma create_task_serves sock backlog c p (w : W) :
  closed (s_loop w) = false →
  let out := (create_task (CbAcceptConnection2 c p);; mret true : M W bool) w in
  out.1 = Ret true ∧ serves sock backlog [Conn c p] w out.2 ∧ v_env (app out.2) = v_env (app w).
Proof.
  intros Hc. cbv zeta. unfold create_task. rewrite run_bind, run_bind.
  unfold on_loop, zoom. change (lget w) with (s_loop w). rewrite check_closed_open by done.
  rewrite run_bind. change (lget (lset (s_loop w) w)) with (s_loop w).
  rewrite call_soon_open, !run_ret by done. cbn [fst snd]. split_and!; try done.
  split; cbn; try done.
  - by rewrite fmap_app.
  - by rewrite app_nil_r.
  - exists []. by rewrite app_nil_r.
Qed.

Definition retry_later (sock : Z) (backlog : nat) (exc : exn) : M W bool :=
  report exc;; fd ← gets (fileno sock); _remove_reader fd;;
  call_later v_clock ACCEPT_RETRY_DELAY (CbStartServing sock backlog);; mret true.

Lemma retry_later_run sock backlog exc (w : W) :
  closed (s_loop w) = false →
  retry_later sock backlog exc w =
    (Ret true,
     scheduled (fadd (v_clock (app w)) ACCEPT_RETRY_DELAY) (CbStartServing sock backlog)
       (set_loop (set_reactor (detach_watcher (fileno sock w) true (reactor (s_loop w))).2 (s_loop w))
          (report exc w).2)).
Proof.
  intros Hc. unfold retry_later. rewrite run_bind. unfold report at 1. rewrite run_modify.
  change (set_app _ w) with (report exc w).2. cbv beta iota. set (w1 := (report exc w).2).
  rewrite run_bind, run_gets, run_bind.
  unfold _remove_reader, on_loop, zoom, remove_watcher, on_reactor.
  change (lget w1) with (s_loop w). rewrite run_bind, run_gets, Hc. cbv beta iota.
  change (fileno sock w1) with (fileno sock w).
  destruct (detach_watcher (fileno sock w) true (reactor (s_loop w))) as [b r1].
  cbv beta iota. rewrite run_bind. unfold call_later. rewrite run_bind, run_gets.
  by rewrite call_at_run by exact Hc.
Qed.

Lemma exhausted_serves sock backlog exc (w : W) :
  closed (s_loop w) = false →
  let out := retry_later sock backlog exc w in
  out.1 = Ret true ∧ serves sock backlog [Exhausted exc] w out.2 ∧
  v_env (app out.2) = v_env (app w).
Proof.
  intros Hc. cbv zeta. rewrite retry_later_run by done. cbn [fst snd]. split_and!; try done.
  split; try done.
  - cbn. by rewrite app_nil_r.
  - eexists. split_and!; try done. by constructor.
  - intros fd d. etrans; [apply detach_registered|]. cbn [omap list_omap exhaustion].
    apply decide_ext. split; [by intros [<- <-]|by intros (_ & -> & ->)].
Qed.

Lemma accept_one_serves sock backlog (w : W) :
  closed (s_loop w) = false →
  let '(r, e') := k_accept (fileno sock w) (v_env (app w)) in
  let out := accept_one sock backlog w in
  out.1 = match classify r with Failed exc => Raise exc | a => Ret (negb (last_accept a)) end ∧
  serves sock backlog [classify r] w out.2 ∧ v_env (app out.2) = e'.
Proof.
  intros Hc. destruct (k_accept _ _) as [r e'] eqn:Hk. cbv zeta.
  unfold accept_one. rewrite run_bind, run_gets. unfold try_else, kernel, zoom.
  change (lget w) with (v_env (app w)). rewrite Hk. set (w1 := lset e' w).
  assert (serves sock backlog [] w w1) as Hw1 by by eapply serves_nil.
  assert (∀ a out, serves sock backlog [a] w1 out → serves sock backlog [a] w out) as Hlift
    by (intros a out; apply (serves_app sock backlog [] [a] w w1), Hw1).
  destruct r as [[c p]|exc]; cbn [classify].
  - destruct (create_task_serves sock backlog c p w1 Hc) as (H1 & H2 & H3).
    split_and!; [exact H1|apply Hlift, H2|exact H3].
  - assert (∀ a, task_of a = None → exhaustion a = None → serves sock backlog [a] w w1) as Hnone.
    { intros a H1 H2. destruct Hw1. split; cbn [omap list_omap]; by rewrite ?H1, ?H2. }
    destruct (is_ConnectionAbortedError exc); [by split_and!; try apply Hnone|].
    destruct (try_again exc); [by split_and!; try apply Hnone|].
    destruct (out_of_resources exc); [|by split_and!; try apply Hnone].
    destruct (exhausted_serves sock backlog exc w1 Hc) as (H1 & H2 & H3).
    split_and!; [exact H1|apply Hlift, H2|exact H3].
Qed.

Lemma accept_loop_serves n sock backlog (w : W) :
  closed (s_loop w) = false →
  let '(l, e') := accepts n (fileno sock w) (v_env (app w)) in
  let out := accept_loop n sock backlog w in
  out.1 = accept_outcome l ∧ serves sock backlog l w out.2 ∧ v_env (app out.2) = e' ∧
  length l ≤ n.
Proof.
  revert w. induction n as [|n IH]; intros w Hc; cbn [accepts accept_loop].
  { cbn zeta. split_and!; try done. apply (serves_nil _ _ _ _ (v_env (app w))). by destruct w as [????????? []]. }
  pose proof (accept_one_serves sock backlog w Hc) as Hone.
  destruct (k_accept (fileno sock w) (v_env (app w))) as [r e1]. cbv zeta in *.
  destruct Hone as (Hr & Hs & He). rewrite run_bind.
  destruct (accept_one sock backlog w) as [r1 w1]. cbn [fst snd] in *. subst r1 e1.
  destruct (last_accept (classify r)) eqn:Hlast.
  { destruct (classify r); try done; cbn [negb last_accept]; split_and!; try done; simpl; lia. }
  specialize (IH w1). rewrite (serves_fileno _ _ _ _ _ Hs) in IH.
  destruct (accepts n (fileno sock w) (v_env (app w1))) as [l e2]. cbv zeta in *.
  destruct IH as (H1 & H2 & H3 & H4); [by rewrite (sv_open _ _ _ _ _ Hs)|].
  assert (serves sock backlog (classify r :: l) w (accept_loop n sock backlog w1).2) as Hall
    by (by apply (serves_app _ _ [classify r] l w w1)).
  assert (accept_outcome (classify r :: l) = accept_outcome l) as Hout.
  { unfold accept_outcome. destruct l; [|done]. by destruct (classify r). }
  destruct (classify r); try done; rewrite Hout; split_and!; try done; simpl; lia.
Qed.

(** Registering a reader on an open loop. *)
Lemma add_reader_run fd c (w : W) :
  closed (s_loop w) = false →
  _add_reader fd c w =
    if decide (fd < 0)%Z then (Raise (ValueError "file descriptor cannot be negative"), w)
    else match k_dup fd (v_env (app w)) with
         | (Raise exc, e') => (Raise exc, lset e' w)
         | (Ret _, e') =>
             let '(h, r) := add_watcher fd true c (reactor (s_loop w)) in
             (Ret h, set_loop (set_reactor r (s_loop w)) (lset e' w))
         end.
Proof.
  intros Hc. unfold _add_reader, open_fd. rewrite run_bind, run_bind.
  unfold on_loop, kernel, zoom. change (lget w) with (s_loop w).
  rewrite check_closed_open by done. cbv beta iota.
  assert (lset (s_loop w) w = w) as -> by by destruct w.
  destruct (decide _); [done|]. change (lget w) with (v_env (app w)).
  by destruct (k_dup fd (v_env (app w))) as [[[]|exc] e'].
Qed.

(** ** Properties *)

(** C29: One readiness event of a listening socket, on an open loop, is the
    reference definition [accepts]: at most [backlog + 1] connections are taken, one task is started
    for each, in order; aborted ones are skipped; the event ends when nothing is
    left, without an error; an error that is not known is raised.  For every time
    the process was out of resources one report is made and one retry scheduled
    a second later.  If that happened the socket's reader has been removed, and
    it is the same otherwise: the socket never stops being served silently, nor
    keeps firing while nothing can be accepted.  No other watcher changes. *)
Theorem accept_event_serves sock backlog (w : W) :
  closed (s_loop w) = false →
  let '(l, e') := accepts (backlog + 1) (fileno sock w) (v_env (app w)) in
  let out := _accept_connection sock backlog w in
  out.1 = accept_outcome l ∧ length l ≤ backlog + 1 ∧ v_env (app out.2) = e' ∧
  re_callback <$> ready (s_loop out.2) = (re_callback <$> ready (s_loop w)) ++ omap task_of l ∧
  v_reports (app out.2) = v_reports (app w) ++ omap exhaustion l ∧
  (∃ ts, timers out.2 = timers w ++ ts ∧ length ts = length (omap exhaustion l) ∧
    Forall (λ t, when t = fadd (v_clock (app w)) ACCEPT_RETRY_DELAY ∧
                 re_callback (entry t) = CbStartServing sock backlog) ts) ∧
  listener (fileno sock w) out.2 =
    (if decide (omap exhaustion l = []) then listener (fileno sock w) w else None) ∧
  ∀ fd d, ¬ (fd = fileno sock w ∧ d = true) →
    registered (reactor (s_loop out.2)) fd d = registered (reactor (s_loop w)) fd d.
Proof.
  intros Hc. pose proof (accept_loop_serves (backlog + 1) sock backlog w Hc) as H.
  unfold _accept_connection. destruct (accepts _ _ _) as [l e']. cbv zeta in *.
  destruct H as (H1 & [r p t g o c k] & H3 & H4). split_and!; try done.
  - unfold listener. rewrite g. repeat case_decide; tauto.
  - intros fd d Hne. rewrite g. case_decide; tauto.
Qed.

(** What the retry does.  With the socket still open and the fd duplicated
    it is served again, by a fresh watcher.  When duplicating fails, as it does
    while descriptors are exhausted, the error is raised to the loop, which
    prints it: no watcher and no further retry are left.  After
    [_stop_serving] the retry raises and registers nothing. *)
Theorem retry_outcome sock backlog (w : W) :
  closed (s_loop w) = false → listener sock w = None → (0 ≤ sock)%Z →
  let out := run_serving_callback (CbStartServing sock backlog) w in
  let '(r, e') := k_dup sock (v_env (app w)) in
  timers out.2 = timers w ∧
  if decide (sock ∈ v_closed (app w)) then
    out.1 = Raise (ValueError "file descriptor cannot be negative") ∧ listener sock out.2 = None
  else match r with
  | Raise exc => out.1 = Raise exc ∧ listener sock out.2 = None
  | Ret _ => out.1 = Ret tt ∧ is_Some (listener sock out.2)
  end.
Proof.
  intros Hc Hl Hpos. cbv zeta. cbn [run_serving_callback]. unfold _start_serving, fileno.
  destruct (k_dup sock (v_env (app w))) as [r e'] eqn:Hk.
  rewrite run_bind, run_gets, run_bind, add_reader_run by done.
  destruct (decide (sock ∈ _)) as [Hin|Hin]; [by rewrite decide_True by lia|].
  rewrite decide_False by lia. rewrite Hk. destruct r as [[]|exc]; [|done].
  destruct (add_watcher sock true (CbAcceptConnection sock backlog) _) as [h r1] eqn:Ha.
  rewrite run_ret. split_and!; try done. unfold listener. simpl.
  replace r1 with (add_watcher sock true (CbAcceptConnection sock backlog)
    (reactor (s_loop w))).2 by (by rewrite Ha).
  unfold add_watcher. rewrite install_registered, decide_True by done. by eexists.
Qed.
End serving.

(** ** The properties at work *)

Definition serving_world (env : script_env) : sched (serving script_env) :=
  MkSched empty_loop [] 0 [] true false [] [] false (MkServing env (Fin 0) ∅ []).

(** Two connections, an aborted one and a shortage in between. *)
Definition accept_answers : script_env :=
  [AnsN 9; AnsErr (OSError ECONNABORTED); AnsErr (OSError EMFILE); AnsN 10].

Definition listening_world : sched (serving script_env) :=
  set_loop (set_reactor (add_watcher 5 true (CbAcceptConnection 5 100) empty_reactor).2 empty_loop)
    (serving_world accept_answers).

Lemma accept_event_serves_witness :
  let out := _accept_connection (Kernel0 := script_kernel true) 5 100 listening_world in
  out.1 = Ret tt ∧ is_Some (listener 5 listening_world) ∧ listener 5 out.2 = None ∧
  re_callback <$> ready (s_loop out.2) =
    [CbAcceptConnection2 9 localhost; CbAcceptConnection2 10 localhost] ∧
  length (timers out.2) = 1.
Proof.
  pose proof (accept_event_serves (Kernel0 := script_kernel true) 5 100
    listening_world eq_refl) as H.
  rewrite (eq_refl : accepts (Kernel0 := script_kernel true) (100 + 1)
    (fileno 5 listening_world) (v_env (app listening_world)) =
    ([Conn 9 localhost; Aborted; Exhausted (OSError EMFILE); Conn 10 localhost; Blocked], [])) in H.
  cbv zeta in H. destruct H as (H1 & _ & _ & H2 & _ & (ts & H3 & H4 & _) & H5 & _).
  split; [exact H1|]. split; [by eexists|]. split; [exact H5|]. split; [exact H2|]. rewrite H3. exact H4.
Defined.

(** The descriptors are still exhausted when the retry comes. *)
Lemma retry_outcome_witness :
  let out := run_serving_callback (Kernel0 := failing_kernel (OSError EMFILE))
               (CbStartServing 5 100) (serving_world []) in
  out.1 = Raise (OSError EMFILE) ∧ listener 5 out.2 = None ∧ timers out.2 = [].
Proof.
  destruct (retry_outcome (Kernel0 := failing_kernel (OSError EMFILE)) 5 100 (serving_world [])
    eq_refl eq_refl ltac:(lia)) as (H1 & H2 & H3).
  split; [exact H2|]. split; [exact H3|exact H1].
Defined.
