(* ===== verification/StreamInit.v ===== *)
(** * Constructing a stream transport

    The constructor establishes every invariant the properties of stream
    transports start from, and schedules the callbacks in the order the protocol
    relies on. *)

From Stdlib Require Import Strings.Byte.
From stdpp Require Import base tactics list gmap strings.
From S2P Require Import Prelude State Reactor ReactorProps Env Loop.
From S2P Require Import SelectorTransport Reads SocketTransport StreamReads StreamWrites.
From S2P Require Import Script StreamFrame.

(** What [_loop] an object under construction has. *)
Section init.
Context {E : Type} `{!Kernel E} `{!Protocol (world E bytes stream)}.
Local Abbreviation W := (world E bytes stream).

(** The names of a socket are there, or asking for them is an [OSError]. *)
Class NameLaws : Prop := {
  law_getsockname fd e x e' : k_getsockname fd e = (Raise x, e') → is_OSError x = true;
  law_getpeername fd e x e' : k_getpeername fd e = (Raise x, e') → is_OSError x = true;
}.
Context `{!NameLaws}.

Lemma name_run (m : M E addr) (w : W) :
  (∀ e x e', m e = (Raise x, e') → is_OSError x = true) →
  ∃ a e', try_except (a ← kernel m; mret (Some a))
            (λ e, if is_OSError e then mret None else raise e) w = (Ret a, lset (S := E) e' w).
Proof.
  intros Hm. unfold try_except, try_else. rewrite run_bind. unfold kernel, zoom.
  change (lget w) with (w_env w). destruct (m (w_env w)) as [[a|x] e'] eqn:Hr.
  - by eexists _, _.
  - rewrite (Hm _ _ _ Hr). by eexists _, _.
Qed.

(** The transport [__init__] leaves. *)
Definition made (sock : Z) (protocol : proto) (server : option nat)
    (peername sockname : option addr) : transport bytes stream :=
  let buffered := is_BufferedProtocol protocol in
  MkTransport bytes stream true sock true (Some protocol) true server peername sockname [] 0
    false false [] (if buffered then None else Some Tcp) false default_high_water
    default_low_water
    (MkStream false None
       (Some (if buffered then read_ready__get_buffer else read_ready__data_received))
       (Some (if HAS_SENDMSG then write_sendmsg else write_send))).

(** [set_protocol] in the middle of [__init__]: with no watcher on the fd it
    registers nothing. *)
Lemma init_set_protocol protocol (w : W) :
  _closing (w_tr w) = false → _drain_kind (w_tr w) = Some Tcp →
  is_BufferedProtocol protocol = false ∨
    _is_polling (_sock_fd (w_tr w)) false (w_loop w) = false →
  let buffered := is_BufferedProtocol protocol in
  set_protocol_ false protocol w =
  (Ret tt, update (λ t, set_connected true (set_protocol_attr (Some protocol)
     (set_drain_kind (if buffered then None else Some Tcp)
       (set_ext (set_read_ready_cb
          (Some (if buffered then read_ready__get_buffer else read_ready__data_received))
          (ext t)) t)))) w).
Proof.
  intros Hc Hk Hpoll buffered. unfold set_protocol_. fold buffered. cbv zeta.
  unfold put_ext. rewrite run_bind, run_put. cbv beta iota. rewrite run_bind, run_self.
  cbv beta iota. rewrite run_bind. unfold SelectorTransport.set_protocol.
  change (_drain_kind (w_tr (set_tr _ w))) with (_drain_kind (w_tr w)). rewrite Hk.
  subst buffered. unfold update. destruct (is_BufferedProtocol protocol); cycle 1.
  { rewrite decide_False by (by intros []). rewrite run_ret. cbv beta iota.
    rewrite run_bind, run_put. cbv beta iota. rewrite run_put. f_equal. unfold set_tr. simpl.
    destruct (w_tr w); simpl in *. by subst. }
  rewrite decide_True by done. destruct Hpoll as [?|Hpoll]; [done|].
  rewrite run_bind, run_put. cbv beta iota. rewrite run_bind, run_self. cbv beta iota.
  unfold loop_get. rewrite run_bind, run_gets; cbv beta iota.
  do 3 (rewrite run_bind, run_self; cbv beta iota). rewrite run_bind, run_gets. cbv beta iota.
  match goal with |- context [_is_polling ?fd ?d ?l] =>
    change (_is_polling fd d l) with (_is_polling (_sock_fd (w_tr w)) false (w_loop w)) end.
  rewrite Hpoll, !andb_false_r. cbn [when_]. rewrite run_ret. cbv beta iota.
  rewrite run_bind, run_put. cbv beta iota. by rewrite run_put.
Qed.

(** With a watcher on the fd a buffered protocol makes it register the reader
    again, which reads attributes that are not there yet. *)
Lemma init_set_protocol_fails protocol (w : W) :
  _closing (w_tr w) = false → _paused (w_tr w) = false → _loop (w_tr w) = true →
  closed (w_loop w) = false → _drain_kind (w_tr w) = Some Tcp →
  is_BufferedProtocol protocol = true →
  _is_polling (_sock_fd (w_tr w)) false (w_loop w) = true →
  ∃ t', set_protocol_ false protocol w =
    (Raise AttributeError,
     set_tr t' (lset (set_reactor (detach_watcher (_sock_fd (w_tr w)) true
                        (reactor (w_loop w))).2 (w_loop w)) w)).
Proof.
  intros Hc Hp Hl Hcl Hk Hb Hpoll. unfold set_protocol_. rewrite Hb. cbv zeta.
  unfold put_ext. rewrite run_bind, run_put. cbv beta iota. rewrite run_bind, run_self.
  cbv beta iota. rewrite run_bind.
  change (_drain_kind (w_tr (set_tr _ w))) with (_drain_kind (w_tr w)). rewrite Hk.
  rewrite decide_True by done. rewrite run_bind, run_put. cbv beta iota.
  rewrite run_bind, run_self. cbv beta iota.
  unfold loop_get. rewrite run_bind, run_gets; cbv beta iota.
  do 3 (rewrite run_bind, run_self; cbv beta iota). rewrite run_bind, run_gets. cbv beta iota.
  match goal with |- context [_is_polling ?fd ?d ?l] =>
    change (_is_polling fd d l) with (_is_polling (_sock_fd (w_tr w)) false (w_loop w)) end.
  rewrite Hpoll. set (w1 := set_tr _ (set_tr _ w)).
  change (_loop (w_tr w1)) with (_loop (w_tr w)). change (closed (lget w1)) with (closed (w_loop w)).
  change (_closing (w_tr w1)) with (_closing (w_tr w)). change (_paused (w_tr w1)) with (_paused (w_tr w)).
  rewrite Hl, Hcl, Hc, Hp. cbn [negb andb when_].
  rewrite run_bind, run_remove_reader by done. cbv beta iota. rewrite run_raise.
  exists (w_tr w1). f_equal. unfold unregister, remove_watcher, on_reactor.
  change (w_loop w1) with (w_loop w). change (_sock_fd (w_tr w1)) with (_sock_fd (w_tr w)).
  rewrite run_bind, run_gets, Hcl. by destruct (detach_watcher _ _ _).
Qed.

(** The constructor up to [set_protocol]. *)
Lemma names_run {A} (rest : M W A) sp sock protocol extra server (w : W) :
  ∃ w3, (put (λ _, new_transport (Some Tcp) (MkStream false None None None));;
     SelectorTransport.__init__ sp sock protocol extra server;; rest) w =
    ((sp protocol;;
      put (λ t, set_server server (set_buffer [] (set_conn_lost 0
              (set_closing false (set_paused false (set_replay [] t))))));;
      match server with Some s => log (EvAttach s) | None => mret tt end;;
      modify (λ w, set_transports ({[ _sock_fd (w_tr w) ]} ∪ w_transports w) w));; rest) w3 ∧
    w_loop w3 = w_loop w ∧ w_trace w3 = w_trace w ∧ w_transports w3 = w_transports w ∧
    ∃ peername sockname, w_tr w3 = MkTransport bytes stream true sock true None false None
      peername sockname [] 0 false false [] (Some Tcp) false default_high_water default_low_water
      (MkStream false None None None).
Proof.
  rewrite run_bind, run_put. cbv beta iota. set (w0 := set_tr _ w).
  unfold SelectorTransport.__init__. rewrite !run_bind.
  destruct (name_run (k_getsockname sock) w0 (law_getsockname sock)) as (sockname & e1 & ->).
  cbv beta iota. set (w1 := lset e1 w0). rewrite run_bind.
  assert (∃ peername e2, (match extra with
    | Some a => mret (Some a)
    | None => try_except (a ← kernel (k_getpeername sock); mret (Some a))
                (λ e, if is_OSError e then mret None else raise e)
    end : M W (option addr)) w1 = (Ret peername, lset (S := E) e2 w1)) as (peername & e2 & ->).
  { destruct extra as [a|]; [exists (Some a), e1; by rewrite run_ret|].
    apply name_run, (law_getpeername sock). }
  cbv beta iota. set (w2 := lset e2 w1). rewrite run_bind, run_put. cbv beta iota.
  set (w3 := set_tr _ w2). exists w3. split; [by rewrite run_bind|].
  split_and!; try done. by exists peername, sockname.
Qed.

(** Everything before the three [call_soon]s. *)
Lemma base_init_run {A} (rest : M W A) sock protocol extra server (w : W) :
  is_BufferedProtocol protocol = false ∨ _is_polling sock false (w_loop w) = false →
  ∃ peername sockname e',
    (put (λ _, new_transport (Some Tcp) (MkStream false None None None));;
     SelectorTransport.__init__ (set_protocol_ false) sock protocol extra server;;
     put_ext (set_eof false);; put_ext (set_empty_waiter None);;
     put_ext (set_write_ready (Some (if HAS_SENDMSG then write_sendmsg else write_send)));;
     rest) w =
    rest (MkWorld (w_loop w) (made sock protocol server peername sockname) e'
            (w_trace w ++ option_list (EvAttach <$> server)) ({[sock]} ∪ w_transports w)).
Proof.
  intros Hpoll.
  destruct (names_run (put_ext (set_eof false);; put_ext (set_empty_waiter None);;
     put_ext (set_write_ready (Some (if HAS_SENDMSG then write_sendmsg else write_send)));;
     rest) (set_protocol_ false) sock protocol extra server w)
    as (w3 & -> & Hl & Ht & Hts & peername & sockname & Htr).
  exists peername, sockname, (w_env w3). rewrite <- Hl in Hpoll |- *. rewrite <- Ht, <- Hts.
  rewrite run_bind, run_bind, init_set_protocol by (rewrite Htr; done). cbv beta iota.
  set (w4 := update _ w3). rewrite run_bind, run_put.
  cbv beta iota. set (w5 := set_tr _ w4). rewrite run_bind.
  assert ((match server with Some s => log (EvAttach s) | None => mret tt end : M W unit) w5 =
    (Ret tt, MkWorld (w_loop w5) (w_tr w5) (w_env w5)
               (w_trace w5 ++ option_list (EvAttach <$> server)) (w_transports w5))) as ->.
  { destruct server; [done|]. rewrite run_ret. simpl. by rewrite app_nil_r. }
  cbv beta iota. rewrite run_modify. cbv beta iota. unfold put_ext.
  do 3 (rewrite run_bind, run_put; cbv beta iota).
  unfold w5, w4, update, set_tr, set_transports. cbn [w_loop w_tr w_env w_trace w_transports].
  by rewrite Htr.
Qed.

(** The callbacks waiting to run, in order. *)
Definition scheduled_callbacks (w : W) : list callback := re_callback <$> ready (w_loop w).

Lemma loop_call_soon_run cb (w : W) :
  _loop (w_tr w) = true → closed (w_loop w) = false →
  loop_call_soon cb w = (Ret tt, lset (soon cb (w_loop w)) w).
Proof.
  intros Hl Hc. unfold loop_call_soon. rewrite run_bind, run_loop_call by done.
  unfold on_loop, zoom. change (lget w) with (w_loop w). by rewrite call_soon_open.
Qed.

(** What the properties of stream transports start from, and what a
    constructor that started in [w] has scheduled. *)
Record established (sock : Z) (protocol : proto) (waiter : option fut_id) (w w' : W) : Prop := {
  est_alive : alive w';
  est_settled : settled (w_tr w');
  est_whole : torn (w_tr w') = false;
  est_fd : _sock_fd (w_tr w') = sock;
  est_protocol : _protocol (w_tr w') = Some protocol;
  est_reading : is_reading (w_tr w') = true;
  est_kind : _drain_kind (w_tr w') = if is_BufferedProtocol protocol then None else Some Tcp;
  est_buffer : _buffer (w_tr w') = [];
  est_sendmsg : HAS_SENDMSG = true → sendmsg_only (w_tr w');
  est_received : received w' = [];
  est_outgoing : outgoing w' = [];
  est_flow : flow_ok w';
  est_lost : lost_ok w';
  est_transports : w_transports w' = {[sock]} ∪ w_transports w;
  est_closed : closed (w_loop w') = closed (w_loop w);
  est_futs : futs (w_loop w') = futs (w_loop w);
  est_wf : wf (reactor (w_loop w)) → wf (reactor (w_loop w'));
  est_fds : fds (reactor (w_loop w')) = fds (reactor (w_loop w));
  est_scheduled : scheduled_callbacks w' =
    scheduled_callbacks w ++ [CbConnectionMade protocol; CbRegisterReader] ++
    option_list (CbSetResultUnlessCancelled <$> waiter);
}.

Lemma init_run sock protocol waiter extra server (w : W) :
  closed (w_loop w) = false → w_trace w = [] →
  is_BufferedProtocol protocol = false ∨ _is_polling sock false (w_loop w) = false →
  ∃ w', __init__ sock protocol waiter extra server w = (Ret tt, w') ∧
    established sock protocol waiter w w'.
Proof.
  intros Hc Ht Hpoll. unfold __init__.
  edestruct (base_init_run (
    call_soon_connection_made;; loop_call_soon CbRegisterReader;;
    match waiter with
    | Some f => loop_call_soon (CbSetResultUnlessCancelled f)
    | None => mret tt
    end) sock protocol extra server w Hpoll) as (peername & sockname & e' & ->).
  set (w0 := MkWorld _ _ _ _ _). unfold call_soon_connection_made.
  rewrite run_bind, run_bind, run_self. cbn [w_tr w0 made _protocol].
  rewrite loop_call_soon_run by done. cbv beta iota.
  rewrite run_bind, loop_call_soon_run by done. cbv beta iota.
  assert (∀ w1, w_tr w1 = w_tr w0 → w_trace w1 = w_trace w0 → w_transports w1 = w_transports w0 →
    fds (reactor (w_loop w1)) = fds (reactor (w_loop w)) →
    closed (w_loop w1) = closed (w_loop w) → futs (w_loop w1) = futs (w_loop w) →
    (wf (reactor (w_loop w)) → wf (reactor (w_loop w1))) →
    scheduled_callbacks w1 = scheduled_callbacks w ++ [CbConnectionMade protocol; CbRegisterReader] ++
      option_list (CbSetResultUnlessCancelled <$> waiter) →
    established sock protocol waiter w w1) as Hest.
  { intros w1 Htr Htrace Hts Hfds Hcl Hfuts Hwf Hcbs. destruct server as [sv|].
    all: split; try done; rewrite ?Htr; try done; try by right.
    all: try (unfold received, outgoing; rewrite Htrace, Htr; simpl; by rewrite Ht).
    all: try (split; rewrite Htr; [done|]; split; [done|by eexists]).
    all: try (unfold sendmsg_only; simpl; by intros ->).
    all: try (exists 0; rewrite Htrace, Htr; simpl; by rewrite Ht).
    all: left; unfold lost_count; rewrite Htrace, Htr; simpl; by rewrite Ht. }
  destruct waiter as [f|].
  - rewrite loop_call_soon_run by done. eexists; split; [done|].
    apply Hest; try done; [intros; by repeat apply new_flag_wf|].
    unfold scheduled_callbacks. simpl. by rewrite !fmap_app, <- !app_assoc.
  - rewrite run_ret. eexists; split; [done|].
    apply Hest; try done; [intros; by repeat apply new_flag_wf|].
    unfold scheduled_callbacks. simpl. by rewrite !fmap_app, <- !app_assoc.
Qed.

(** C20: Constructing a stream transport on an open loop, whether or not the
    socket has names.  Unless the protocol is buffered and the fd is already
    watched for reading, it succeeds and establishes every invariant the
    properties of transports start from: the transport is open, linked to its
    protocol and not torn, nothing is buffered, stored or delivered, the
    flow-control events alternate and [connection_lost] has not been called.
    The fd belongs to the transport, no watcher is touched, and what the loop
    runs next is [connection_made] of that protocol, then the registration of
    the reader, then the waiter's wake-up.  In the excluded case
    ([add_reader] on the fd before a [BufferedProtocol] takes it over) the
    constructor raises [AttributeError]: [set_protocol] registers the reader
    before [_closing] and [_paused] exist.  The old reader has been removed by
    then; nothing is scheduled, no event has happened and the fd belongs to
    nobody. *)
Theorem init_establishes sock protocol waiter extra server (w : W) :
  closed (w_loop w) = false → w_trace w = [] →
  let out := __init__ sock protocol waiter extra server w in
  if is_BufferedProtocol protocol && _is_polling sock false (w_loop w) then
    out.1 = Raise AttributeError ∧
    w_loop out.2 = set_reactor (detach_watcher sock true (reactor (w_loop w))).2 (w_loop w) ∧
    registered (reactor (w_loop out.2)) sock true = None ∧
    scheduled_callbacks out.2 = scheduled_callbacks w ∧
    w_trace out.2 = [] ∧ w_transports out.2 = w_transports w
  else out.1 = Ret tt ∧ established sock protocol waiter w out.2.
Proof.
  intros Hc Ht. cbv zeta. destruct (is_BufferedProtocol protocol && _) eqn:Hbp.
  - apply andb_true_iff in Hbp as [Hb Hpoll]. unfold __init__.
    match goal with |- context [(_;; _;; ?rest) w] =>
      destruct (names_run rest (set_protocol_ false) sock protocol extra server w)
        as (w3 & -> & Hl & Ht3 & Hts & peername & sockname & Htr) end.
    assert (_sock_fd (w_tr w3) = sock) as Hfd by by rewrite Htr.
    destruct (init_set_protocol_fails protocol w3) as [t' Hrun];
      rewrite ?Hl, ?Hfd, ?Htr; try done.
    rewrite run_bind, run_bind, Hrun, Hfd, Hl. cbn [fst snd]. split; [done|].
    split; [done|]. split; [|split; [done|split; [by rewrite <- Ht, <- Ht3|done]]].
    unfold set_tr. cbn. by rewrite detach_registered, decide_True.
  - destruct (init_run sock protocol waiter extra server w Hc Ht) as (w' & -> & Hest); [|done].
    by destruct (is_BufferedProtocol protocol); [right|left].
Qed.
End init.

#[export] Instance script_name_laws b : @NameLaws script_env (script_kernel b).
Proof. split; intros ????; simpl; discriminate. Defined.

(** A server's connection on fd 5, with somebody waiting for it; and the same fd
    with a reader of the application's on it, given to a buffered protocol. *)
Lemma init_establishes_witness :
  let K := script_kernel true in
  let P : Protocol (world script_env bytes stream) := silent in
  let w := start_world [] in
  let watched := lset (set_reactor (add_watcher 5 true (CbUser 1) empty_reactor).2 (w_loop w)) w in
  established 5 (MkProto 2 false) (Some 7) w (__init__ 5 (MkProto 2 false) (Some 7) None (Some 1) w).2 ∧
  (__init__ 5 (MkProto 2 true) (Some 7) None (Some 1) watched).1 = Raise AttributeError.
Proof.
  intros K P w watched. split.
  - apply (init_establishes 5 (MkProto 2 false) (Some 7) None (Some 1) w); reflexivity.
  - apply (init_establishes 5 (MkProto 2 true) (Some 7) None (Some 1) watched); reflexivity.
Defined.
