(* ===== verification/Sendfile.v ===== *)
(** * Sending files (python/tokioop/loop.py, lines 542-671)

    The parameter checks, the choice between the native path and the fallback,
    and the two fallback loops that read a block in the executor and send it.
    Files, executor and sockets are reached through an interface. *)

From Stdlib Require Import Strings.Byte.
From stdpp Require Import base tactics list gmap strings.
From S2P Require Import Prelude State Reactor Env Loop.
From S2P Require Import SelectorTransport SocketTransport.

(** ** The interface *)

(** What a block loop needs of the world [W]: [file.seek] if the file has it,
    [await self.run_in_executor(None, file.readinto, view)] for a view of the
    given size, with the bytes read, and sending a block, awaited. *)
Class FileSender (W : Type) := {
  has_seek : bool;
  fs_seek : Z → M W unit;
  fs_readinto : nat → M W bytes;
  fs_send : bytes → M W unit;
}.

(** [constants.SENDFILE_FALLBACK_READBUFFER_SIZE] and the block size of
    [_sendfile_fallback]. *)
Definition SENDFILE_FALLBACK_READBUFFER_SIZE : Z := 1024 * 256.
Definition transport_blocksize : Z := 16384.

(** Python arguments: [count] and [offset] may be anything, [count] also
    [None]. *)
Inductive arg := IntArg (n : Z) | OtherArg.

(** How the loop ends: with an outcome and the number of bytes sent; the loop has
    no bound of its own, and may be cut. *)
Inductive loop_end := Finished | Failed (exc : exn) | OutOfFuel.

Section blocks.
Context {W : Type} `{!FileSender W}.

(** [if count:]: [None] and 0 are false. *)
Definition counted (count : option Z) : option Z :=
  match count with Some 0%Z => None | c => c end.

(** [while True:] *)
Fixpoint send_blocks (fuel : nat) (count : option Z) (blocksize total_sent : Z) :
    M W (loop_end * Z) :=
  match fuel with
  | 0 => mret (OutOfFuel, total_sent)
  | S fuel =>
      let blocksize := match counted count with
                       | Some c => Z.min (c - total_sent) blocksize
                       | None => blocksize
                       end in
      if bool_decide (is_Some (counted count)) && bool_decide (blocksize ≤ 0)%Z
      then mret (Finished, total_sent) else
      r ← outcome (fs_readinto (Z.to_nat blocksize));
      match r with
      | Raise exc => mret (Failed exc, total_sent)
      | Ret [] => mret (Finished, total_sent)
      | Ret view =>
          r ← outcome (fs_send view);
          match r with
          | Raise exc => mret (Failed exc, total_sent)
          | Ret _ => send_blocks fuel count blocksize (total_sent + Z.of_nat (length view))%Z
          end
      end
  end.

(** The frame both fallbacks share; [cleanup] is what the [finally] clause does
    after the seek.  [None]: the loop was cut. *)
Definition send_file (fuel : nat) (blocksize : Z) (offset : Z) (count : option Z)
    (setup cleanup : M W unit) : M W (option Z) :=
  when_ has_seek (fs_seek offset);;
  setup;;
  let blocksize := match counted count with Some c => Z.min c blocksize | None => blocksize end in
  r ← send_blocks fuel count blocksize 0;
  let '(e, total_sent) := r in
  when_ (bool_decide (0 < total_sent)%Z && has_seek) (fs_seek (offset + total_sent)%Z);;
  cleanup;;
  match e with
  | Finished => mret (Some total_sent)
  | Failed exc => raise exc
  | OutOfFuel => mret None
  end.

Definition _sock_sendfile_fallback (fuel : nat) (offset : Z) (count : option Z) : M W (option Z) :=
  send_file fuel SENDFILE_FALLBACK_READBUFFER_SIZE offset count (mret tt) (mret tt).

(** [setup] and [restore] are the constructor and [proto.restore()] of asyncio's
    [_SendfileFallbackProtocol]; a block is sent by [transp.write(view)] and
    [await proto.drain()].  (Here a block is a value; that the transport may
    queue a view of the reused buffer is the subject of the last section.) *)
Definition _sendfile_fallback (fuel : nat) (offset : Z) (count : option Z)
    (setup restore : M W unit) : M W (option Z) :=
  send_file fuel transport_blocksize offset count setup restore.

(** *** Parameters *)

(** [mode]: the file's mode has a "b", or there is none to look at. *)
Definition _check_sendfile_params (stream_socket mode : bool) (offset : arg)
    (count : option arg) : M W (Z * option Z) :=
  if negb mode then raise (ValueError "file should be opened in binary mode") else
  if negb stream_socket then raise (ValueError "only SOCK_STREAM type sockets are supported") else
  count ← match count with
          | None => mret None
          | Some OtherArg => raise (TypeError "count must be a positive integer")
          | Some (IntArg c) =>
              if decide (c ≤ 0)%Z then raise (ValueError "count must be a positive integer")
              else mret (Some c)
          end;
  match offset with
  | OtherArg => raise (TypeError "offset must be a non-negative integer")
  | IntArg o =>
      if decide (o < 0)%Z then raise (ValueError "offset must be a non-negative integer")
      else mret (o, count)
  end.

(** No native path on any platform. *)
Definition _sock_sendfile_native : M W (option Z) := raise SendfileNotAvailableError.

(** [blocking]: debug mode and a socket with a timeout; [ssl]: an [SSLSocket]. *)
Definition sock_sendfile (fuel : nat) (blocking ssl stream_socket mode : bool) (offset : arg)
    (count : option arg) (fallback : bool) : M W (option Z) :=
  if blocking then raise (ValueError "the socket must be non-blocking") else
  if ssl then raise (TypeError "Socket cannot be of type SSLSocket") else
  p ← _check_sendfile_params stream_socket mode offset count;
  let '(o, c) := p in
  try_except _sock_sendfile_native
    (λ exc, if bool_decide (exc = SendfileNotAvailableError)
            then if fallback then _sock_sendfile_fallback fuel o c else raise exc
            else raise exc).
End blocks.

(** ** [loop.sendfile] on a stream transport *)

Section transport.
Context {E : Type} `{!Kernel E} `{!Protocol (world E bytes stream)}.
Local Abbreviation W := (world E bytes stream).

(** [wait f]: awaiting the empty waiter; [native]: [sock_sendfile] on the
    transport's socket with [fallback=False]. *)
Context (wait : fut_id → M W unit) (native : M W (option Z)).

Definition _sendfile_native : M W (option Z) :=
  fd ← self _sock_fd;
  known ← gets (λ w, bool_decide (fd ∈ w_transports w));
  if negb known then raise KeyError else
  modify (λ w, set_transports (w_transports w ∖ {[fd]}) w);;
  resume ← self is_reading;
  pause_reading;;
  f ← _make_empty_waiter;
  wait f;;
  try_finally native
    (_reset_empty_waiter;;
     when_ resume resume_reading;;
     modify (λ w, set_transports ({[fd]} ∪ w_transports w) w)).

(** [fall_back]: [_sendfile_fallback] on this transport.  ([_sendfile_compatible]
    of a stream transport is [TRY_NATIVE].) *)
Definition sendfile (fall_back : M W (option Z)) (fallback : bool) : M W (option Z) :=
  closing ← self is_closing;
  if (closing : bool) then raise (RuntimeError "Transport is closing") else
  try_except _sendfile_native
    (λ exc, if bool_decide (exc = SendfileNotAvailableError)
            then if fallback then fall_back else raise exc
            else raise exc).
End transport.

(** ** The block buffer of [_sendfile_fallback], as shared memory

    [buf] is one [bytearray] for the whole transfer.  [transp.write(view[:read])]
    keeps what the kernel does not take at once as a view of [buf] in the
    transport's queue, and [proto.drain()] waits only while the queue is above
    the high-water mark. *)
Record shared := MkShared {
  sh_file : bytes;            (* what is left to read *)
  sh_buf : bytes;             (* the bytearray *)
  sh_queue : list (nat * nat); (* views of it: start and stop *)
  sh_wire : bytes;            (* what the kernel has taken *)
}.

Definition view_of (buf : bytes) (v : nat * nat) : bytes := take (v.2 - v.1) (drop v.1 buf).
Definition queued (s : shared) : nat := sum_list ((λ v, v.2 - v.1) <$> sh_queue s).

(** [read = file.readinto(view)], then [transp.write(view[:read])] on a kernel
    that takes [accept] bytes of a direct send. *)
Definition shared_block (blocksize accept : nat) (s : shared) : shared :=
  let read := take blocksize (sh_file s) in
  let buf := read ++ drop (length read) (sh_buf s) in
  let n := match sh_queue s with [] => min accept (length read) | _ => 0 end in
  MkShared (drop blocksize (sh_file s)) buf
    (if decide (n = length read) then sh_queue s else sh_queue s ++ [(n, length read)])
    (sh_wire s ++ take n read).

(** [proto.drain()] returns at once. *)
Definition drained (high_water : nat) (s : shared) : bool := bool_decide (queued s ≤ high_water).

(** A write-ready event on a kernel that takes everything. *)
Definition shared_flush (s : shared) : shared :=
  MkShared (sh_file s) (sh_buf s) [] (sh_wire s ++ concat (view_of (sh_buf s) <$> sh_queue s)).
