(* ===== verification/SendfileProps.v ===== *)
(** * Sending files: what the fallback promises

    The blocks put on the wire are the requested range of the file, for any
    implementation of the interface; [sock_sendall] is one; and what sharing one
    block buffer does to the transport's fallback. *)

From Stdlib Require Import Strings.Byte.
From stdpp Require Import base tactics list gmap strings.
From S2P Require Import Prelude State Reactor Env Loop SockOps SockProps Sendfile Script.

(** ** The promise of files and senders

    [content] and [pos] are the file's bytes and position, [wire] what has been
    sent.  A read gives bytes from the position on, at most as many as asked
    for, and none only at the end; a failed send has sent a prefix. *)
Class SenderLaws (W : Type) `{!FileSender W} := {
  content : W → bytes;
  pos : W → nat;
  wire : W → bytes;
  law_seek z w : (0 ≤ z)%Z → ∃ w', fs_seek z w = (Ret tt, w') ∧
    pos w' = Z.to_nat z ∧ content w' = content w ∧ wire w' = wire w;
  law_read n w :
    content (fs_readinto n w).2 = content w ∧ wire (fs_readinto n w).2 = wire w ∧
    match (fs_readinto n w).1 with
    | Ret d => d = take (length d) (drop (pos w) (content w)) ∧ length d ≤ n ∧
               pos (fs_readinto n w).2 = pos w + length d ∧
               (d = [] → n = 0 ∨ length (content w) ≤ pos w)
    | Raise _ => True
    end;
  law_send d w :
    content (fs_send d w).2 = content w ∧ pos (fs_send d w).2 = pos w ∧
    match (fs_send d w).1 with
    | Ret _ => wire (fs_send d w).2 = wire w ++ d
    | Raise _ => ∃ k, wire (fs_send d w).2 = wire w ++ take k d
    end;
}.

Section blocks.
Context {W : Type} `{!FileSender W} `{!SenderLaws W}.

(** The bytes requested: from [offset], at most [count]. *)
Definition requested (offset : nat) (count : option Z) (c : bytes) : bytes :=
  match counted count with
  | Some n => take (Z.to_nat n) (drop offset c)
  | None => drop offset c
  end.

(** Where the loop is: [t] bytes of the range [r] have been sent since [w0]. *)
Record sending (w0 : W) (offset : nat) (r : bytes) (t : nat) (w : W) : Prop := {
  snd_content : content w = content w0;
  snd_pos : pos w = offset + t;
  snd_wire : wire w = wire w0 ++ take t r;
  snd_le : t ≤ length r;
}.

(** How it may end. *)
Definition sent_ok (w0 : W) (r : bytes) (e : loop_end) (total : Z) (w : W) : Prop :=
  content w = content w0 ∧
  match e with
  | Finished => total = Z.of_nat (length r) ∧ wire w = wire w0 ++ r
  | Failed _ => ∃ t k, total = Z.of_nat t ∧ t ≤ k ∧ wire w = wire w0 ++ take k r
  | OutOfFuel => False
  end.

(** A block that was read: the next bytes of the range. *)
Lemma next_block w0 offset count t (w : W) (n : nat) d w1 :
  let r := requested offset count (content w0) in
  sending w0 offset r t w → fs_readinto n w = (Ret d, w1) →
  (∀ c, counted count = Some c → (Z.of_nat n ≤ c - Z.of_nat t)%Z) →
  content w1 = content w0 ∧ wire w1 = wire w0 ++ take t r ∧ pos w1 = offset + t + length d ∧
  d = take (length d) (drop t r) ∧ t + length d ≤ length r ∧
  (d = [] → n = 0 ∨ length (content w0) ≤ offset + t).
Proof.
  cbv zeta. intros [Hc Hp Hw Hle] Hread Hn. pose proof (law_read n w) as (H1 & H2 & H3).
  rewrite Hread in H1, H2, H3. cbn [fst snd] in *. destruct H3 as (Hd & Hlen & Hpos & Hend).
  rewrite Hc, Hp in *. rewrite H1, H2, Hw. rewrite <- drop_drop in Hd.
  assert (d = take (length d) (drop t (requested offset count (content w0)))) as Hd'.
  { unfold requested. destruct (counted count) as [c|]; [|exact Hd].
    rewrite skipn_firstn_comm, take_take.
    rewrite Nat.min_l; [exact Hd|]. specialize (Hn c eq_refl). lia. }
  split_and!; try done.
  apply (f_equal length) in Hd'. rewrite length_take, length_drop in Hd'. lia.
Qed.

(** The range ends with the file. *)
Lemma requested_length offset count c : length (requested offset count c) ≤ length c - offset.
Proof.
  unfold requested. destruct (counted count); rewrite ?length_take, length_drop; lia.
Qed.

Lemma send_blocks_ok fuel count bs w0 offset t (w : W) :
  let r := requested offset count (content w0) in
  (0 < bs)%Z → sending w0 offset r t w → length r - t < fuel →
  ∃ e total, (send_blocks fuel count bs (Z.of_nat t) w).1 = Ret (e, total) ∧
    sent_ok w0 r e total (send_blocks fuel count bs (Z.of_nat t) w).2.
Proof.
  cbv zeta. set (r := requested _ _ _). revert bs t w.
  induction fuel as [|fuel IH]; intros bs t w Hbs Hs Hfuel; [lia|]. cbn [send_blocks].
  set (b := match counted count with Some c => _ | None => _ end).
  destruct (bool_decide (is_Some _) && bool_decide (b ≤ 0)%Z) eqn:Hstop.
  { rewrite run_ret. cbn [fst snd]. eexists _, _. split; [done|]. apply andb_true_iff in Hstop as [H1 H2].
    apply bool_decide_eq_true in H1 as [c Hc]. apply bool_decide_eq_true in H2.
    unfold b in H2. rewrite Hc in H2.
    assert (length r ≤ Z.to_nat c) by (unfold r, requested; rewrite Hc, length_take; lia).
    destruct Hs as [H3 _ H4 H5]. assert (t = length r) as -> by lia.
    split; [done|]. split; [done|]. by rewrite H4, firstn_all. }
  assert (0 < b)%Z as Hb.
  { unfold b in *. destruct (counted count) as [c|]; [|done].
    rewrite (bool_decide_eq_true_2 (is_Some (Some c))) in Hstop by by eexists.
    apply bool_decide_eq_false in Hstop. lia. }
  assert (∀ c, counted count = Some c → (Z.of_nat (Z.to_nat b) ≤ c - Z.of_nat t)%Z) as Hn
    by (intros c Hc; unfold b in *; rewrite Hc in *; lia).
  rewrite run_bind. unfold outcome. pose proof (law_read (Z.to_nat b) w) as Hlaw.
  destruct (fs_readinto (Z.to_nat b) w) as [[d|exc] w1] eqn:Hread; cbn [fst snd] in *; cycle 1.
  { rewrite run_ret. cbn [fst snd]. eexists _, _. split; [done|]. destruct Hlaw as (H1 & H2 & _), Hs as [H3 _ H4 _].
    split; [by rewrite H1|]. exists t, t. split_and!; [done..|]. by rewrite H2. }
  destruct (next_block w0 offset count t w _ d w1 Hs Hread Hn) as (K1 & K2 & K3 & K4 & K5 & K6).
  fold r in K2, K4, K5.
  destruct d as [|x d0]; [|set (d := x :: d0) in *].
  { rewrite run_ret. cbn [fst snd]. eexists _, _. split; [done|].
    destruct (K6 eq_refl) as [?|Hlen]; [lia|]. pose proof (requested_length offset count (content w0)) as Hr.
    fold r in Hr. simpl in K5. assert (t = length r) as -> by lia.
    split; [done|]. split; [done|]. by rewrite K2, firstn_all. }
  rewrite run_bind. pose proof (law_send d w1) as (S1 & S2 & S3).
  destruct (fs_send d w1) as [[[]|exc] w2]; cbn [fst snd] in *.
  - replace (Z.of_nat t + Z.of_nat (length d))%Z with (Z.of_nat (t + length d)) by lia.
    assert (0 < length d) by (unfold d; simpl; lia).
    apply IH; [done| |lia]. split; [by rewrite S1|rewrite S2, K3; lia| |done].
    rewrite S3, K2, <- app_assoc. f_equal. rewrite K4 at 1. by rewrite take_take_drop.
  - rewrite run_ret. cbn [fst snd]. eexists _, _. split; [done|]. destruct S3 as [k Hk].
    split; [by rewrite S1|]. exists t, (t + min k (length d)). split_and!; [done|lia|].
    rewrite Hk, K2, <- app_assoc. f_equal. rewrite K4 at 1. rewrite take_take.
    by rewrite take_take_drop.
Qed.
End blocks.

(** ** [sock_sendall] keeps the promise of a sender *)

(** A regular file: its bytes and its position; a read gives what is there. *)
Record file := MkFile { f_content : bytes; f_pos : nat }.

Section socket.
Context {E : Type} `{!Kernel E} `{!KernelLaws E}.
Local Abbreviation SW := (sworld E).
Local Abbreviation W := (file * SW)%type.

(** [await self.sock_sendall(sock, data)], with what happens to the socket while
    the coroutine waits; a future still pending then is cancelled. *)
Definition await_sendall (sock : socket) (evs : list sendall_event) (data : bytes) :
    M SW unit := λ w,
  match sock_sendall sock data w with
  | (Raise exc, w1) => (Raise exc, w1)
  | (Ret (Return _), w1) => (Ret tt, w1)
  | (Ret (Await fut), w1) =>
      let w2 := run_sendall_events fut (fileno sock) data (S fut) evs w1 in
      (match fut_lookup fut (sw_loop w2) with
       | Result _ => Ret tt
       | Exception exc => Raise exc
       | _ => Raise CancelledError
       end, w2)
  end.

#[local] Instance socket_sender (sock : socket) (evs : list sendall_event) : FileSender W := {|
  has_seek := true;
  fs_seek z w := (Ret tt, (MkFile (f_content w.1) (Z.to_nat z), w.2));
  fs_readinto n w :=
    let d := take n (drop (f_pos w.1) (f_content w.1)) in
    (Ret d, (MkFile (f_content w.1) (f_pos w.1 + length d), w.2));
  fs_send data w := let '(r, w2) := await_sendall sock evs data w.2 in (r, (w.1, w2));
|}.

Definition same_trace : relation SW := λ w w', sw_trace w' = sw_trace w.
#[local] Instance same_trace_preorder : PreOrder same_trace.
Proof. split; [done|]. unfold same_trace. congruence. Qed.

Lemma same_trace_zoom {A} (m : M LoopState A) : moves same_trace (on_loop (W := SW) m).
Proof. apply moves_zoom. by intros w. Qed.

Lemma same_trace_rest sock data n :
  moves same_trace
    (fut ← on_loop create_future;
     _ensure_fd_no_transport transport_closing (Fileno (SockOps.fileno sock));;
     pos ← new_cell n;
     handle ← _add_writer (SockOps.fileno sock) (CbSockSendall fut (SockOps.fileno sock) data pos);
     on_loop (add_done_callback fut (CbSockWriteDone (SockOps.fileno sock) fut handle));;
     mret (Await fut) : M SW coro).
Proof.
  unfold _ensure_fd_no_transport, new_cell, _add_writer, open_fd.
  moves_auto; try apply same_trace_zoom. apply moves_zoom. by intros w.
Qed.

Lemma sock_sendall_prefix sock data (w : SW) :
  ∃ k, sent (sw_trace (sock_sendall sock data w).2) = sent (sw_trace w) ++ take k data.
Proof.
  unfold sock_sendall. rewrite run_bind.
  destruct (check_socket sock w) as [[[]|] w0] eqn:Hc;
    apply check_socket_inv in Hc as ->; [|exists 0; by rewrite app_nil_r].
  rewrite run_bind. unfold try_now, try_else.
  destruct (sys_send_run (SockOps.fileno sock) data w)
    as [(n & e' & _ & ->)|(x & e' & _ & ->)]; [|destruct (try_again x)]; cbv beta iota.
  - rewrite run_ret. cbv beta iota zeta. exists n. case_decide; [by rewrite run_ret; apply sent_send|].
    rewrite (same_trace_rest sock data _ _). apply sent_send.
  - rewrite run_ret. cbv beta iota zeta. exists 0. rewrite app_nil_r. case_decide; [by rewrite run_ret|].
    by rewrite (same_trace_rest sock data _ _).
  - exists 0. by rewrite app_nil_r.
Qed.

#[local] Instance socket_sender_laws sock evs : @SenderLaws W (socket_sender sock evs).
Proof.
  unshelve esplit; [exact (λ w, f_content w.1)|exact (λ w, f_pos w.1)
    |exact (λ w, sent (sw_trace w.2))|..].
  - intros z w _. by eexists.
  - intros n w. simpl. split_and!; try done.
    + set (rest := drop _ _). rewrite length_take, <- take_take. by rewrite firstn_all.
    + rewrite length_take. lia.
    + intros Hd. apply (f_equal length) in Hd. rewrite length_take, length_drop in Hd. simpl in Hd. lia.
  - intros d [f w]. simpl. unfold await_sendall.
    pose proof (sock_sendall_prefix sock d w) as [k Hk].
    destruct (sock_sendall sock d w) as [[[v|fut]|exc] w1] eqn:Hrun; simpl in *; [| |by eauto].
    + apply sock_sendall_inv in Hrun as [_ H]. done.
    + apply sock_sendall_inv in Hrun as (pos & -> & Hok & _).
      apply (sendall_events_ok _ _ (SockOps.fileno sock) _ _ evs) in Hok.
      unfold sendall_ok in Hok. unfold fut_lookup.
      change (futs (sw_loop ?x) !! fut) with (fut_at fut x).
      destruct (fut_at fut _) as [[[|v|exc|] cbs]|]; simpl; split_and!; try done.
      * destruct Hok as [_ H]. by eexists.
      * by destruct Hok.
Defined.
End socket.

(** ** Properties *)

Section props.
Context {W : Type} `{!FileSender W} `{!SenderLaws W}.

(** C30: [sock_sendfile] with the fallback allowed and valid arguments sends the
    requested range of the file: from [offset], [count] bytes or to the end of
    the file.  It returns the length of that range, all of it sent, once and in
    order, with the file positioned behind it; when reading or sending fails the
    error comes out, what was sent is a prefix of the range, and the file is
    positioned behind the last block sent whole.  It always ends: one round more
    than there are bytes is enough. *)
Theorem sock_sendfile_sends_range fuel offset count (w : W) :
  let r := requested offset count (content w) in
  has_seek = true → (∀ c, count = Some c → (0 < c)%Z) → length r < fuel →
  let out := sock_sendfile fuel false false true true (IntArg (Z.of_nat offset))
               (IntArg <$> count) true w in
  match out.1 with
  | Ret total => total = Some (Z.of_nat (length r)) ∧ wire out.2 = wire w ++ r ∧
                 (r ≠ [] → pos out.2 = offset + length r)
  | Raise _ => ∃ t k, t ≤ k ∧ wire out.2 = wire w ++ take k r ∧
                      (0 < t → pos out.2 = offset + t)
  end.
Proof.
  cbv zeta. intros Hseek Hcount Hfuel.
  assert (sock_sendfile fuel false false true true (IntArg (Z.of_nat offset)) (IntArg <$> count)
    true w = _sock_sendfile_fallback fuel (Z.of_nat offset) count w) as ->.
  { unfold sock_sendfile, _check_sendfile_params. cbn [negb]. rewrite run_bind, run_bind.
    destruct count as [c|]; cbn [fmap option_fmap option_map].
    - specialize (Hcount c eq_refl). rewrite decide_False by lia. rewrite run_ret. cbv beta iota.
      rewrite decide_False by lia. by rewrite run_ret.
    - rewrite run_ret. cbv beta iota. rewrite decide_False by lia. by rewrite run_ret. }
  unfold _sock_sendfile_fallback, send_file. rewrite Hseek, run_bind. cbn [when_].
  destruct (law_seek (Z.of_nat offset) w) as (w1 & Hs1 & Hp1 & Hc1 & Hw1); [lia|]. rewrite Hs1.
  rewrite run_bind, run_ret. cbv beta iota zeta. rewrite run_bind.
  set (bs := match counted count with Some c => _ | None => _ end).
  assert (0 < bs)%Z as Hbs.
  { unfold bs, counted, SENDFILE_FALLBACK_READBUFFER_SIZE. destruct count as [[|c|c]|]; try lia.
    specialize (Hcount _ eq_refl). lia. }
  rewrite <- Hc1 in Hfuel |- *. rewrite <- Hw1.
  destruct (send_blocks_ok fuel count bs w1 offset 0 w1 Hbs) as (e & total & Hr & Hc2 & Hend).
  { split; [done|lia|by rewrite app_nil_r|lia]. } { lia. }
  change (Z.of_nat 0) with 0%Z in *.
  destruct (send_blocks fuel count bs 0 w1) as [r1 w2]. cbn [fst snd] in *. subst r1.
  cbv beta iota. rewrite run_bind.
  assert (∃ w3, when_ (bool_decide (0 < total)%Z && true) (fs_seek (Z.of_nat offset + total)%Z) w2 =
    (Ret tt, w3) ∧ wire w3 = wire w2 ∧ ((0 < total)%Z → pos w3 = offset + Z.to_nat total))
    as (w3 & -> & Hw3 & Hp3).
  { rewrite andb_true_r. destruct (bool_decide_reflect (0 < total)%Z) as [Ht|Ht]; cbn [when_].
    - destruct (law_seek (Z.of_nat offset + total)%Z w2) as (w3 & -> & Hp & _ & Hw); [lia|].
      exists w3. split_and!; [done..|]. intros _. rewrite Hp. lia.
    - rewrite run_ret. exists w2. by split_and!. }
  rewrite run_bind, run_ret. cbv beta iota.
  destruct e as [|exc|]; [| |done]; cbn [fst snd].
  - rewrite run_ret. cbn [fst snd]. destruct Hend as [-> Hwire]. split_and!; [done|congruence|].
    intros Hne. rewrite Hp3; [lia|]. destruct (requested offset count (content w1)); simpl; [done|lia].
  - rewrite run_raise. cbn [fst snd]. destruct Hend as (t & k & -> & Htk & Hwire). exists t, k.
    split_and!; [done|congruence|]. intros Ht. rewrite Hp3 by lia. lia.
Qed.
End props.

(** The transport's fallback shares one block buffer between the file reads
    and the transport's queue.  Take two blocks of the buffer's size that fit
    below the high-water mark.  A kernel that takes every block whole gets the
    file; but when it takes only [k] bytes of the first block, [drain] does not
    wait, the second read overwrites the queued rest, and what is sent is the
    second block's bytes in its place. *)
Theorem fallback_overwrites_queue high_water b1 b2 buf k :
  let n := length b1 in
  length b2 = n → k < n → n + n ≤ high_water →
  let s := MkShared (b1 ++ b2) buf [] [] in
  sh_wire (shared_block n n (shared_block n n s)) = b1 ++ b2 ∧
  drained high_water (shared_block n k s) = true ∧
  sh_wire (shared_flush (shared_block n 0 (shared_block n k s))) =
    take k b1 ++ drop k b2 ++ b2.
Proof.
  cbv zeta. intros H2 Hk Hhw. unfold shared_block. cbn [sh_file sh_buf sh_queue sh_wire].
  rewrite !take_app_length, !drop_app_length. rewrite (firstn_all2 b2), (skipn_all2 b2) by lia.
  rewrite H2, !Nat.min_id, !(Nat.min_l k) by lia. rewrite !(decide_True (P := length b1 = length b1)) by done.
  rewrite !(decide_False (P := k = length b1)) by lia.
  cbn [app]. split; [by rewrite !firstn_all2 by lia|]. split.
  { unfold drained, queued. cbn. apply bool_decide_eq_true_2. lia. }
  rewrite decide_False by lia. unfold shared_flush, view_of.
  cbn [sh_file sh_buf sh_queue sh_wire app fmap list_fmap concat fst snd].
  rewrite ?Nat.sub_0_r, ?take_0, ?app_nil_r, ?drop_0.
  f_equal. rewrite skipn_app, (firstn_app (length b1)), firstn_app. rewrite length_drop, H2.
  replace (length b1 - k - (length b1 - k)) with 0 by lia. rewrite Nat.sub_diag, !take_0, !app_nil_r.
  by rewrite !firstn_all2 by (rewrite ?length_drop; lia).
Qed.

(** ** The properties at work *)

Definition hello_file : bytes := hello.
Definition sendfile_start (env : script_env) : file * sworld script_env :=
  (MkFile hello 0, MkSworld empty_loop env [] ∅).

(** Three bytes of the file from offset 1; the kernel takes one at first. *)
Lemma sock_sendfile_sends_range_witness :
  let S := socket_sender (Kernel0 := script_kernel true) demo_sock [SendReady; SendReady] in
  let out := sock_sendfile (FileSender0 := S) 10 false false true true (IntArg 1)
               (Some (IntArg 3)) true (sendfile_start [AnsN 1]) in
  out.1 = Ret (Some 3%Z) ∧ sent (sw_trace out.2.2) = [x65; x6c; x6c] ∧ f_pos out.2.1 = 4.
Proof.
  set (S := socket_sender (Kernel0 := script_kernel true) demo_sock [SendReady; SendReady]).
  cbv zeta.
  assert (∀ c, Some 3%Z = Some c → (0 < c)%Z) as Hc by (intros c [= <-]; lia).
  pose proof (sock_sendfile_sends_range
    (FileSender0 := S)
    (SenderLaws0 := socket_sender_laws (Kernel0 := script_kernel true) demo_sock [SendReady; SendReady])
    10 1 (Some 3%Z) (sendfile_start [AnsN 1]) eq_refl Hc) as H.
  specialize (H ltac:(vm_compute; lia)). cbv zeta in H.
  assert ((sock_sendfile (FileSender0 := S) 10 false false true true (IntArg 1)
    (Some (IntArg 3)) true (sendfile_start [AnsN 1])).1 = Ret (Some 3%Z)) as Hret
    by (vm_compute; reflexivity).
  split; [exact Hret|].
  change (IntArg <$> Some 3%Z) with (Some (IntArg 3)) in H.
  change (IntArg (Z.of_nat 1)) with (IntArg 1) in H. rewrite Hret in H.
  destruct H as (_ & H2 & H3). split; [exact H2|]. apply H3. discriminate.
Defined.

(** Two blocks of two bytes; the kernel takes one byte of the first. *)
Lemma fallback_overwrites_queue_witness :
  sh_wire (shared_flush (shared_block 2 0 (shared_block 2 1
    (MkShared ([x61; x62] ++ [x63; x64]) [x00; x00] [] [])))) = [x61; x64; x63; x64].
Proof.
  exact (proj2 (proj2 (fallback_overwrites_queue 64 [x61; x62] [x63; x64] [x00; x00] 1
    eq_refl ltac:(simpl; lia) ltac:(simpl; lia)))).
Defined.
