(* ===== verification/Net.v ===== *)
(** * Sockets as resources

    The coroutines that create sockets ([_connect_sock], [create_server], ...)
    act on a state that records every socket they open, bind, connect and close.
    The socket module, the resolver and the transports' constructors are an
    interface. *)

From stdpp Require Import base tactics list strings.
From S2P Require Import Prelude State.

(** ** Constants of the socket module (Linux) *)

Definition AF_UNSPEC : Z := 0.
Definition AF_UNIX : Z := 1.
Definition AF_INET : Z := 2.
Definition AF_INET6 : Z := 10.
Definition SOCK_STREAM : Z := 1.
Definition SOCK_DGRAM : Z := 2.

Inductive sockopt := SO_REUSEADDR | SO_REUSEPORT | SO_KEEPALIVE | SO_BROADCAST | IPV6_V6ONLY.

(** One result of [getaddrinfo]; nothing uses the canonical name. *)
Record addr_info := MkInfo {
  ai_family : Z;
  ai_type : Z;
  ai_proto : Z;
  ai_addr : addr;
}.

#[export] Instance addr_info_eq_dec : EqDecision addr_info.
Proof. solve_decision. Defined.

(** ** The interface *)

(** A socket object is named by the order in which the program created it. *)
Abbreviation sock := nat.

Class Net (E : Type) := {
  os_socket : sock → Z → Z → Z → M E unit;
  os_setblocking : sock → M E unit;
  os_setsockopt : sock → sockopt → M E unit;
  os_bind : sock → addr → M E unit;
  (** [await self.sock_connect(sock, address)] *)
  os_connect : sock → addr → M E unit;
  os_close : sock → M E unit;
  os_family : sock → E → Z;
  os_type : sock → E → Z;
  os_is_ssl : sock → E → bool;
  (** [base_events._ipaddr_info] and [await loop.getaddrinfo] *)
  ipaddr_info : option string → option Z → Z → Z → Z → option addr_info;
  os_getaddrinfo : option string → option Z → Z → Z → Z → Z → M E (list addr_info);
  (** [str(exc)], [repr(addr)], [repr(family)], [str.lower] *)
  exc_str : exn → string;
  addr_repr : addr → string;
  family_repr : Z → string;
  lower : string → string;
}.

(** ** State *)

Inductive sock_event :=
  | Opened (s : sock)
  | Bound (s : sock) (a : addr)
  | Connecting (s : sock) (a : addr)
  | Closed (s : sock).

#[export] Instance sock_event_eq_dec : EqDecision sock_event.
Proof. solve_decision. Defined.

(** Everything else; what the coroutine has done with its sockets; the name of the
    next one; and the list [exceptions] of [create_connection], a list of lists
    that the attempts share. *)
Record net (E : Type) := MkNet {
  n_env : E;
  n_log : list sock_event;
  n_next : sock;
  n_excs : list (list exn);
}.
Arguments MkNet {E}.
Arguments n_env {E}.
Arguments n_log {E}.
Arguments n_next {E}.
Arguments n_excs {E}.

Section net.
Context {E : Type} `{!Net E}.
Local Abbreviation W := (net E).

Definition sys {A} (m : M E A) : M W A := λ w,
  let '(r, e) := m (n_env w) in (r, MkNet e (n_log w) (n_next w) (n_excs w)).
Definition note (ev : sock_event) : M W unit :=
  modify (λ w, MkNet (n_env w) (n_log w ++ [ev]) (n_next w) (n_excs w)).
Definition set_excs (l : list (list exn)) (w : W) : W :=
  MkNet (n_env w) (n_log w) (n_next w) l.

(** [socket.socket(family, type, proto)] *)
Definition new_socket (family type proto : Z) : M W sock :=
  s ← gets n_next;
  sys (os_socket s family type proto);;
  modify (λ w, MkNet (n_env w) (n_log w ++ [Opened s]) (S (n_next w)) (n_excs w));;
  mret s.
Definition bind_sock (s : sock) (a : addr) : M W unit :=
  sys (os_bind s a);; note (Bound s a).
Definition connect_sock (s : sock) (a : addr) : M W unit :=
  note (Connecting s a);; sys (os_connect s a).
Definition close_sock (s : sock) : M W unit :=
  note (Closed s);; sys (os_close s).

(** [base_events._check_ssl_socket] *)
Definition check_ssl_socket (s : option sock) : M W unit :=
  match s with
  | None => mret tt
  | Some s =>
      b ← gets (λ w, os_is_ssl s (n_env w));
      if (b : bool) then raise (TypeError "Socket cannot be of type SSLSocket") else mret tt
  end.

(** [_ensure_resolved] *)
Definition _ensure_resolved (host : option string) (port : option Z)
    (family type proto flags : Z) : M W (list addr_info) :=
  match ipaddr_info host port family type proto with
  | Some info => mret [info]
  | None => sys (os_getaddrinfo host port family type proto flags)
  end.

(** [except OSError: pass] *)
Definition ignoring_OSError (m : M W unit) : M W unit :=
  try_except m (λ exc, if is_OSError exc then mret tt else raise exc).

(** ** What is open *)

Definition opened (ev : sock_event) : option sock :=
  match ev with Opened s => Some s | _ => None end.

(** The sockets opened and not closed again, in the order of opening. *)
Definition held (l : list sock_event) : list sock :=
  filter (λ s, Closed s ∉ l) (omap opened l).

(** ** Evaluation *)

(** Calls to the system leave the record alone. *)
Lemma run_sys {A} (m : M E A) (w : W) :
  sys m w = ((m (n_env w)).1, MkNet (m (n_env w)).2 (n_log w) (n_next w) (n_excs w)).
Proof. unfold sys. by destruct (m (n_env w)). Qed.

Definition add_note (ev : sock_event) (w : W) : W :=
  MkNet (n_env w) (n_log w ++ [ev]) (n_next w) (n_excs w).
Lemma run_note ev (w : W) : note ev w = (Ret tt, add_note ev w).
Proof. done. Qed.

Lemma outcome_new_socket f t p (w : W) :
  ∃ e, (∃ x, outcome (new_socket f t p) w = (Ret (Raise x), MkNet e (n_log w) (n_next w) (n_excs w))) ∨
       outcome (new_socket f t p) w =
         (Ret (Ret (n_next w)), MkNet e (n_log w ++ [Opened (n_next w)]) (S (n_next w)) (n_excs w)).
Proof.
  rewrite run_outcome. unfold new_socket. rewrite run_bind, run_gets. cbv beta iota.
  rewrite run_bind, run_sys.
  destruct (os_socket (n_next w) f t p (n_env w)) as [[[]|x] e]; cbn [fst snd]; cbv beta iota;
    exists e; [right; by rewrite run_bind|left; by exists x].
Qed.

Lemma outcome_bind s a (w : W) :
  ∃ e r, outcome (bind_sock s a) w =
    (Ret r, MkNet e (n_log w ++ match r with Ret _ => [Bound s a] | Raise _ => [] end)
              (n_next w) (n_excs w)).
Proof.
  rewrite run_outcome. unfold bind_sock. rewrite run_bind, run_sys.
  destruct (os_bind s a (n_env w)) as [[[]|x] e]; cbn [fst snd]; cbv beta iota; exists e.
  - by exists (Ret tt).
  - exists (Raise x). by rewrite app_nil_r.
Qed.

Lemma outcome_close s (w : W) :
  ∃ e r, outcome (close_sock s) w =
    (Ret r, MkNet e (n_log w ++ [Closed s]) (n_next w) (n_excs w)).
Proof.
  rewrite run_outcome. unfold close_sock. rewrite run_bind, run_note. cbv beta iota.
  rewrite run_sys. cbn. by eexists _, _.
Qed.

(** Computations that only talk to the system. *)
Definition plain {A} (m : M W A) : Prop :=
  ∀ w, ∃ r e, m w = (r, MkNet e (n_log w) (n_next w) (n_excs w)).
Lemma plain_ret {A} (a : A) : plain (mret a : M W A).
Proof. intros []. by eexists _, _. Qed.
Lemma plain_sys {A} (m : M E A) : plain (sys m).
Proof. intros w. rewrite run_sys. by eexists _, _. Qed.
Lemma plain_bind {A B} (m : M W A) (k : A → M W B) : plain m → (∀ a, plain (k a)) → plain (m ≫= k).
Proof.
  intros Hm Hk w. rewrite run_bind. destruct (Hm w) as ([a|x] & e & ->); [|by eexists _, _].
  destruct (Hk a (MkNet e (n_log w) (n_next w) (n_excs w))) as (r & e' & ->). by eexists _, _.
Qed.
Lemma plain_when b (m : M W unit) : plain m → plain (when_ b m).
Proof. destruct b; [done|]. intros _. apply plain_ret. Qed.

End net.

(** ** What is open *)

(** All sockets of [l] were named before [n]. *)
Definition below (n : sock) (l : list sock_event) : Prop :=
  ∀ s, Opened s ∈ l ∨ Closed s ∈ l → s < n.

Lemma below_mono n m l : n ≤ m → below n l → below m l.
Proof. intros Hle Hb s Hs. specialize (Hb s Hs). lia. Qed.
Lemma below_snoc n l ev :
  below n l → (∀ s, ev = Opened s ∨ ev = Closed s → s < n) → below n (l ++ [ev]).
Proof.
  intros Hl Hev s. rewrite !elem_of_app, !list_elem_of_singleton. intros [[]|[]]; eauto.
Qed.

Lemma held_below n l : below n l → Forall (λ s, s < n) (held l).
Proof.
  intros Hb. apply Forall_forall. intros s Hs. unfold held in Hs.
  apply list_elem_of_filter in Hs as [_ Hs]. apply list_elem_of_omap in Hs as (ev & Hin & Ho).
  apply Hb. left. by destruct ev; simplify_eq/=.
Qed.

Lemma held_open s l : below s l → held (l ++ [Opened s]) = held l ++ [s].
Proof.
  intros Hb. unfold held. rewrite omap_app, filter_app. simpl.
  rewrite filter_cons_True, filter_nil; cycle 1.
  { rewrite elem_of_app, list_elem_of_singleton. intros [Hin|[=]].
    specialize (Hb s (or_intror Hin)). lia. }
  f_equal. apply list_filter_iff. intros s'. rewrite elem_of_app, list_elem_of_singleton.
  split; [tauto|intros Hn [?|[=]]; tauto].
Qed.
Lemma held_bound s a l : held (l ++ [Bound s a]) = held l.
Proof.
  unfold held. rewrite omap_app. simpl. rewrite app_nil_r. apply list_filter_iff. intros s'.
  rewrite elem_of_app, list_elem_of_singleton. split; [tauto|intros Hn [?|[=]]; tauto].
Qed.
Lemma held_connecting s a l : held (l ++ [Connecting s a]) = held l.
Proof.
  unfold held. rewrite omap_app. simpl. rewrite app_nil_r. apply list_filter_iff. intros s'.
  rewrite elem_of_app, list_elem_of_singleton. split; [tauto|intros Hn [?|[=]]; tauto].
Qed.
(** Events that neither open nor close. *)
Lemma quiet_held did l :
  Forall (λ ev, opened ev = None ∧ ∀ x, ev ≠ Closed x) did → held (l ++ did) = held l.
Proof.
  revert l. induction did as [|ev did IH]; intros l Hd; [by rewrite app_nil_r|].
  apply Forall_cons in Hd as [[Ho Hc] Hd]. rewrite cons_middle, app_assoc, IH by done.
  destruct ev; try done; [apply held_bound|apply held_connecting|by destruct (Hc s)].
Qed.

Lemma quiet_below n did l :
  Forall (λ ev, opened ev = None ∧ ∀ x, ev ≠ Closed x) did → below n l → below n (l ++ did).
Proof.
  intros Hd Hl s. rewrite Forall_forall in Hd. rewrite !elem_of_app.
  intros [[H|H]|[H|H]]; [apply Hl; auto|by destruct (Hd _ H)|apply Hl; auto|].
  by destruct (Hd _ H) as [_ []%(λ f, f s)].
Qed.
Lemma held_close s l : held (l ++ [Closed s]) = filter (λ s', s' ≠ s) (held l).
Proof.
  unfold held. rewrite omap_app. simpl. rewrite app_nil_r, list_filter_filter.
  apply list_filter_iff. intros s'. rewrite elem_of_app, list_elem_of_singleton.
  split; [intros Hn; split; [intros ->|]; tauto|]. intros [? ?] [?|[=]]; auto.
Qed.
Lemma held_open_close s l : below s l → held (l ++ [Opened s] ++ [Closed s]) = held l.
Proof.
  intros Hb. rewrite app_assoc, held_close, held_open, filter_app by done.
  rewrite filter_cons_False, filter_nil, app_nil_r by (by intros []).
  apply filter_all. eapply Forall_impl; [by apply held_below|]. simpl. intros; lia.
Qed.
Lemma held_close_all l : held (l ++ (Closed <$> held l)) = [].
Proof.
  assert (∀ ss l, held (l ++ (Closed <$> ss)) = filter (λ s, s ∉ ss) (held l)) as ->.
  { clear l. induction ss as [|s ss IH]; intros l; simpl.
    - rewrite app_nil_r. symmetry. apply filter_all, Forall_forall. intros s _. by apply not_elem_of_nil.
    - rewrite cons_middle, app_assoc, IH, held_close, list_filter_filter.
      apply list_filter_iff. intros s'. rewrite not_elem_of_cons. tauto. }
  apply filter_none, Forall_forall. intros s Hs Hn. done.
Qed.
