(* ===== verification/Connect.v ===== *)
(** * Opening connections (python/tokioop/loop.py, lines 780-962 and 1500-1551)

    [_connect_sock], [create_connection] and [create_unix_connection] up to the
    point where a transport takes the connected socket. *)

From stdpp Require Import base tactics list strings.
From S2P Require Import Prelude State Net.

Section connect.
Context {E : Type} `{!Net E}.
Local Abbreviation W := (net E).

(** ** [_connect_sock] *)

(** [my_exceptions.append(exc)] and [my_exceptions.pop()]: the list is the [my]-th
    of [exceptions]. *)
Definition append_exc (my : nat) (exc : exn) : M W unit :=
  modify (λ w, set_excs (alter (λ l, l ++ [exc]) my (n_excs w)) w).
Definition my_exceptions (my : nat) (w : W) : list exn := default [] (n_excs w !! my).
Definition drop_last_exc (my : nat) : M W unit :=
  modify (λ w, set_excs (alter (λ l, take (length l - 1) l) my (n_excs w)) w).

(** [OSError(exc.errno, msg)] *)
Definition bind_error (laddr : addr) (exc : exn) : exn :=
  OSErrorMsg (errno_of exc)
    ("error while attempting to bind on address " +:+ addr_repr laddr +:+ ": " +:+
     lower (exc_str exc)).

(** [for lfamily, _, _, _, laddr in local_addr_infos]: [true] if left by
    [break]. *)
Fixpoint bind_local (my : nat) (family : Z) (s : sock) (infos : list addr_info) : M W bool :=
  match infos with
  | [] => mret false
  | i :: infos =>
      if decide (ai_family i ≠ family) then bind_local my family s infos else
      bound ← try_except (bind_sock s (ai_addr i);; mret true)
                (λ exc, if is_OSError exc
                        then append_exc my (bind_error (ai_addr i) exc);; mret false
                        else raise exc);
      if (bound : bool) then mret true else bind_local my family s infos
  end.

(** [OSError(f"no matching local address with {family=} found")] *)
Definition no_match (family : Z) : exn :=
  OSErrorMsg None ("no matching local address with family=" +:+ family_repr family +:+ " found").

Definition bind_any (my : nat) (family : Z) (s : sock) (infos : option (list addr_info)) :
    M W unit :=
  match infos with
  | None => mret tt
  | Some infos =>
      bound ← bind_local my family s infos;
      if (bound : bool) then mret tt else
      mine ← gets (my_exceptions my);
      match last mine with
      | Some exc => drop_last_exc my;; raise exc
      | None => raise (no_match family)
      end
  end.

(** [except OSError as exc: my_exceptions.append(exc); raise] *)
Definition collect (my : nat) (exc : exn) : M W unit :=
  when_ (is_OSError exc) (append_exc my exc).

(** With the socket created. *)
Definition try_socket (my : nat) (info : addr_info) (laddrs : option (list addr_info))
    (s : sock) : M W sock :=
  sys (os_setblocking s);;
  bind_any my (ai_family info) s laddrs;;
  connect_sock s (ai_addr info);;
  mret s.

Definition _connect_sock (info : addr_info) (local_addr_infos : option (list addr_info)) :
    M W sock :=
  my ← gets (λ w, length (n_excs w));
  modify (λ w, set_excs (n_excs w ++ [[]]) w);;
  try_else (new_socket (ai_family info) (ai_type info) (ai_proto info))
    (λ exc, collect my exc;; raise exc)
    (λ s,
      try_except (try_socket my info local_addr_infos s)
        (λ exc, collect my exc;; ignoring_OSError (close_sock s);; raise exc)).

(** ** [create_connection] *)

Record connection_args := MkConnectionArgs {
  ca_host : option string;
  ca_port : option Z;
  ca_ssl : bool;
  ca_family : Z;
  ca_proto : Z;
  ca_flags : Z;
  ca_sock : option sock;
  ca_local_addr : option (string * Z);
  ca_server_hostname : option string;
  ca_ssl_handshake_timeout : option Z;
  ca_ssl_shutdown_timeout : option Z;
  ca_happy_eyeballs_delay : option Z;
  ca_interleave : option nat;
  ca_all_errors : bool;
}.

(** What asyncio does for the rest: [base_events._interleave_addrinfos] and
    [staggered.staggered_race]; and the last step, [_create_connection_transport]
    with the socket and the server's name. *)
Context {R : Type} (interleave_addrinfos : list addr_info → nat → list addr_info)
  (staggered_race : list (M W sock) → Z → M W (option sock))
  (create_connection_transport : sock → option string → M W R).

(** [for addrinfo in infos], without happy eyeballs. *)
Fixpoint connect_first (infos : list addr_info) (laddr_infos : option (list addr_info)) :
    M W (option sock) :=
  match infos with
  | [] => mret None
  | info :: infos =>
      s ← try_except (s ← _connect_sock info laddr_infos; mret (Some s))
            (λ exc, if is_OSError exc then mret None else raise exc);
      match s with
      | Some s => mret (Some s)
      | None => connect_first infos laddr_infos
      end
  end.

Fixpoint join (sep : string) (l : list string) : string :=
  match l with
  | [] => ""
  | [s] => s
  | s :: l => s +:+ sep +:+ join sep l
  end.

(** The exception raised when no address could be connected to. *)
Definition connect_error (all_errors : bool) (exceptions : list exn) : exn :=
  if all_errors then
    match exceptions with
    | [] => ValueError "second argument (exceptions) must be a non-empty sequence"
    | _ => ExceptionGroup "create_connection failed" exceptions
    end
  else
    match exceptions with
    | [exc] => exc
    | exc :: _ =>
        if forallb (λ x, String.eqb (exc_str x) (exc_str exc)) exceptions then exc
        else OSErrorMsg None ("Multiple exceptions: " +:+ join ", " (exc_str <$> exceptions))
    | [] => TimeoutError "create_connection failed"
    end.

Definition resolve (host : option string) (port : option Z) (a : connection_args) :
    M W (list addr_info) :=
  infos ← _ensure_resolved host port (ca_family a) SOCK_STREAM (ca_proto a) (ca_flags a);
  match infos with
  | [] => raise (OSErrorMsg None "getaddrinfo() returned empty list")
  | _ => mret infos
  end.

(** The checks on the arguments, and the name of the server. *)
Definition check_connection_args (a : connection_args) : M W (option string) :=
  if negb (bool_decide (ca_server_hostname a = None)) && negb (ca_ssl a) then
    raise (ValueError "server_hostname is only meaningful with ssl") else
  server_hostname ← match ca_server_hostname a with
                    | None =>
                        if ca_ssl a then
                          match ca_host a with
                          | None | Some EmptyString =>
                              raise (ValueError "You must set server_hostname when using ssl without a host")
                          | Some h => mret (Some h)
                          end
                        else mret None
                    | Some h => mret (Some h)
                    end;
  if bool_decide (is_Some (ca_ssl_handshake_timeout a)) && negb (ca_ssl a) then
    raise (ValueError "ssl_handshake_timeout is only meaningful with ssl") else
  if bool_decide (is_Some (ca_ssl_shutdown_timeout a)) && negb (ca_ssl a) then
    raise (ValueError "ssl_shutdown_timeout is only meaningful with ssl") else
  check_ssl_socket (ca_sock a);;
  mret server_hostname.

Definition resolve_both (a : connection_args) : M W (list addr_info * option (list addr_info)) :=
  infos ← resolve (ca_host a) (ca_port a) a;
  laddr_infos ← match ca_local_addr a with
                | Some (h, p) => l ← resolve (Some h) (Some p) a; mret (Some l)
                | None => mret None
                end;
  mret (infos, laddr_infos).

(** The order in which the addresses are tried. *)
Definition ordered (a : connection_args) (infos : list addr_info) : list addr_info :=
  let interleave := match ca_interleave a, ca_happy_eyeballs_delay a with
                    | None, Some _ => Some 1
                    | i, _ => i
                    end in
  match interleave with
  | Some (S n) => interleave_addrinfos infos (S n)
  | _ => infos
  end.

(** From the addresses to a connected socket. *)
Definition connect_host (a : connection_args) : M W sock :=
  both ← resolve_both a;
  let '(infos, laddr_infos) := both in
  let infos := ordered a infos in
  modify (set_excs []);;
  s ← match ca_happy_eyeballs_delay a with
      | None => connect_first infos laddr_infos
      | Some d => staggered_race ((λ info, _connect_sock info laddr_infos) <$> infos) d
      end;
  match s with
  | Some s => mret s
  | None =>
      exceptions ← gets (λ w, concat (n_excs w));
      raise (connect_error (ca_all_errors a) exceptions)
  end.

Definition given_socket (a : connection_args) : M W sock :=
  match ca_sock a with
  | None => raise (ValueError "host and port was not specified and no sock specified")
  | Some s =>
      t ← gets (λ w, os_type s (n_env w));
      if decide (t ≠ SOCK_STREAM) then raise (ValueError "A Stream Socket was expected")
      else mret s
  end.

Definition create_connection (a : connection_args) : M W R :=
  server_hostname ← check_connection_args a;
  s ← (if bool_decide (is_Some (ca_host a)) || bool_decide (is_Some (ca_port a)) then
         if bool_decide (is_Some (ca_sock a))
         then raise (ValueError "host/port and sock can not be specified at the same time")
         else connect_host a
       else given_socket a);
  create_connection_transport s server_hostname.

(** ** [create_unix_connection] *)

Record unix_args := MkUnixArgs {
  ua_path : option bytes;
  ua_ssl : bool;
  ua_sock : option sock;
  ua_server_hostname : option string;
  ua_ssl_handshake_timeout : option Z;
  ua_ssl_shutdown_timeout : option Z;
}.

Definition check_unix_args (a : unix_args) : M W unit :=
  if ua_ssl a then
    match ua_server_hostname a with
    | None => raise (ValueError "you have to pass server_hostname when using ssl")
    | Some _ => mret tt
    end
  else
    if bool_decide (is_Some (ua_server_hostname a)) then
      raise (ValueError "server_hostname is only meaningful with ssl") else
    if bool_decide (is_Some (ua_ssl_handshake_timeout a)) then
      raise (ValueError "ssl_handshake_timeout is only meaningful with ssl") else
    if bool_decide (is_Some (ua_ssl_shutdown_timeout a)) then
      raise (ValueError "ssl_shutdown_timeout is only meaningful with ssl")
    else mret tt.

Definition connect_path (path : bytes) : M W sock :=
  s ← new_socket AF_UNIX SOCK_STREAM 0;
  try_except (sys (os_setblocking s);; connect_sock s (AUnix path);; mret s)
    (λ exc, close_sock s;; raise exc).

Definition create_unix_connection (a : unix_args) : M W R :=
  check_unix_args a;;
  s ← match ua_path a with
      | Some path =>
          if bool_decide (is_Some (ua_sock a))
          then raise (ValueError "path and sock can not be specified at the same time")
          else connect_path path
      | None =>
          match ua_sock a with
          | None => raise (ValueError "no path and sock were specified")
          | Some s =>
              ok ← gets (λ w, bool_decide (os_family s (n_env w) = AF_UNIX ∧
                                           os_type s (n_env w) = SOCK_STREAM));
              if negb ok then raise (ValueError "A UNIX Domain Stream Socket was expected")
              else sys (os_setblocking s);; mret s
          end
      end;
  create_connection_transport s (ua_server_hostname a).
End connect.
