(* ===== verification/ConnectProps.v ===== *)
(** * Opening connections: what the attempts promise

    One attempt ends with a connected socket or with its socket closed and an
    error recorded; [create_connection] on top of it. *)

From stdpp Require Import base tactics list strings.
From S2P Require Import Prelude State Net Connect.

Section reference.
Context {E : Type} `{!Net E}.

(** ** Reference definition *)

(** One attempt on the system alone: what it does with its socket, the errors it
    puts on its list, its outcome, the name of the next socket and the system
    afterwards. *)
Record attempt := MkAttempt {
  at_log : list sock_event;
  at_errors : list exn;
  at_result : res sock;
  at_next : sock;
  at_env : E;
}.

(** Only [OSError]s go on the list. *)
Definition os_errors (x : exn) : list exn := if is_OSError x then [x] else [].

(** The local addresses of the family in turn: the errors of those refused, and
    the one that is bound, or an exception that ends it; neither if all are
    refused. *)
Fixpoint try_binds (family : Z) (s : sock) (infos : list addr_info) (e : E) :
    list exn * option (res addr) * E :=
  match infos with
  | [] => ([], None, e)
  | i :: infos =>
      if decide (ai_family i ≠ family) then try_binds family s infos e else
      match os_bind s (ai_addr i) e with
      | (Ret _, e) => ([], Some (Ret (ai_addr i)), e)
      | (Raise x, e) =>
          if is_OSError x then
            let '(errs, r, e) := try_binds family s infos e in
            (bind_error (ai_addr i) x :: errs, r, e)
          else ([], Some (Raise x), e)
      end
  end.

(** The socket bound: with no local address there is nothing to do; if all are
    refused the last error is raised. *)
Definition bound_on (family : Z) (s : sock) (laddrs : option (list addr_info)) (e : E) :
    list exn * res (list sock_event) * E :=
  match laddrs with
  | None => ([], Ret [], e)
  | Some infos =>
      let '(errs, r, e) := try_binds family s infos e in
      match r, last errs with
      | Some (Ret a), _ => (errs, Ret [Bound s a], e)
      | Some (Raise x), _ => (errs, Raise x, e)
      | None, Some x => (errs, Raise x, e)
      | None, None => ([no_match family], Raise (no_match family), e)
      end
  end.

Definition with_socket (info : addr_info) (laddrs : option (list addr_info)) (s : sock) (e : E) :
    list exn * list sock_event * res unit * E :=
  match os_setblocking s e with
  | (Raise x, e) => (os_errors x, [], Raise x, e)
  | (Ret _, e) =>
      match bound_on (ai_family info) s laddrs e with
      | (errs, Raise x, e) => (errs, [], Raise x, e)
      | (errs, Ret b, e) =>
          let did := b ++ [Connecting s (ai_addr info)] in
          match os_connect s (ai_addr info) e with
          | (Raise x, e) => (errs ++ os_errors x, did, Raise x, e)
          | (Ret _, e) => (errs, did, Ret tt, e)
          end
      end
  end.

(** Closing does not hide the error, unless it raises no [OSError] itself. *)
Definition close_outcome (x : exn) (closing : res unit) : exn :=
  match closing with
  | Raise y => if is_OSError y then x else y
  | Ret _ => x
  end.

Definition attempt_on (info : addr_info) (laddrs : option (list addr_info)) (s : sock) (e : E) :
    attempt :=
  match os_socket s (ai_family info) (ai_type info) (ai_proto info) e with
  | (Raise x, e) => MkAttempt [] (os_errors x) (Raise x) s e
  | (Ret _, e) =>
      let '(errs, did, r, e) := with_socket info laddrs s e in
      match r with
      | Ret _ => MkAttempt (Opened s :: did) errs (Ret s) (S s) e
      | Raise x =>
          let '(closing, e) := os_close s e in
          MkAttempt (Opened s :: did ++ [Closed s]) errs (Raise (close_outcome x closing)) (S s) e
      end
  end.

(** The addresses in order, up to the first that is connected to or fails with
    anything but an [OSError]. *)
Definition goes_on (t : attempt) : bool :=
  match at_result t with Raise x => is_OSError x | Ret _ => false end.
Fixpoint attempts (infos : list addr_info) (laddrs : option (list addr_info)) (s : sock) (e : E) :
    list attempt :=
  match infos with
  | [] => []
  | info :: infos =>
      let t := attempt_on info laddrs s e in
      t :: if goes_on t then attempts infos laddrs (at_next t) (at_env t) else []
  end.
End reference.
Arguments attempt : clear implicits.
Arguments MkAttempt {E}.

Section attempts.
Context {E : Type} `{!Net E}.
Local Abbreviation W := (net E).

(** ** One attempt *)

(** What binding to a local address leaves in the record: nothing was asked for,
    or one of the local addresses of the right family. *)
Definition binding (s : sock) (info : addr_info) (laddrs : option (list addr_info))
    (l : list sock_event) : Prop :=
  match laddrs with
  | None => l = []
  | Some infos => ∃ i, i ∈ infos ∧ ai_family i = ai_family info ∧ l = [Bound s (ai_addr i)]
  end.

(** What a failed attempt leaves: no socket, or one that is closed again. *)
Inductive failed_attempt (laddrs : option (list addr_info)) (info : addr_info) :
    list sock_event → Prop :=
  | no_socket : failed_attempt laddrs info []
  | not_bound s : failed_attempt laddrs info [Opened s; Closed s]
  | not_connected s b :
      binding s info laddrs b →
      failed_attempt laddrs info (Opened s :: (b ++ [Connecting s (ai_addr info)]) ++ [Closed s]).

(** An attempt for [info]: connected, or failed with [OSError]s on its list, the
    last being the one raised. *)
Definition attempted (laddrs : option (list addr_info)) (info : addr_info) (t : attempt E) : Prop :=
  Forall (λ x, is_OSError x = true) (at_errors t) ∧
  match at_result t with
  | Ret s => ∃ b, binding s info laddrs b ∧ at_log t = Opened s :: b ++ [Connecting s (ai_addr info)]
  | Raise x => failed_attempt laddrs info (at_log t) ∧
               (is_OSError x = true → last (at_errors t) = Some x)
  end.

Lemma os_errors_ok x : Forall (λ x, is_OSError x = true) (os_errors x).
Proof. unfold os_errors. destruct (is_OSError x) eqn:Hx; by repeat constructor. Qed.
Lemma os_errors_last l x : is_OSError x = true → last (l ++ os_errors x) = Some x.
Proof. unfold os_errors. intros ->. apply last_snoc. Qed.

Lemma try_binds_ok family s infos (e : E) :
  let '(errs, r, _) := try_binds family s infos e in
  Forall (λ x, is_OSError x = true) errs ∧
  match r with
  | Some (Ret a) => ∃ i, i ∈ infos ∧ ai_family i = family ∧ a = ai_addr i
  | Some (Raise x) => is_OSError x = false
  | None => True
  end.
Proof.
  revert e. induction infos as [|i infos IH]; intros e; cbn [try_binds]; [by split|].
  case_decide as Hf.
  { specialize (IH e). destruct (try_binds family s infos e) as [[errs [[a|x]|]] e'];
      destruct IH as [H1 H2]; split; try done. destruct H2 as (j & ? & ? & ?).
    exists j. split_and!; [by right|done..]. }
  destruct (os_bind s (ai_addr i) e) as [[u|x] e1].
  { split; [constructor|]. exists i. split; [by left|]. split; [|done].
    destruct (decide (ai_family i = family)); tauto. }
  destruct (is_OSError x) eqn:Hx; [|by split].
  specialize (IH e1). destruct (try_binds family s infos e1) as [[errs [[a|y]|]] e'];
    destruct IH as [H1 H2]; (split; [by constructor|]); try done. destruct H2 as (j & ? & ? & ?).
  exists j. split_and!; [by right|done..].
Qed.

Lemma bound_on_ok s info laddrs (e : E) :
  let '(errs, r, _) := bound_on (ai_family info) s laddrs e in
  Forall (λ x, is_OSError x = true) errs ∧
  match r with
  | Ret b => binding s info laddrs b
  | Raise x => is_OSError x = true → last errs = Some x
  end.
Proof.
  unfold bound_on. destruct laddrs as [infos|]; [|done].
  pose proof (try_binds_ok (ai_family info) s infos e) as H.
  destruct (try_binds _ s infos e) as [[errs [[a|x]|]] e']; destruct H as [H1 H2].
  - split; [done|]. destruct H2 as (i & ? & ? & ->). by exists i.
  - split; [done|]. congruence.
  - destruct (last errs) as [x|] eqn:Hlast; [done|]. split; [by repeat constructor|done].
Qed.

Lemma attempt_ok info laddrs s (e : E) : attempted laddrs info (attempt_on info laddrs s e).
Proof.
  unfold attempt_on, attempted.
  destruct (os_socket _ _ _ _ e) as [[u|x] e1]; cycle 1.
  { split; [apply os_errors_ok|]. split; [constructor|]. apply (os_errors_last []). }
  unfold with_socket. destruct (os_setblocking s e1) as [[u1|x] e2]; cycle 1.
  { destruct (os_close s e2) as [c e3]. split; [apply os_errors_ok|]. split; [constructor|].
    cbn [at_errors]. unfold close_outcome. destruct c as [|y]; [apply (os_errors_last [])|].
    destruct (is_OSError y) eqn:Hy; [apply (os_errors_last [])|congruence]. }
  pose proof (bound_on_ok s info laddrs e2) as H.
  destruct (bound_on _ s laddrs e2) as [[errs [b|x]] e3]; destruct H as [H1 H2]; cycle 1.
  { destruct (os_close s e3) as [c e4]. split; [done|]. split; [constructor|].
    unfold close_outcome. destruct c as [|y]; [done|]. destruct (is_OSError y) eqn:Hy; [done|congruence]. }
  destruct (os_connect s (ai_addr info) e3) as [[u2|x] e4]; [by split; [|exists b]|].
  destruct (os_close s e4) as [c e5]. split; [apply Forall_app; split; [done|apply os_errors_ok]|].
  split; [by apply not_connected|]. cbn [at_errors]. unfold close_outcome.
  destruct c as [|y]; [apply os_errors_last|].
  destruct (is_OSError y) eqn:Hy; [apply os_errors_last|congruence].
Qed.

(** Its socket is open afterwards just if it is connected. *)
Lemma attempt_sockets info laddrs s (e : E) :
  let t := attempt_on info laddrs s e in
  s ≤ at_next t ∧
  (at_log t = [] ∨ ∃ did, at_next t = S s ∧ Forall (λ ev, opened ev = None ∧ ∀ x, ev ≠ Closed x) did ∧
     match at_result t with
     | Ret s' => s' = s ∧ at_log t = Opened s :: did
     | Raise _ => at_log t = Opened s :: did ++ [Closed s]
     end) ∧
  (at_log t = [] → ∃ x, at_result t = Raise x).
Proof.
  cbv zeta. unfold attempt_on. destruct (os_socket _ _ _ _ e) as [[u|x] e1]; cycle 1.
  { cbn. split; [lia|]. split; [by left|]. intros _. by eexists. }
  assert (Forall (λ ev, opened ev = None ∧ ∀ x, ev ≠ Closed x) (with_socket info laddrs s e1).1.1.2) as Hd.
  { unfold with_socket. destruct (os_setblocking s e1) as [[u1|x] e2]; [|constructor].
    pose proof (bound_on_ok s info laddrs e2) as H.
    destruct (bound_on _ s laddrs e2) as [[errs [b|x]] e3]; [|constructor].
    assert (Forall (λ ev, opened ev = None ∧ ∀ x, ev ≠ Closed x) (b ++ [Connecting s (ai_addr info)])) as Hb.
    { apply Forall_app. split; [|by repeat constructor]. destruct H as [_ H].
      destruct laddrs; simpl in H; [destruct H as (i & _ & _ & ->)|subst]; by repeat constructor. }
    by destruct (os_connect s (ai_addr info) e3) as [[u2|x] e4]. }
  destruct (with_socket info laddrs s e1) as [[[errs did] [u1|x]] e2]; cbn [fst snd] in Hd.
  { cbn. split; [lia|]. split; [right; by exists did|done]. }
  destruct (os_close s e2) as [c e3]. cbn. split; [lia|]. split; [right; by exists did|done].
Qed.

Lemma attempt_held info laddrs s (e : E) l :
  below s l →
  let t := attempt_on info laddrs s e in
  below (at_next t) (l ++ at_log t) ∧
  held (l ++ at_log t) = held l ++ match at_result t with Ret s' => [s'] | Raise _ => [] end.
Proof.
  intros Hb. cbv zeta. destruct (attempt_sockets info laddrs s e) as (Hle & [Hl|H] & Hnil).
  { rewrite Hl, app_nil_r. destruct (Hnil Hl) as [x ->]. rewrite app_nil_r.
    split; [by apply (below_mono s)|done]. }
  destruct H as (did & Hn & Hd & Hr). rewrite Hn.
  assert (∀ ev, ev ∈ did → ∀ x, ev ≠ Opened x ∧ ev ≠ Closed x) as Hq.
  { intros ev Hin x. rewrite Forall_forall in Hd. destruct (Hd ev Hin) as [Ho Hc].
    split; [by intros ->|apply Hc]. }
  assert (below (S s) (l ++ Opened s :: did)) as Hb1.
  { intros x. rewrite !elem_of_app, !elem_of_cons.
    intros [[H|[[= ->]|H]]|[H|[[=]|H]]]; try lia; try (by destruct (Hq _ H x)).
    - specialize (Hb x (or_introl H)). lia.
    - specialize (Hb x (or_intror H)). lia. }
  assert (held (l ++ Opened s :: did) = held l ++ [s]) as Hh.
  { rewrite cons_middle, app_assoc, quiet_held by done. by apply held_open. }
  destruct (at_result _) as [s'|x]; [destruct Hr as [-> Hr]|]; rewrite Hr; [done|].
  rewrite app_comm_cons, app_assoc. split.
  { apply below_snoc; [done|]. intros x' [[=]|[= ->]]. lia. }
  rewrite held_close, Hh, filter_app, filter_cons_False, filter_nil, !app_nil_r by (by intros []).
  apply filter_all. eapply Forall_impl; [by apply held_below|]. simpl. intros; lia.
Qed.

(** *** The coroutine is the reference *)

Lemma alter_last (f : list exn → list exn) (l : list (list exn)) (x : list exn) :
  alter f (length l) (l ++ [x]) = l ++ [f x].
Proof. rewrite <- (Nat.add_0_r (length l)), alter_app_r. done. Qed.

Lemma bind_local_run l s family infos mine (w : W) :
  n_excs w = l ++ [mine] →
  let '(errs, r, e) := try_binds family s infos (n_env w) in
  bind_local (length l) family s infos w =
    (match r with Some (Ret _) => Ret true | Some (Raise x) => Raise x | None => Ret false end,
     MkNet e (n_log w ++ match r with Some (Ret a) => [Bound s a] | _ => [] end) (n_next w)
       (l ++ [mine ++ errs])).
Proof.
  revert mine w. induction infos as [|i infos IH]; intros mine w Hl; cbn [bind_local try_binds].
  { rewrite run_ret, !app_nil_r, <- Hl. by destruct w. }
  case_decide as Hf; [by apply IH|].
  rewrite run_bind. unfold try_except, try_else, bind_sock. rewrite run_bind, run_bind, run_sys.
  destruct (os_bind s (ai_addr i) (n_env w)) as [[[]|x] e]; cbn [fst snd]; cbv beta iota.
  { rewrite run_note. cbv beta iota. rewrite run_ret. cbv beta iota. rewrite run_ret.
    cbv beta iota. rewrite run_ret, app_nil_r, <- Hl. done. }
  destruct (is_OSError x) eqn:Hx; cycle 1.
  { rewrite run_raise, !app_nil_r, <- Hl. done. }
  rewrite run_bind. unfold append_exc. rewrite run_modify. cbv beta iota. rewrite run_ret.
  cbv beta iota. set (w1 := set_excs _ _).
  specialize (IH (mine ++ [bind_error (ai_addr i) x]) w1). change (n_env w1) with e in IH.
  destruct (try_binds family s infos e) as [[errs r] e']. rewrite IH.
  - by rewrite <- app_assoc.
  - unfold w1. cbn [n_excs set_excs]. by rewrite Hl, alter_last.
Qed.

Lemma bind_any_run l s family laddrs (w : W) :
  n_excs w = l ++ [[]] →
  let '(errs, r, e) := bound_on family s laddrs (n_env w) in
  ∃ mine, bind_any (length l) family s laddrs w =
    (match r with Ret _ => Ret tt | Raise x => Raise x end,
     MkNet e (n_log w ++ match r with Ret b => b | Raise _ => [] end) (n_next w) (l ++ [mine])) ∧
    errs = mine ++ match r with Ret _ => [] | Raise x => os_errors x end.
Proof.
  intros Hl. unfold bound_on, bind_any. destruct laddrs as [infos|]; cycle 1.
  { exists []. rewrite run_ret, app_nil_r, <- Hl. split; [by destruct w|done]. }
  pose proof (bind_local_run l s family infos [] w Hl) as Hrun.
  pose proof (try_binds_ok family s infos (n_env w)) as Hok.
  destruct (try_binds family s infos (n_env w)) as [[errs [[a|x]|]] e]; destruct Hok as [Hos Hr];
    rewrite run_bind, Hrun; cbv beta iota.
  - exists errs. by rewrite run_ret, app_nil_r.
  - exists errs. unfold os_errors. by rewrite Hr, !app_nil_r.
  - rewrite run_bind, run_gets. cbv beta iota. unfold my_exceptions. cbn [n_excs app].
    rewrite list_lookup_middle by done. simpl. destruct (last errs) as [x|] eqn:Hlast.
    + apply last_Some in Hlast as [errs' ->].
      rewrite run_bind. unfold drop_last_exc. rewrite run_modify. cbv beta iota. rewrite run_raise.
      cbn [n_excs set_excs n_log n_env n_next]. rewrite alter_last, length_app. cbn [length].
      replace (length errs' + 1 - 1) with (length errs') by lia. rewrite take_app_length.
      exists errs'. split; [done|]. apply Forall_app in Hos as [_ [Hx _]%Forall_cons].
      unfold os_errors. by rewrite Hx.
    + rewrite run_raise. apply last_None in Hlast as ->. by exists [].
Qed.

(** What follows the creation of the socket, before the error is collected. *)
Lemma try_socket_run l s info laddrs (w : W) :
  n_excs w = l ++ [[]] →
  let '(errs, did, r, e) := with_socket info laddrs s (n_env w) in
  ∃ mine, try_socket (length l) info laddrs s w =
    (match r with Ret _ => Ret s | Raise x => Raise x end,
     MkNet e (n_log w ++ did) (n_next w) (l ++ [mine])) ∧
    errs = mine ++ match r with Ret _ => [] | Raise x => os_errors x end.
Proof.
  intros Hl. unfold try_socket, with_socket. rewrite run_bind, run_sys.
  destruct (os_setblocking s (n_env w)) as [[[]|x] e1]; cbn [fst snd]; cbv beta iota; cycle 1.
  { exists []. by rewrite app_nil_r, <- Hl. }
  set (w1 := MkNet _ _ _ _). rewrite run_bind.
  pose proof (bind_any_run l s (ai_family info) laddrs w1 Hl) as H. change (n_env w1) with e1 in H.
  destruct (bound_on (ai_family info) s laddrs e1) as [[errs [b|x]] e2];
    destruct H as (mine & -> & Herrs); cbv beta iota; [|by exists mine].
  rewrite app_nil_r in Herrs. subst errs.
  rewrite run_bind. unfold connect_sock. rewrite run_bind, run_note. cbv beta iota.
  rewrite run_sys. cbn [n_env add_note n_log n_next n_excs]. change (n_log w1) with (n_log w).
  destruct (os_connect s (ai_addr info) e2) as [[[]|x] e3]; cbn [fst snd]; cbv beta iota.
  - exists mine. rewrite run_ret, app_nil_r, <- app_assoc. done.
  - exists mine. by rewrite <- app_assoc.
Qed.

(** [except OSError as exc: my_exceptions.append(exc)]. *)
Lemma collect_run l mine x (w : W) :
  n_excs w = l ++ [mine] →
  collect (length l) x w = (Ret tt, set_excs (l ++ [mine ++ os_errors x]) w).
Proof.
  intros Hl. unfold collect, os_errors. destruct (is_OSError x); cbn [when_].
  - unfold append_exc. by rewrite run_modify, Hl, alter_last.
  - rewrite run_ret, app_nil_r, <- Hl. by destruct w.
Qed.

(** [sock.close()] with [OSError]s ignored, then [raise]. *)
Lemma close_sock_run {A} s x (w : W) :
  (ignoring_OSError (close_sock s);; raise x : M W A) w =
    (Raise (close_outcome x (os_close s (n_env w)).1),
     MkNet (os_close s (n_env w)).2 (n_log w ++ [Closed s]) (n_next w) (n_excs w)).
Proof.
  unfold ignoring_OSError, try_except, try_else, close_sock. rewrite run_bind, run_bind, run_note.
  cbv beta iota. rewrite run_sys. cbn [n_env add_note n_log n_next n_excs].
  destruct (os_close s (n_env w)) as [[[]|y] e]; cbn [fst snd close_outcome]; cbv beta iota.
  - done.
  - by destruct (is_OSError y).
Qed.

(** An attempt: its record, and its list of errors, new at the end of
    [exceptions]. *)
Lemma connect_sock_run info laddrs (w : W) :
  let t := attempt_on info laddrs (n_next w) (n_env w) in
  _connect_sock info laddrs w =
    (at_result t, MkNet (at_env t) (n_log w ++ at_log t) (at_next t) (n_excs w ++ [at_errors t])).
Proof.
  cbv zeta. unfold _connect_sock, attempt_on. rewrite run_bind, run_gets. cbv beta iota.
  rewrite run_bind, run_modify. cbv beta iota. set (l := n_excs w).
  set (w0 := set_excs (l ++ [[]]) w). unfold try_else, new_socket.
  rewrite run_bind, run_gets. cbv beta iota. change (n_next w0) with (n_next w).
  set (s := n_next w). rewrite run_bind, run_sys. change (n_env w0) with (n_env w).
  destruct (os_socket s _ _ _ (n_env w)) as [[[]|x] e1]; cbn [fst snd]; cbv beta iota; cycle 1.
  { rewrite run_bind. set (w1 := MkNet _ _ _ _).
    rewrite (collect_run l [] x w1) by done. cbv beta iota. rewrite run_raise. cbn.
    by rewrite app_nil_r. }
  rewrite run_bind, run_modify. cbv beta iota. rewrite run_ret. cbv beta iota.
  set (w1 := MkNet _ _ _ _). unfold try_except, try_else.
  pose proof (try_socket_run l s info laddrs w1 eq_refl) as H. change (n_env w1) with e1 in H.
  destruct (with_socket info laddrs s e1) as [[[errs did] [[]|x]] e2]; destruct H as (mine & -> & ->);
    cbv beta iota.
  - rewrite run_ret, app_nil_r. unfold w1. cbn [n_log n_next at_env at_log at_next at_errors at_result].
    by rewrite <- app_assoc.
  - rewrite run_bind. set (w2 := MkNet _ _ _ _). rewrite (collect_run l mine x w2) by done.
    cbv beta iota. rewrite close_sock_run. cbn [n_env set_excs n_log n_next n_excs w2].
    destruct (os_close s e2) as [c e3]. cbn. by rewrite <- !app_assoc.
Qed.

(** ** The addresses in order *)

(** The state after the attempts [l]. *)
Definition after (l : list (attempt E)) (w : W) : W :=
  MkNet (from_option at_env (n_env w) (last l)) (n_log w ++ concat (at_log <$> l))
    (from_option at_next (n_next w) (last l)) (n_excs w ++ (at_errors <$> l)).

Lemma connect_first_run infos laddrs (w : W) :
  let l := attempts infos laddrs (n_next w) (n_env w) in
  connect_first infos laddrs w =
    (match at_result <$> last l with
     | Some (Ret s) => Ret (Some s)
     | Some (Raise x) => if is_OSError x then Ret None else Raise x
     | None => Ret None
     end, after l w).
Proof.
  cbv zeta. revert w. induction infos as [|info infos IH]; intros w; cbn [connect_first attempts].
  { rewrite run_ret. unfold after. cbn. rewrite !app_nil_r. by destruct w. }
  rewrite run_bind. unfold try_except, try_else. rewrite run_bind, connect_sock_run. cbv zeta.
  set (t := attempt_on info laddrs (n_next w) (n_env w)). unfold goes_on.
  destruct (at_result t) as [s|x] eqn:Hr; cbv beta iota.
  { rewrite run_ret. cbv beta iota. rewrite run_ret. cbv beta iota. rewrite run_ret.
    cbn [last fmap option_fmap option_map]. rewrite Hr. unfold after. cbn. by rewrite app_nil_r. }
  destruct (is_OSError x) eqn:Hx; cycle 1.
  { rewrite run_raise. cbn [last fmap option_fmap option_map]. rewrite Hr, Hx. unfold after. cbn.
    by rewrite app_nil_r. }
  rewrite run_ret. cbv beta iota. set (w1 := MkNet _ _ _ _).
  rewrite (IH w1). change (n_next w1) with (at_next t). change (n_env w1) with (at_env t).
  set (l := attempts infos laddrs (at_next t) (at_env t)). rewrite last_cons.
  destruct (last l) as [u|] eqn:Hlast.
  - cbn [fmap option_fmap option_map]. unfold after. rewrite last_cons, Hlast. cbn.
    by rewrite <- !app_assoc.
  - apply last_None in Hlast as Hnil. rewrite Hnil. cbn [fmap option_fmap option_map last].
    rewrite Hr, Hx. unfold after. cbn. by rewrite !app_nil_r.
Qed.

Lemma attempts_ok infos laddrs s (e : E) :
  let l := attempts infos laddrs s e in
  Forall2 (attempted laddrs) (take (length l) infos) l ∧
  (∀ t, last l = Some t → goes_on t = true → length l = length infos).
Proof.
  cbv zeta. revert s e. induction infos as [|info infos IH]; intros s e; cbn [attempts]; [by split|].
  set (t := attempt_on info laddrs s e). destruct (goes_on t) eqn:Hg.
  - destruct (IH (at_next t) (at_env t)) as [H1 H2]. cbn [length take].
    split; [constructor; [apply attempt_ok|done]|]. intros u. rewrite last_cons.
    destruct (last (attempts _ _ _ _)) as [v|] eqn:Hlast.
    + intros [= ->] Hu. by rewrite (H2 u).
    + intros _ _. destruct infos; [done|]. by apply last_None in Hlast.
  - cbn. split; [constructor; [apply attempt_ok|constructor]|]. intros u [= <-]. congruence.
Qed.

Lemma attempts_before infos laddrs s (e : E) l t :
  attempts infos laddrs s e = l ++ [t] → Forall (λ t, goes_on t = true) l.
Proof.
  revert s e l. induction infos as [|info infos IH]; intros s e l; cbn [attempts]; [by destruct l|].
  set (u := attempt_on info laddrs s e). destruct l as [|v l]; [constructor|].
  intros [= <- Hl]. destruct (goes_on u) eqn:Hg; [|by destruct l].
  constructor; [done|]. by eapply IH.
Qed.

Lemma attempts_held infos laddrs s (e : E) l0 :
  below s l0 →
  let l := attempts infos laddrs s e in
  held (l0 ++ concat (at_log <$> l)) =
    held l0 ++ match at_result <$> last l with Some (Ret s) => [s] | _ => [] end.
Proof.
  cbv zeta. revert s e l0. induction infos as [|info infos IH]; intros s e l0 Hb; cbn [attempts].
  { cbn. by rewrite !app_nil_r. }
  destruct (attempt_held info laddrs s e l0 Hb) as [Hb1 Hh1].
  set (t := attempt_on info laddrs s e) in *. unfold goes_on.
  destruct (at_result t) as [s'|x] eqn:Hr; [|destruct (is_OSError x) eqn:Hx]; cbv beta iota.
  - cbn. by rewrite app_nil_r, Hr, Hh1.
  - rewrite fmap_cons, concat_cons, app_assoc, IH, Hh1, app_nil_r by done. f_equal.
    rewrite last_cons. destruct (last (attempts _ _ _ _)); [done|]. cbn. by rewrite Hr.
  - cbn. by rewrite app_nil_r, Hr, Hh1.
Qed.

(** Resolving opens nothing. *)
Lemma plain_raise {A} (x : exn) : plain (raise x : M W A).
Proof. intros []. by eexists _, _. Qed.
Lemma resolve_plain host port a : plain (resolve (E := E) host port a).
Proof.
  unfold resolve, _ensure_resolved. apply plain_bind.
  - destruct (ipaddr_info _ _ _ _ _); [apply plain_ret|apply plain_sys].
  - intros []; [apply plain_raise|apply plain_ret].
Qed.
Lemma resolve_both_plain a : plain (resolve_both (E := E) a).
Proof.
  unfold resolve_both. apply plain_bind; [apply resolve_plain|]. intros infos.
  apply plain_bind; [|intros; apply plain_ret]. destruct (ca_local_addr a) as [[h p]|]; [|apply plain_ret].
  apply plain_bind; [apply resolve_plain|intros; apply plain_ret].
Qed.
End attempts.

Section connections.
Context {E : Type} `{!Net E}.
Local Abbreviation W := (net E).
Context {R : Type} (interleave_addrinfos : list addr_info → nat → list addr_info)
  (staggered_race : list (M W sock) → Z → M W (option sock))
  (create_connection_transport : sock → option string → M W R).
Local Abbreviation create_connection :=
  (create_connection interleave_addrinfos staggered_race create_connection_transport).

(** C31: [create_connection] to a host, without happy eyeballs, is the reference
    definition [attempts].  The addresses are tried in order until one can be
    connected to, from a socket bound to the first local address of the same
    family that can be bound to if any were given; every attempt before it has
    failed with an [OSError], its socket closed, and every address is tried before
    it gives up.  The connected socket is the one the transport is made for, and
    nothing else has been left open.  If no address can be connected to, the
    errors [bind] and [connect] have raised in all attempts, in order, decide the
    exception: a single one is raised as it is.  Anything but an [OSError] ends it
    at once, the attempt's socket closed too. *)
Theorem create_connection_attempts a (w w1 : W) name infos laddrs :
  check_connection_args a w = (Ret name, w) →
  is_Some (ca_host a) ∨ is_Some (ca_port a) → ca_sock a = None →
  ca_happy_eyeballs_delay a = None → resolve_both a w = (Ret (infos, laddrs), w1) →
  let infos' := ordered interleave_addrinfos a infos in
  let l := attempts infos' laddrs (n_next w1) (n_env w1) in
  let errors := concat (at_errors <$> l) in
  let w2 := after l (set_excs [] w1) in
  create_connection a w =
    match at_result <$> last l with
    | Some (Ret s) => create_connection_transport s name w2
    | Some (Raise x) =>
        (Raise (if is_OSError x then connect_error (ca_all_errors a) errors else x), w2)
    | None => (Raise (connect_error (ca_all_errors a) []), w2)
    end ∧
  Forall2 (attempted laddrs) (take (length l) infos') l ∧
  (∀ l' t, l = l' ++ [t] → Forall (λ t, goes_on t = true) l' ∧
                           (goes_on t = true → length l = length infos')) ∧
  (∀ x, errors = [x] → connect_error false errors = x) ∧
  n_log w2 = n_log w ++ concat (at_log <$> l) ∧
  (below (n_next w) (n_log w) →
   held (n_log w2) =
     held (n_log w) ++ match at_result <$> last l with Some (Ret s) => [s] | _ => [] end).
Proof.
  intros Hcheck Hhost Hsock Hdelay Hres. cbv zeta.
  destruct (resolve_both_plain a w) as (r & e & Hp). rewrite Hres in Hp. injection Hp as <- ->.
  cbn [n_next n_env]. set (infos' := ordered interleave_addrinfos a infos).
  destruct (attempts_ok infos' laddrs (n_next w) e) as [Hok Hall].
  pose proof (attempts_before infos' laddrs (n_next w) e) as Hbefore.
  pose proof (attempts_held infos' laddrs (n_next w) e (n_log w)) as Hheld.
  pose proof (connect_first_run infos' laddrs (MkNet e (n_log w) (n_next w) [])) as Hfirst.
  cbn [n_next n_env] in Hfirst. set (l := attempts infos' laddrs (n_next w) e) in *.
  split_and!; [|done| |by intros x ->|done|exact Hheld].
  - unfold Connect.create_connection.
    assert (bool_decide (is_Some (ca_host a)) || bool_decide (is_Some (ca_port a)) = true) as Hb
      by (rewrite orb_true_iff, !bool_decide_eq_true; done).
    rewrite run_bind, Hcheck, run_bind, Hb, Hsock. simpl (bool_decide (is_Some None)). cbv iota.
    unfold connect_host. rewrite run_bind, Hres. cbv beta iota zeta.
    rewrite run_bind, run_modify. cbv beta iota. rewrite run_bind, Hdelay.
    change (set_excs [] _) with (MkNet e (n_log w) (n_next w) []). fold infos'. rewrite Hfirst.
    destruct (last l) as [t|] eqn:Hlast; cbn [fmap option_fmap option_map].
    + destruct (at_result t) as [s|x]; cbv beta iota; [by rewrite run_ret|].
      destruct (is_OSError x); cbv beta iota; [|done].
      rewrite run_bind, run_gets. cbv beta iota. by rewrite run_raise.
    + cbv beta iota. rewrite run_bind, run_gets. cbv beta iota. rewrite run_raise.
      apply last_None in Hlast as ->. done.
  - intros l' t Hl. split; [by eapply Hbefore|]. apply Hall. rewrite Hl. apply last_snoc.
Qed.
End connections.

(** ** An instance *)

(** A system whose attempts to connect end as listed, on which everything else
    succeeds, and whose names resolve to two addresses. *)
Definition script_net : Net (list (option exn)) := {|
  os_socket _ _ _ _ := mret tt;
  os_setblocking _ := mret tt;
  os_setsockopt _ _ := mret tt;
  os_bind _ _ := mret tt;
  os_connect _ _ := λ e, match e with
                         | [] => (Ret tt, [])
                         | None :: e => (Ret tt, e)
                         | Some x :: e => (Raise x, e)
                         end;
  os_close _ := mret tt;
  os_family _ _ := AF_INET;
  os_type _ _ := SOCK_STREAM;
  os_is_ssl _ _ := false;
  ipaddr_info _ _ _ _ _ := None;
  os_getaddrinfo _ _ _ _ _ _ := mret [MkInfo AF_INET SOCK_STREAM 6 (AInet "127.0.0.1" 80);
                                       MkInfo AF_INET SOCK_STREAM 6 (AInet "127.0.0.2" 80)];
  exc_str _ := "error";
  addr_repr _ := "address";
  family_repr _ := "family";
  lower s := s;
|}.

Definition some_host : connection_args :=
  MkConnectionArgs (Some "example.org"%string) (Some 80%Z) false 0 0 0 None None None None None
    None None false.

(** The first address refuses (ECONNREFUSED), the second accepts: socket 1, the
    other one closed; and both refuse. *)
Lemma create_connection_attempts_witness :
  let N := script_net in
  let cc := create_connection (λ l _, l) (λ _ _, mret None) (λ s _, mret s) some_host in
  let w := MkNet [Some (OSError 111); None] [] 0 [] in
  let refused := MkNet [Some (OSError 111); Some (OSError 113)] [] 0 [] in
  (cc w).1 = Ret 1 ∧ held (n_log (cc w).2) = [1] ∧
  (cc refused).1 = Raise (connect_error false [OSError 111; OSError 113]) ∧
  held (n_log (cc refused).2) = [].
Proof.
  intros N cc w refused.
  assert (∀ w : net (list (option exn)), n_log w = [] → below (n_next w) (n_log w)) as Hb.
  { intros w' ->. by intros s [[]%elem_of_nil|[]%elem_of_nil]. }
  destruct (create_connection_attempts (λ l _, l) (λ _ _, mret None) (λ s _, mret s) some_host w w
    None _ _ eq_refl ltac:(left; by eexists) eq_refl eq_refl eq_refl)
    as (H1 & _ & _ & _ & _ & H2).
  destruct (create_connection_attempts (λ l _, l) (λ _ _, mret None) (λ s _, mret s) some_host refused
    refused None _ _ eq_refl ltac:(left; by eexists) eq_refl eq_refl eq_refl)
    as (H3 & _ & _ & _ & _ & H4).
  split; [exact (f_equal fst H1)|]. split.
  { etrans; [exact (f_equal (λ o, held (n_log o.2)) H1)|]. exact (H2 (Hb w eq_refl)). }
  split; [exact (f_equal fst H3)|].
  etrans; [exact (f_equal (λ o, held (n_log o.2)) H3)|]. exact (H4 (Hb refused eq_refl)).
Defined.
