(* ===== verification/Endpoints.v ===== *)
(** * Creating servers (python/tokioop/loop.py, lines 1170-1313 and 1553-1636)

    [create_server] and [create_unix_server] up to the point where asyncio's
    [Server] takes the sockets; what is done with a stale UNIX socket. *)

From Stdlib Require Import Strings.Byte.
From stdpp Require Import base tactics list strings.
From S2P Require Import Prelude State Net Connect.

(** The file system, as far as stale UNIX sockets are concerned:
    [stat.S_ISSOCK(os.stat(path).st_mode)], [os.stat(path).st_ino] and
    [os.remove(path)]. *)
Class Files (E : Type) := {
  fs_is_sock : bytes → M E bool;
  fs_inode : bytes → M E nat;
  fs_remove : bytes → M E unit;
}.

Section endpoints.
Context {E : Type} `{!Net E} `{!Files E}.
Local Abbreviation W := (net E).

(** ** [create_server] *)

(** [host]: [None], a name, or several; [ssl]. *)
Inductive hosts := NoHost | OneHost (h : string) | Hosts (l : list (option string)).
Inductive tls := NoTls | TlsContext | TlsBool.

Record server_args := MkServerArgs {
  sa_host : hosts;
  sa_port : option Z;
  sa_family : Z;
  sa_flags : Z;
  sa_sock : option sock;
  sa_ssl : tls;
  sa_reuse_address : option bool;
  sa_reuse_port : bool;
  sa_keep_alive : bool;
  sa_ssl_handshake_timeout : option Z;
  sa_ssl_shutdown_timeout : option Z;
  sa_start_serving : bool;
}.

(** The order in which Python iterates over a set; the platform: [posix], and
    whether IPv6 is there; and asyncio's [Server], its [_start_serving] and the
    turn given to the loop after it. *)
Context (set_order : list addr_info → list addr_info) (posix has_IPv6 : bool)
  {R : Type} (Server : list sock → M W R) (server_start : R → M W unit).

Definition _create_server_getaddrinfo (host : option string) (port : option Z)
    (family flags : Z) : M W (list addr_info) :=
  infos ← _ensure_resolved host port family SOCK_STREAM 0 flags;
  match infos with
  | [] => raise (OSErrorMsg None "getaddrinfo() returned empty list")
  | _ => mret infos
  end.

Definition hosts_of (h : hosts) : list (option string) :=
  match h with
  | OneHost EmptyString => [None]
  | OneHost h => [Some h]
  | NoHost => [None]
  | Hosts l => l
  end.

(** [tasks.gather]: one after the other. *)
Fixpoint gather_infos (hosts : list (option string)) (port : option Z) (family flags : Z) :
    M W (list addr_info) :=
  match hosts with
  | [] => mret []
  | h :: hosts =>
      infos ← _create_server_getaddrinfo h port family flags;
      rest ← gather_infos hosts port family flags;
      mret (infos ++ rest)
  end.

Definition reuse_address (a : server_args) : bool := default posix (sa_reuse_address a).

Definition setup_listening (a : server_args) (af : Z) (s : sock) : M W unit :=
  when_ (reuse_address a) (sys (os_setsockopt s SO_REUSEADDR));;
  when_ (sa_reuse_port a && bool_decide (af = AF_INET ∨ af = AF_INET6))
    (sys (os_setsockopt s SO_REUSEPORT));;
  when_ (sa_keep_alive a) (sys (os_setsockopt s SO_KEEPALIVE));;
  when_ (has_IPv6 && bool_decide (af = AF_INET6)) (sys (os_setsockopt s IPV6_V6ONLY)).

(** [for res in infos]: the sockets so far, and how the loop ends. *)
Fixpoint bind_all (a : server_args) (infos : list addr_info) (sockets : list sock) :
    M W (list sock * res unit) :=
  match infos with
  | [] => mret (sockets, Ret tt)
  | i :: infos =>
      r ← outcome (new_socket (ai_family i) (ai_type i) (ai_proto i));
      match r with
      | Raise exc =>
          if is_OSError exc then bind_all a infos sockets else mret (sockets, Raise exc)
      | Ret s =>
          r ← outcome (setup_listening a (ai_family i) s);
          match r with
          | Raise exc => mret (sockets ++ [s], Raise exc)
          | Ret _ =>
              r ← outcome (bind_sock s (ai_addr i));
              match r with
              | Ret _ => bind_all a infos (sockets ++ [s])
              | Raise err =>
                  if negb (is_OSError err) then mret (sockets ++ [s], Raise err)
                  else if bool_decide (errno_of err = Some EADDRNOTAVAIL) then
                    r ← outcome (close_sock s);
                    match r with
                    | Ret _ => bind_all a infos sockets
                    | Raise exc => mret (sockets, Raise exc)
                    end
                  else mret (sockets ++ [s], Raise (bind_error (ai_addr i) err))
              end
          end
      end
  end.

Fixpoint close_all (sockets : list sock) : M W unit :=
  match sockets with
  | [] => mret tt
  | s :: sockets => close_sock s;; close_all sockets
  end.

(** The [try] statement around the loop, and its [finally]. *)
Definition server_sockets (a : server_args) (infos : list addr_info) : M W (list sock) :=
  p ← bind_all a infos [];
  let '(sockets, r) := p in
  let r := match r, sockets with
           | Ret _, [] => Raise (OSErrorMsg None "could not bind on any address")
           | r, _ => r
           end in
  match r with
  | Ret _ => mret sockets
  | Raise exc => close_all sockets;; raise exc
  end.

Fixpoint setblocking_all (sockets : list sock) : M W unit :=
  match sockets with
  | [] => mret tt
  | s :: sockets => sys (os_setblocking s);; setblocking_all sockets
  end.

(** From the sockets to a server. *)
Definition serve (start_serving : bool) (sockets : list sock) : M W R :=
  setblocking_all sockets;;
  server ← Server sockets;
  when_ start_serving (server_start server);;
  mret server.

Definition check_server_args (ssl : tls) (handshake shutdown : option Z) : M W unit :=
  match ssl with
  | TlsBool => raise (TypeError "ssl argument must be an SSLContext or None")
  | TlsContext => mret tt
  | NoTls =>
      if bool_decide (is_Some handshake) then
        raise (ValueError "ssl_handshake_timeout is only meaningful with ssl") else
      if bool_decide (is_Some shutdown) then
        raise (ValueError "ssl_shutdown_timeout is only meaningful with ssl")
      else mret tt
  end.

Definition names_host (a : server_args) : bool :=
  match sa_host a with NoHost => bool_decide (is_Some (sa_port a)) | _ => true end.

Definition create_server (a : server_args) : M W R :=
  check_server_args (sa_ssl a) (sa_ssl_handshake_timeout a) (sa_ssl_shutdown_timeout a);;
  check_ssl_socket (sa_sock a);;
  sockets ←
    (if names_host a then
       if bool_decide (is_Some (sa_sock a))
       then raise (ValueError "host/port and sock can not be specified at the same time")
       else
         infos ← gather_infos (hosts_of (sa_host a)) (sa_port a) (sa_family a) (sa_flags a);
         server_sockets a (set_order infos)
     else
       match sa_sock a with
       | None => raise (ValueError "Neither host/port nor sock were specified")
       | Some s =>
           t ← gets (λ w, os_type s (n_env w));
           if decide (t ≠ SOCK_STREAM) then raise (ValueError "A Stream Socket was expected")
           else mret [s]
       end);
  serve (sa_start_serving a) sockets.

(** ** UNIX sockets *)

(** [path[0] not in (0, "\x00")]: not an abstract address. *)
Definition on_disk (path : bytes) : M W bool :=
  match path with
  | [] => raise IndexError
  | b :: _ => mret (bool_decide (b ≠ "000"%byte))
  end.

(** Removing a socket nobody listens on; other errors are logged. *)
Definition remove_stale (path : bytes) : M W unit :=
  try_except (b ← sys (fs_is_sock path); when_ b (sys (fs_remove path)))
    (λ exc, if is_OSError exc then mret tt else raise exc).

Record unix_server_args := MkUnixServerArgs {
  us_path : option bytes;
  us_sock : option sock;
  us_ssl : tls;
  us_ssl_handshake_timeout : option Z;
  us_ssl_shutdown_timeout : option Z;
  us_start_serving : bool;
  us_cleanup_socket : bool;
}.

(** The socket of a path, bound. *)
Definition bind_path (path : bytes) : M W sock :=
  s ← new_socket AF_UNIX SOCK_STREAM 0;
  disk ← on_disk path;
  when_ disk (remove_stale path);;
  try_except (bind_sock s (AUnix path))
    (λ exc,
      close_sock s;;
      if is_OSError exc && bool_decide (errno_of exc = Some EADDRINUSE)
      then raise (OSErrorMsg (Some EADDRINUSE) "Address is already in use")
      else raise exc);;
  mret s.

(** [self._unix_server_sockets[sock] = os.stat(path).st_ino]; [getsockname] is the
    path of the bound socket. *)
Definition remember_inode (getsockname : sock → M E bytes)
    (remember : sock → nat → M W unit) (s : sock) : M W unit :=
  path ← sys (getsockname s);
  disk ← on_disk path;
  when_ disk
    (try_else (sys (fs_inode path))
       (λ exc, if is_FileNotFoundError exc then mret tt else raise exc)
       (remember s)).

Definition create_unix_server (getsockname : sock → M E bytes)
    (remember : sock → nat → M W unit) (a : unix_server_args) : M W R :=
  check_server_args (us_ssl a) (us_ssl_handshake_timeout a) (us_ssl_shutdown_timeout a);;
  s ← match us_path a with
      | Some path =>
          if bool_decide (is_Some (us_sock a))
          then raise (ValueError "path and sock can not be specified at the same time")
          else bind_path path
      | None =>
          match us_sock a with
          | None => raise (ValueError "path was not specified, and no sock specified")
          | Some s =>
              ok ← gets (λ w, bool_decide (os_family s (n_env w) = AF_UNIX ∧
                                           os_type s (n_env w) = SOCK_STREAM));
              if negb ok then raise (ValueError "A UNIX Domain Stream Socket was expected")
              else mret s
          end
      end;
  when_ (us_cleanup_socket a) (remember_inode getsockname remember s);;
  serve (us_start_serving a) [s].
End endpoints.
