(* ===== verification/EndpointsProps.v ===== *)
(** * Creating servers: what is left open

    The sockets [create_server] holds at each point of its loop, and its contract:
    all of them, bound, or none. *)

From Stdlib Require Import Strings.Byte.
From stdpp Require Import base tactics list strings.
From S2P Require Import Prelude State Net Connect Endpoints.

(** ** Servers *)

Section server.
Context {E : Type} `{!Net E}.
Local Abbreviation W := (net E).

(** [close(2)] reports no error. *)
Class CloseLaws : Prop := { cl_close s e : (os_close s e).1 = Ret tt }.

Context (posix has_IPv6 : bool).
Lemma plain_setup a af s : plain (setup_listening posix has_IPv6 a af s).
Proof.
  unfold setup_listening. repeat (apply plain_bind; [|intros ?]); apply plain_when, plain_sys.
Qed.

(** The sockets kept so far are the ones open, each bound to its address, in the
    order of the addresses. *)
Record binds (l : list sock_event) (n : sock) (sockets : list sock) (infos : list addr_info) :
    Prop := {
  bs_below : below n l;
  bs_held : held l = sockets;
  bs_bound : Forall2 (λ s i, Bound s (ai_addr i) ∈ l) sockets infos;
}.

Lemma binds_weaken l n sockets infos ev :
  binds l n sockets infos → Forall2 (λ s i, Bound s (ai_addr i) ∈ l ++ ev) sockets infos.
Proof.
  intros Hb. eapply Forall2_impl; [apply Hb|]. simpl. intros. apply elem_of_app. by left.
Qed.

Lemma binds_keep l n sockets infos i :
  binds l n sockets infos →
  binds (l ++ [Opened n] ++ [Bound n (ai_addr i)]) (S n) (sockets ++ [n]) (infos ++ [i]).
Proof.
  intros Hb. rewrite app_assoc. split.
  - apply below_snoc; [apply below_snoc|]; [by eapply below_mono, Hb; lia| |].
    + intros s [?|?]; simplify_eq; lia.
    + intros s [?|?]; done.
  - rewrite held_bound, held_open by apply Hb. by rewrite (bs_held _ _ _ _ Hb).
  - apply Forall2_app.
    + rewrite <- app_assoc. by eapply binds_weaken.
    + constructor; [|constructor]. apply elem_of_app. right. by left.
Qed.
Lemma binds_drop l n sockets infos :
  binds l n sockets infos → binds (l ++ [Opened n] ++ [Closed n]) (S n) sockets infos.
Proof.
  intros Hb. split.
  - rewrite app_assoc. apply below_snoc; [apply below_snoc|]; [by eapply below_mono, Hb; lia| |];
      intros s [?|?]; simplify_eq; lia.
  - rewrite held_open_close by apply Hb. apply Hb.
  - by eapply binds_weaken.
Qed.

(** The loop over the addresses. *)
Lemma bind_all_run a infos log l sockets done (w : W) :
  n_log w = log ++ l → binds l (n_next w) sockets done →
  ∃ sockets' r w' l', bind_all posix has_IPv6 a infos sockets w = (Ret (sockets', r), w') ∧
    n_log w' = log ++ l' ∧ held l' = sockets' ∧
    (r = Ret tt → ∃ more, more `sublist_of` infos ∧ binds l' (n_next w') sockets' (done ++ more)).
Proof.
  revert l sockets done w. induction infos as [|i infos IH]; intros l sockets done w Hl Hb;
    cbn [bind_all].
  { rewrite run_ret. exists sockets, (Ret tt), w, l. split_and!; [done..|apply Hb|].
    intros _. exists []. rewrite app_nil_r. split; [constructor|done]. }
  rewrite run_bind. set (s := n_next w) in *.
  destruct (outcome_new_socket (ai_family i) (ai_type i) (ai_proto i) w) as [e [[x ->]| ->]];
    cbv beta iota.
  { destruct (is_OSError x).
    - set (w1 := MkNet _ _ _ _).
      destruct (IH l sockets done w1) as (ss & r & w' & l' & -> & ? & ? & Hr); [done..|].
      exists ss, r, w', l'. split_and!; [done..|]. intros Hret. destruct (Hr Hret) as (more & ? & ?).
      exists more. split; [by constructor|done].
    - rewrite run_ret. exists sockets, (Raise x). eexists _, l.
      split_and!; [done..|apply Hb|done]. }
  fold s. set (w1 := MkNet _ _ _ _).
  assert (held (l ++ [Opened s]) = sockets ++ [s]) as Hopen
    by (rewrite held_open by apply Hb; by rewrite (bs_held _ _ _ _ Hb)).
  rewrite run_bind, run_outcome. destruct (plain_setup a (ai_family i) s w1) as (r1 & e1 & ->).
  cbn [fst snd]. cbv beta iota. destruct r1 as [[]|x]; cycle 1.
  { rewrite run_ret. exists (sockets ++ [s]), (Raise x). eexists _, (l ++ [Opened s]).
    split_and!; [done| |done|done]. cbn. by rewrite Hl, app_assoc. }
  set (w2 := MkNet _ _ _ _). rewrite run_bind.
  destruct (outcome_bind s (ai_addr i) w2) as (e2 & [[]|x] & ->); cbv beta iota.
  { set (w3 := MkNet _ _ _ _).
    destruct (IH (l ++ [Opened s] ++ [Bound s (ai_addr i)]) (sockets ++ [s]) (done ++ [i]) w3)
      as (ss & r & w' & l' & -> & ? & ? & Hr).
    - cbn. by rewrite Hl, <- !app_assoc.
    - by apply binds_keep.
    - exists ss, r, w', l'. split_and!; [done..|]. intros Hret. destruct (Hr Hret) as (more & ? & ?).
      exists (i :: more). split; [by constructor|]. by rewrite cons_middle, app_assoc. }
  set (w3 := MkNet _ _ _ _).
  assert (n_log w3 = log ++ l ++ [Opened s]) as Hw3 by (cbn; by rewrite Hl, app_nil_r, <- app_assoc).
  destruct (negb (is_OSError x)).
  { rewrite run_ret. exists (sockets ++ [s]), (Raise x), w3, (l ++ [Opened s]). by split_and!. }
  destruct (bool_decide _); cycle 1.
  { rewrite run_ret. exists (sockets ++ [s]). eexists _, w3, (l ++ [Opened s]). by split_and!. }
  rewrite run_bind. destruct (outcome_close s w3) as (e4 & [[]|y] & ->); cbv beta iota;
    set (w4 := MkNet _ _ _ _).
  - destruct (IH (l ++ [Opened s] ++ [Closed s]) sockets done w4)
      as (ss & r & w' & l' & -> & ? & ? & Hr).
    + unfold w4. cbn [n_log]. by rewrite Hw3, <- !app_assoc.
    + by apply binds_drop.
    + exists ss, r, w', l'. split_and!; [done..|]. intros Hret. destruct (Hr Hret) as (more & ? & ?).
      exists more. split; [by constructor|done].
  - rewrite run_ret. exists sockets, (Raise y), w4, (l ++ [Opened s] ++ [Closed s]).
    split_and!; [done| | |done].
    + unfold w4. cbn [n_log]. by rewrite Hw3, <- !app_assoc.
    + rewrite held_open_close by apply Hb. apply Hb.
Qed.

Lemma close_all_run `{!CloseLaws} sockets (w : W) :
  ∃ e, close_all sockets w =
    (Ret tt, MkNet e (n_log w ++ (Closed <$> sockets)) (n_next w) (n_excs w)).
Proof.
  revert w. induction sockets as [|s sockets IH]; intros w; cbn [close_all].
  { rewrite run_ret. exists (n_env w). simpl. rewrite app_nil_r. by destruct w. }
  rewrite run_bind. unfold close_sock. rewrite run_bind, run_note. cbv beta iota.
  rewrite run_sys, cl_close. cbv beta iota. set (w1 := MkNet _ _ _ _).
  destruct (IH w1) as [e ->]. exists e. cbn. by rewrite <- app_assoc.
Qed.

(** The [try] statement: the sockets, or an exception and nothing left open. *)
Lemma server_sockets_run `{!CloseLaws} a infos (w : W) :
  ∃ r w' l, server_sockets posix has_IPv6 a infos w = (r, w') ∧ n_log w' = n_log w ++ l ∧
    match r with
    | Ret sockets => sockets ≠ [] ∧ held l = sockets ∧
        ∃ more, more `sublist_of` infos ∧ Forall2 (λ s i, Bound s (ai_addr i) ∈ l) sockets more
    | Raise _ => held l = []
    end.
Proof.
  unfold server_sockets. rewrite run_bind.
  destruct (bind_all_run a infos (n_log w) [] [] [] w) as (ss & r & w1 & l & -> & Hl & Hh & Hr).
  { by rewrite app_nil_r. }
  { split; [intros s [Hs|Hs]; by apply not_elem_of_nil in Hs|done|constructor]. }
  cbv beta iota.
  assert (∀ exc, ∃ w' l', (close_all ss;; raise exc : M W (list sock)) w1 = (Raise exc, w') ∧
    n_log w' = n_log w ++ l' ∧ held l' = []) as Hclose.
  { intros exc. rewrite run_bind. destruct (close_all_run ss w1) as [e ->]. cbv beta iota.
    rewrite run_raise. eexists _, _. split; [done|]. cbn [n_log].
    rewrite Hl, <- app_assoc. split; [done|]. subst ss. apply held_close_all. }
  destruct r as [[]|exc]; cycle 1.
  { destruct (Hclose exc) as (w' & l' & Heq & ? & ?). exists (Raise exc), w', l'.
    destruct ss; done. }
  destruct ss as [|s ss]; cycle 1.
  { rewrite run_ret. exists (Ret (s :: ss)), w1, l. split_and!; [done..|].
    destruct (Hr eq_refl) as (more & Hsub & Hb). exists more. split; [done|apply Hb]. }
  set (exc := OSErrorMsg _ _). destruct (Hclose exc) as (w' & l' & Heq & ? & ?).
  by exists (Raise exc), w', l'.
Qed.

Lemma gather_log hosts port family flags (w : W) :
  n_log (gather_infos hosts port family flags w).2 = n_log w.
Proof.
  assert (∀ h, plain (_create_server_getaddrinfo (E := E) h port family flags)) as Hp.
  { intros h. unfold _create_server_getaddrinfo, _ensure_resolved. apply plain_bind.
    - destruct (ipaddr_info _ _ _ _ _); [apply plain_ret|apply plain_sys].
    - intros []; [|apply plain_ret]. intros []. by eexists _, _. }
  assert (plain (gather_infos (E := E) hosts port family flags)) as Hg.
  { induction hosts as [|h hosts IH]; cbn [gather_infos]; [apply plain_ret|].
    apply plain_bind; [done|]. intros infos. apply plain_bind; [done|]. intros. apply plain_ret. }
  by destruct (Hg w) as (r & e & ->).
Qed.

Context (set_order : list addr_info → list addr_info).
Context {R : Type} (Server : list sock → M W R) (server_start : R → M W unit).
Local Abbreviation create_server := (create_server set_order posix has_IPv6 Server server_start).

(** C32: [create_server] on hosts keeps all its sockets or none.  It goes on to
    serve on sockets it has bound, one for each of some of the resolved addresses
    in the order in which they are tried, at least one; these and no others are
    open then.  Or it raises, and every socket it had opened is closed. *)
Theorem create_server_all_or_nothing `{!CloseLaws} a (w w1 : W) infos :
  check_server_args (E := E) (sa_ssl a) (sa_ssl_handshake_timeout a)
    (sa_ssl_shutdown_timeout a) w = (Ret tt, w) →
  names_host a = true → sa_sock a = None →
  gather_infos (hosts_of (sa_host a)) (sa_port a) (sa_family a) (sa_flags a) w = (Ret infos, w1) →
  ∃ w2 l, n_log w2 = n_log w ++ l ∧
    ((∃ sockets more, sockets ≠ [] ∧ more `sublist_of` set_order infos ∧
        Forall2 (λ s i, Bound s (ai_addr i) ∈ l) sockets more ∧ held l = sockets ∧
        create_server a w = serve Server server_start (sa_start_serving a) sockets w2) ∨
     (held l = [] ∧ ∃ e, create_server a w = (Raise e, w2))).
Proof.
  intros Hargs Hhost Hsock Hres. unfold Endpoints.create_server.
  rewrite run_bind, Hargs. cbv beta iota. rewrite Hsock. cbn [check_ssl_socket].
  rewrite run_bind, run_ret. cbv beta iota. rewrite run_bind, Hhost.
  simpl (bool_decide (is_Some None)). cbv iota. rewrite run_bind, Hres. cbv beta iota.
  pose proof (gather_log (hosts_of (sa_host a)) (sa_port a) (sa_family a) (sa_flags a) w) as Hlog.
  rewrite Hres in Hlog. cbn [snd] in Hlog.
  destruct (server_sockets_run a (set_order infos) w1) as (r & w2 & l & -> & Hl & Hr).
  exists w2, l. split; [by rewrite Hl, Hlog|]. destruct r as [sockets|e]; cbv beta iota.
  - left. destruct Hr as (? & ? & more & ? & ?). by exists sockets, more.
  - right. split; [done|]. by exists e.
Qed.
End server.

(** ** An instance *)

(** A system on which binding ends as listed, and a name has three addresses, one
    of them IPv6. *)
Definition bind_net : Net (list (option exn)) := {|
  os_socket _ _ _ _ := mret tt;
  os_setblocking _ := mret tt;
  os_setsockopt _ _ := mret tt;
  os_bind _ _ := λ e, match e with
                      | [] => (Ret tt, [])
                      | None :: e => (Ret tt, e)
                      | Some x :: e => (Raise x, e)
                      end;
  os_connect _ _ := mret tt;
  os_close _ := mret tt;
  os_family _ _ := AF_INET;
  os_type _ _ := SOCK_STREAM;
  os_is_ssl _ _ := false;
  ipaddr_info _ _ _ _ _ := None;
  os_getaddrinfo _ _ _ _ _ _ := mret [MkInfo AF_INET SOCK_STREAM 6 (AInet "127.0.0.1" 80);
                                       MkInfo AF_INET6 SOCK_STREAM 6 (AInet "::1" 80);
                                       MkInfo AF_INET SOCK_STREAM 6 (AInet "127.0.0.2" 80)];
  exc_str _ := "error";
  addr_repr _ := "address";
  family_repr _ := "family";
  lower s := s;
|}.

#[export] Instance bind_net_close : @CloseLaws _ bind_net.
Proof. split. reflexivity. Defined.

Definition some_server : server_args :=
  MkServerArgs (OneHost "example.org") (Some 80%Z) AF_UNSPEC 1 None NoTls None false false None None
    true.

(** The second address is not available: two sockets; if the third is in use, the
    first one is closed as well. *)
Lemma create_server_all_or_nothing_witness :
  let N := bind_net in
  let cs := create_server (λ l, l) true true mret (λ _, mret tt) some_server in
  let w := MkNet [None; Some (OSError EADDRNOTAVAIL)] [] 0 [] in
  ((cs w).1 = Ret [0; 2] ∧
   (cs (MkNet [None; Some (OSError EADDRNOTAVAIL); Some (OSError EADDRINUSE)] [] 0 [])).2.(n_log) =
   [Opened 0; Bound 0 (AInet "127.0.0.1" 80); Opened 1; Closed 1; Opened 2; Closed 0; Closed 2]) ∧
  ∃ w2 l, n_log w2 = n_log w ++ l ∧
    ((∃ sockets more, sockets ≠ [] ∧
        more `sublist_of` [MkInfo AF_INET SOCK_STREAM 6 (AInet "127.0.0.1" 80);
                           MkInfo AF_INET6 SOCK_STREAM 6 (AInet "::1" 80);
                           MkInfo AF_INET SOCK_STREAM 6 (AInet "127.0.0.2" 80)] ∧
        Forall2 (λ s i, Bound s (ai_addr i) ∈ l) sockets more ∧ held l = sockets ∧
        cs w = serve mret (λ _, mret tt) true sockets w2) ∨
     (held l = [] ∧ ∃ e, cs w = (Raise e, w2))).
Proof.
  intros N cs w. split; [split; reflexivity|].
  apply (create_server_all_or_nothing true true (λ l, l) mret (λ _, mret tt) some_server w w).
  - reflexivity.
  - reflexivity.
  - reflexivity.
  - reflexivity.
Defined.
