(* ===== verification/DatagramEndpoint.v ===== *)
(** * [create_datagram_endpoint] (python/tokioop/loop.py, lines 1001-1155)

    The pairs of addresses, the socket, and the hand-over to a transport; with
    its properties. *)

From Stdlib Require Import Strings.Byte.
From stdpp Require Import base tactics list strings.
From S2P Require Import Prelude State Net Connect Endpoints EndpointsProps.

Section endpoint.
Context {E : Type} `{!Net E} `{!Files E}.
Local Abbreviation W := (net E).

(** What callers pass as an address: a pair, a string, or anything else, of which
    the truth value matters. *)
Inductive endpoint_addr :=
  | HostPort (host : option string) (port : Z)
  | PathName (path : bytes)
  | OtherAddr (truth : bool).

Record endpoint_args := MkEndpointArgs {
  ea_local : option endpoint_addr;
  ea_remote : option endpoint_addr;
  ea_family : Z;
  ea_proto : Z;
  ea_flags : Z;
  ea_reuse_port : bool;
  ea_broadcast : bool;
  ea_sock : option sock;
}.

Definition given (a : option endpoint_addr) : bool :=
  match a with
  | Some (HostPort _ _) => true
  | Some (PathName p) => bool_decide (p ≠ [])
  | Some (OtherAddr t) => t
  | None => false
  end.

(** ** The pairs of addresses *)

Abbreviation family_proto := (Z * Z)%type.
Abbreviation addr_pair := (option addr * option addr)%type.

Definition set_pair (remote : bool) (x : addr) (p : addr_pair) : addr_pair :=
  if remote then (p.1, Some x) else (Some x, p.2).

(** [addr_infos[key][idx] = address], on a dict that keeps its order. *)
Fixpoint join_addr (remote : bool) (key : family_proto) (x : addr)
    (d : list (family_proto * addr_pair)) : list (family_proto * addr_pair) :=
  match d with
  | [] => [(key, set_pair remote x (None, None))]
  | (k, p) :: d =>
      if decide (k = key) then (k, set_pair remote x p) :: d
      else (k, p) :: join_addr remote key x d
  end.

Definition join_addrs (remote : bool) (infos : list addr_info)
    (d : list (family_proto * addr_pair)) : list (family_proto * addr_pair) :=
  foldl (λ d i, join_addr remote (ai_family i, ai_proto i) (ai_addr i) d) d infos.

Definition add_addr (a : endpoint_args) (remote : bool) (x : option endpoint_addr)
    (d : list (family_proto * addr_pair)) : M W (list (family_proto * addr_pair)) :=
  match x with
  | None => mret d
  | Some (HostPort h p) =>
      infos ← _ensure_resolved h (Some p) (ea_family a) SOCK_DGRAM (ea_proto a) (ea_flags a);
      match infos with
      | [] => raise (OSErrorMsg None "getaddrinfo() returned empty list")
      | _ => mret (join_addrs remote infos d)
      end
  | Some _ => raise (TypeError "2-tuple is expected")
  end.

(** Each address given has to be known for the pair. *)
Definition complete (a : endpoint_args) (p : addr_pair) : bool :=
  negb (given (ea_local a) && bool_decide (p.1 = None) ||
        given (ea_remote a) && bool_decide (p.2 = None)).

Definition path_addr (x : option endpoint_addr) : M W (option addr) :=
  match x with
  | None => mret None
  | Some (PathName p) => mret (Some (AUnix p))
  | Some _ => raise (TypeError "string is expected")
  end.

(** [if local_addr and local_addr[0] not in (0, "\x00")] *)
Definition remove_stale_local (x : option endpoint_addr) : M W unit :=
  match x with
  | Some (PathName (b :: p)) => when_ (bool_decide (b ≠ "000"%byte)) (remove_stale (b :: p))
  | _ => mret tt
  end.

Definition addr_pairs_info (a : endpoint_args) : M W (list (family_proto * addr_pair)) :=
  if negb (given (ea_local a) || given (ea_remote a)) then
    if decide (ea_family a = 0%Z) then raise (ValueError "unexpected address family")
    else mret [((ea_family a, ea_proto a), (None, None))]
  else if decide (ea_family a = AF_UNIX) then
    l ← path_addr (ea_local a);
    r ← path_addr (ea_remote a);
    remove_stale_local (ea_local a);;
    mret [((ea_family a, ea_proto a), (l, r))]
  else
    d ← add_addr a false (ea_local a) [];
    d ← add_addr a true (ea_remote a) d;
    match filter (λ kp, complete a kp.2 = true) d with
    | [] => raise (ValueError "can not get address information")
    | pairs => mret pairs
    end.

(** ** The socket *)

(** [if local_addr: sock.bind(local_address)] *)
Definition bind_endpoint (a : endpoint_args) (s : sock) (p : addr_pair) : M W unit :=
  if given (ea_local a) then
    match p.1 with
    | Some l => bind_sock s l
    | None => raise (TypeError "bind")
    end
  else mret tt.

(** [if remote_addr: ...] *)
Definition connect_endpoint (a : endpoint_args) (s : sock) (p : addr_pair) : M W (option addr) :=
  if given (ea_remote a) then
    match p.2 with
    | Some r => when_ (negb (ea_broadcast a)) (connect_sock s r);; mret (Some r)
    | None => raise (TypeError "connect")
    end
  else mret None.

(** From the created socket to the remote address of the transport. *)
Definition setup_endpoint (a : endpoint_args) (s : sock) (p : addr_pair) : M W (option addr) :=
  when_ (ea_reuse_port a) (sys (os_setsockopt s SO_REUSEPORT));;
  when_ (ea_broadcast a) (sys (os_setsockopt s SO_BROADCAST));;
  sys (os_setblocking s);;
  bind_endpoint a s p;;
  connect_endpoint a s p.

Fixpoint try_pairs (a : endpoint_args) (pairs : list (family_proto * addr_pair))
    (exceptions : list exn) : M W (sock * option addr) :=
  match pairs with
  | [] => match exceptions with exc :: _ => raise exc | [] => raise IndexError end
  | (fp, p) :: pairs =>
      r ← outcome (new_socket fp.1 SOCK_DGRAM fp.2);
      match r with
      | Raise exc =>
          if is_OSError exc then try_pairs a pairs (exceptions ++ [exc]) else raise exc
      | Ret s =>
          r ← outcome (setup_endpoint a s p);
          match r with
          | Ret r_addr => mret (s, r_addr)
          | Raise exc =>
              close_sock s;;
              if is_OSError exc then try_pairs a pairs (exceptions ++ [exc]) else raise exc
          end
      end
  end.

Definition modifiers (a : endpoint_args) : bool :=
  given (ea_local a) || given (ea_remote a) || bool_decide (ea_family a ≠ 0%Z) ||
  bool_decide (ea_proto a ≠ 0%Z) || bool_decide (ea_flags a ≠ 0%Z) || ea_reuse_port a ||
  ea_broadcast a.

(** [endpoint_transport]: the protocol, the transport and the wait for
    [connection_made]. *)
Definition create_datagram_endpoint {R} (endpoint_transport : sock → option addr → M W R)
    (a : endpoint_args) : M W R :=
  sr ← match ea_sock a with
       | Some s =>
           t ← gets (λ w, os_type s (n_env w));
           if decide (t = SOCK_STREAM) then raise (ValueError "A datagram socket was expected")
           else if modifiers a then
             raise (ValueError "socket modifier keyword arguments can not be used when sock is specified.")
           else sys (os_setblocking s);; mret (s, None)
       | None => pairs ← addr_pairs_info a; try_pairs a pairs []
       end;
  let '(s, r_addr) := sr in
  endpoint_transport s r_addr.

(** ** Properties *)

Lemma path_addr_run x (w : W) :
  match path_addr x w with
  | (Ret y, w') => w' = w ∧ (given x = true → is_Some y)
  | (Raise _, w') => w' = w
  end.
Proof. destruct x as [[]|]; done. Qed.

(** No pair lacks an address that was given. *)
Lemma addr_pairs_complete a (w w' : W) pairs :
  addr_pairs_info a w = (Ret pairs, w') → Forall (λ kp, complete a kp.2 = true) pairs ∧ pairs ≠ [].
Proof.
  unfold addr_pairs_info. destruct (negb _) eqn:Hg.
  { apply negb_true_iff, orb_false_iff in Hg as [Hl Hr]. case_decide; [done|].
    rewrite run_ret. intros [= <- _]. split; [|done]. constructor; [|done].
    unfold complete. by rewrite Hl, Hr. }
  case_decide.
  - rewrite run_bind. pose proof (path_addr_run (ea_local a) w) as Hl.
    destruct (path_addr (ea_local a) w) as [[l|e] w1]; [|done]. destruct Hl as [-> Hl].
    rewrite run_bind. pose proof (path_addr_run (ea_remote a) w) as Hr.
    destruct (path_addr (ea_remote a) w) as [[r|e] w1]; [|done]. destruct Hr as [-> Hr].
    rewrite run_bind.
    destruct (remove_stale_local (ea_local a) w) as [[[]|e] w2]; [|done]. rewrite run_ret. intros [= <- _]. split; [|done]. constructor; [|done].
    unfold complete. cbn [fst snd].
    assert (∀ g (o : option addr), (g = true → is_Some o) → g && bool_decide (o = None) = false)
      as Hn by (intros [] o Ho; [by destruct (Ho eq_refl) as [? ->]|done]).
    by rewrite !Hn.
  - rewrite run_bind. destruct (add_addr a false _ _ w) as [[d|e] w1]; [|done].
    rewrite run_bind. destruct (add_addr a true _ _ w1) as [[d'|e] w2]; [|done].
    assert (Forall (λ kp, complete a kp.2 = true) (filter (λ kp, complete a kp.2 = true) d')) as Hf
      by (apply Forall_forall; intros kp Hkp; by apply list_elem_of_filter in Hkp as [? _]).
    destruct (filter _ d') as [|p ps]; [done|]. rewrite run_ret. intros [= <- _]. done.
Qed.

(** What setting up a socket records. *)
Definition bound_part (a : endpoint_args) (s : sock) (p : addr_pair) : list sock_event :=
  if given (ea_local a) then option_list (Bound s <$> p.1) else [].
Definition connect_part (a : endpoint_args) (s : sock) (p : addr_pair) : list sock_event :=
  if given (ea_remote a) && negb (ea_broadcast a) then option_list (Connecting s <$> p.2) else [].
Definition remote_part (a : endpoint_args) (p : addr_pair) : option addr :=
  if given (ea_remote a) then p.2 else None.

(** ** Reference definition *)

(** The calls on one socket, with what the record shows before a call is made and
    after it has succeeded; they are made in order until one raises. *)
Record call := MkCall { c_run : M E unit; c_before : list sock_event; c_after : list sock_event }.
Fixpoint run_calls (l : list call) (e : E) : list sock_event * res unit * E :=
  match l with
  | [] => ([], Ret tt, e)
  | c :: l =>
      match c_run c e with
      | (Raise x, e) => (c_before c, Raise x, e)
      | (Ret _, e) => let '(evs, r, e) := run_calls l e in (c_before c ++ c_after c ++ evs, r, e)
      end
  end.

Definition if_given (b : bool) (l : list call) : list call := if b then l else [].
Definition setup_calls (a : endpoint_args) (s : sock) (p : addr_pair) : list call :=
  if_given (ea_reuse_port a) [MkCall (os_setsockopt s SO_REUSEPORT) [] []] ++
  if_given (ea_broadcast a) [MkCall (os_setsockopt s SO_BROADCAST) [] []] ++
  [MkCall (os_setblocking s) [] []] ++
  if_given (given (ea_local a))
    (option_list ((λ x, MkCall (os_bind s x) [] [Bound s x]) <$> p.1)) ++
  if_given (given (ea_remote a) && negb (ea_broadcast a))
    (option_list ((λ x, MkCall (os_connect s x) [Connecting s x] []) <$> p.2)).

(** How the attempt with one pair ends: with a socket, with an [OSError] after
    which the next pair is tried, or with what ends it all: another exception, or
    any that closing the socket raises. *)
Inductive pair_end := Works (s : sock) | Fails (exc : exn) | Stops (exc : exn).
Definition raised (exc : exn) : pair_end := if is_OSError exc then Fails exc else Stops exc.

Record pair_try := MkTry {
  pt_pair : addr_pair;
  pt_log : list sock_event;
  pt_end : pair_end;
  pt_next : sock;
  pt_env : E;
}.

Definition pair_on (a : endpoint_args) (fp : family_proto) (p : addr_pair) (s : sock) (e : E) :
    pair_try :=
  match os_socket s fp.1 SOCK_DGRAM fp.2 e with
  | (Raise x, e) => MkTry p [] (raised x) s e
  | (Ret _, e) =>
      match run_calls (setup_calls a s p) e with
      | (evs, Ret _, e) => MkTry p (Opened s :: evs) (Works s) (S s) e
      | (evs, Raise x, e) =>
          let '(closing, e) := os_close s e in
          MkTry p (Opened s :: evs ++ [Closed s])
            match closing with Ret _ => raised x | Raise y => Stops y end (S s) e
      end
  end.

Fixpoint pair_tries (a : endpoint_args) (pairs : list (family_proto * addr_pair)) (s : sock) (e : E) :
    list pair_try :=
  match pairs with
  | [] => []
  | (fp, p) :: pairs =>
      let t := pair_on a fp p s e in
      t :: match pt_end t with Fails _ => pair_tries a pairs (pt_next t) (pt_env t) | _ => [] end
  end.

Definition error_of (t : pair_try) : option exn :=
  match pt_end t with Fails x => Some x | _ => None end.
Definition socket_of (t : pair_try) : option sock :=
  match pt_end t with Works s => Some s | _ => None end.

(** A socket that could not be set up is closed. *)
Inductive failed_pair (a : endpoint_args) (p : addr_pair) : list sock_event → Prop :=
  | pair_no_socket : failed_pair a p []
  | pair_not_set_up s l :
      l `prefix_of` bound_part a s p ++ connect_part a s p →
      failed_pair a p (Opened s :: l ++ [Closed s]).

(** What a try for a pair comes to. *)
Definition tried (a : endpoint_args) (kp : family_proto * addr_pair) (t : pair_try) : Prop :=
  pt_pair t = kp.2 ∧
  match pt_end t with
  | Works s => pt_log t = Opened s :: bound_part a s kp.2 ++ connect_part a s kp.2
  | Fails x => is_OSError x = true ∧ failed_pair a kp.2 (pt_log t)
  | Stops x => failed_pair a kp.2 (pt_log t)
  end.

Lemma run_calls_app l1 l2 e :
  run_calls (l1 ++ l2) e =
    let '(evs, r, e) := run_calls l1 e in
    match r with
    | Raise x => (evs, Raise x, e)
    | Ret _ => let '(evs', r', e') := run_calls l2 e in (evs ++ evs', r', e')
    end.
Proof.
  revert e. induction l1 as [|c l1 IH]; intros e; simpl.
  { by destruct (run_calls l2 e) as [[evs r] e']. }
  destruct (c_run c e) as [[u|x] e1]; [|done]. rewrite IH.
  destruct (run_calls l1 e1) as [[evs [u1|x]] e2]; [|done].
  destruct (run_calls l2 e2) as [[evs' r'] e3]. by rewrite <- !app_assoc.
Qed.

(** What is recorded: everything the calls show, or a prefix of it. *)
Lemma run_calls_log l e :
  let '(evs, r, _) := run_calls l e in
  match r with
  | Ret _ => evs = l ≫= λ c, c_before c ++ c_after c
  | Raise _ => evs `prefix_of` l ≫= λ c, c_before c ++ c_after c
  end.
Proof.
  revert e. induction l as [|c l IH]; intros e; simpl; [done|].
  destruct (c_run c e) as [[u|x] e1].
  - specialize (IH e1). destruct (run_calls l e1) as [[evs [u1|x]] e2]; simpl.
    + by rewrite IH, app_assoc.
    + rewrite app_assoc. by apply prefix_app.
  - rewrite <- app_assoc. apply prefix_app_r. done.
Qed.

Lemma setup_calls_log a s p :
  (setup_calls a s p ≫= λ c, c_before c ++ c_after c) = bound_part a s p ++ connect_part a s p.
Proof.
  unfold setup_calls, bound_part, connect_part, if_given. rewrite !bind_app.
  destruct p as [[l|] [r|]], (ea_reuse_port a), (ea_broadcast a), (given (ea_local a)),
    (given (ea_remote a)); done.
Qed.

(** *** The code makes these calls *)

Definition performs {A} (m : M W A) (l : list call) (v : A) : Prop := ∀ w,
  m w = let '(evs, r, e) := run_calls l (n_env w) in
        (match r with Ret _ => Ret v | Raise x => Raise x end,
         MkNet e (n_log w ++ evs) (n_next w) (n_excs w)).

Lemma performs_ret {A} (v : A) : performs (mret v) [] v.
Proof. intros []. cbn. by rewrite app_nil_r. Qed.
Lemma performs_bind {A B} (m : M W A) (k : A → M W B) l1 l2 u v :
  performs m l1 u → performs (k u) l2 v → performs (m ≫= k) (l1 ++ l2) v.
Proof.
  intros Hm Hk w. rewrite run_bind, Hm, run_calls_app.
  destruct (run_calls l1 (n_env w)) as [[evs [u1|x]] e]; [|done]. rewrite Hk. cbn [n_env].
  destruct (run_calls l2 e) as [[evs' r'] e']. cbn. by rewrite <- app_assoc.
Qed.
Lemma performs_sys (m : M E unit) : performs (sys m) [MkCall m [] []] tt.
Proof.
  intros w. rewrite run_sys. cbn. destruct (m (n_env w)) as [[[]|x] e]; cbn; by rewrite app_nil_r.
Qed.
Lemma performs_bind_sock s x : performs (bind_sock s x) [MkCall (os_bind s x) [] [Bound s x]] tt.
Proof.
  intros w. unfold bind_sock. rewrite run_bind, run_sys. cbn.
  destruct (os_bind s x (n_env w)) as [[[]|y] e]; cbn; [done|by rewrite app_nil_r].
Qed.
Lemma performs_connect s x :
  performs (connect_sock s x) [MkCall (os_connect s x) [Connecting s x] []] tt.
Proof.
  intros w. unfold connect_sock. rewrite run_bind, run_note. cbv beta iota. rewrite run_sys. cbn.
  by destruct (os_connect s x (n_env w)) as [[[]|y] e].
Qed.
Lemma performs_when b (m : M W unit) l : performs m l tt → performs (when_ b m) (if_given b l) tt.
Proof. destruct b; [done|]. intros _. apply performs_ret. Qed.

Lemma setup_endpoint_run a s p :
  complete a p = true → performs (setup_endpoint a s p) (setup_calls a s p) (remote_part a p).
Proof.
  intros Hc.
  assert ((given (ea_local a) = true → is_Some p.1) ∧ (given (ea_remote a) = true → is_Some p.2))
    as [Hl Hr].
  { unfold complete in Hc. destruct (given (ea_local a)), (given (ea_remote a)), p as [[l|] [r|]];
      split; intros; try done; by eexists. }
  unfold setup_endpoint, setup_calls.
  eapply performs_bind; [apply performs_when, performs_sys|].
  eapply performs_bind; [apply performs_when, performs_sys|].
  eapply performs_bind; [apply performs_sys|].
  apply (performs_bind _ _ _ _ tt).
  - unfold bind_endpoint. destruct (given (ea_local a)); [|apply performs_ret].
    destruct (Hl eq_refl) as [l ->]. apply performs_bind_sock.
  - unfold connect_endpoint, remote_part. destruct (given (ea_remote a)); [|apply performs_ret].
    destruct (Hr eq_refl) as [r ->]. rewrite <- (app_nil_r (if_given _ _)).
    apply (performs_bind _ _ _ _ tt); [|apply performs_ret].
    apply performs_when, performs_connect.
Qed.

Lemma pair_on_ok a fp p s e : tried a (fp, p) (pair_on a fp p s e).
Proof.
  unfold pair_on, tried, raised. cbn [snd].
  destruct (os_socket _ _ _ _ e) as [[u|x] e1]; cycle 1.
  { cbn. split; [done|]. destruct (is_OSError x) eqn:Hx; [split; [done|]|]; constructor. }
  pose proof (run_calls_log (setup_calls a s p) e1) as Hl. rewrite setup_calls_log in Hl.
  destruct (run_calls _ e1) as [[evs [u1|x]] e2]; [by subst|].
  destruct (os_close s e2) as [[u2|y] e3]; cbn; (split; [done|]); [|by constructor].
  destruct (is_OSError x) eqn:Hx; [split; [done|]|]; by constructor.
Qed.

(** The state after the tries [l]. *)
Definition after_tries (l : list pair_try) (w : W) : W :=
  MkNet (from_option pt_env (n_env w) (last l)) (n_log w ++ concat (pt_log <$> l))
    (from_option pt_next (n_next w) (last l)) (n_excs w).

Lemma raised_os x : is_OSError x = true → raised x = Fails x.
Proof. unfold raised. by intros ->. Qed.
Lemma raised_other x : is_OSError x = false → raised x = Stops x.
Proof. unfold raised. by intros ->. Qed.

Lemma try_pairs_run a pairs excs (w : W) :
  Forall (λ kp, complete a kp.2 = true) pairs →
  let l := pair_tries a pairs (n_next w) (n_env w) in
  try_pairs a pairs excs w =
    (match last l with
     | Some t =>
         match pt_end t with
         | Works s => Ret (s, remote_part a (pt_pair t))
         | Fails _ => Raise (default IndexError (head (excs ++ omap error_of l)))
         | Stops x => Raise x
         end
     | None => Raise (default IndexError (head excs))
     end, after_tries l w).
Proof.
  cbv zeta. revert excs w. induction pairs as [|[fp p] pairs IH]; intros excs w Hc.
  { cbn. unfold after_tries. cbn. rewrite app_nil_r. destruct w. by destruct excs. }
  apply Forall_cons in Hc as [Hp Hc]. cbn [snd] in Hp. cbn [try_pairs pair_tries].
  (* the pair fails with [x]: the others follow *)
  assert (∀ x t w1, is_OSError x = true → pt_end t = Fails x →
    w1 = MkNet (pt_env t) (n_log w ++ pt_log t) (pt_next t) (n_excs w) →
    try_pairs a pairs (excs ++ [x]) w1 =
    (match last (t :: pair_tries a pairs (pt_next t) (pt_env t)) with
     | Some u =>
         match pt_end u with
         | Works s => Ret (s, remote_part a (pt_pair u))
         | Fails _ => Raise (default IndexError (head (excs ++
                        omap error_of (t :: pair_tries a pairs (pt_next t) (pt_env t)))))
         | Stops x => Raise x
         end
     | None => Raise (default IndexError (head excs))
     end, after_tries (t :: pair_tries a pairs (pt_next t) (pt_env t)) w)) as Hnext.
  { intros x t w1 Hx Ht ->. rewrite (IH _ _ Hc). cbn [n_env n_next].
    set (l := pair_tries a pairs (pt_next t) (pt_env t)). unfold after_tries. cbn [n_excs n_log].
    rewrite last_cons. cbn [omap list_omap]. unfold error_of at 2. rewrite Ht.
    destruct (last l) as [u|] eqn:Hlast; simpl.
    - rewrite <- !app_assoc. done.
    - apply last_None in Hlast. rewrite Hlast, Ht. cbn.
      by rewrite !app_nil_r. }
  rewrite run_bind, run_outcome. unfold new_socket. rewrite run_bind, run_gets. cbv beta iota.
  set (s := n_next w). rewrite run_bind, run_sys. unfold pair_on.
  destruct (os_socket s fp.1 SOCK_DGRAM fp.2 (n_env w)) as [[[]|x] e1]; cbn [fst snd]; cbv beta iota;
    cycle 1.
  { destruct (is_OSError x) eqn:Hx; cbn [pt_end].
    - rewrite (raised_os x Hx). apply (Hnext x); [done..|]. cbn. by rewrite app_nil_r.
    - rewrite (raised_other x Hx), run_raise. unfold after_tries. cbn. by rewrite !app_nil_r. }
  rewrite run_bind, run_modify. cbv beta iota. rewrite run_ret. cbn [fst snd]. cbv beta iota.
  set (w1 := MkNet _ _ _ _). rewrite run_bind, run_outcome, (setup_endpoint_run a s p Hp w1).
  change (n_env w1) with e1.
  destruct (run_calls (setup_calls a s p) e1) as [[evs [[]|x]] e2]; cbn [fst snd]; cbv beta iota.
  { rewrite run_ret. cbn [pt_end last]. unfold after_tries. cbn.
    by rewrite app_nil_r, <- app_assoc. }
  rewrite run_bind. unfold close_sock. rewrite run_bind, run_note. cbv beta iota. rewrite run_sys.
  cbn [n_env add_note n_log n_next n_excs]. destruct (os_close s e2) as [[[]|y] e3]; cbn [fst snd];
    cbv beta iota; cycle 1.
  { cbn. unfold after_tries. cbn. by rewrite app_nil_r, <- !app_assoc. }
  destruct (is_OSError x) eqn:Hx; cbn [pt_end].
  - rewrite (raised_os x Hx). apply (Hnext x); [done..|]. cbn. by rewrite <- !app_assoc.
  - rewrite (raised_other x Hx), run_raise. unfold after_tries. cbn.
    by rewrite app_nil_r, <- !app_assoc.
Qed.

Lemma pair_tries_ok a pairs s e :
  let l := pair_tries a pairs s e in
  Forall2 (tried a) (take (length l) pairs) l ∧
  (∀ l' t, l = l' ++ [t] → length (omap error_of l') = length l' ∧
     (is_Some (error_of t) → length l = length pairs)).
Proof.
  cbv zeta. revert s e. induction pairs as [|[fp p] pairs IH]; intros s e; cbn [pair_tries].
  { split; [done|]. by intros []. }
  pose proof (pair_on_ok a fp p s e) as Ht. set (t := pair_on a fp p s e) in *.
  destruct (pt_end t) as [s'|x|x] eqn:Hend.
  1, 3: split; [by apply Forall2_cons_2; [|apply Forall2_nil_2]|]; intros [|? []] u [= <-]; unfold error_of; rewrite Hend;
    by split; [|intros []].
  destruct (IH (pt_next t) (pt_env t)) as [H1 H2]. split; [by constructor|].
  set (l := pair_tries a pairs (pt_next t) (pt_env t)) in *.
  intros [|u l'] v [= <- Hl].
  - rewrite Hl. split; [done|]. intros _. destruct pairs as [|[fp' p'] pairs]; [done|].
    unfold l in Hl. cbn [pair_tries] in Hl. done.
  - destruct (H2 l' v Hl) as [H3 H4]. cbn [omap list_omap]. unfold error_of at 1. rewrite Hend.
    cbn [length]. split; [by f_equal|]. intros Hv. f_equal. by apply H4.
Qed.

Lemma length_omap_le {A B} (f : A → option B) l : length (omap f l) ≤ length l.
Proof.
  induction l as [|x l IH]; [done|]. cbn [omap list_omap]. destruct (f x); cbn [length]; lia.
Qed.

(** The sockets left open. *)
Lemma tried_held a kp t s e l :
  t = pair_on a kp.1 kp.2 s e → below s l →
  below (pt_next t) (l ++ pt_log t) ∧ held (l ++ pt_log t) = held l ++ option_list (socket_of t).
Proof.
  intros -> Hb. unfold pair_on, socket_of.
  destruct (os_socket _ _ _ _ e) as [[u|x] e1]; cycle 1.
  { cbn. unfold raised. rewrite app_nil_r. split; [done|]. destruct (is_OSError x); by rewrite app_nil_r. }
  pose proof (run_calls_log (setup_calls a s kp.2) e1) as Hl. rewrite setup_calls_log in Hl.
  assert (Forall (λ ev, opened ev = None ∧ ∀ x, ev ≠ Closed x)
    (bound_part a s kp.2 ++ connect_part a s kp.2)) as Hq.
  { unfold bound_part, connect_part.
    destruct (given (ea_local a)), (given (ea_remote a) && negb (ea_broadcast a)),
      kp.2 as [[x|] [y|]]; by repeat constructor. }
  assert (∀ evs, Forall (λ ev, opened ev = None ∧ ∀ x, ev ≠ Closed x) evs →
    below (S s) (l ++ Opened s :: evs) ∧ held (l ++ Opened s :: evs) = held l ++ [s]) as Hopen.
  { intros evs He. rewrite cons_middle, app_assoc. split.
    - apply quiet_below; [done|]. apply below_snoc; [by apply (below_mono s); [lia|]|].
      intros s' [[= ->]|[=]]; lia.
    - rewrite quiet_held by done. by apply held_open. }
  destruct (run_calls _ e1) as [[evs [u1|x]] e2].
  { subst evs. cbn. by apply Hopen. }
  assert (Forall (λ ev, opened ev = None ∧ ∀ x, ev ≠ Closed x) evs) as He
    by (destruct Hl as [k Hk]; rewrite Hk in Hq; by apply Forall_app in Hq as [? _]).
  destruct (Hopen evs He) as [Hb1 Hh1].
  assert (below (S s) (l ++ Opened s :: evs ++ [Closed s]) ∧
          held (l ++ Opened s :: evs ++ [Closed s]) = held l) as [Hb2 Hh2].
  { rewrite app_comm_cons, app_assoc. split.
    - apply below_snoc; [done|]. intros s' [[=]|[= ->]]; lia.
    - rewrite held_close, Hh1, filter_app, filter_cons_False, filter_nil, app_nil_r by (by intros []).
      apply filter_all. eapply Forall_impl; [by apply held_below|]. simpl. intros; lia. }
  destruct (os_close s e2) as [[u2|y] e3]; cbn; [|by rewrite app_nil_r].
  unfold raised. destruct (is_OSError x); by rewrite app_nil_r.
Qed.

Lemma pair_tries_held a pairs s e l0 :
  below s l0 →
  let l := pair_tries a pairs s e in
  held (l0 ++ concat (pt_log <$> l)) = held l0 ++ option_list (last l ≫= socket_of).
Proof.
  cbv zeta. revert s e l0. induction pairs as [|[fp p] pairs IH]; intros s e l0 Hb; cbn [pair_tries].
  { cbn. by rewrite !app_nil_r. }
  destruct (tried_held a (fp, p) (pair_on a fp p s e) s e l0 eq_refl Hb) as [Hb1 Hh1].
  set (t := pair_on a fp p s e) in *. destruct (pt_end t) as [s'|x|x] eqn:Hend.
  1, 3: cbn; by rewrite app_nil_r, Hh1.
  rewrite fmap_cons, concat_cons, app_assoc, IH, Hh1 by done.
  assert (socket_of t = None) as Hs by (unfold socket_of; by rewrite Hend).
  rewrite Hs. cbn [option_list]. rewrite app_nil_r. f_equal. rewrite last_cons.
  destruct (last (pair_tries _ _ _ _)); [done|]. cbn. by rewrite Hs.
Qed.

(** C33: [create_datagram_endpoint] without a ready-made socket is the reference
    definition [pair_tries].  The pairs of addresses it has found all have every
    address that was asked for, and there is one.  They are tried in order, all of
    them before it gives up; a pair that fails leaves no socket open; the first
    that works gives the transport its socket, bound to the pair's local address
    if one was asked for, and connected to the remote one unless broadcasts are
    allowed, and that is the only socket left open.  If all pairs fail, the error
    raised is the one the first pair's call raised.  An exception that is no
    [OSError], or one that closing a socket raises, ends it at once. *)
Theorem datagram_endpoint_sockets {R} (endpoint_transport : sock → option addr → M W R)
    a (w w1 : W) pairs :
  ea_sock a = None → addr_pairs_info a w = (Ret pairs, w1) →
  let l := pair_tries a pairs (n_next w1) (n_env w1) in
  let w2 := after_tries l w1 in
  Forall (λ kp, complete a kp.2 = true) pairs ∧
  Forall2 (tried a) (take (length l) pairs) l ∧
  ∃ l' t, l = l' ++ [t] ∧ length (omap error_of l') = length l' ∧
    create_datagram_endpoint endpoint_transport a w =
      match pt_end t with
      | Works s => endpoint_transport s (remote_part a (pt_pair t)) w2
      | Fails _ => (Raise (default IndexError (head l ≫= error_of)), w2)
      | Stops x => (Raise x, w2)
      end ∧
    (is_Some (error_of t) → length l = length pairs ∧ is_Some (head l ≫= error_of)) ∧
    n_log w2 = n_log w1 ++ concat (pt_log <$> l) ∧
    (below (n_next w1) (n_log w1) → held (n_log w2) = held (n_log w1) ++ option_list (socket_of t)).
Proof.
  intros Hs Hpairs. cbv zeta. destruct (addr_pairs_complete a w w1 pairs Hpairs) as [Hc Hne].
  destruct (pair_tries_ok a pairs (n_next w1) (n_env w1)) as [H1 H2].
  pose proof (try_pairs_run a pairs [] w1 Hc) as Hrun.
  pose proof (pair_tries_held a pairs (n_next w1) (n_env w1) (n_log w1)) as Hheld.
  assert (pair_tries a pairs (n_next w1) (n_env w1) ≠ []) as Hl by (by destruct pairs as [|[fp p] pairs]).
  set (l := pair_tries a pairs (n_next w1) (n_env w1)) in *. split; [done|]. split; [done|].
  destruct (exists_last Hl) as (l' & t & Heq). exists l', t. destruct (H2 l' t Heq) as [H3 H4].
  assert (last l = Some t) as Hlast by (rewrite Heq; apply last_snoc).
  assert (is_Some (error_of t) → is_Some (head l ≫= error_of) ∧
          head (omap error_of l) = head l ≫= error_of) as Hhead.
  { intros [x Hx]. rewrite Heq. destruct l' as [|u l'].
    - cbn. rewrite Hx. split; [by eexists|done].
    - cbn. cbn in H3. destruct (error_of u); [split; [by eexists|done]|].
      pose proof (length_omap_le error_of l'). lia. }
  split; [done|]. split; [done|]. split.
  { unfold create_datagram_endpoint. rewrite Hs, run_bind, run_bind, Hpairs, Hrun. cbv zeta.
    fold l. rewrite Hlast. destruct (pt_end t) as [s|x|x] eqn:Hend; [done| |done].
    cbn [app]. destruct Hhead as [_ ->]; [unfold error_of; rewrite Hend; by eexists|done]. }
  split; [intros Ht; split; [by apply H4|by apply Hhead]|]. split; [done|].
  intros Hb. specialize (Hheld Hb). cbv zeta in Hheld. fold l in Hheld. rewrite Hlast in Hheld.
  exact Hheld.
Qed.
End endpoint.

(** No files. *)
Definition no_files : Files (list (option exn)) := {|
  fs_is_sock _ := raise (OSError ENOENT);
  fs_inode _ := raise (OSError ENOENT);
  fs_remove _ := raise (OSError ENOENT);
|}.

Definition some_endpoint : endpoint_args :=
  MkEndpointArgs (Some (HostPort (Some "example.org"%string) 80)) None 0 0 0 false false None.

(** Three addresses of two families: the last IPv4 address is the one of its pair,
    and the IPv6 one is tried when it cannot be bound; and none can be bound. *)
Lemma datagram_endpoint_sockets_witness :
  let N := bind_net in let F := no_files in
  let create := create_datagram_endpoint (λ s r, mret (s, r)) some_endpoint in
  let w := MkNet [Some (OSError EADDRINUSE); None] [] 0 [] in
  let w' := MkNet [Some (OSError EADDRINUSE); Some (OSError 13)] [] 0 [] in
  let pairs := [((AF_INET, 6%Z), (Some (AInet "127.0.0.2" 80), None));
                ((AF_INET6, 6%Z), (Some (AInet "::1" 80), None))] in
  (create w).1 = Ret (1, None) ∧ held (n_log (create w).2) = [1] ∧
  (create w').1 = Raise (OSError EADDRINUSE) ∧ held (n_log (create w').2) = [] ∧
  Forall (λ kp, complete some_endpoint kp.2 = true) pairs.
Proof.
  intros N F create w w' pairs. do 4 (split; [vm_compute; reflexivity|]).
  apply (datagram_endpoint_sockets (λ s r, mret (s, r)) some_endpoint w w pairs).
  - reflexivity.
  - reflexivity.
Defined.
