(* ===== verification/StartTls.v ===== *)
(** * [start_tls] (python/tokioop/loop.py, lines 711-776)

    Upgrading a stream transport: the TLS protocol of asyncio ([sslproto]) takes
    the place of the transport's protocol, while reading is paused. *)

From Stdlib Require Import Strings.Byte.
From stdpp Require Import base tactics list gmap strings.
From S2P Require Import Prelude State Reactor Env Loop.
From S2P Require Import SelectorTransport Reads SocketTransport Script.

Section start_tls.
Context {E : Type} `{!Kernel E} `{!Protocol (world E bytes stream)}.
Local Abbreviation W := (world E bytes stream).

(** [sslproto.SSLProtocol] is a [BufferedProtocol]. *)
Definition SSLProtocol (n : nat) : proto := MkProto n true.

(** Moving what a [StreamReader] has buffered into the TLS object (server side),
    and awaiting the waiter. *)
Context (move_buffer : M W unit) (wait : fut_id → M W unit).

(** Up to the [await]: the waiter and the handles of the two callbacks. *)
Definition start_tls_setup (server_side : bool) (n : nat) : M W (fut_id * flag_id * flag_id) :=
  waiter ← on_loop create_future;
  pause_reading;;
  when_ server_side move_buffer;;
  set_protocol (SSLProtocol n);;
  conmade_cb ← on_loop (call_soon (CbConnectionMade (SSLProtocol n)));
  resume_cb ← on_loop (call_soon CbResumeReading);
  mret (waiter, conmade_cb, resume_cb).

(** [have_ssl]: the module can be imported; [is_context]: [sslcontext] is an
    [SSLContext].  ([_start_tls_compatible] of a stream transport is true.) *)
Definition start_tls (have_ssl is_context server_side : bool) (n : nat) : M W unit :=
  if negb have_ssl then raise (RuntimeError "Python ssl module is not available") else
  if negb is_context then
    raise (TypeError "sslcontext is expected to be an instance of ssl.SSLContext") else
  h ← start_tls_setup server_side n;
  let '(waiter, conmade_cb, resume_cb) := h in
  try_except (wait waiter)
    (λ exc,
      close;;
      on_loop (cancel_ready conmade_cb);;
      on_loop (cancel_ready resume_cb);;
      raise exc).

(** What the loop runs for the two callbacks. *)
Definition run_tls_callback (c : callback) : M W unit :=
  match c with
  | CbResumeReading => resume_reading
  | c => run_firing (FireCallback c)
  end.

(** ** The watcher is the old one *)

(** The attributes reading depends on, and the watcher of the fd. *)
Record reading_as (w w' : W) : Prop := {
  ra_protocol : _protocol (w_tr w') = _protocol (w_tr w);
  ra_paused : _paused (w_tr w') = _paused (w_tr w);
  ra_closing : _closing (w_tr w') = _closing (w_tr w);
  ra_lost : _conn_lost (w_tr w') = _conn_lost (w_tr w);
  ra_loop : _loop (w_tr w') = _loop (w_tr w);
  ra_fd : _sock_fd (w_tr w') = _sock_fd (w_tr w);
  ra_replay : _replay (w_tr w') = _replay (w_tr w);
  ra_kind : _drain_kind (w_tr w') = _drain_kind (w_tr w);
  ra_fds : fds (reactor (w_loop w')) = fds (reactor (w_loop w));
  ra_slots : slots (reactor (w_loop w')) = slots (reactor (w_loop w));
}.

Lemma reading_as_polling w w' :
  reading_as w w' →
  _is_polling (_sock_fd (w_tr w')) false (w_loop w') = _is_polling (_sock_fd (w_tr w)) false (w_loop w).
Proof.
  intros H. unfold _is_polling, is_polling, registered.
  by rewrite (ra_fd _ _ H), (ra_fds _ _ H), (ra_slots _ _ H).
Qed.

(** [set_protocol] while paused records the new mode only. *)
Lemma set_protocol_paused_run p (w : W) :
  _paused (w_tr w) = true →
  ∃ w', set_protocol p w = (Ret tt, w') ∧ _protocol (w_tr w') = Some p ∧
    _paused (w_tr w') = true ∧ _closing (w_tr w') = _closing (w_tr w) ∧
    _conn_lost (w_tr w') = _conn_lost (w_tr w) ∧ _loop (w_tr w') = _loop (w_tr w) ∧
    _sock_fd (w_tr w') = _sock_fd (w_tr w) ∧ _replay (w_tr w') = _replay (w_tr w) ∧
    _drain_kind (w_tr w') = (if is_BufferedProtocol p then None else Some Tcp) ∧
    w_loop w' = w_loop w.
Proof.
  intros Hp. set (kind := if is_BufferedProtocol p then None else Some Tcp).
  unfold set_protocol, set_protocol_, put_ext. rewrite run_bind, run_put. cbv beta iota zeta.
  rewrite run_bind, run_self. cbn [w_tr set_tr]. cbv beta iota. fold kind. rewrite run_bind.
  destruct (decide (kind ≠ _)) as [Hd|Hd].
  - rewrite run_bind, run_put. unfold loop_get.
    do 6 rewrite run_bind, ?run_self, ?run_gets. cbv beta iota. simpl.
    rewrite Hp. cbn [negb]. rewrite !andb_false_r. cbn [andb when_]. eexists. split; [done|].
    by split_and!.
  - rewrite run_ret. eexists. split; [done|]. split_and!; try done. simpl.
    destruct (decide (kind = _drain_kind (w_tr w))); [done|tauto].
Qed.

(** [resume_reading] with nothing stored and the fd polled: the flag only. *)
Lemma resume_polled (w : W) :
  _paused (w_tr w) = true → _closing (w_tr w) = false → _loop (w_tr w) = true →
  _replay (w_tr w) = [] → _is_polling (_sock_fd (w_tr w)) false (w_loop w) = true →
  resume_reading w = (Ret tt, update (set_paused false) w).
Proof.
  intros Hp Hc Hl Hr Hpoll. unfold resume_reading.
  rewrite run_bind, run_self, run_bind, run_self, Hc, Hp. cbn [orb negb].
  rewrite run_bind, run_put, run_bind. cbv beta iota. fold (update (set_paused false) w).
  set (w2 := update _ w).
  unfold _flush_replay. rewrite run_bind, run_self.
  change (_replay (w_tr w2)) with (_replay (w_tr w)). rewrite Hr. cbn [length flush_loop].
  rewrite run_ret, run_bind, run_self, run_bind, run_self.
  change (_closing (w_tr w2)) with (_closing (w_tr w)).
  change (_paused (w_tr w2)) with false. rewrite Hc. cbn [orb].
  rewrite run_bind, run_self, run_bind, run_loop_call by done.
  unfold loop_get. rewrite run_gets. change (lget w2) with (w_loop w).
  change (_sock_fd (w_tr w2)) with (_sock_fd (w_tr w)). rewrite Hpoll.
  cbn [negb when_]. by rewrite run_bind, run_ret, run_debug_log.
Qed.

(** What [start_tls] has done when it awaits, on the client's side. *)
Lemma start_tls_setup_run n (w : W) :
  is_reading (w_tr w) = true → _drain_kind (w_tr w) = Some Tcp →
  _loop (w_tr w) = true → closed (w_loop w) = false →
  ∃ h w1, start_tls_setup false n w = (Ret h, w1) ∧
    _protocol (w_tr w1) = Some (SSLProtocol n) ∧ _paused (w_tr w1) = true ∧
    _closing (w_tr w1) = false ∧ _conn_lost (w_tr w1) = _conn_lost (w_tr w) ∧
    _loop (w_tr w1) = true ∧ _sock_fd (w_tr w1) = _sock_fd (w_tr w) ∧
    _replay (w_tr w1) = _replay (w_tr w) ∧ _drain_kind (w_tr w1) = None ∧
    fds (reactor (w_loop w1)) = fds (reactor (w_loop w)) ∧
    slots (reactor (w_loop w1)) = slots (reactor (w_loop w)) ∧
    (re_callback <$> ready (w_loop w1)) =
      (re_callback <$> ready (w_loop w)) ++ [CbConnectionMade (SSLProtocol n); CbResumeReading].
Proof.
  intros Hr Hk Hl Hc. unfold start_tls_setup, on_loop, zoom. rewrite run_bind.
  change (lget w) with (w_loop w). unfold create_future at 1. rewrite run_bind, check_closed_open by done.
  cbv beta iota. simpl. set (w0 := MkWorld _ _ _ _ _).
  rewrite run_bind. unfold pause_reading. rewrite run_bind, run_self.
  change (is_reading (w_tr w0)) with (is_reading (w_tr w)). rewrite Hr. cbn [negb].
  rewrite run_bind, run_put. cbv beta iota. rewrite run_bind, run_self. cbn [w_tr set_tr].
  change (_drain_kind (set_paused true (w_tr w0))) with (_drain_kind (w_tr w)). rewrite Hk.
  rewrite run_bind, run_ret. cbv beta iota. rewrite run_debug_log by done. cbv beta iota.
  cbn [when_]. rewrite run_bind, run_ret. cbv beta iota. set (w1 := set_tr _ w0).
  rewrite run_bind.
  destruct (set_protocol_paused_run (SSLProtocol n) w1 eq_refl)
    as (w2 & -> & Hp2 & Hpa2 & Hcl2 & Hlo2 & Hl2 & Hf2 & Hre2 & Hk2 & Hlp2).
  cbv beta iota. rewrite run_bind. change (lget w2) with (w_loop w2).
  rewrite call_soon_open by (rewrite Hlp2; done). cbv beta iota.
  rewrite run_bind. set (w3 := lset (soon (CbConnectionMade (SSLProtocol n)) (w_loop w2)) w2).
  change (lget w3) with (w_loop w3).
  rewrite call_soon_open by (simpl; rewrite Hlp2; done). cbv beta iota. rewrite run_ret.
  apply andb_true_iff in Hr as [Hr1 _]. apply negb_true_iff in Hr1.
  eexists _, _. split; [done|]. simpl. rewrite Hlp2. simpl.
  split_and!; try done; rewrite ?Hcl2, ?Hl2; try done.
  by rewrite !fmap_app, <- app_assoc.
Qed.

(** [start_tls] on a stream transport that reads in drain mode.  The TLS
    protocol is installed and wants the callback mode, but reading is paused by
    the flag only: the watcher of the drain mode stays registered, and when
    [connection_made] has run, [resume_reading] finds the fd polled and keeps it.
    The next bytes to arrive are the peer's part of the handshake; they are
    handed to [data_received], which a [BufferedProtocol] does not have, and the
    connection is torn down. *)
Theorem start_tls_breaks_reading n d (w : W) sl s :
  is_reading (w_tr w) = true → _drain_kind (w_tr w) = Some Tcp →
  _loop (w_tr w) = true → closed (w_loop w) = false → _replay (w_tr w) = [] →
  _conn_lost (w_tr w) = 0 →
  watched w true = Some sl → slots (reactor (w_loop w)) !! sl = Some s →
  dead s = false → drain s = Some CbDrainStream → d ≠ [] →
  (∀ w, p_data_received (SSLProtocol n) d w = (Raise AttributeError, w)) →
  ∃ h w1, start_tls_setup false n w = (Ret h, w1) ∧
    (re_callback <$> ready (w_loop w1)) =
      (re_callback <$> ready (w_loop w)) ++ [CbConnectionMade (SSLProtocol n); CbResumeReading] ∧
    let w2 := (run_tls_callback (CbConnectionMade (SSLProtocol n)) w1).2 in
    reading_as w1 w2 →
    let w3 := (run_tls_callback CbResumeReading w2).2 in
    _drain_kind (w_tr w3) = None ∧ is_reading (w_tr w3) = true ∧
    watched w3 true = Some sl ∧ slots (reactor (w_loop w3)) !! sl = Some s ∧
    torn (w_tr (run_firing (FireTcpChunk d) w3).2) = true.
Proof.
  intros Hr Hk Hl Hc Hre Hlost Hw Hs Hd Hdr Hne Hdata.
  destruct (start_tls_setup_run n w Hr Hk Hl Hc)
    as (h & w1 & -> & Hp1 & Hpa1 & Hcl1 & Hlo1 & Hl1 & Hf1 & Hre1 & Hk1 & Hfds1 & Hsl1 & Hq).
  exists h, w1. split_and!; [done..|]. cbv zeta. set (w2 := (run_tls_callback _ w1).2).
  intros Hras. destruct Hras as [Ep Epa Ecl Elo El Ef Ere Ek Efds Esl] eqn:Hras'.
  assert (watched w2 true = Some sl) as Hw2.
  { unfold watched, registered in *. by rewrite Ef, Efds, Hf1, Hfds1. }
  assert (slots (reactor (w_loop w2)) !! sl = Some s) as Hs2 by by rewrite Esl, Hsl1.
  assert (_is_polling (_sock_fd (w_tr w2)) false (w_loop w2) = true) as Hpoll.
  { change (is_polling (_sock_fd (w_tr w2)) true (reactor (w_loop w2)) = true).
    unfold is_polling. fold (watched w2 true). rewrite Hw2, Hs2, Hd, Hdr.
    simpl. by rewrite orb_true_r. }
  cbn [run_tls_callback]. rewrite resume_polled; [|congruence..]. cbn [snd].
  set (w3 := update (set_paused false) w2).
  assert (_drain_kind (w_tr w3) = None) as Hk3 by (simpl; congruence).
  assert (is_reading (w_tr w3) = true) as Hr3.
  { unfold is_reading, is_closing. simpl. by rewrite Ecl, Hcl1. }
  split_and!; [done..|].
  cbn [run_firing]. unfold _drain_stream, drain_guarded.
  rewrite run_bind, run_self, run_bind, run_self.
  change (_conn_lost (w_tr w3)) with (_conn_lost (w_tr w2)).
  change (_closing (w_tr w3)) with (_closing (w_tr w2)).
  rewrite Elo, Hlo1, Hlost, Ecl, Hcl1. simpl (bool_decide (0 ≠ 0) || false). cbv iota.
  rewrite run_bind, run_self. change (_paused (w_tr w3)) with false. cbv iota.
  cbn [run_replay socket_class stream_run_replay]. unfold _deliver_stream.
  destruct d as [|b d]; [done|]. unfold try_except, try_else.
  rewrite (run_protocol_call _ _ (SSLProtocol n)) by (simpl; congruence).
  rewrite Hdata. cbn [except_cb is_exit]. unfold fatal, _fatal_error. cbn [is_OSError].
  rewrite run_bind, run_loop_call by (simpl; congruence).
  unfold call_exception_handler. rewrite run_bind, run_log. cbv beta iota.
  unfold swallow. cbv beta iota. apply force_close_torn.
Qed.

(** A handshake that fails or is cancelled closes the transport as [close] does, and
    neither scheduled callback is run after that: both handles are cancelled. *)
Lemma start_tls_failure server_side n exc waiter conmade resume (w w1 w2 w3 : W) :
  start_tls_setup server_side n w = (Ret (waiter, conmade, resume), w1) →
  wait waiter w1 = (Raise exc, w2) → close w2 = (Ret tt, w3) →
  ∃ w4, start_tls true true server_side n w = (Raise exc, w4) ∧ w_tr w4 = w_tr w3 ∧
    ready (w_loop w4) = ready (w_loop w3) ∧
    flags (reactor (w_loop w4)) !! conmade = Some true ∧
    flags (reactor (w_loop w4)) !! resume = Some true.
Proof.
  intros Hs Hw Hc. unfold start_tls. cbn [negb]. rewrite run_bind, Hs. unfold try_except, try_else.
  rewrite Hw. rewrite run_bind, Hc. unfold on_loop, zoom. rewrite run_bind. unfold cancel_ready at 1.
  cbv beta iota. rewrite run_bind. unfold cancel_ready. cbv beta iota. rewrite run_raise.
  eexists. split; [done|]. split_and!; [done|done| |]; cbn; [|by rewrite lookup_insert_eq].
  destruct (decide (conmade = resume)) as [->|Hne]; [by rewrite lookup_insert_eq|].
  by rewrite lookup_insert_ne, lookup_insert_eq.
Qed.
End start_tls.

(** ** An instance *)

(** Callbacks that do nothing; a [BufferedProtocol] has no [data_received]. *)
Definition tls_protocol : Protocol (world script_env bytes stream) := {|
  p_connection_made _ := mret tt;
  p_data_received p _ := if is_BufferedProtocol p then raise AttributeError else mret tt;
  p_eof_received _ := mret false;
  p_get_buffer _ := mret 1024;
  p_buffer_updated _ _ := mret tt;
  p_datagram_received _ _ _ := mret tt;
  p_error_received _ _ := mret tt;
  p_pause_writing _ := mret tt;
  p_resume_writing _ := mret tt;
  p_connection_lost _ _ := mret tt;
  p_exception_handler _ := mret tt;
|}.

(** A client whose transport is reading in drain mode (watcher 1). *)
Definition plain_client : world script_env bytes stream :=
  let K := script_kernel true in let P := tls_protocol in (_register_reader (start_world [])).2.

Lemma start_tls_breaks_reading_witness :
  let K := script_kernel true in let P := tls_protocol in
  let s := MkSlot None (Some CbDrainStream) (Some CbDrainError) false (Some 0) in
  ∃ h w1, start_tls_setup (mret tt) false 2 plain_client = (Ret h, w1) ∧
    let w2 := (run_tls_callback (CbConnectionMade (SSLProtocol 2)) w1).2 in
    let w3 := (run_tls_callback CbResumeReading w2).2 in
    watched w3 true = Some 1 ∧ slots (reactor (w_loop w3)) !! 1 = Some s ∧
    torn (w_tr (run_firing (FireTcpChunk ["022"%byte]) w3).2) = true.
Proof.
  intros K P s.
  destruct (start_tls_breaks_reading (mret tt) 2 ["022"%byte] plain_client 1 s)
    as (h & w1 & Hrun & _ & H); try reflexivity.
  - discriminate.
  - exists h, w1. split; [exact Hrun|].
    assert (reading_as w1 (run_tls_callback (CbConnectionMade (SSLProtocol 2)) w1).2) as Hras
      by (split; reflexivity).
    destruct (H Hras) as (_ & _ & H1 & H2 & H3). split; [exact H1|]. split; [exact H2|exact H3].
Defined.
