(* ===== verification/Composed.v ===== *)
(** * The stream transport in the running loop

    The scheduler of Scheduler.v with the stream transport as the program it
    runs: its callbacks, the delivery of payloads ([deliver_drain_data]) and the
    exception handler act on the transport's world, the loop's own state being
    shared.  What the transport's properties assume of the events it sees is what
    the batches of the loop give it. *)

From Stdlib Require Import Strings.Byte.
From stdpp Require Import base tactics list gmap strings.
From S2P Require Import Prelude State Reactor Env Loop LoopFrame Scheduler SchedulerProps.
From S2P Require Import SelectorTransport Reads SocketTransport StreamReads StreamWrites.
From S2P Require Import StreamFrame StartTls Script.

(** ** State *)

(** The world of the transport without the loop, and the clock. *)
Record outside (E : Type) := MkOutside {
  o_tr : transport bytes stream;
  o_env : E;
  o_trace : list event;
  o_transports : gset Z;
  o_clock : f64;
}.
Arguments MkOutside {E}.
Arguments o_tr {E}.
Arguments o_env {E}.
Arguments o_trace {E}.
Arguments o_transports {E}.
Arguments o_clock {E}.

Section composed.
Context {E : Type} `{!Kernel E} `{!Protocol (world E bytes stream)}.
Local Abbreviation V := (world E bytes stream).
Local Abbreviation W := (sched (outside E)).

Definition view (w : W) : V :=
  MkWorld (s_loop w) (o_tr (app w)) (o_env (app w)) (o_trace (app w)) (o_transports (app w)).
Definition put_view (v : V) (w : W) : W :=
  MkSched (w_loop v) (timers w) (next_seq w) (io w) (running w) (stop_requested w) (ran w)
    (released w) (permit w)
    (MkOutside (w_tr v) (w_env v) (w_trace v) (w_transports v) (o_clock (app w))).

Definition inside {A} (m : M V A) : M W A := λ w,
  let '(r, v) := m (view w) in (r, put_view v w).

(** Callables of the application. *)
Context (user : nat → M V unit).

(** [invoke_entry]: what a callback of the ready queue, a timer or a watcher
    does. *)
Definition call (c : callback) : M W unit :=
  inside match c with
         | CbUser n => user n
         | c => run_tls_callback c
         end.

(** A payload for a drain callback of the transport; the others belong to other
    objects. *)
Definition deliver (c : callback) (d : IoData) : M W unit :=
  match c, d with
  | CbDrainStream, TcpChunk payload => inside (run_firing (FireTcpChunk payload))
  | CbDrainStream, TcpEof => inside (run_firing FireTcpEof)
  | CbDrainStream, UdpDatagram _ _ => raise (TypeError "_drain_stream() takes 2 arguments")
  | CbDrainError, ReadError e => inside (run_firing (FireReadError e))
  | _, _ => mret tt
  end.

(** [report_callback_error] *)
Definition handler (e : exn) : M W unit := inside (call_exception_handler e).
Definition clock (o : outside E) : f64 := o_clock o.

Abbreviation batch fuel := (run_batch call deliver handler clock fuel).

(** A watcher task puts a completion on the queue. *)
Definition push (c : IoCompletion) (w : W) : W := set_io (io w ++ [c]) w.

(** ** One step of the transport *)

(** What running one callable does to the rest: it adds to the ready queue, keeps
    what the slots deliver to, and leaves timers and completions alone. *)
Record Rcall (R : relation V) (w w' : W) : Prop := {
  rc_view : R (view w) (view w');
  rc_loop : Rloop (s_loop w) (s_loop w');
  rc_timers : timers w' = timers w;
  rc_io : io w' = io w;
  rc_ran : ran w' = ran w;
}.
#[export] Instance Rcall_preorder R `{!PreOrder R} : PreOrder (Rcall R).
Proof.
  split; [by intros w; split|]. intros w1 w2 w3 [] []. split; try congruence; by etrans.
Qed.

Lemma view_put v (w : W) : view (put_view v w) = v.
Proof. by destruct v. Qed.

Lemma inside_moves (R : relation V) {A} (m : M V A) :
  moves R m → moves Rinner m → moves (Rcall R) (inside m).
Proof.
  intros Hm Hi w. unfold inside. specialize (Hm (view w)). specialize (Hi (view w)).
  destruct (m (view w)) as [r v]. cbn [snd] in *. split; try done. by rewrite view_put.
Qed.

(** The application: it moves the loop by the loop's methods only. *)
Class InnerLaws : Prop := {
  il_obeys :: Obeys (Rinner (E := E));
  il_user n : moves Rinner (user n);
}.
Context `{!InnerLaws}.

Lemma tls_callback_calm (R : relation V) `{!Calm R} c : moves R (run_tls_callback c).
Proof.
  pose proof (calm_preorder (R := R)).
  destruct c; try match goal with
    |- moves R (run_tls_callback ?c) =>
      refine (calm_run_wstep R (WFire (FireCallback c)) _); by right end.
  by apply calm_resume_reading.
Qed.

Lemma call_moves (R : relation V) c :
  (∀ n, c = CbUser n → moves R (user n)) →
  ((∀ n, c ≠ CbUser n) → moves R (run_tls_callback c)) → moves (Rcall R) (call c).
Proof.
  intros Hu Ht. unfold call. apply inside_moves.
  - destruct c; first [by apply Ht|by eapply Hu].
  - destruct c; try exact (tls_callback_calm Rinner _). apply il_user.
Qed.
Lemma handler_moves (R : relation V) e :
  moves R (call_exception_handler e) → moves (Rcall R) (handler e).
Proof. intros Hr. apply inside_moves; [exact Hr|apply (calm_call_exception_handler Rinner)]. Qed.

Lemma deliver_moves (R : relation V) `{!PreOrder R} c d :
  (∀ f, moves R (run_firing f)) → moves (Rcall R) (deliver c d).
Proof.
  intros Hf.
  assert (∀ f, moves (Rcall R) (inside (run_firing f))) as Hi.
  { intros f. apply inside_moves; [done|]. by apply (calm_run_wstep Rinner (WFire f)); right. }
  unfold deliver. destruct c, d; moves_auto; apply Hi.
Qed.

(** Hence the scheduler's own properties apply to the transport. *)
Lemma Rcall_cb late (w w' : W) : Rcall (λ _ _, True) w w' → Rcb late w w'.
Proof.
  intros [_ [Hr (new & Hq & Hnew)] Ht Hio Hran]. split; try done.
  - exists new. split; [done|]. eapply Forall_impl; [exact Hnew|]. unfold fresh, allocated. lia.
  - intros e He. by apply (rr_flags _ _ Hr).
  - apply (rr_id _ _ Hr).
  - exists []. by rewrite app_nil_r.
  - by rewrite Ht.
Qed.

#[export] Instance composed_laws late : CallbackLaws call deliver handler late.
Proof.
  set (T := λ _ _ : V, True).
  assert (PreOrder T) by done. assert (∀ A (m : M V A), moves T m) as Hall by by intros A m w.
  assert (∀ A (m : M W A), moves (Rcall T) m → moves (Rcb late) m) as Hw
    by (intros A m Hm w; apply Rcall_cb, Hm).
  split; intros; [apply Hw, call_moves; auto|apply Hw, deliver_moves; auto|apply Hw, handler_moves; auto].
Qed.

(** ** One batch *)

(** What running a batch leaves: the queues change, slots live on. *)
Record Rbatch (R : relation V) (w w' : W) : Prop := {
  rb_view : R (view w) (view w');
  rb_reactor : Rreactor (reactor (s_loop w)) (reactor (s_loop w'));
}.
#[export] Instance Rbatch_preorder R `{!PreOrder R} : PreOrder (Rbatch R).
Proof. split; [by intros w; split|]. intros w1 w2 w3 [] []. split; by etrans. Qed.
Lemma Rcall_batch R (w w' : W) : Rcall R w w' → Rbatch R w w'.
Proof. intros [Hv [Hl _] _ _ _]. by split. Qed.

Section batch.
Context (R : relation V) `{!PreOrder R} (P : callback → Prop).
Context (Hcall : ∀ c, P c → moves (Rcall R) (call c)).
Context (Hhandler : ∀ e, moves (Rcall R) (handler e)).
(** [R] does not look at the ready queue. *)
Context (Hqueue : ∀ q (v : V), R v (lset (set_ready q (w_loop v)) v)).

Lemma reported_moves m : moves (Rcall R) m → moves (Rcall R) (reported handler m).
Proof. intros Hm. unfold reported. moves_auto. Qed.

Lemma run_entry_moves e (w : W) :
  P (re_callback e) →
  let w' := (run_entry call handler e w).2 in
  Rbatch R w w' ∧ timers w' = timers w ∧ io w' = io w ∧ ∃ new, ready (s_loop w') = ready (s_loop w) ++ new.
Proof.
  intros Hp. cbv zeta. unfold run_entry. rewrite run_bind, run_gets.
  destruct (is_cancelled e w).
  { split_and!; [done..|]. exists []. by rewrite app_nil_r. }
  rewrite run_bind, run_modify. cbv beta iota.
  destruct (reported_moves _ (Hcall _ Hp) (add_ran e w)) as [Hv [Hr (new & Hq & _)] Ht Hio _].
  split_and!; [by split|done|done|by exists new].
Qed.

Lemma run_ready_moves q new (w : W) :
  ready (s_loop w) = q ++ new → Forall (λ e, P (re_callback e)) q →
  let w' := (run_ready call handler (length q) w).2 in
  Rbatch R w w' ∧ timers w' = timers w ∧ io w' = io w.
Proof.
  revert new w. induction q as [|e q IH]; intros new w Hq Hp; [by split|].
  apply Forall_cons in Hp as [He Hp]. cbv zeta. cbn [length run_ready]. rewrite run_bind.
  change (ready (s_loop w) = e :: q ++ new) in Hq. unfold pop_ready. rewrite Hq.
  cbv beta iota. rewrite run_bind.
  set (w1 := set_loop _ w).
  assert (Rbatch R w w1) as H1 by (split; [apply (Hqueue (q ++ new) (view w))|done]).
  destruct (run_entry_moves e w1 He) as (H2 & Ht2 & Hi2 & new' & Hq2).
  destruct (run_entry call handler e w1) as [[[]|x] w2] eqn:Hrun; cbn [snd] in *.
  - destruct (IH (new ++ new') w2) as (H3 & Ht3 & Hi3); [by rewrite app_assoc|done|].
    split_and!; [by etrans; [|etrans]|by rewrite Ht3, Ht2|by rewrite Hi3, Hi2].
  - split_and!; [by etrans|done..].
Qed.

Lemma run_timers_moves fuel now (w : W) :
  Forall (λ t, P (re_callback (entry t))) (timers w) →
  let w' := (run_timers call handler fuel now w).2 in Rbatch R w w' ∧ io w' = io w.
Proof.
  revert w. induction fuel as [|fuel IH]; intros w Hp; [done|]. cbv zeta. cbn [run_timers].
  rewrite run_bind. unfold pop_due. destruct (peek (timers w)) as [top|] eqn:Htop; [|done].
  destruct (fle (when top) now); [|done]. cbv beta iota. rewrite run_bind.
  set (w1 := set_timers _ _ w).
  assert (Rbatch R w w1) as H1 by (split; reflexivity).
  assert (P (re_callback (entry top))) as He
    by (rewrite Forall_forall in Hp; by apply Hp, peek_in).
  destruct (run_entry_moves (entry top) w1 He) as (H2 & Ht2 & Hi2 & _).
  destruct (run_entry call handler (entry top) w1) as [[[]|x] w2] eqn:Hrun; cbn [snd] in *.
  - destruct (IH w2) as [H3 Hi3].
    { rewrite Ht2. cbn. rewrite Forall_forall in *. intros t Ht. apply Hp.
      by apply list_elem_of_filter in Ht as [_ ?]. }
    split; [|by rewrite Hi3, Hi2]. etrans; [exact H1|]. etrans; [exact H2|exact H3].
  - split; [etrans; [exact H1|exact H2]|done].
Qed.
End batch.

(** ** Payloads *)

(** What a payload is for a slot of the transport: an item for its protocol. *)
Definition payload_of (s : FdSlotState) (d : IoData) : option replay_item :=
  match d with
  | TcpChunk p => if decide (drain s = Some CbDrainStream) then Some (RData p None) else None
  | TcpEof => if decide (drain s = Some CbDrainStream) then Some (RData [] None) else None
  | ReadError e =>
      if decide (drain s ≠ None ∧ drain_err s = Some CbDrainError) then Some (RError e) else None
  | UdpDatagram _ _ => None
  end.
Definition arrival (w : W) (c : IoCompletion) : option replay_item :=
  match c with IoPayload sl d => s ← slot_of sl w; payload_of s d | IoCallback _ => None end.

(** The slot of a completion exists; and what its callback is, if it is a classic
    one. *)
Definition slot_name (c : IoCompletion) : slot_id :=
  match c with IoCallback sl | IoPayload sl _ => sl end.
Definition known (w : W) (c : IoCompletion) : Prop :=
  slot_name c < next_id (reactor (s_loop w)) ∧ is_Some (slot_of (slot_name c) w).
Definition calls_only (P : callback → Prop) (w : W) (c : IoCompletion) : Prop :=
  ∀ sl s f, c = IoCallback sl → slot_of sl w = Some s → cb s = Some f → P f.

Lemma known_later P (w w' : W) c :
  Rreactor (reactor (s_loop w)) (reactor (s_loop w')) → known w c →
  known w' c ∧ arrival w' c = arrival w c ∧ (calls_only P w c → calls_only P w' c).
Proof.
  intros Hr [Hn [s Hs]]. destruct (rr_slots _ _ Hr _ _ Hn Hs) as (s' & Hs' & Hd & He & Hc).
  split_and!.
  - split; [pose proof (rr_id _ _ Hr); lia|by exists s'].
  - destruct c as [sl|sl d]; [done|]. cbn in *. unfold slot_of in *. rewrite Hs, Hs'. cbn.
    unfold payload_of. by rewrite Hd, He.
  - intros Hp sl s2 f -> Hs2 Hf. cbn in *. unfold slot_of in *. simplify_eq.
    apply (Hp sl s f eq_refl Hs). destruct Hc; congruence.
Qed.

Section delivery.
Context `{!ReadLaws (E := E)} (Huser : ∀ n, moves Rio (user n)).

(** The state of reading: from [w] to [w'] the items [l] have come in. *)
Definition came (l : list replay_item) (w w' : W) : Prop :=
  is_dead (w_tr (view w')) = true ∨
  (alive (view w') ∧ settled (w_tr (view w')) ∧ received (view w') = received (view w) ++ l).
Definition reads (w : W) : Prop := settled (w_tr (view w)) ∧ alive (view w).

Lemma came_rio (w w' : W) : reads w → Rio (view w) (view w') → came [] w w'.
Proof.
  intros [Hs [Hd Hl]] [_ Hk]. destruct (is_dead (w_tr (view w'))) eqn:Hd'; [by left|right].
  destruct (Hk eq_refl Hl) as (? & -> & _ & Hset). rewrite app_nil_r. split_and!; auto. by split.
Qed.

(** Neither a read of the callback mode nor the teardown, which is scheduled for
    closed transports only. *)
Definition drain_mode (c : callback) : Prop :=
  c ≠ CbReadReady ∧ ∀ exc, c ≠ CbCallConnectionLost exc.

Lemma rio_tls_callback c : drain_mode c → moves Rio (run_tls_callback (E := E) c).
Proof.
  intros [Hr Hl]. destruct c; try done; cbn [run_tls_callback run_firing]; moves_auto.
  - apply rio_write_sendmsg.
  - apply rio_write_send.
  - by edestruct Hl.
Qed.
Lemma call_rio c : drain_mode c → moves (Rcall Rio) (call c).
Proof. intros Hc. apply call_moves; intros; [apply Huser|by apply rio_tls_callback]. Qed.
Lemma handler_rio e : moves (Rcall Rio) (handler e).
Proof. apply handler_moves, rio_call_exception_handler. Qed.
Lemma queue_rio q (v : V) : Rio v (lset (set_ready q (w_loop v)) v).
Proof. by apply Rio_view. Qed.

(** *** The completion queue *)

(** What a payload runs: an arrival of the transport's histories, or nothing. *)
Definition delivering (s : FdSlotState) (d : IoData) : M W unit :=
  match drain s with
  | Some c =>
      match d with
      | ReadError _ => match drain_err s with Some h => deliver h d | None => mret tt end
      | _ => deliver c d
      end
  | None => mret tt
  end.

Lemma delivering_spec s d :
  match payload_of s d with
  | Some i => ∃ h, delivering s d = inside h ∧ (∀ v, h v = run_step (Arrive i) v) ∧
                   arrivals [Arrive i] = [i]
  | None => delivering s d = mret tt ∨ ∃ x, delivering s d = raise x
  end.
Proof.
  unfold payload_of, delivering. destruct s as [cb [c|] err dd fl]; cbn [drain drain_err]; cycle 1.
  { destruct d; repeat case_decide; first [by left|done|by destruct H0]. }
  destruct d as [p a|p| |e]; [destruct c; eauto|..].
  - case_decide as Hc; [|destruct c; eauto; congruence]. injection Hc as ->. eexists. split; [done|].
    split; [|done]. by destruct p.
  - case_decide as Hc; [|destruct c; eauto; congruence]. injection Hc as ->. by eexists.
  - case_decide as Hc.
    + destruct Hc as [_ ->]. by eexists.
    + destruct err as [[]|]; cbn; eauto. by destruct Hc.
Qed.

(** One arrival, its error reported. *)
Lemma reported_arrival i h (w : W) :
  (∀ v, h v = run_step (Arrive i) v) → arrivals [Arrive i] = [i] →
  let w' := (reported handler (inside h) w).2 in
  Rreactor (reactor (s_loop w)) (reactor (s_loop w')) ∧ io w' = io w ∧
  (is_dead (w_tr (view w)) = true → is_dead (w_tr (view w')) = true) ∧
  (reads w → came [i] w w').
Proof.
  intros Hh Hi. cbv zeta.
  assert (moves (Rcall (λ _ _, True)) (inside h)) as Hm.
  { apply inside_moves; [done|]. intros v. rewrite Hh.
    destruct i as [[|b d] a|e].
    - by apply (calm_run_wstep Rinner (WFire FireTcpEof)); right.
    - by apply (calm_run_wstep Rinner (WFire (FireTcpChunk (b :: d)))); right.
    - by apply (calm_run_wstep Rinner (WFire (FireReadError e))); right. }
  destruct (Hm w) as [_ [Hr _] _ Hio _].
  assert (view (inside h w).2 = (run_step (Arrive i) (view w)).2) as Hv.
  { unfold inside. rewrite Hh. destruct (run_step _ _). apply view_put. }
  assert (∃ w1, w1 = (inside h w).2 ∧ Rcall Rio w1 (reported handler (inside h) w).2)
    as (w1 & -> & [Hv2 [Hr2 _] _ Hio2 _]).
  { unfold reported, try_except, try_else. destruct (inside h w) as [[[]|x] w1]; cbn [snd];
      exists w1; (split; [done|]); [done|apply handler_rio]. }
  split_and!; [by etrans|by rewrite Hio2| |].
  - intros Hd. apply (io_dead _ _ Hv2). rewrite Hv. by apply run_step_dead.
  - intros [Hs Ha]. destruct (run_step_spec (Arrive i) (view w) Hs Ha) as [Hd|(Ha1 & Hs1 & Hr1)].
    + left. apply (io_dead _ _ Hv2). by rewrite Hv.
    + rewrite <- Hv in Ha1, Hs1, Hr1. rewrite Hi in Hr1.
      destruct (came_rio (inside h w).2 (reported handler (inside h) w).2) as [?|(? & ? & Hrec)];
        [by split|done|by left|right].
      split_and!; [done..|]. by rewrite Hrec, Hr1, app_nil_r.
Qed.

(** One completion. *)
Lemma complete_came c (w : W) :
  known w c → calls_only drain_mode w c → 
  let w' := (complete call deliver handler c w).2 in
  Rreactor (reactor (s_loop w)) (reactor (s_loop w')) ∧ io w' = io w ∧
  (is_dead (w_tr (view w)) = true → is_dead (w_tr (view w')) = true) ∧
  (reads w → came (option_list (arrival w c)) w w').
Proof.
  intros [Hn [s Hs]] Hc. destruct c as [sl|sl d]; cbn [slot_name] in *; cbv zeta.
  - set (m := match cb s with Some c => reported handler (call c) | None => mret tt end).
    assert (complete call deliver handler (IoCallback sl) w = (m;; modify (Scheduler.release sl)) w) as ->
      by (unfold complete; rewrite run_bind, run_gets, Hs; done).
    assert (moves (Rcall Rio) m) as Hm.
    { unfold m. destruct (cb s) as [f|] eqn:Hf; [|moves_auto].
      apply (reported_moves Rio); [apply handler_rio|]. apply call_rio. by eapply Hc. }
    rewrite run_bind. destruct (Hm w) as [Hv [Hr _] _ Hio _].
    assert (reads w → came [] w (m w).2) as Hcame by (intros Hw; by apply came_rio).
    destruct (m w) as [[[]|x] w1]; cbn [snd] in *; rewrite ?run_modify; cbn [snd];
      (split_and!; [done..|apply (io_dead _ _ Hv)|done]).
  - assert (complete call deliver handler (IoPayload sl d) w = reported handler (delivering s d) w)
      as ->.
    { unfold complete, delivering. rewrite run_bind, run_gets, Hs. cbn [mbind option_bind].
      by destruct (drain s), d. }
    replace (arrival w (IoPayload sl d)) with (payload_of s d) by (cbn; by rewrite Hs).
    pose proof (delivering_spec s d) as Hd. destruct (payload_of s d) as [i|].
    + destruct Hd as (h & -> & Hh & Hi). by apply reported_arrival.
    + assert (moves (Rcall Rio) (reported handler (delivering s d))) as Hm
        by (apply (reported_moves Rio); [apply handler_rio|destruct Hd as [->|[x ->]]; moves_auto]).
      destruct (Hm w) as [Hv [Hr _] _ Hio _]. split_and!; [done..|apply (io_dead _ _ Hv)|].
      intros Hw. by apply came_rio.
Qed.

Lemma came_trans l1 l2 (w1 w2 w3 : W) :
  came l1 w1 w2 → (is_dead (w_tr (view w2)) = true → is_dead (w_tr (view w3)) = true) →
  (reads w2 → came l2 w2 w3) → came (l1 ++ l2) w1 w3.
Proof.
  intros [Hd|(Ha & Hs & Hr)] Hdead H2; [left; auto|].
  destruct H2 as [?|(? & ? & Hr')]; [by split|by left|right]. split_and!; [done..|].
  by rewrite Hr', Hr, app_assoc.
Qed.
Lemma came_from l (w0 w w' : W) : view w = view w0 → came l w w' → came l w0 w'.
Proof. unfold came. by intros ->. Qed.

Lemma arrivals_later P q (w w' : W) :
  Rreactor (reactor (s_loop w)) (reactor (s_loop w')) → Forall (known w) q →
  Forall (calls_only P w) q →
  Forall (known w') q ∧ Forall (calls_only P w') q ∧ omap (arrival w') q = omap (arrival w) q.
Proof.
  intros Hr Hk Hp. induction Hk as [|c q Hc Hk IH]; [done|]. apply Forall_cons in Hp as [Hpc Hp].
  destruct (known_later P w w' c Hr Hc) as (? & Ha & ?). destruct (IH Hp) as (? & ? & Hq).
  split_and!; [by constructor; auto..|]. cbn [omap list_omap]. by rewrite Ha, Hq.
Qed.

Lemma run_io_came fuel (w : W) :
  Forall (known w) (io w) → Forall (calls_only drain_mode w) (io w) →
  (run_io call deliver handler fuel w).1 = Ret true →
  let w' := (run_io call deliver handler fuel w).2 in
  io w' = [] ∧ Rreactor (reactor (s_loop w)) (reactor (s_loop w')) ∧
  (is_dead (w_tr (view w)) = true → is_dead (w_tr (view w')) = true) ∧
  (reads w → came (omap (arrival w) (io w)) w w').
Proof.
  revert w. induction fuel as [|fuel IH]; intros w Hk Hp; [done|]. cbv zeta. cbn [run_io].
  rewrite run_bind. unfold pop_io. destruct (io w) as [|c q] eqn:Hio.
  { cbv beta iota. rewrite run_ret. cbn [fst snd]. intros _. split_and!; [done..|].
    intros Hw. by apply came_rio. }
  cbv beta iota. rewrite run_bind. set (w1 := set_io q w).
  apply Forall_cons in Hk as [Hkc Hk]. apply Forall_cons in Hp as [Hpc Hp].
  destruct (complete_came c w1 Hkc Hpc) as (Hr & Hio2 & Hd & Hcame).
  destruct (complete call deliver handler c w1) as [[[]|x] w2]; cbn [fst snd] in *; [|done].
  destruct (arrivals_later drain_mode q w w2 Hr Hk Hp) as (Hk2 & Hp2 & Hq).
  assert (io w2 = q) as Hio2' by done. rewrite <- Hio2' in Hk2, Hp2. intros Hrun.
  destruct (IH w2 Hk2 Hp2 Hrun) as (Hend & Hr3 & Hd3 & Hcame3). cbv zeta in *.
  split_and!; [done|by etrans|auto|]. intros Hw.
  assert (omap (arrival w) (c :: q) = option_list (arrival w c) ++ omap (arrival w) q) as ->
    by (cbn [omap list_omap]; by destruct (arrival w c)).
  apply (came_trans _ _ w w2); [|done|].
  - apply (came_from _ w w1); [done|]. by apply Hcame.
  - rewrite <- Hq, <- Hio2'. done.
Qed.

(** A batch at whose start nothing of the callback mode is queued or due. *)
Record drain_only (w : W) : Prop := {
  do_ready : Forall (λ e, drain_mode (re_callback e)) (ready (s_loop w));
  do_timers : Forall (λ t, drain_mode (re_callback (entry t))) (timers w);
  do_io : Forall (calls_only drain_mode w) (io w);
}.

Lemma batch_came fuel (w : W) :
  Forall (known w) (io w) → drain_only w → (batch fuel w).1 = Ret true →
  let w' := (batch fuel w).2 in
  io w' = [] ∧ Rreactor (reactor (s_loop w)) (reactor (s_loop w')) ∧
  (is_dead (w_tr (view w)) = true → is_dead (w_tr (view w')) = true) ∧
  (reads w → came (omap (arrival w) (io w)) w w').
Proof.
  intros Hk [Hq Ht Hi]. cbv zeta. unfold run_batch. rewrite run_bind, run_gets. cbv beta iota.
  rewrite run_bind.
  destruct (run_ready_moves Rio drain_mode call_rio handler_rio queue_rio (ready (s_loop w)) [] w)
    as ([Hv1 Hr1] & Ht1 & Hi1); [by rewrite app_nil_r|done|].
  destruct (run_ready _ _ _ w) as [[[]|x] w1]; cbn [fst snd] in *; [|done].
  rewrite run_bind, run_gets. cbv beta iota. rewrite run_bind.
  destruct (run_timers_moves Rio drain_mode call_rio handler_rio fuel (clock (app w1)) w1)
    as ([Hv2 Hr2] & Hi2); [by rewrite Ht1|].
  destruct (run_timers _ _ _ _ w1) as [[[]|x] w2]; cbn [fst snd] in *; [|done..].
  assert (Rreactor (reactor (s_loop w)) (reactor (s_loop w2))) as Hr12 by by etrans.
  assert (Rio (view w) (view w2)) as Hv12 by by etrans.
  destruct (arrivals_later drain_mode (io w) w w2 Hr12 Hk Hi) as (Hk2 & Hp2 & Ha).
  assert (io w2 = io w) as Hio by congruence. rewrite <- Hio in Hk2, Hp2. intros Hrun.
  destruct (run_io_came fuel w2 Hk2 Hp2 Hrun) as (Hend & Hr3 & Hd3 & Hcame).
  split_and!; [done|by etrans|intros Hd; apply Hd3, (io_dead _ _ Hv12), Hd|]. intros Hw.
  rewrite <- Ha. apply (came_trans [] _ w w2); [by apply came_rio|done|]. by rewrite <- Hio.
Qed.
(** *** Histories of the loop *)

(** From a state to a later one, between and in batches that end: completions are
    pushed, other threads schedule callbacks, and the loop runs.  The list is what
    has come in for the transport. *)
Inductive turns : W → list replay_item → W → Prop :=
  | turns_end w : turns w [] w
  | turns_push c w l w' :
      known w c → turns (push c w) l w' → turns w (option_list (arrival w c) ++ l) w'
  | turns_post c w l w' : turns (on_loop (call_soon c) w).2 l w' → turns w l w'
  | turns_batch fuel w l w' :
      drain_only w → (batch fuel w).1 = Ret true → turns (batch fuel w).2 l w' → turns w l w'.

Lemma post_frame c (w : W) :
  let w' := (on_loop (call_soon c) w).2 in
  Rio (view w) (view w') ∧ Rreactor (reactor (s_loop w)) (reactor (s_loop w')) ∧ io w' = io w.
Proof.
  cbv zeta. pose proof (loop_call_soon_moves c (s_loop w)) as [Hr _]. unfold on_loop, zoom.
  change (lget w) with (s_loop w). destruct (call_soon c (s_loop w)) as [r s].
  split_and!; [by apply Rio_view|done|done].
Qed.

Lemma turns_came (w w' : W) l :
  turns w l w' → Forall (known w) (io w) →
  (is_dead (w_tr (view w)) = true → is_dead (w_tr (view w')) = true) ∧
  (reads w → is_dead (w_tr (view w')) = false →
   reads w' ∧ received (view w') ++ omap (arrival w') (io w') =
     received (view w) ++ omap (arrival w) (io w) ++ l).
Proof.
  induction 1 as [w|c w l w' Hc _ IH|c w l w' _ IH|fuel w l w' Hdo Hrun _ IH]; intros Hk.
  - split; [done|]. intros Hw _. by rewrite app_nil_r.
  - assert (Forall (known (push c w)) (io (push c w))) as Hk'
      by (apply Forall_app; split; [exact Hk|by constructor]).
    destruct (IH Hk') as [Hd Hr]. split; [exact Hd|]. intros Hw Hd'.
    destruct (Hr Hw Hd') as [? ->]. split; [done|].
    change (received (view (push c w))) with (received (view w)). f_equal.
    change (arrival (push c w)) with (arrival w). cbn [io push set_io].
    rewrite omap_app, <- app_assoc. cbn [omap list_omap]. by destruct (arrival w c).
  - destruct (post_frame c w) as (Hv & Hr & Hio).
    assert (Forall (calls_only (λ _, True) w) (io w)) as Ht by (by apply Forall_forall).
    destruct (arrivals_later (λ _, True) (io w) w _ Hr Hk Ht) as (Hk' & _ & Ha).
    rewrite <- Hio in Hk'. destruct (IH Hk') as [Hd Hrec].
    split; [intros Hdead; apply Hd, (io_dead _ _ Hv), Hdead|]. intros Hw Hd'.
    destruct (came_rio w _ Hw Hv) as [Hdead|(Ha2 & Hs2 & Hrec2)].
    { rewrite (Hd Hdead) in Hd'. done. }
    destruct (Hrec (conj Hs2 Ha2) Hd') as [? ->]. split; [done|].
    by rewrite Hrec2, app_nil_r, Hio, Ha.
  - destruct (batch_came fuel w Hk Hdo Hrun) as (Hend & Hr & Hdead & Hcame). cbv zeta in *.
    destruct IH as [Hd Hrec]; [by rewrite Hend|]. split; [auto|]. intros Hw Hd'.
    destruct (Hcame Hw) as [Hx|(Ha2 & Hs2 & Hrec2)]; [rewrite (Hd Hx) in Hd'; done|].
    destruct (Hrec (conj Hs2 Ha2) Hd') as [? ->]. split; [done|].
    rewrite Hend, Hrec2, <- app_assoc. done.
Qed.

End delivery.
End composed.

(** ** An instance *)

Definition pause_on_a (ev : event) : reaction :=
  match ev with
  | EvDataReceived _ [b] =>
      if decide (b = x61) then MkReaction [ApiPauseReading] (Some false) else no_reaction
  | _ => no_reaction
  end.
#[local] Instance loop_kernel : Kernel script_env := script_kernel true.
#[local] Instance loop_protocol : Protocol (world script_env bytes stream) :=
  scripted loop_kernel pause_on_a 2.
Definition resumes (n : nat) : M (world script_env bytes stream) unit := resume_reading.

#[local] Instance resumes_inner : InnerLaws resumes.
Proof.
  assert (Obeys (Rinner (E := script_env))) as Ho.
  { apply scripted_obeys; [apply _|]. intros P ev a HP _. apply (calm_run_api Rinner). left.
    apply inner_rebinds. }
  assert (Calm (Rinner (E := script_env))) by apply inner_calm.
  split; [done|]. intros n. unfold resumes. refine (calm_resume_reading Rinner).
Qed.

(** A registered reader on slot 1. *)
Definition loop_start : sched (outside script_env) :=
  let v := (_register_reader (start_world [])).2 in
  MkSched (w_loop v) [] 0 [] true false [] [] false
    (MkOutside (w_tr v) (w_env v) (w_trace v) (w_transports v) (Fin 0)).
Abbreviation turn w := (run_batch (call resumes) deliver handler clock 5 w).2.
Definition chunk (b : byte) : IoCompletion := IoPayload 1 (TcpChunk [b]).
Definition turn1 : sched (outside script_env) :=
  turn (push (IoPayload 1 (TcpChunk [x62])) (push (IoPayload 1 (TcpChunk [x61])) loop_start)).
Definition turn2 : sched (outside script_env) :=
  turn (push (chunk x63) (on_loop (call_soon (CbUser 0)) turn1).2).

Lemma turns_push_one c i l (w w' : sched (outside script_env)) :
  bool_decide (slot_name c < next_id (reactor (s_loop w))) = true →
  bool_decide (is_Some (slot_of (slot_name c) w)) = true → arrival w c = Some i →
  turns resumes (push c w) l w' → turns resumes w (i :: l) w'.
Proof.
  intros Hn Hs Ha Ht. change (i :: l) with (option_list (Some i) ++ l). rewrite <- Ha.
  apply turns_push; [|done]. split; by eapply bool_decide_eq_true_1.
Qed.
(** Payloads only, and nothing of the transport in the ready queue. *)
Lemma turns_batch_one l (w w' : sched (outside script_env)) :
  Forall (λ e, drain_mode (re_callback e)) (ready (s_loop w)) → timers w = [] →
  Forall (λ c, ∀ sl, c ≠ IoCallback sl) (io w) →
  (run_batch (call resumes) deliver handler clock 5 w).1 = Ret true →
  turns resumes (turn w) l w' → turns resumes w l w'.
Proof.
  intros Hr Ht Hi Hrun. apply turns_batch; [|done]. split; [done|by rewrite Ht|].
  eapply Forall_impl; [exact Hi|]. intros c Hc sl s f ->. by destruct (Hc sl).
Qed.

Ltac evaluated := vm_compute; repeat constructor; discriminate.
Lemma loop_turns :
  turns resumes loop_start [RData [x61] None; RData [x62] None; RData [x63] None] turn2.
Proof.
  apply (turns_push_one (chunk x61)); [vm_compute; reflexivity..|].
  apply (turns_push_one (chunk x62)); [vm_compute; reflexivity..|].
  apply turns_batch_one; [evaluated..|vm_compute; reflexivity|].
  apply (turns_post resumes (CbUser 0)).
  apply (turns_push_one (chunk x63)); [vm_compute; reflexivity..|].
  apply turns_batch_one; [evaluated..|vm_compute; reflexivity|]. apply turns_end.
Qed.

