(* ===== verification/Lifted.v ===== *)
(** * Properties of the stream transport, lifted to the running loop

    Composed.v runs the stream transport's callbacks in the scheduler.  Whatever
    preorder all methods of the transport move along, and which does not look at
    the loop's own state, the running loop moves along as well: through batches
    of callbacks, timers and completions in any mode of reading, and through what
    other threads and the watcher tasks do between them.  So flow control
    alternates and [connection_lost] is unique in the running loop, and a teardown
    once scheduled is carried out. *)

From Stdlib Require Import Strings.Byte.
From stdpp Require Import base tactics list gmap strings.
From S2P Require Import Prelude State Reactor Env Loop LoopFrame Scheduler SchedulerFrame SchedulerProps.
From S2P Require Import SelectorTransport Reads SocketTransport StreamWrites.
From S2P Require Import StreamFrame StreamProps StartTls Script Composed.

(** ** The loop between and in batches *)

(** What happens to a running loop: a watcher task hands in a completion, another
    thread schedules a callback, a timer is set, the loop is told to stop or
    closed, time passes, the loop runs a batch. *)
Inductive turn :=
  | Completion (c : IoCompletion)
  | Soon (c : callback)
  | At (deadline : f64) (c : callback)
  | After (delay : f64) (c : callback)
  | Stop
  | Close
  | Elapse (now : f64)
  | Batch (fuel : nat).

Section lifted.
Context {E : Type} `{!Kernel E} `{!Protocol (world E bytes stream)}.
Local Abbreviation V := (world E bytes stream).
Local Abbreviation W := (sched (outside E)).
Context (user : nat → M V unit) `{!InnerLaws user}.
Abbreviation batch fuel := (run_batch (call user) deliver handler clock fuel).

Definition set_clock (t : f64) (w : W) : W :=
  let o := app w in
  MkSched (s_loop w) (timers w) (next_seq w) (io w) (running w) (stop_requested w) (ran w)
    (released w) (permit w) (MkOutside (o_tr o) (o_env o) (o_trace o) (o_transports o) t).

Definition run_turn (t : turn) (w : W) : W :=
  match t with
  | Completion c => push c w
  | Soon c => (on_loop (call_soon c) w).2
  | At d c => (call_at d c w).2
  | After d c => (call_later clock d c w).2
  | Stop => (stop w).2
  | Close => (close_loop w).2
  | Elapse t => set_clock t w
  | Batch fuel => (batch fuel w).2
  end.
Definition run_turns (ts : list turn) (w : W) : W := foldl (λ w t, run_turn t w) w ts.

(** ** Lifting *)

(** [R] does not look at the loop, and the application moves along it. *)
Class Lifts (R : relation V) : Prop := {
  lifts_calm :: Calm R;
  lifts_blind (l : LoopState) (v : V) : R v (lset l v);
  lifts_user n : moves R (user n);
}.

Section along.
Context (R : relation V) `{!Lifts R}.
#[local] Instance lifts_preorder : PreOrder R := calm_preorder.

Lemma lift_blind (w w' : W) : app w' = app w → R (view w) (view w').
Proof.
  intros Ha. replace (view w') with (lset (s_loop w') (view w)) by (unfold view; by rewrite Ha).
  apply lifts_blind.
Qed.

(** The callables. *)
Lemma lift_call c : moves (Rcall R) (call user c).
Proof.
  apply call_moves; [done|intros n _; apply lifts_user|intros _; refine (tls_callback_calm R c)].
Qed.
Lemma lift_handler e : moves (Rcall R) (handler (E := E) e).
Proof. apply (handler_moves user), (calm_call_exception_handler R). Qed.
Lemma lift_deliver c d : moves (Rcall R) (deliver (E := E) c d).
Proof.
  apply (deliver_moves user); [apply _|]. intros f. by apply (calm_run_wstep R (WFire f)); right.
Qed.

(** A batch. *)
#[export] Instance lift_frame : BatchFrame (call user) deliver handler (Rbatch R).
Proof.
  assert (∀ A (m : M W A), moves (Rcall R) m → moves (Rbatch R) m) as Hcall
    by (intros A m Hm w; apply Rcall_batch, Hm).
  split; [apply _|intros c; apply Hcall, lift_call|intros c d; apply Hcall, lift_deliver
    |intros e; apply Hcall, lift_handler|].
  intros w w' Hq. split; [by apply lift_blind, queues_only_app|by rewrite (queues_only_reactor _ _ Hq)].
Qed.

(** ** Histories *)

(** What is scheduled from outside a batch leaves the transport alone. *)
Lemma turn_outside t (w : W) :
  match t with Elapse _ | Batch _ => True | _ => app (run_turn t w) = app w end.
Proof.
  set (same := λ w w' : W, app w' = app w).
  assert (PreOrder same) by (split; [done|intros w1 w2 w3; unfold same; congruence]).
  assert (∀ A (m : M LoopState A), moves same (on_loop m)) as Hloop
    by (intros; by apply moves_zoom).
  assert (∀ d c, moves same (call_at d c)) as Hat
    by (intros; unfold call_at; moves_auto; solve [apply Hloop|done]).
  assert (moves same close_loop) as Hclose
    by (unfold close_loop, loop_get; moves_auto; done).
  destruct t; try done; [by apply Hloop|by apply Hat| |by apply Hclose].
  apply (moves_bind same); [|intros now]; moves_auto.
Qed.

(** The transport moves along [R] throughout any history. *)
Lemma lift_turns ts (w : W) : R (view w) (view (run_turns ts w)).
Proof.
  revert w. induction ts as [|t ts IH]; intros w; [done|].
  etrans; [|apply IH]. pose proof (turn_outside t w) as Ha.
  destruct t; try by apply lift_blind.
  - apply (reflexivity (R := R)).
  - apply (run_batch_frame _ _ _ _ (Rbatch R)).
Qed.
End along.
(** ** Flow control in the running loop *)

Lemma flow_lifts `{!Obeys (Rflow (E := E))} :
  (∀ n, moves Rflow (user n)) → Lifts Rflow.
Proof. intros Hu. split; [apply _| |done]. intros l v. by apply Rflow_view. Qed.

(** [pause_writing] and [resume_writing] alternate throughout. *)
Lemma loop_flow_alternates `{!Obeys (Rflow (E := E))} ts (w : W) :
  (∀ n, moves Rflow (user n)) → flow_ok (view w) → bound (o_tr (app w)) →
  torn (o_tr (app (run_turns ts w))) = false → flow_ok (view (run_turns ts w)).
Proof.
  intros Hu Hok Hb Ht. pose proof (flow_lifts Hu).
  by apply (fl_keep _ _ (lift_turns Rflow ts w)).
Qed.

(** ** Teardown in the running loop *)

Section teardown.
Context `{!LostLaws (E := E)}.

(** Before, and after: the protocol told once and let go, the socket closed. *)
Definition connected (v : V) : Prop :=
  lost_count v = 0 ∧ _sock (w_tr v) = true ∧ _protocol_connected (w_tr v) = true ∧
  is_Some (_protocol (w_tr v)).
Definition ended (v : V) : Prop :=
  lost_count v = 1 ∧ _sock (w_tr v) = false ∧ _protocol (w_tr v) = None.

Record Rends (v v' : V) : Prop := {
  ends_open : connected v → connected v' ∨ ended v';
  ends_gone : ended v → ended v';
}.
#[export] Instance Rends_preorder : PreOrder Rends.
Proof.
  split; [intros v; split; auto|]. intros v1 v2 v3 [o1 g1] [o2 g2].
  split; [|auto]. intros Hc. destruct (o1 Hc); auto.
Qed.
Lemma Rends_view (v v' : V) :
  lost_count v' = lost_count v →
  (_sock (w_tr v'), _protocol (w_tr v'), _protocol_connected (w_tr v')) =
  (_sock (w_tr v), _protocol (w_tr v), _protocol_connected (w_tr v)) → Rends v v'.
Proof.
  intros H1 [= H2 H3 H4]. split; unfold connected, ended; rewrite H1, H2, H3, ?H4; auto.
Qed.

(** The base class's teardown ends a connection, and changes nothing after. *)
Lemma base_teardown_ends exc (v : V) :
  connected v → ended (SelectorTransport._call_connection_lost (E := E) exc v).2.
Proof.
  intros (Hc & Hs & Hconn & [p Hp]).
  unfold SelectorTransport._call_connection_lost, try_finally.
  rewrite run_bind, run_self, Hconn. cbn [when_]. rewrite (run_protocol_call _ _ p) by done.
  set (v1 := add_event _ v). pose proof (ll_count p exc v1) as Hcount.
  pose proof (ll_sock p exc v1) as Hsock.
  destruct (p_connection_lost p exc v1) as [r v2]. cbn [snd] in *.
  destruct (release_open v2) as (R1 & R2 & R3 & _ & _ & _ & R7); [by rewrite Hsock|].
  change ((sock_call sys_close;; _) v2) with (release v2).
  destruct (release v2) as [r1 v3]. cbn [fst snd] in *. subst r1. cbn [snd].
  split_and!; [|done..]. unfold lost_count. rewrite R7, omap_app, length_app.
  change (lost_count v2 + length (omap lost_event
    (EvSockClose :: option_list (EvDetach <$> _server (w_tr v2)))) = 1).
  rewrite Hcount. unfold lost_count in *. simpl. rewrite omap_app, length_app, Hc.
  by destruct (_server (w_tr v2)).
Qed.
Lemma base_teardown_again exc (v : V) :
  ended v → (SelectorTransport._call_connection_lost (E := E) exc v).2 = v.
Proof.
  intros (_ & Hs & Hp). unfold SelectorTransport._call_connection_lost, try_finally.
  rewrite run_bind, run_self.
  assert (∀ (k : M V unit), (sock_call sys_close;; k) v = (Raise (AttributeError), v)) as Hrel.
  { intros k. unfold sock_call. rewrite run_bind, run_bind, run_self, Hs. done. }
  destruct (_protocol_connected (w_tr v)); cbn [when_].
  - unfold protocol_call. rewrite run_bind, run_self, Hp, run_raise, Hrel. done.
  - by rewrite run_ret, Hrel.
Qed.

Context `{!Obeys Rends}.
#[export] Instance ends_calm : Calm Rends.
Proof.
  assert (∀ A (m : M LoopState A), moves Rends (on_loop m)) as Hloop
    by (intros; apply moves_zoom; intros v; by apply Rends_view).
  assert (∀ A (m : M E A), moves Rends (kernel m)) as Hkernel
    by (intros; apply moves_zoom; intros v; by apply Rends_view).
  assert (∀ ev, lost_event ev = None → moves Rends (log ev)) as Hlog.
  { intros ev Hev v. apply Rends_view; [by apply lost_count_log|done]. }
  assert (∀ f, (∀ t : transport bytes stream,
    (_sock (f t), _protocol (f t), _protocol_connected (f t)) =
    (_sock t, _protocol t, _protocol_connected t)) → moves Rends (put f)) as Hput.
  { intros f Hf v. apply Rends_view; [done|apply Hf]. }
  split; try typeclasses eauto; auto.
  - intros f Hf. apply Hput. intros t. injection (Hf t) as H1 H2 H3 H4 H5 H6. congruence.
  - intros ev Hev. apply Hlog. by destruct ev.
  - by apply Hput.
  - unfold _maybe_pause_protocol, protocol_call, call_exception_handler, loop_call.
    moves_auto; auto.
  - unfold _maybe_resume_protocol, protocol_call, call_exception_handler, loop_call.
    moves_auto; auto.
  - intros exc v. split; [right; by apply base_teardown_ends|].
    intros He. by rewrite base_teardown_again.
Qed.

Lemma ends_lifts : (∀ n, moves Rends (user n)) → Lifts Rends.
Proof. intros Hu. split; [apply _| |done]. intros l v. by apply Rends_view. Qed.

(** The callback the loop runs. *)
Lemma teardown_callback exc (v : V) :
  connected v ∨ ended v → ended (run_tls_callback (CbCallConnectionLost exc) v).2.
Proof.
  intros Hv. change (ended (SocketTransport._call_connection_lost exc v).2).
  assert (ended (SelectorTransport._call_connection_lost (E := E) exc v).2) as He.
  { destruct Hv as [Hc|He]; [by apply base_teardown_ends|by rewrite base_teardown_again]. }
  unfold SocketTransport._call_connection_lost, try_finally.
  destruct (SelectorTransport._call_connection_lost exc v) as [r v1]. cbn [snd] in He.
  set (f := put_ext _;; _).
  assert (moves Rends f) as Hf.
  { unfold f. apply moves_bind; [apply _|apply (calm_put_ext Rends)|intros _].
    apply (calm_set_waiter_exception Rends). }
  specialize (Hf v1). apply (ends_gone _ _ Hf) in He. by destruct (f v1) as [[]].
Qed.

Context (Huser : ∀ n, moves Rends (user n)).
#[local] Instance lifts_ends : Lifts Rends := ends_lifts Huser.

(** What running the scheduled teardown leaves. *)
Lemma teardown_reported exc (w : W) :
  connected (view w) ∨ ended (view w) →
  ended (view (reported handler (call user (CbCallConnectionLost exc)) w).2).
Proof.
  intros Hv. pose proof (teardown_callback exc (view w) Hv) as Hgone.
  unfold reported, try_except, try_else, call, inside.
  destruct (run_tls_callback _ _) as [[[]|x] v]; cbn [snd] in *.
  - rewrite run_ret. cbn [snd]. by rewrite view_put.
  - pose proof (rc_view _ _ _ (lift_handler Rends x (put_view v w))) as Hh.
    unfold swallow. cbn [snd]. apply (ends_gone _ _ Hh). by rewrite view_put.
Qed.

(** C5: A scheduled teardown is carried out by the running loop.  When a stream
    transport is connected and its [_call_connection_lost] is among the callbacks
    scheduled, the next batch of the loop ends the connection, whatever the other
    callbacks, timers and completions of the batch do or raise, unless the handle
    of that callback is cancelled: the protocol has been told exactly once, the
    socket is closed and the protocol let go.  And this is for good: however the
    loop goes on, with completions still coming in, further callbacks, timers and
    other teardowns of the same transport, it is not told again. *)
Theorem scheduled_teardown_ends exc e fuel ts (w : W) :
  connected (view w) → e ∈ ready (s_loop w) → re_callback e = CbCallConnectionLost exc →
  allocated w e → is_cancelled e (batch fuel w).2 = false →
  let v := view (run_turns ts (run_turn (Batch fuel) w)) in
  lost_count v = 1 ∧ _sock (w_tr v) = false ∧ _protocol (w_tr v) = None.
Proof.
  intros Hv Hin He Ha Hc. cbv zeta. apply (ends_gone _ _ (lift_turns Rends ts _)). cbn [run_turn].
  destruct (batch_runs_entry (call user) deliver handler clock (λ _, True) (Rbatch Rends) e fuel w
    Hin Ha Hc) as (u & [Hu _] & [Hend _]).
  apply (ends_gone _ _ Hend). rewrite He. apply teardown_reported.
  change (view (add_ran e u)) with (view u). apply (ends_open _ _ Hu), Hv.
Qed.
End teardown.

End lifted.

(** ** An instance *)

(** Scripted protocols keep the laws, if their [connection_lost] only looks on
    and they do not replace themselves. *)
Lemma scripted_ends_obeys script n :
  (∀ p e, r_calls (script (EvConnectionLost p e)) = []) →
  (∀ ev a, a ∈ r_calls (script ev) → sets_protocol (WCall a) = false) →
  @Obeys demo_world (scripted (script_kernel true) script n) Rends.
Proof.
  intros Hlost Hset. induction n as [|n IH].
  { apply silent_obeys, _. }
  apply scripted_step; [apply _|]. intros ev a Ha.
  pose proof (scripted_lost_laws script n Hlost Hset) as Hlaws.
  refine (@calm_run_api _ _ _ _ (@ends_calm _ _ _ Hlaws IH) a _). right. by eapply Hset.
Qed.

(** [abort] on the registered reader of [loop_start], with a chunk of data already
    on its way. *)
#[local] Existing Instances loop_kernel loop_protocol resumes_inner.
Definition aborted : sched (outside script_env) :=
  push (chunk x61) (inside abort loop_start).2.
Definition teardown_entry : ReadyEntry := MkReady (CbCallConnectionLost None) 2.
(** A second teardown afterwards. *)
Definition later_turns : list turn := [Soon (CbCallConnectionLost None); Batch 5; Close].

Lemma pause_on_a_calls ev a :
  a ∈ r_calls (pause_on_a ev) → sets_protocol (WCall a) = false.
Proof.
  unfold pause_on_a. destruct ev; try case_match; try case_match; try case_decide; simpl; intros Ha;
    repeat apply elem_of_cons in Ha as [->|Ha]; try done; by apply elem_of_nil in Ha.
Qed.
Lemma pause_on_a_lost : LostLaws (E := script_env).
Proof. apply scripted_lost_laws; [done|apply pause_on_a_calls]. Qed.
Lemma pause_on_a_ends : Obeys (Rends (E := script_env)).
Proof. apply scripted_ends_obeys; [done|apply pause_on_a_calls]. Qed.

(** The connection is lost in the next batch, the chunk that was on its way comes
    too late for the protocol, and the second teardown does nothing. *)
Lemma scheduled_teardown_ends_witness :
  let v := view (run_turns resumes later_turns (run_turn resumes (Batch 5) aborted)) in
  lost_count v = 1 ∧ _sock (w_tr v) = false ∧ _protocol (w_tr v) = None.
Proof.
  pose proof pause_on_a_lost. pose proof pause_on_a_ends.
  apply (scheduled_teardown_ends resumes (λ n, calm_resume_reading Rends) None teardown_entry).
  - split_and!; [vm_compute; reflexivity..|eexists; vm_compute; reflexivity].
  - vm_compute. by left.
  - reflexivity.
  - vm_compute. repeat constructor.
  - vm_compute. reflexivity.
Defined.
