(* ===== verification/Drain.v ===== *)
(** * Drain tasks (src/src/fd_unix.rs, lines 282-620)

    The watcher task of a stream read in drain mode: quanta of non-blocking reads,
    whose payloads go to the completion queue, with a yield between them; with
    what the queue is given, and what happens at the end of a stream while
    reading is paused. *)

From Stdlib Require Import Strings.Byte.
From stdpp Require Import base tactics list gmap strings.
From S2P Require Import Prelude State Reactor Env Loop Scheduler.
From S2P Require Import SelectorTransport Reads SocketTransport StreamReads StreamWrites Script.

Definition TCP_QUANTUM_ITEMS : nat := 4.
Definition TCP_QUANTUM_BYTES : Z := 256 * 1024.

(** ** State *)

(** The kernel's side; what the task has put on the completion queue for its
    slot; the notifications; and [slot.dead]. *)
Record drain_state (E : Type) := MkDrain {
  d_env : E;
  d_pushed : list IoData;
  d_notified : nat;
  d_dead : bool;
}.
Arguments MkDrain {E}.
Arguments d_env {E}.
Arguments d_pushed {E}.
Arguments d_notified {E}.
Arguments d_dead {E}.

Section drain.
Context {E : Type}.
Local Abbreviation D := (drain_state E).

(** [recv(2)] without blocking, into a buffer of [chunk] bytes; what the others do
    while the task yields. *)
Context (recv : nat → M E bytes) (chunk : nat) (yield_now : D → D).

Definition push_data (d : IoData) : M D unit :=
  modify (λ w, MkDrain (d_env w) (d_pushed w ++ [d]) (d_notified w) (d_dead w)).
Definition notify_one : M D unit :=
  modify (λ w, MkDrain (d_env w) (d_pushed w) (S (d_notified w)) (d_dead w)).

(** [tcp_recv]: interrupted calls are repeated, [tries] times at most. *)
Definition recv_once : M D bytes := λ w,
  let '(r, e) := recv chunk (d_env w) in
  (r, MkDrain e (d_pushed w) (d_notified w) (d_dead w)).
Fixpoint tcp_recv (tries : nat) : M D bytes :=
  match tries with
  | 0 => raise (OSError EINTR)
  | S tries =>
      try_except recv_once (λ e, if is_InterruptedError e then tcp_recv tries else raise e)
  end.

Definition is_wouldblock (e : exn) : bool := bool_decide (errno_of e = Some EAGAIN).

(** One quantum: how it ended, and whether something was pushed. *)
Inductive quantum_end := Full | Drained | Eof.
Fixpoint tcp_quantum (tries n count : nat) (pushed : bool) : M D (quantum_end * bool) :=
  match n with
  | 0 => mret (Full, pushed)
  | S n =>
      if decide (TCP_QUANTUM_BYTES ≤ Z.of_nat count)%Z then mret (Full, pushed) else
      r ← outcome (tcp_recv tries);
      match r with
      | Ret [] => push_data TcpEof;; mret (Eof, true)
      | Ret payload =>
          push_data (TcpChunk payload);; tcp_quantum tries n (count + length payload) true
      | Raise e =>
          if is_wouldblock e then mret (Drained, pushed)
          else push_data (ReadError e);; mret (Drained, true)
      end
  end.

(** [drain_loop], [rounds] quanta at most: [true] when it has returned. *)
Fixpoint drain_loop (tries rounds : nat) : M D bool :=
  match rounds with
  | 0 => mret false
  | S rounds =>
      q ← tcp_quantum tries TCP_QUANTUM_ITEMS 0 false;
      when_ q.2 notify_one;;
      match q.1 with
      | Drained => mret true
      | Full | Eof =>
          modify yield_now;;
          dead ← gets d_dead;
          if (dead : bool) then mret true else drain_loop tries rounds
      end
  end.

(** ** What the kernel gives *)

(** How a stretch of reading ends, and the payload that says so. *)
Inductive reading_end := AtEof | WouldBlock (e : exn) | Failing (e : exn).
Definition end_data (t : reading_end) : list IoData :=
  match t with AtEof => [TcpEof] | WouldBlock _ => [] | Failing e => [ReadError e] end.

(** One reading from [e], interrupted fewer than [tries] times. *)
Inductive answers : nat → E → res bytes → E → Prop :=
  | answers_now n e r e' :
      recv chunk e = (r, e') → (∀ x, r = Raise x → is_InterruptedError x = false) →
      answers (S n) e r e'
  | answers_again n e x e1 r e' :
      recv chunk e = (Raise x, e1) → is_InterruptedError x = true → answers n e1 r e' →
      answers (S n) e r e'.

(** From [e]: the chunks [cs], then the end. *)
Inductive gives (tries : nat) : E → list bytes → reading_end → E → Prop :=
  | gives_eof e e' : answers tries e (Ret []) e' → gives tries e [] AtEof e'
  | gives_block e x e' :
      answers tries e (Raise x) e' → is_wouldblock x = true → gives tries e [] (WouldBlock x) e'
  | gives_error e x e' :
      answers tries e (Raise x) e' → is_wouldblock x = false → gives tries e [] (Failing x) e'
  | gives_chunk e e' c cs t e'' :
      answers tries e (Ret c) e' → c ≠ [] → gives tries e' cs t e'' → gives tries e (c :: cs) t e''.

Definition at_env (e : E) (w : D) : D := MkDrain e (d_pushed w) (d_notified w) (d_dead w).

Lemma tcp_recv_answers n e r e' (w : D) :
  answers n e r e' → d_env w = e → tcp_recv n w = (r, at_env e' w).
Proof.
  intros Ha. revert w. induction Ha as [n e r e' Hr Hx|n e x e1 r e' Hr Hx _ IH]; intros w <-;
    cbn [tcp_recv]; unfold try_except, try_else, recv_once; rewrite Hr.
  - destruct r as [a|x]; [done|]. by rewrite Hx.
  - cbv beta iota. rewrite Hx. by apply (IH (at_env e1 w)).
Qed.

(** ** One quantum *)

Definition pushes (l : list IoData) (e : E) (w : D) : D :=
  MkDrain e (d_pushed w ++ l) (d_notified w) (d_dead w).
Definition end_of (t : reading_end) : quantum_end := match t with AtEof => Eof | _ => Drained end.

(** Full, with some of the chunks pushed and the others still in the kernel; or the
    end, with everything pushed. *)
Inductive quantum_result (tries n count : nat) (w : D) (cs : list bytes) (t : reading_end)
    (e'' : E) : quantum_end → D → Prop :=
  | quantum_full k e' :
      k ≤ n → k ≤ length cs → gives tries e' (drop k cs) t e'' →
      (0 < n → (Z.of_nat count < TCP_QUANTUM_BYTES)%Z → 0 < k) →
      quantum_result tries n count w cs t e'' Full (pushes (TcpChunk <$> take k cs) e' w)
  | quantum_end_ :
      length cs < n →
      quantum_result tries n count w cs t e'' (end_of t)
        (pushes ((TcpChunk <$> cs) ++ end_data t) e'' w).

Lemma pushes_nil (w : D) : pushes [] (d_env w) w = w.
Proof. destruct w. unfold pushes. cbn. by rewrite app_nil_r. Qed.
Lemma pushes_pushes l1 l2 e1 e2 (w : D) : pushes l2 e2 (pushes l1 e1 w) = pushes (l1 ++ l2) e2 w.
Proof. unfold pushes. cbn. by rewrite app_assoc. Qed.

Lemma tcp_quantum_spec tries n count p (w : D) cs t e'' :
  gives tries (d_env w) cs t e'' →
  ∃ q p' w', tcp_quantum tries n count p w = (Ret (q, p'), w') ∧
    quantum_result tries n count w cs t e'' q w'.
Proof.
  revert count p w cs. induction n as [|n IH]; intros count p w cs Hg.
  { exists Full, p, w. split; [done|]. rewrite <- (pushes_nil w) at 2. apply (quantum_full _ _ _ _ _ _ _ 0); [lia|lia|by rewrite drop_0|lia]. }
  cbn [tcp_quantum]. case_decide as Hb.
  { exists Full, p, w. split; [done|]. rewrite <- (pushes_nil w) at 2.
    apply (quantum_full _ _ _ _ _ _ _ 0); [lia|lia|by rewrite drop_0|lia]. }
  rewrite run_bind, run_outcome.
  inversion Hg as [e e' Ha|e x e' Ha Hx|e x e' Ha Hx|e e' c cs' t' e2 Ha Hc Hg']; subst;
    rewrite (tcp_recv_answers _ _ _ _ w Ha eq_refl); cbn [fst snd].
  - eexists Eof, true, _. split; [done|]. by apply (quantum_end_ tries (S n) count w [] AtEof); cbn; lia.
  - rewrite Hx. eexists Drained, p, _. split; [done|].
    pose proof (quantum_end_ tries (S n) count w [] (WouldBlock x) e'') as Hq. cbn in Hq.
    unfold pushes in Hq. rewrite app_nil_r in Hq. apply Hq. lia.
  - rewrite Hx. eexists Drained, true, _. split; [done|].
    by apply (quantum_end_ tries (S n) count w [] (Failing x)); cbn; lia.
  - destruct c as [|b c]; [done|]. set (w1 := pushes [TcpChunk (b :: c)] e' w).
    destruct (IH (count + length (b :: c)) true w1 cs' Hg') as (q & p' & w' & Hrun & Hres).
    exists q, p', w'. split; [exact Hrun|].
    destruct Hres as [k e1 Hk Hl Hg1 Hpos|Hlen]; unfold w1; rewrite pushes_pushes.
    + apply (quantum_full tries (S n) count w ((b :: c) :: cs') t e'' (S k) e1); cbn; [lia|lia|done|lia].
    + apply (quantum_end_ tries (S n) count w ((b :: c) :: cs') t e''). cbn. lia.
Qed.
(** ** The loop *)

(** While the task yields, others take from the queue and may remove the watcher,
    but nobody else reads the descriptor. *)
Class YieldLaws : Prop := {
  yl_env w : d_env (yield_now w) = d_env w;
  yl_pushed w : d_pushed (yield_now w) = d_pushed w;
}.
Context `{!YieldLaws}.

(** What a quantum does to the loop around it. *)
Definition notified (p : bool) (w : D) : D :=
  if p then MkDrain (d_env w) (d_pushed w) (S (d_notified w)) (d_dead w) else w.
Lemma drain_loop_S tries rounds q p (w w1 : D) :
  tcp_quantum tries TCP_QUANTUM_ITEMS 0 false w = (Ret (q, p), w1) →
  drain_loop tries (S rounds) w =
    match q with
    | Drained => (Ret true, notified p w1)
    | _ => let w2 := yield_now (notified p w1) in
           if d_dead w2 then (Ret true, w2) else drain_loop tries rounds w2
    end.
Proof.
  intros Hq. cbn [drain_loop]. rewrite run_bind, Hq. cbv beta iota. rewrite run_bind.
  replace (when_ (q, p).2 notify_one w1) with (@Ret unit tt, notified p w1) by by destruct p.
  cbv beta iota. cbn [fst]. destruct q; [|done|];
    (rewrite run_bind, run_modify; cbv beta iota zeta; rewrite run_bind, run_gets;
     by destruct (d_dead (yield_now _))).
Qed.
Lemma notified_same p (w : D) :
  d_env (notified p w) = d_env w ∧ d_pushed (notified p w) = d_pushed w.
Proof. by destruct p. Qed.

(** Nothing pushed is taken back. *)
Definition Rpush (w w' : D) : Prop := d_pushed w `prefix_of` d_pushed w'.
Lemma push_same (w w' : D) : d_pushed w' = d_pushed w → Rpush w w'.
Proof. intros Hw. exists []. by rewrite Hw, app_nil_r. Qed.
#[local] Instance Rpush_preorder : PreOrder Rpush.
Proof.
  split; [intros w; by apply push_same|]. intros w1 w2 w3 Hw1 Hw2. unfold Rpush in *. by etrans.
Qed.
Lemma push_tcp_recv tries : moves Rpush (tcp_recv tries).
Proof.
  assert (moves Rpush recv_once) as Hr.
  { intros w. unfold recv_once. destruct (recv chunk (d_env w)). by apply push_same. }
  induction tries; cbn [tcp_recv]; moves_auto.
Qed.
Lemma push_quantum tries n count p : moves Rpush (tcp_quantum tries n count p).
Proof.
  assert (∀ d, moves Rpush (push_data d)) by (intros d w; by eexists).
  assert (moves Rpush (outcome (tcp_recv tries))) by (intros w; apply push_tcp_recv).
  revert count p. induction n; intros count p; cbn [tcp_quantum]; moves_auto.
Qed.
Lemma push_drain_loop tries rounds : moves Rpush (drain_loop tries rounds).
Proof.
  assert (moves Rpush notify_one) by (intros w; by apply push_same).
  assert (moves Rpush (modify yield_now)) by (intros w; apply push_same, yl_pushed).
  pose proof push_quantum. induction rounds; cbn [drain_loop]; moves_auto.
Qed.

(** A drain task hands on what it reads.  Whatever the kernel gives, in
    however many chunks, interruptions included, and wherever the task is stopped:
    the payloads pushed are the chunks read, in order, and nothing read is left
    out or pushed twice; what has not been read is still in the kernel.  The end
    comes last: the end of the stream or an error as an item of its own, an empty
    kernel as none.  The loop stops before it only when its watcher is removed,
    and as many quanta as chunks, and one more, always reach it. *)
Theorem drain_pushes_stream tries rounds (w : D) cs t e'' :
  gives tries (d_env w) cs t e'' →
  let out := drain_loop tries rounds w in
  (∃ k, d_pushed out.2 = d_pushed w ++ (TcpChunk <$> take k cs) ∧
        gives tries (d_env out.2) (drop k cs) t e'' ∧
        (out.1 = Ret true ∧ d_dead out.2 = true ∨ out.1 = Ret false ∧ rounds ≤ length cs)) ∨
  (d_pushed w ++ (TcpChunk <$> cs) ++ end_data t `prefix_of` d_pushed out.2 ∧
   (t ≠ AtEof → out.1 = Ret true ∧ d_env out.2 = e'' ∧
      d_pushed out.2 = d_pushed w ++ (TcpChunk <$> cs) ++ end_data t)).
Proof.
  revert w cs. induction rounds as [|rounds IH]; intros w cs Hg.
  { left. exists 0. cbn. rewrite app_nil_r, drop_0. split_and!; [done..|right; split; [done|lia]]. }
  destruct (tcp_quantum_spec tries TCP_QUANTUM_ITEMS 0 false w cs t e'' Hg)
    as (q & p & w1 & Hq & Hres). cbv zeta. rewrite (drain_loop_S _ _ _ _ _ _ Hq).
  destruct (notified_same p w1) as [He Hp]. set (w2 := yield_now (notified p w1)).
  assert (d_env w2 = d_env w1) as He2 by (unfold w2; by rewrite yl_env).
  assert (d_pushed w2 = d_pushed w1) as Hp2 by (unfold w2; by rewrite yl_pushed).
  destruct Hres as [k e' Hk Hl Hg1 Hpos|Hlen].
  - cbn in He2, Hp2. cbv zeta. destruct (d_dead w2) eqn:Hd.
    { left. exists k. cbn [fst snd]. rewrite He2, Hp2. split_and!; [done..|by left]. }
    assert (0 < k) as Hk0 by (apply Hpos; [unfold TCP_QUANTUM_ITEMS; lia|done]).
    rewrite <- He2 in Hg1. destruct (IH w2 (drop k cs) Hg1) as [(j & Hj & Hgj & Hr)|[Hpre Hend]].
    + left. exists (k + j). rewrite Hj, Hp2, <- app_assoc, <- fmap_app. rewrite drop_drop in Hgj.
      rewrite <- (take_take_drop cs k j). split_and!; [done..|]. rewrite length_drop in Hr.
      destruct Hr as [?|[? ?]]; [by left|right; split; [done|lia]].
    + right. rewrite Hp2, <- app_assoc, (app_assoc (TcpChunk <$> _)), <- fmap_app, take_drop in Hpre, Hend.
      done.
  - right. destruct t; cbn [end_of] in *.
    + split; [|done]. cbv zeta. cbn in Hp2. cbn [end_data]. rewrite <- Hp2.
      destruct (d_dead w2); [by apply push_same|]. apply push_drain_loop.
    + cbn [fst snd]. by rewrite Hp, He.
    + cbn [fst snd]. by rewrite Hp, He.
Qed.
(** *** The end of a stream while reading is paused *)

Lemma eof_round tries (w : D) :
  recv chunk (d_env w) = (Ret [], d_env w) →
  tcp_quantum (S tries) TCP_QUANTUM_ITEMS 0 false w = (Ret (Eof, true), pushes [TcpEof] (d_env w) w).
Proof.
  intros Hr. unfold TCP_QUANTUM_ITEMS. cbn [tcp_quantum]. rewrite decide_False by (unfold TCP_QUANTUM_BYTES; lia).
  rewrite run_bind, run_outcome.
  rewrite (tcp_recv_answers (S tries) (d_env w) (Ret []) (d_env w) w); [done|by apply answers_now|done].
Qed.

Context `{!Kernel K} `{!Protocol (world K bytes stream)} `{!ReadLaws (E := K)}.

(** A stream that ends while its transport is paused.  Pausing leaves the
    watcher in place, and at the end of the stream every read says so again: the
    drain task never comes to rest but pushes one end of file per round, for as
    many rounds as the transport stays paused.  Each of them is stored; if the
    protocol keeps the transport open, resuming calls its [eof_received] that
    many times. *)
Theorem eof_while_paused_repeats tries rounds (w : D) (v : world K bytes stream) :
  recv chunk (d_env w) = (Ret [], d_env w) → (∀ w, d_dead (yield_now w) = false) →
  settled (w_tr v) → alive v →
  let v' := run_steps (replicate rounds (Arrive (RData [] None)) ++ [Call ApiResumeReading]) v in
  (∃ w', drain_loop (S tries) rounds w = (Ret false, w') ∧
         d_pushed w' = d_pushed w ++ replicate rounds TcpEof) ∧
  (is_dead (w_tr v') = false → _paused (w_tr v') = false →
   omap delivery (w_trace v') = received v ++ replicate rounds (RData [] None)).
Proof.
  intros Hr Hy Hs Ha. cbv zeta. split.
  - clear Hs Ha v. revert w Hr. induction rounds as [|rounds IH]; intros w Hr.
    { exists w. split; [done|]. by rewrite app_nil_r. }
    rewrite (drain_loop_S _ _ _ _ _ _ (eof_round tries w Hr)). cbv zeta. rewrite Hy.
    set (w2 := yield_now _). assert (d_env w2 = d_env w) as He by (unfold w2; by rewrite yl_env).
    destruct (IH w2) as (w' & -> & Hp); [by rewrite He|]. exists w'. split; [done|].
    rewrite Hp. unfold w2. rewrite yl_pushed. cbn. by rewrite <- app_assoc.
  - intros Hd Hp. destruct (run_steps_spec _ v Hs Ha Hd) as (_ & Hs' & Hrec).
    destruct Hs' as [Hp'|Hq]; [congruence|]. unfold received in Hrec at 1. rewrite Hq, app_nil_r in Hrec.
    rewrite Hrec. f_equal. unfold arrivals. rewrite omap_app, app_nil_r.
    clear. induction rounds; [done|]. cbn. by f_equal.
Qed.
End drain.

(** ** Instances *)

(** A kernel that answers from a list, then is at the end of the stream. *)
Definition script_recv (n : nat) : M (list (res bytes)) bytes := λ e,
  match e with [] => (Ret [], []) | r :: e => (r, e) end.
Abbreviation demo_drain := (drain_state (list (res bytes))).
Definition yields (dead : bool) (w : demo_drain) : demo_drain :=
  MkDrain (d_env w) (d_pushed w) (d_notified w) dead.
#[export] Instance yields_laws dead : YieldLaws (yields dead).
Proof. by split. Qed.

(** Five chunks, an interruption, then nothing to read: two quanta. *)
Definition five : list bytes := [[x61]; [x62]; [x63]; [x64]; [x65]].
Definition five_then_block : demo_drain :=
  MkDrain (Raise (OSError EINTR) :: (Ret <$> five) ++ [Raise (OSError EAGAIN)]) [] 0 false.

Lemma five_given :
  gives script_recv 100 2 (d_env five_then_block) five (WouldBlock (OSError EAGAIN)) [].
Proof.
  apply (gives_chunk _ _ _ _ ((Ret <$> [[x62]; [x63]; [x64]; [x65]]) ++ [Raise (OSError EAGAIN)]));
    [eapply answers_again; [reflexivity..|by apply answers_now]|done|].
  do 4 (eapply gives_chunk; [by apply answers_now|done|]).
  eapply gives_block; [apply answers_now; [reflexivity|by intros x [= <-]]|reflexivity].
Qed.

Lemma drain_pushes_stream_witness :
  let out := drain_loop script_recv 100 (yields false) 2 6 five_then_block in
  out.1 = Ret true ∧ d_pushed out.2 = TcpChunk <$> five ∧ d_notified out.2 = 2.
Proof.
  pose proof five_given as Hg.
  destruct (drain_pushes_stream script_recv 100 (yields false) 2 6 five_then_block five
    (WouldBlock (OSError EAGAIN)) [] Hg) as [(k & _ & _ & [[_ Hd]|[_ Hl]])|[_ Hend]].
  - exfalso. vm_compute in Hd. discriminate.
  - exfalso. vm_compute in Hl. lia.
  - cbv zeta. destruct Hend as (-> & _ & ->); [done|].
    split; [done|]. split; [vm_compute; reflexivity|vm_compute; reflexivity].
Defined.

(** A protocol that keeps a stream open after its end, paused. *)
Definition keep_open (ev : event) : reaction :=
  match ev with EvEofReceived _ => MkReaction [] (Some true) | _ => no_reaction end.
#[local] Instance drain_kernel : Kernel script_env := script_kernel true.
#[local] Instance drain_protocol : Protocol (world script_env bytes stream) :=
  scripted drain_kernel keep_open 1.
Definition paused_world : world script_env bytes stream := (pause_reading (start_world [])).2.

Lemma eof_while_paused_repeats_witness :
  (∃ w', drain_loop script_recv 100 (yields false) 1 3 (MkDrain [] [] 0 false) = (Ret false, w') ∧
         d_pushed w' = [TcpEof; TcpEof; TcpEof]) ∧
  let v' := run_steps (replicate 3 (Arrive (RData [] None)) ++ [Call ApiResumeReading]) paused_world in
  omap delivery (w_trace v') = replicate 3 (RData [] None).
Proof.
  destruct (eof_while_paused_repeats script_recv 100 (yields false) 0 3 (MkDrain [] [] 0 false)
    paused_world) as [Hdrain Htr].
  - reflexivity.
  - reflexivity.
  - by left.
  - split; [vm_compute; reflexivity|]. split; [vm_compute; reflexivity|eexists; vm_compute; reflexivity].
  - split; [exact Hdrain|]. apply Htr; vm_compute; reflexivity.
Defined.
