(* ===== verification/Pipeline.v ===== *)
(** * From the kernel to the protocol

    The drain task of a stream (Drain.v) feeding the running loop (Composed.v): what
    it reads from the kernel is what the protocol is given, whatever the loop does
    between and after the task's reads. *)

From Stdlib Require Import Strings.Byte.
From stdpp Require Import base tactics list gmap strings.
From S2P Require Import Prelude State Reactor Env Loop LoopFrame Scheduler.
From S2P Require Import SelectorTransport Reads SocketTransport StreamReads StreamFrame StreamWrites.
From S2P Require Import Composed Drain Script.

(** What a payload of a stream's drain task is for its transport. *)
Definition stream_item (d : IoData) : option replay_item :=
  match d with
  | TcpChunk p => Some (RData p None)
  | TcpEof => Some (RData [] None)
  | ReadError e => Some (RError e)
  | UdpDatagram _ _ => None
  end.

(** A slot registered by [_add_tcp_reader(fd, _drain_stream, _drain_error)]. *)
Definition stream_slot (s : FdSlotState) : Prop :=
  drain s = Some CbDrainStream ∧ drain_err s = Some CbDrainError.

Lemma stream_payload s d : stream_slot s → payload_of s d = stream_item d.
Proof. intros [Hd He]. destruct d; cbn; rewrite ?Hd, ?He; by rewrite ?decide_True. Qed.

Section pipeline.
Context {K : Type} (recv : nat → M K bytes) (chunk : nat) (yield_now : drain_state K → drain_state K).
Context `{!YieldLaws yield_now}.
Context {E : Type} `{!Kernel E} `{!Protocol (world E bytes stream)}.
Local Abbreviation V := (world E bytes stream).
Local Abbreviation W := (sched (outside E)).
Context (user : nat → M V unit) `{!InnerLaws user} `{!ReadLaws (E := E)}.
Context (Huser : ∀ n, moves Rio (user n)).

(** A history of the loop in which the payloads put on the completion queue are those
    of one task, in order, at any points; in between, other threads schedule
    callbacks and the loop runs batches. *)
Inductive fed (sl : slot_id) : list IoData → W → W → Prop :=
  | fed_end w : fed sl [] w w
  | fed_push d ds w w' : fed sl ds (push (IoPayload sl d) w) w' → fed sl (d :: ds) w w'
  | fed_post c ds w w' : fed sl ds (on_loop (call_soon c) w).2 w' → fed sl ds w w'
  | fed_batch fuel ds w w' :
      drain_only w → (run_batch (call user) deliver handler clock fuel w).1 = Ret true →
      fed sl ds (run_batch (call user) deliver handler clock fuel w).2 w' → fed sl ds w w'.

(** The slot of the stream's watcher, alive or not. *)
Definition stream_slot_in (sl : slot_id) (w : W) : Prop :=
  sl < next_id (reactor (s_loop w)) ∧ ∃ s, slot_of sl w = Some s ∧ stream_slot s.

Lemma stream_slot_later sl (w w' : W) :
  Rreactor (reactor (s_loop w)) (reactor (s_loop w')) → stream_slot_in sl w → stream_slot_in sl w'.
Proof.
  intros Hr [Hn (s & Hs & Hd & He)]. destruct (rr_slots _ _ Hr _ _ Hn Hs) as (s' & Hs' & Hd' & He' & _).
  split; [pose proof (rr_id _ _ Hr); lia|]. exists s'. split; [done|]. split; congruence.
Qed.

Lemma fed_turns sl ds (w w' : W) :
  fed sl ds w w' → stream_slot_in sl w → Forall (known w) (io w) →
  turns user w (omap stream_item ds) w'.
Proof.
  induction 1 as [w|d ds w w' _ IH|c ds w w' _ IH|fuel ds w w' Hdo Hrun _ IH]; intros Hsl Hk.
  - apply turns_end.
  - destruct Hsl as [Hn (s & Hs & Hst)].
    assert (known w (IoPayload sl d)) as Hc by (split; [done|by exists s]).
    replace (omap stream_item (d :: ds))
      with (option_list (arrival w (IoPayload sl d)) ++ omap stream_item ds).
    + apply turns_push; [done|]. apply IH; [by split; [|exists s]|].
      apply Forall_app. split; [exact Hk|by constructor].
    + cbn [arrival omap list_omap]. rewrite Hs. cbn [mbind option_bind].
      rewrite (stream_payload _ _ Hst). by destruct (stream_item d).
  - apply (turns_post _ c). destruct (post_frame c w) as (_ & Hr & Hio). apply IH.
    + by eapply stream_slot_later.
    + rewrite Hio. eapply Forall_impl; [exact Hk|]. intros x Hx.
      by apply (known_later (λ _, True) w _ x Hr Hx).
  - apply (turns_batch _ fuel); [done..|].
    destruct (batch_came user Huser fuel w Hk Hdo Hrun) as (Hend & Hr & _). cbv zeta in *.
    apply IH; [by eapply stream_slot_later|by rewrite Hend].
Qed.

Lemma stream_items (cs : list bytes) : omap stream_item (TcpChunk <$> cs) = (λ c, RData c None) <$> cs.
Proof. induction cs as [|c cs IH]; [done|]. cbn. by f_equal. Qed.

End pipeline.

(** ** An instance *)

(** The five chunks of Drain.v reach the protocol of Composed.v that pauses on the
    first of them, in two batches with a resumption between them. *)
#[local] Existing Instance loop_kernel.
#[local] Existing Instance loop_protocol.
#[local] Existing Instance resumes_inner.
Abbreviation five_task := (drain_loop script_recv 100 (yields false) 2 6 five_then_block).2.
Abbreviation feed b w := (push (IoPayload 1 (TcpChunk [b])) w).
Definition fed1 : sched (outside script_env) :=
  turn (feed x64 (feed x63 (feed x62 (feed x61 loop_start)))).
Definition fed2 : sched (outside script_env) :=
  turn (on_loop (call_soon (CbUser 0)) (feed x65 fed1)).2.

Lemma fed_batch_one sl ds (w w' : sched (outside script_env)) :
  Forall (λ e, drain_mode (re_callback e)) (ready (s_loop w)) → timers w = [] →
  Forall (λ c, ∀ sl, c ≠ IoCallback sl) (io w) →
  (run_batch (call resumes) deliver handler clock 5 w).1 = Ret true →
  fed resumes sl ds (turn w) w' → fed resumes sl ds w w'.
Proof.
  intros Hr Ht Hi Hrun. apply fed_batch; [|done]. split; [done|by rewrite Ht|].
  eapply Forall_impl; [exact Hi|]. intros c Hc sl' s f ->. by destruct (Hc sl').
Qed.
Lemma five_fed : fed resumes 1 (d_pushed five_task) loop_start fed2.
Proof.
  assert (d_pushed five_task = [TcpChunk [x61]; TcpChunk [x62]; TcpChunk [x63]; TcpChunk [x64];
                                TcpChunk [x65]]) as -> by (vm_compute; reflexivity).
  do 4 apply fed_push. apply fed_batch_one; [evaluated..|vm_compute; reflexivity|].
  apply fed_push. apply (fed_post resumes 1 (CbUser 0)).
  apply fed_batch_one; [evaluated..|vm_compute; reflexivity|]. unfold fed2, fed1. apply fed_end.
Qed.

