(* ===== verification/Establish.v ===== *)
(** * From a connected socket to a transport (python/tokioop/loop.py, lines
    675-709, 964-999, 1315-1348 and 1439-1494)

    [_make_socket_transport], [_make_ssl_transport],
    [_create_connection_transport], [connect_accepted_socket] and
    [_accept_connection2], on the world of the transport they construct. *)

From Stdlib Require Import Strings.Byte.
From stdpp Require Import base tactics list gmap strings.
From S2P Require Import Prelude State Reactor ReactorProps Env Loop.
From S2P Require Import SelectorTransport Reads SocketTransport StreamReads StreamWrites.
From S2P Require Import Script StreamFrame StreamInit StartTls.

Section establish.
Context {E : Type} `{!Kernel E} `{!Protocol (world E bytes stream)}.
Local Abbreviation W := (world E bytes stream).

(** What [_transports] has for an fd; [sock.setblocking(False)], [sock.type]; the
    protocol factory; awaiting the waiter; and asyncio's TLS: the constructor of
    [SSLProtocol] and the [close] of its application-side transport. *)
Context (transport_is_closing : Z → W → option bool)
  (setblocking : Z → M W unit) (is_stream is_ssl : Z → bool)
  (protocol_factory : M W proto) (wait : fut_id → M W unit)
  (new_SSLProtocol : proto → option fut_id → M W nat) (app_close : M W unit).

Definition _make_socket_transport (sock : Z) (protocol : proto) (waiter : option fut_id)
    (extra : option addr) (server : option nat) : M W unit :=
  _ensure_fd_no_transport transport_is_closing (FileObj (Some sock));;
  __init__ sock protocol waiter extra server.

Definition _make_ssl_transport (rawsock : Z) (protocol : proto) (waiter : option fut_id)
    (extra : option addr) (server : option nat) : M W unit :=
  _ensure_fd_no_transport transport_is_closing (FileObj (Some rawsock));;
  n ← new_SSLProtocol protocol waiter;
  __init__ rawsock (SSLProtocol n) None extra server.

Definition make_transport (tls : bool) (sock : Z) (protocol : proto) (waiter : fut_id)
    (extra : option addr) (server : option nat) : M W unit :=
  if tls then _make_ssl_transport sock protocol (Some waiter) extra server
  else _make_socket_transport sock protocol (Some waiter) extra server.

(** [try: await waiter  except BaseException: transport.close(); raise] *)
Definition await_or_close (tls : bool) (waiter : fut_id) : M W unit :=
  try_except (wait waiter) (λ exc, (if tls then app_close else close);; raise exc).

(** Up to the [await]. *)
Definition connection_setup (sock : Z) (tls : bool) (extra : option addr) (server : option nat) :
    M W (proto * fut_id) :=
  protocol ← protocol_factory;
  waiter ← on_loop create_future;
  make_transport tls sock protocol waiter extra server;;
  mret (protocol, waiter).

Definition _create_connection_transport (sock : Z) (tls : bool) : M W proto :=
  setblocking sock;;
  pw ← connection_setup sock tls None None;
  await_or_close tls pw.2;;
  mret pw.1.

Definition connect_accepted_socket (sock : Z) (tls : bool) (handshake shutdown : option Z) :
    M W proto :=
  if negb (is_stream sock) then raise (ValueError "A Stream Socket was expected") else
  if bool_decide (is_Some handshake) && negb tls then
    raise (ValueError "ssl_handshake_timeout is only meaningful with ssl") else
  if bool_decide (is_Some shutdown) && negb tls then
    raise (ValueError "ssl_shutdown_timeout is only meaningful with ssl") else
  if is_ssl sock then raise (TypeError "Socket cannot be of type SSLSocket") else
  _create_connection_transport sock tls.

(** [except (SystemExit, KeyboardInterrupt): raise
     except BaseException as exc: ...], which reports in debug mode only. *)
Definition accept_failed (exc : exn) : M W unit :=
  if is_exit exc then raise exc else
  d ← loop_get debug;
  when_ d (call_exception_handler exc).

(** The [try] block. *)
Definition accept_steps (conn : Z) (peer : addr) (tls : bool) (server : option nat) : M W unit :=
  pw ← connection_setup conn tls (Some peer) server;
  await_or_close tls pw.2.

Definition _accept_connection2 (conn : Z) (peer : addr) (tls : bool) (server : option nat) :
    M W unit :=
  try_except (accept_steps conn peer tls server) accept_failed.

(** ** Errors of a connection stay with it *)

Lemma accept_failed_run exc (w : W) :
  is_exit exc = false →
  ∃ w', accept_failed exc w = (Ret tt, w') ∧
    (debug (w_loop w) = false → w' = w) ∧
    (debug (w_loop w) = true → w' = (p_exception_handler exc (add_event (EvExceptionHandler exc) w)).2).
Proof.
  intros He. unfold accept_failed. rewrite He, run_bind. unfold loop_get. rewrite run_gets.
  change (lget w) with (w_loop w). destruct (debug (w_loop w)); cbn [when_].
  - unfold call_exception_handler. rewrite run_bind, run_log. eexists. split; [done|]. by split.
  - rewrite run_ret. by eexists.
Qed.

(** [SelectorTransport.close] marks the transport as closing, whatever else
    happens. *)
Lemma await_or_close_failed tls waiter exc (w w' : W) :
  tls = false → wait waiter w = (Raise exc, w') →
  ∃ r w2, await_or_close tls waiter w = (r, w2) ∧ (∀ x, r ≠ Ret x) ∧ is_dead (w_tr w2) = true.
Proof.
  intros -> Hw. unfold await_or_close, try_except, try_else. rewrite Hw, run_bind.
  pose proof (close_closes w') as Hc. destruct (close w') as [[x|x] w2]; cbn [snd] in Hc.
  - rewrite run_raise. by eexists _, _.
  - by eexists _, _.
Qed.

(** Errors of one accepted connection never reach the accept loop.
    [_accept_connection2] raises nothing but [SystemExit] and
    [KeyboardInterrupt]; whatever else goes wrong in the protocol factory, the
    transport's construction or the wait for [connection_made] ends with it, and
    is told to the exception handler in debug mode only. *)
Theorem accept_errors_contained conn peer tls server (w w1 : W) exc :
  accept_steps conn peer tls server w = (Raise exc, w1) →
  (is_exit exc = true ∧ _accept_connection2 conn peer tls server w = (Raise exc, w1)) ∨
  (is_exit exc = false ∧
   _accept_connection2 conn peer tls server w =
     (Ret tt, if debug (w_loop w1)
              then (p_exception_handler exc (add_event (EvExceptionHandler exc) w1)).2 else w1)).
Proof.
  intros Hs. unfold _accept_connection2, try_except, try_else. rewrite Hs.
  destruct (is_exit exc) eqn:He.
  - left. split; [done|]. unfold accept_failed. by rewrite He.
  - right. split; [done|]. destruct (accept_failed_run exc w1 He) as (w' & -> & Hno & Hyes).
    destruct (debug (w_loop w1)); [by rewrite Hyes|by rewrite Hno].
Qed.

(** ** From the socket to the wake-up of whoever waits *)

(** The application's [connection_made] leaves reading, futures and the loop
    alone. *)
Definition undisturbed (p : proto) : Prop := ∀ w : W,
  let w' := (p_connection_made p w).2 in
  reading_as w w' ∧ futs (w_loop w') = futs (w_loop w) ∧ closed (w_loop w') = closed (w_loop w) ∧
  (wf (reactor (w_loop w)) → wf (reactor (w_loop w'))).

(** The task that awaits [f] has asked to be woken up. *)
Definition awaiting (f : fut_id) (w : W) : W :=
  lset (add_done_callback f (CbWakeup f) (w_loop w)).2 w.

Lemma create_future_open (s : LoopState) :
  closed s = false →
  create_future s = (Ret (next_id (reactor s)),
    set_futs (<[next_id (reactor s) := MkFuture Pending []]> (futs s))
      (set_reactor (new_flag (reactor s)).2 s)).
Proof.
  intros Hc. unfold create_future. rewrite run_bind, check_closed_open by done. by destruct s.
Qed.

Lemma setup_run `{!NameLaws} sock p extra server (w w0 : W) :
  protocol_factory w = (Ret p, w0) → closed (w_loop w0) = false → w_trace w0 = [] →
  transport_is_closing sock (lset (create_future (w_loop w0)).2 w0) ≠ Some false →
  is_BufferedProtocol p = false ∨ _is_polling sock false (w_loop w0) = false →
  let f := next_id (reactor (w_loop w0)) in
  let wf := lset (create_future (w_loop w0)).2 w0 in
  ∃ w1, connection_setup sock false extra server w = (Ret (p, f), w1) ∧
    established sock p (Some f) wf w1 ∧ futs (w_loop w1) !! f = Some (MkFuture Pending []).
Proof.
  intros Hf Hc Ht Hno Hpoll f wf. unfold connection_setup.
  rewrite run_bind, Hf. cbv beta iota. rewrite run_bind. unfold on_loop, zoom.
  change (lget w0) with (w_loop w0). subst wf. rewrite create_future_open in * by done.
  cbn [snd] in *. cbv beta iota. fold f. set (wf := lset _ w0) in *.
  assert (_ensure_fd_no_transport transport_is_closing (FileObj (Some sock)) wf = (Ret sock, wf))
    as Hensure.
  { unfold _ensure_fd_no_transport. rewrite run_bind, run_ret. cbv beta iota.
    rewrite run_bind, run_gets. cbv beta iota.
    by destruct (transport_is_closing sock wf) as [[]|]. }
  rewrite run_bind. cbn [make_transport]. unfold _make_socket_transport.
  rewrite run_bind, Hensure. cbv beta iota.
  destruct (init_run sock p (Some f) extra server wf) as (w1 & -> & Hest); [done..|].
  cbv beta iota. rewrite run_ret. exists w1. split_and!; [done..|].
  rewrite (est_futs _ _ _ _ _ Hest). apply lookup_insert_eq.
Qed.

(** Completing the waiter: the coroutine's wake-up is scheduled. *)
Lemma set_result_wakes f c (s : LoopState) :
  futs s !! f = Some (MkFuture Pending [c]) → closed s = false →
  set_result_unless_cancelled f VNone s =
    (Ret tt, soon c (set_futs (<[f := MkFuture (Result VNone) []]> (futs s)) s)).
Proof.
  intros Hf Hc. unfold set_result_unless_cancelled. rewrite run_bind, run_gets.
  unfold fut_cancelled, fut_lookup. rewrite Hf. cbn [from_option f_state].
  unfold set_result, fut_finish. rewrite Hf. cbn [schedule_callbacks].
  by rewrite run_bind, call_soon_open.
Qed.

(** Registering the reader of an open transport. *)
Lemma register_reader_ready (w : W) :
  _loop (w_tr w) = true → closed (w_loop w) = false → is_reading (w_tr w) = true →
  (0 ≤ _sock_fd (w_tr w))%Z → (∀ e, ∃ e', k_dup (_sock_fd (w_tr w)) e = (Ret tt, e')) →
  wf (reactor (w_loop w)) →
  ∃ w' sl fl, _register_reader w = (Ret tt, w') ∧ w_tr w' = w_tr w ∧
    watched w' true = Some sl ∧
    slots (reactor (w_loop w')) !! sl = Some (reader_slot (_drain_kind (w_tr w)) fl) ∧
    futs (w_loop w') = futs (w_loop w) ∧ closed (w_loop w') = false ∧
    ready (w_loop w') = ready (w_loop w).
Proof.
  intros Hl Hc Hr Hfd Hdup Hwf. destruct (Hdup (w_env w)) as [e' He'].
  rewrite (register_reader_run e' w) by done. set (w' := lset _ (lset e' w)).
  destruct (install_slot (_sock_fd (w_tr w)) true (reader_slot (_drain_kind (w_tr w))) _ Hwf)
    as (Hslot & _ & _).
  exists w', (S (next_id (reactor (w_loop w)))), (next_id (reactor (w_loop w))).
  split_and!; try done.
  etrans; [apply (install_registered (reader_slot (_drain_kind (w_tr w))) (_sock_fd (w_tr w)) true)|].
  by rewrite decide_True.
Qed.

(** What [connection_made] leaves as the constructor has set it. *)
Lemma established_reading sock p waiter (w0 w1 w2 w3 : W) :
  established sock p waiter w0 w1 → w_tr w2 = w_tr w1 → reading_as w2 w3 →
  is_reading (w_tr w3) = true ∧ _sock_fd (w_tr w3) = sock ∧
  _drain_kind (w_tr w3) = if is_BufferedProtocol p then None else Some Tcp.
Proof.
  intros Hest Htr Hras. unfold is_reading, is_closing.
  rewrite (ra_closing _ _ Hras), (ra_paused _ _ Hras), (ra_fd _ _ Hras), (ra_kind _ _ Hras), Htr.
  split_and!; [apply (est_reading _ _ _ _ _ Hest)|apply (est_fd _ _ _ _ _ Hest)|
               apply (est_kind _ _ _ _ _ Hest)].
Qed.

(** C34: From a connected socket to a working transport.  When
    [_create_connection_transport] or [_accept_connection2] awaits, the transport
    is constructed with the invariants it starts from, and the loop has three
    callbacks to run, in this order: [connection_made], the registration of the
    reader, and the waiter's.  When they have run, with an application that only
    looks, the transport reads, its fd is watched in the mode its protocol needs,
    the waiter has its result, and the coroutine's wake-up is the one callback
    scheduled since: it goes on only after [connection_made] and with reading
    set up. *)
Theorem connection_ready `{!NameLaws} sock p extra server (w w0 : W) :
  protocol_factory w = (Ret p, w0) → closed (w_loop w0) = false → w_trace w0 = [] →
  transport_is_closing sock (lset (create_future (w_loop w0)).2 w0) ≠ Some false →
  is_BufferedProtocol p = false ∨ _is_polling sock false (w_loop w0) = false →
  (0 ≤ sock)%Z → (∀ e, ∃ e', k_dup sock e = (Ret tt, e')) → undisturbed p →
  wf (reactor (w_loop w0)) →
  let f := next_id (reactor (w_loop w0)) in
  let wf := lset (create_future (w_loop w0)).2 w0 in
  ∃ w1, connection_setup sock false extra server w = (Ret (p, f), w1) ∧
    established sock p (Some f) wf w1 ∧
    let w2 := awaiting f w1 in
    let w3 := (run_firing (FireCallback (CbConnectionMade p)) w2).2 in
    let w4 := (run_firing (FireCallback CbRegisterReader) w3).2 in
    let w5 := (run_firing (FireCallback (CbSetResultUnlessCancelled f)) w4).2 in
    w3 = (p_connection_made p (add_event (EvConnectionMade p) w2)).2 ∧
    is_reading (w_tr w5) = true ∧
    (∃ sl fl, watched w5 true = Some sl ∧
       slots (reactor (w_loop w5)) !! sl =
         Some (reader_slot (if is_BufferedProtocol p then None else Some Tcp) fl)) ∧
    fut_lookup f (w_loop w5) = Result VNone ∧
    scheduled_callbacks w5 = scheduled_callbacks w3 ++ [CbWakeup f].
Proof.
  intros Hf Hc Ht Hno Hpoll Hfd Hdup Hund Hwf f wf.
  destruct (setup_run sock p extra server w w0 Hf Hc Ht Hno Hpoll) as (w1 & Hrun & Hest & Hfut).
  fold f wf in Hrun, Hest, Hfut. exists w1. split; [done|]. split; [done|]. cbv zeta.
  destruct (est_alive _ _ _ _ _ Hest) as [_ [Hl _]].
  pose proof (est_protocol _ _ _ _ _ Hest) as Hp.
  assert (closed (w_loop w1) = false) as Hc1.
  { rewrite (est_closed _ _ _ _ _ Hest). unfold wf. rewrite create_future_open by done. done. }
  assert (Reactor.wf (reactor (w_loop w1))) as Hwf1.
  { apply (est_wf _ _ _ _ _ Hest). unfold wf. rewrite create_future_open by done.
    by apply new_flag_wf. }
  assert (awaiting f w1 =
    lset (set_futs (<[f := MkFuture Pending [CbWakeup f]]> (futs (w_loop w1))) (w_loop w1)) w1) as ->
    by (unfold awaiting, add_done_callback; by rewrite Hfut).
  set (w2 := lset _ w1).
  assert ((run_firing (FireCallback (CbConnectionMade p)) w2).2 =
    (p_connection_made p (add_event (EvConnectionMade p) w2)).2) as ->
    by (cbn [run_firing]; by rewrite run_bind, run_log).
  destruct (Hund (add_event (EvConnectionMade p) w2)) as (Hras & Hfuts3 & Hc3 & Hwf3).
  set (w3 := (p_connection_made p _).2) in *.
  destruct (established_reading sock p (Some f) wf w1 (add_event (EvConnectionMade p) w2) w3 Hest
    eq_refl Hras) as (Hr3 & Hfd3 & Hk3).
  destruct (register_reader_ready w3) as (w4 & sl & fl & Hreg & Ht4 & Hw4 & Hs4 & Hfuts4 & Hc4 & Hq4);
    rewrite ?Hfd3, ?(ra_loop _ _ Hras), ?Hc3; auto.
  cbn [run_firing]. rewrite Hreg. cbn [snd]. unfold on_loop, zoom.
  change (lget w4) with (w_loop w4).
  assert (futs (w_loop w4) !! f = Some (MkFuture Pending [CbWakeup f])) as Hfut4
    by (rewrite Hfuts4, Hfuts3; apply lookup_insert_eq).
  rewrite (set_result_wakes f _ _ Hfut4 Hc4). cbn [snd]. rewrite Hk3 in Hs4. split_and!.
  - done.
  - change (is_reading (w_tr w4) = true). by rewrite Ht4.
  - exists sl, fl. split; [exact Hw4|exact Hs4].
  - unfold fut_lookup. simpl. by rewrite lookup_insert_eq.
  - unfold scheduled_callbacks. simpl. by rewrite fmap_app, Hq4.
Qed.
End establish.

(** ** An instance *)

Abbreviation est_world := (world script_env bytes stream).
Definition any_fd (fd : Z) (w : est_world) : option bool := None.
Definition echo_factory : M est_world proto := mret (MkProto 2 false).
Definition no_factory : M est_world proto := raise (UserError 1).

Lemma connection_ready_witness :
  let K := script_kernel true in
  let P : Protocol est_world := silent in
  let w := start_world [] in
  let f := next_id (reactor (w_loop w)) in
  let wf := lset (create_future (w_loop w)).2 w in
  ∃ w1, connection_setup any_fd echo_factory (λ _ _, mret 3) 5 false None (Some 1) w =
      (Ret (MkProto 2 false, f), w1) ∧
    established 5 (MkProto 2 false) (Some f) wf w1 ∧
    let w2 := awaiting f w1 in
    let w3 := (run_firing (FireCallback (CbConnectionMade (MkProto 2 false))) w2).2 in
    let w4 := (run_firing (FireCallback CbRegisterReader) w3).2 in
    let w5 := (run_firing (FireCallback (CbSetResultUnlessCancelled f)) w4).2 in
    w3 = (p_connection_made (MkProto 2 false)
            (add_event (EvConnectionMade (MkProto 2 false)) w2)).2 ∧
    is_reading (w_tr w5) = true ∧
    (∃ sl fl, watched w5 true = Some sl ∧
       slots (reactor (w_loop w5)) !! sl = Some (reader_slot (Some Tcp) fl)) ∧
    fut_lookup f (w_loop w5) = Result VNone ∧
    scheduled_callbacks w5 = scheduled_callbacks w3 ++ [CbWakeup f].
Proof.
  intros K P w f wf.
  apply (connection_ready any_fd echo_factory (λ _ _, mret 3) 5 (MkProto 2 false) None (Some 1) w w).
  - reflexivity.
  - reflexivity.
  - reflexivity.
  - discriminate.
  - left. reflexivity.
  - discriminate.
  - intros e. exists e. reflexivity.
  - intros w'. split; [by split|]. split; [reflexivity|]. split; [reflexivity|]. intros H. exact H.
  - apply empty_wf.
Defined.

(** A factory that fails, in debug mode and not. *)
Lemma accept_errors_contained_witness :
  let K := script_kernel true in
  let P : Protocol est_world := silent in
  let w := start_world [] in
  _accept_connection2 any_fd no_factory (λ _, mret tt) (λ _ _, mret 3) (mret tt) 5 localhost false
    None w = (Ret tt, w).
Proof.
  intros K P w.
  destruct (accept_errors_contained any_fd no_factory (λ _, mret tt) (λ _ _, mret 3) (mret tt) 5
    localhost false None w w (UserError 1)) as [[H _]|[_ H]]; [reflexivity|discriminate|exact H].
Defined.
