(* ===== verification/Signals.v ===== *)
(** * Signal handlers (python/tokioop/loop.py, lines 117-122 and 1640-1675)

    [add_signal_handler] and [remove_signal_handler], over the dispositions of
    the process, and what happens when a signal arrives; with their
    properties. *)

From Stdlib Require Import Strings.Byte.
From stdpp Require Import base tactics list gmap strings.
From S2P Require Import Prelude State Reactor Env Loop.

(** ** State *)

Definition NSIG : Z := 65.
Definition SIGINT : Z := 2.
Definition SIGKILL : Z := 9.
Definition SIGSTOP : Z := 19.

(** What Python runs for a signal: the default action, nothing, the interpreter's
    [default_int_handler], or the closure [_handler] of [add_signal_handler]. *)
Inductive disposition :=
  | SIG_DFL
  | SIG_IGN
  | default_int_handler
  | LoopHandler (cb : callback).

(** The loop and its [_signal_handlers]; the dispositions of the process; the
    wake-ups stored by [call_soon_threadsafe]; everything else. *)
Record signals (E : Type) := MkSignals {
  g_loop : LoopState;
  g_handlers : gmap Z callback;
  g_dispositions : gmap Z disposition;
  g_notified : bool;
  g_env : E;
}.
Arguments MkSignals {E}.
Arguments g_loop {E}.
Arguments g_handlers {E}.
Arguments g_dispositions {E}.
Arguments g_notified {E}.
Arguments g_env {E}.

#[export] Instance signals_loop {E} : HasLoop (signals E) := {|
  lget w := g_loop w;
  lset l w := MkSignals l (g_handlers w) (g_dispositions w) (g_notified w) (g_env w) |}.

(** What callers pass as a signal and as a callback. *)
Inductive sig_arg := SigInt (n : Z) | SigOther.
Inductive callable := Callable (cb : callback) | Coroutine | NotCallable.

Section signals.
Context {E : Type}.
Local Abbreviation W := (signals E).

(** [signal.signal] may fail: [OSError] from [sigaction], [ValueError] outside
    the main thread. *)
Context (os_signal : Z → M E unit).

Definition set_handlers (h : gmap Z callback) (w : W) : W :=
  MkSignals (g_loop w) h (g_dispositions w) (g_notified w) (g_env w).

Definition signal_signal (sig : Z) (d : disposition) : M W unit := λ w,
  let '(r, e) := os_signal sig (g_env w) in
  match r with
  | Ret _ => (Ret tt, MkSignals (g_loop w) (g_handlers w) (<[sig := d]> (g_dispositions w))
                        (g_notified w) e)
  | Raise x => (Raise x, MkSignals (g_loop w) (g_handlers w) (g_dispositions w) (g_notified w) e)
  end.

Definition _check_signal (sig : sig_arg) : M W Z :=
  match sig with
  | SigOther => raise (TypeError "sig must be an int")
  | SigInt n =>
      if decide (¬ (1 ≤ n < NSIG)%Z) then raise (ValueError "invalid signal number")
      else if decide (n = SIGKILL ∨ n = SIGSTOP)
      then raise (RuntimeError "signals SIGKILL and SIGSTOP cannot be caught")
      else mret n
  end.

Definition _check_callback (c : callable) : M W callback :=
  match c with
  | Coroutine => raise (TypeError "coroutines cannot be used with add_signal_handler()")
  | NotCallable => raise (TypeError "a callable object was expected by add_signal_handler()")
  | Callable cb => mret cb
  end.

Definition add_signal_handler (sig : sig_arg) (c : callable) : M W unit :=
  on_loop check_closed;;
  n ← _check_signal sig;
  cb ← _check_callback c;
  try_except (signal_signal n (LoopHandler cb))
    (λ exc, if is_OSError exc then raise (RuntimeError "str(exc)") else raise exc);;
  modify (λ w, set_handlers (<[n := cb]> (g_handlers w)) w).

Definition remove_signal_handler (sig : sig_arg) : M W bool :=
  n ← _check_signal sig;
  h ← gets (λ w, g_handlers w !! n);
  match h with
  | None => mret false
  | Some _ =>
      modify (λ w, set_handlers (delete n (g_handlers w)) w);;
      try_except (signal_signal n SIG_DFL)
        (λ exc, if is_OSError exc then mret tt else raise exc);;
      mret true
  end.

(** [call_soon_threadsafe]. *)
Definition call_soon_threadsafe (cb : callback) : M W flag_id :=
  f ← on_loop (call_soon cb);
  modify (λ w, MkSignals (g_loop w) (g_handlers w) (g_dispositions w) true (g_env w));;
  mret f.

(** A signal arrives and Python runs its handler.  ([SIG_DFL] and the
    interpreter's own handler are outside the program.) *)
Definition deliver_signal (n : Z) : M W unit :=
  d ← gets (λ w, g_dispositions w !! n);
  match d with
  | Some (LoopHandler cb) => call_soon_threadsafe cb;; mret tt
  | _ => mret tt
  end.

(** ** Properties *)

(** A registered handler is the one the process runs. *)
Definition installed (w : W) : Prop :=
  ∀ n cb, g_handlers w !! n = Some cb → g_dispositions w !! n = Some (LoopHandler cb).

Lemma check_signal_run sig (w : W) :
  (∃ x, _check_signal sig w = (Raise x, w)) ∨
  (∃ n, sig = SigInt n ∧ _check_signal sig w = (Ret n, w)).
Proof.
  destruct sig as [n|]; cbn [_check_signal]; [|left; by eexists].
  case_decide; [left; by eexists|]. case_decide; [left; by eexists|]. right. by exists n.
Qed.

Lemma add_installed sig c (w : W) : installed w → installed (add_signal_handler sig c w).2.
Proof.
  intros Hi. unfold add_signal_handler. rewrite run_bind. unfold on_loop, zoom, check_closed.
  rewrite run_bind, run_gets. change (lget w) with (g_loop w).
  destruct (closed (g_loop w)); [done|]. rewrite run_ret. cbv beta iota.
  change (lset (g_loop w) w) with (MkSignals (g_loop w) (g_handlers w) (g_dispositions w)
    (g_notified w) (g_env w)). replace (MkSignals _ _ _ _ _) with w by by destruct w.
  rewrite run_bind. destruct (check_signal_run sig w) as [[x ->]|(n & -> & ->)]; [done|].
  rewrite run_bind. destruct c as [cb| |]; cbn [_check_callback]; rewrite ?run_raise; try done.
  rewrite run_ret. cbv beta iota. rewrite run_bind. unfold try_except, try_else, signal_signal.
  destruct (os_signal n (g_env w)) as [[[]|x] e]; cbv beta iota.
  - rewrite run_ret. intros n' cb'. simpl. rewrite !lookup_insert_Some.
    intros [[-> ->]|[Hne H]]; [by left|right; split; [done|by apply Hi]].
  - destruct (is_OSError x); rewrite run_raise; exact Hi.
Qed.

Lemma remove_installed sig (w : W) : installed w → installed (remove_signal_handler sig w).2.
Proof.
  intros Hi. unfold remove_signal_handler. rewrite run_bind.
  destruct (check_signal_run sig w) as [[x ->]|(n & -> & ->)]; [done|]. cbv beta iota.
  rewrite run_bind, run_gets. destruct (g_handlers w !! n); [|done].
  rewrite run_bind, run_modify. cbv beta iota. rewrite run_bind.
  unfold try_except, try_else, signal_signal. cbn [g_env set_handlers].
  destruct (os_signal n (g_env w)) as [[[]|x] e]; cbv beta iota.
  - rewrite run_ret. cbv beta iota. rewrite run_ret. intros n' cb'. simpl.
    rewrite lookup_delete_Some, lookup_insert_Some. intros [Hne H]. right. split; [done|by apply Hi].
  - destruct (is_OSError x); rewrite ?run_ret, ?run_raise; cbv beta iota; rewrite ?run_ret;
      intros n' cb'; simpl; rewrite lookup_delete_Some; intros [_ H]; by apply Hi.
Qed.

Lemma add_run n cb e' (w : W) :
  (1 ≤ n < NSIG)%Z → n ≠ SIGKILL → n ≠ SIGSTOP → closed (g_loop w) = false →
  os_signal n (g_env w) = (Ret tt, e') →
  add_signal_handler (SigInt n) (Callable cb) w =
    (Ret tt, MkSignals (g_loop w) (<[n := cb]> (g_handlers w))
               (<[n := LoopHandler cb]> (g_dispositions w)) (g_notified w) e').
Proof.
  intros Hn Hk Hs Hc He. unfold add_signal_handler. rewrite run_bind. unfold on_loop, zoom.
  rewrite check_closed_open by done. cbv beta iota. rewrite run_bind. cbn [_check_signal].
  rewrite decide_False by tauto. rewrite decide_False by (by intros [?|?]).
  rewrite run_ret. cbv beta iota. rewrite run_bind. cbn [_check_callback]. rewrite run_ret.
  cbv beta iota. rewrite run_bind. unfold try_except, try_else, signal_signal.
  simpl. by rewrite He.
Qed.

Lemma remove_run n cb e' (w : W) :
  (1 ≤ n < NSIG)%Z → n ≠ SIGKILL → n ≠ SIGSTOP → g_handlers w !! n = Some cb →
  os_signal n (g_env w) = (Ret tt, e') →
  remove_signal_handler (SigInt n) w =
    (Ret true, MkSignals (g_loop w) (delete n (g_handlers w))
                 (<[n := SIG_DFL]> (g_dispositions w)) (g_notified w) e').
Proof.
  intros Hn Hk Hs Hh He. unfold remove_signal_handler. rewrite run_bind. cbn [_check_signal].
  rewrite decide_False by tauto. rewrite decide_False by (by intros [?|?]).
  rewrite run_ret. cbv beta iota. rewrite run_bind, run_gets, Hh. cbv beta iota.
  rewrite run_bind, run_modify. cbv beta iota. rewrite run_bind.
  unfold try_except, try_else, signal_signal. cbn [g_env set_handlers]. by rewrite He.
Qed.

(** C37: Signal handlers, round trip.  Adding a handler makes an arriving signal
    schedule the callback once and wake the loop; removing it answers [True],
    gives [_signal_handlers] back as it was, lets later signals schedule nothing,
    and answers [False] from then on.  The disposition left behind is the default
    action of the system, whatever it was before. *)
Theorem signal_handler_roundtrip n cb (w : W) :
  (1 ≤ n < NSIG)%Z → n ≠ SIGKILL → n ≠ SIGSTOP → closed (g_loop w) = false →
  (∀ e, ∃ e', os_signal n e = (Ret tt, e')) → g_handlers w !! n = None →
  let added := add_signal_handler (SigInt n) (Callable cb) w in
  let arrived := deliver_signal n added.2 in
  let removed := remove_signal_handler (SigInt n) arrived.2 in
  added.1 = Ret tt ∧ arrived.1 = Ret tt ∧
  g_loop arrived.2 = soon cb (g_loop w) ∧ g_notified arrived.2 = true ∧
  removed.1 = Ret true ∧ g_handlers removed.2 = g_handlers w ∧
  g_dispositions removed.2 = <[n := SIG_DFL]> (g_dispositions w) ∧
  deliver_signal n removed.2 = (Ret tt, removed.2) ∧
  remove_signal_handler (SigInt n) removed.2 = (Ret false, removed.2).
Proof.
  intros Hn Hk Hs Hc Hos Hno. cbv zeta. destruct (Hos (g_env w)) as [e1 He1].
  rewrite (add_run n cb e1) by done. cbn [fst snd]. set (w1 := MkSignals _ _ _ _ _).
  assert (deliver_signal n w1 = (Ret tt, MkSignals (soon cb (g_loop w)) (g_handlers w1)
    (g_dispositions w1) true e1)) as ->.
  { unfold deliver_signal. rewrite run_bind, run_gets. cbn [g_dispositions w1].
    rewrite lookup_insert_eq. cbv beta iota. rewrite run_bind. unfold call_soon_threadsafe.
    rewrite run_bind. unfold on_loop, zoom. change (lget w1) with (g_loop w).
    by rewrite call_soon_open. }
  cbn [fst snd]. set (w2 := MkSignals _ _ _ _ _). destruct (Hos (g_env w2)) as [e2 He2].
  rewrite (remove_run n cb e2); try done; [|apply lookup_insert_eq]. cbn [fst snd].
  set (w3 := MkSignals _ _ _ _ _).
  assert (g_handlers w3 = g_handlers w) as Hh by (by apply delete_insert_id).
  split_and!; try done.
  - simpl. apply insert_insert_eq.
  - unfold deliver_signal. rewrite run_bind, run_gets. cbn [g_dispositions w3].
    by rewrite lookup_insert_eq.
  - unfold remove_signal_handler. rewrite run_bind. cbn [_check_signal].
    rewrite decide_False by tauto. rewrite decide_False by (by intros [?|?]).
    rewrite run_ret. cbv beta iota. by rewrite run_bind, run_gets, Hh, Hno.
Qed.

(** The process runs what the loop has registered: along any sequence of
    additions, removals and signals, whatever fails, a signal with an entry in
    [_signal_handlers] has that entry's handler.  Nothing removes the handlers
    when the loop is closed, so a signal that arrives then raises in the main
    thread. *)
Theorem signals_installed (l : list (sig_arg * option callable)) (w : W) :
  installed w →
  let w' := foldl (λ w s, match s.2 with
                          | Some c => (add_signal_handler s.1 c w).2
                          | None => (remove_signal_handler s.1 w).2
                          end) w l in
  installed w' ∧
  ∀ n cb, g_handlers w' !! n = Some cb → closed (g_loop w') = true →
    (deliver_signal n w').1 = Raise (RuntimeError "Event loop is closed").
Proof.
  intros Hi. cbv zeta. set (w' := foldl _ w l).
  assert (installed w') as Hi'.
  { subst w'. revert w Hi. induction l as [|[s [c|]] l IH]; intros w Hi; simpl; [done|..].
    - by apply IH, add_installed.
    - by apply IH, remove_installed. }
  split; [done|]. intros n cb Hh Hc. unfold deliver_signal.
  rewrite run_bind, run_gets, (Hi' _ _ Hh). cbv beta iota. rewrite run_bind.
  unfold call_soon_threadsafe. rewrite run_bind. unfold on_loop, zoom, call_soon, check_closed.
  change (lget w') with (g_loop w'). by rewrite run_bind, run_bind, run_gets, Hc.
Qed.
End signals.

(** ** Instances *)

(** SIGINT with the interpreter's handler, as every Python process starts. *)
Definition fresh_process : signals unit :=
  MkSignals empty_loop ∅ {[ SIGINT := default_int_handler ]} false tt.

Lemma signal_handler_roundtrip_witness :
  let removed := remove_signal_handler (λ _, mret tt) (SigInt SIGINT)
    (deliver_signal SIGINT
       (add_signal_handler (λ _, mret tt) (SigInt SIGINT) (Callable (CbUser 7)) fresh_process).2).2 in
  removed.1 = Ret true ∧ g_handlers removed.2 = ∅ ∧
  g_dispositions removed.2 = {[ SIGINT := SIG_DFL ]} ∧
  re_callback <$> ready (g_loop removed.2) = [CbUser 7].
Proof.
  cbv zeta.
  destruct (signal_handler_roundtrip (λ _, mret tt) SIGINT (CbUser 7) fresh_process)
    as (_ & _ & _ & _ & H1 & H2 & H3 & _); try discriminate; try reflexivity.
  - split; [discriminate|reflexivity].
  - intros []. exists tt. reflexivity.
  - split; [exact H1|]. split; [exact H2|]. split; [exact H3|reflexivity].
Defined.

Lemma signals_installed_witness :
  let w := fresh_process in
  let w' := (add_signal_handler (λ _, mret tt) (SigInt SIGINT) (Callable (CbUser 7)) w).2 in
  g_handlers w' !! SIGINT = Some (CbUser 7) ∧ installed w'.
Proof.
  cbv zeta. split; [reflexivity|].
  apply (signals_installed (λ _, mret tt) [(SigInt SIGINT, Some (Callable (CbUser 7)))] fresh_process).
  intros n cb H. discriminate H.
Defined.
