(* ===== verification/Lifecycle.v ===== *)
(** * Running the loop (src/event_loop.rs, lines 277-323, 348-362, 400-452 and
    562-621)

    [run_main], [run_forever] and [run_until_complete] on top of one batch, with
    what they set up in the interpreter.  Yielding and parking are parameters: what
    other threads, watcher tasks and the clock have done when the loop goes on. *)

From Stdlib Require Import Strings.Byte.
From stdpp Require Import base tactics list gmap strings.
From S2P Require Import Prelude State Reactor Env Loop LoopFrame Scheduler SchedulerProps SchedulerFrame.

(** What [run_forever] touches in the interpreter, for its thread: the hooks for
    asynchronous generators and asyncio's running loop; and the loop's own
    [thread_id] and [old_hooks]. *)
Abbreviation agen_hooks := (option callback * option callback)%type.
Record interpreter := MkInterp {
  asyncgen_hooks : agen_hooks;
  running_loop : option nat;
  thread_id : Z;
  old_hooks : option agen_hooks;
}.
Class HasInterp (A : Type) := {
  iget : A → interpreter;
  iset : interpreter → A → A;
  iget_iset i a : iget (iset i a) = i;
  iset_iset i j a : iset i (iset j a) = iset i a;
}.

Section lifecycle.
Context {A : Type} `{!HasInterp A}.
Local Abbreviation W := (sched A).
Context (call : callback → M W unit) (deliver : callback → IoData → M W unit)
  (handler : exn → M W unit) (clock : A → f64).

(** [yield_now().await]; what [notified().await], within the deadline's timeout if
    there is one, waits for when no permit is stored; the loop as asyncio knows it, its two hooks, and [get_ident]. *)
Context (yield_now : W → W) (park : deadline → W → W).
Context (me : nat) (hooks : agen_hooks) (get_ident : Z).

Definition interp (w : W) : interpreter := iget (app w).
Definition set_interp (i : interpreter) (w : W) : W :=
  MkSched (s_loop w) (timers w) (next_seq w) (io w) (running w) (stop_requested w) (ran w)
    (released w) (permit w) (iset i (app w)).

Definition set_running (b : bool) (w : W) : W :=
  MkSched (s_loop w) (timers w) (next_seq w) (io w) b (stop_requested w) (ran w) (released w) (permit w)
    (app w).

(** How [run_main] ends: left by [break], or by a panic; [OutOfFuel] cuts it. *)
Inductive main_end := Left_ | Panicked | OutOfFuel.

Definition has_work (w : W) : bool :=
  bool_decide (ready (s_loop w) ≠ []) || bool_decide (io w ≠ []) || timers_due clock w.

(** With work left, watcher tasks are given a turn only if there are any. *)
Definition watchers_turn (w : W) : W :=
  if decide (n_watchers (reactor (s_loop w)) = 0%Z) then w else yield_now w.

(** [notify.notified().await]: a stored permit is taken and the loop goes on at
    once. *)
Definition notified (d : deadline) (w : W) : W :=
  if permit w then set_permit false w else park d w.
(** No work left: [d.is_zero()] yields, any other deadline parks. *)
Definition pause (d : deadline) (w : W) : W :=
  match d with
  | Duration 0 => yield_now w
  | d => notified d w
  end.

(** [run_main]: each batch has [fuel] for its loops. *)
Fixpoint run_main (batches fuel : nat) : M W main_end :=
  match batches with
  | 0 => mret OutOfFuel
  | S batches =>
      done ← run_batch call deliver handler clock fuel;
      if negb done then mret OutOfFuel else
      stop ← gets stop_requested;
      if (stop : bool) then mret Left_ else
      c ← loop_get closed;
      if (c : bool) then mret Left_ else
      work ← gets has_work;
      if (work : bool) then modify watchers_turn;; run_main batches fuel else
      d ← gets (next_deadline clock);
      match d with
      | Panics => mret Panicked
      | d => modify (pause d);; run_main batches fuel
      end
  end.

Definition check_running : M W unit :=
  r ← gets running;
  if (r : bool) then raise (RuntimeError "This event loop is already running") else
  other ← gets (λ w, running_loop (interp w));
  match other with
  | Some _ => raise (RuntimeError "Cannot run the event loop while another loop is running")
  | None => mret tt
  end.

(** The steps of [run_forever_impl] around the loop: [get_asyncgen_hooks],
    [set_asyncgen_hooks], [_set_running_loop], [state.thread_id]. *)
Definition on_interp (f : interpreter → interpreter) : M W unit :=
  modify (λ w, set_interp (f (interp w)) w).
Definition save_hooks (i : interpreter) :=
  MkInterp (asyncgen_hooks i) (running_loop i) (thread_id i) (Some (asyncgen_hooks i)).
Definition set_asyncgen_hooks (h : agen_hooks) (i : interpreter) :=
  MkInterp h (running_loop i) (thread_id i) (old_hooks i).
Definition set_thread_id (n : Z) (i : interpreter) :=
  MkInterp (asyncgen_hooks i) (running_loop i) n (old_hooks i).
Definition _set_running_loop (l : option nat) (i : interpreter) :=
  MkInterp (asyncgen_hooks i) l (thread_id i) (old_hooks i).
Definition restore_hooks (i : interpreter) :=
  MkInterp (default (asyncgen_hooks i) (old_hooks i)) (running_loop i) (thread_id i) None.

(** [run_forever_impl]; a panic unwinds past the clean-up. *)
Definition run_forever (batches fuel : nat) : M W main_end :=
  on_loop check_closed;;
  check_running;;
  on_interp save_hooks;;
  on_interp (set_asyncgen_hooks hooks);;
  on_interp (set_thread_id get_ident);;
  on_interp (_set_running_loop (Some me));;
  modify (set_stop false);;
  modify (set_running true);;
  e ← run_main batches fuel;
  match e with
  | Left_ =>
      modify (set_running false);;
      modify (set_stop false);;
      on_interp (set_thread_id (-1));;
      on_interp (_set_running_loop None);;
      on_interp restore_hooks
  | _ => mret tt
  end;;
  mret e.

(** [fut.result()], of a future that is done. *)
Definition result_of (s : fut_state) : res value :=
  match s with
  | Result v => Ret v
  | Exception e => Raise e
  | Cancelled => Raise CancelledError
  | Pending => Raise InvalidStateError
  end.

(** [fut] is what [ensure_future] makes of the argument.  The callback [stop_cb],
    asyncio's [_run_until_complete_cb], is added to it and removed afterwards
    ([remove_cb]), whose errors are ignored. *)
Definition run_until_complete (stop_cb : callback) (remove_cb : fut_id → M W unit) (fut : fut_id)
    (batches fuel : nat) : M W (option value) :=
  on_loop check_closed;;
  check_running;;
  on_loop (add_done_callback fut stop_cb);;
  e ← try_except (run_forever batches fuel) (λ exc, swallow (remove_cb fut);; raise exc);
  match e with
  | Left_ =>
      swallow (remove_cb fut);;
      d ← loop_get (fut_done fut);
      if negb d then raise (RuntimeError "Event loop stopped before Future completed.")
      else
        s ← loop_get (fut_lookup fut);
        match result_of s with Ret v => mret (Some v) | Raise e => raise e end
  | _ => mret None
  end.

(** ** Properties *)

Lemma check_closed_world (w : W) :
  closed (s_loop w) = false → on_loop check_closed w = (Ret tt, w).
Proof.
  intros Hc. unfold on_loop, zoom. change (lget w) with (s_loop w).
  rewrite check_closed_open by done. by destruct w.
Qed.

(** The state the first batch sees, and the state after the clean-up. *)
Definition started (w : W) : W :=
  set_running true (set_stop false (set_interp
    (MkInterp hooks (Some me) get_ident (Some (asyncgen_hooks (interp w)))) w)).
Definition finished (w : W) : W :=
  set_interp (MkInterp (default (asyncgen_hooks (interp w)) (old_hooks (interp w))) None (-1) None)
    (set_stop false (set_running false w)).

Lemma interp_set i (w : W) : interp (set_interp i w) = i.
Proof. apply iget_iset. Qed.
Lemma set_interp_twice i j (w : W) : set_interp i (set_interp j w) = set_interp i w.
Proof. unfold set_interp. cbn. by rewrite iset_iset. Qed.
Lemma run_on_interp f (w : W) : on_interp f w = (Ret tt, set_interp (f (interp w)) w).
Proof. done. Qed.

Lemma run_forever_run batches fuel (w : W) :
  closed (s_loop w) = false → running w = false → running_loop (interp w) = None →
  run_forever batches fuel w =
    match run_main batches fuel (started w) with
    | (Ret Left_, w') => (Ret Left_, finished w')
    | out => out
    end.
Proof.
  intros Hc Hr Ho. unfold run_forever. rewrite run_bind, check_closed_world by done. cbv beta iota.
  unfold check_running. rewrite run_bind, run_bind, run_gets, Hr. cbv beta iota.
  rewrite run_bind, run_gets, Ho. cbv beta iota. rewrite run_ret. cbv beta iota.
  do 4 (rewrite run_bind, run_on_interp; cbv beta iota).
  do 2 (rewrite run_bind, run_modify; cbv beta iota).
  rewrite !interp_set, !set_interp_twice. unfold save_hooks, set_asyncgen_hooks, set_thread_id,
    _set_running_loop. cbn [asyncgen_hooks running_loop thread_id old_hooks].
  fold (started w). rewrite run_bind.
  destruct (run_main batches fuel (started w)) as [[[]|x] w']; cbv beta iota; [|done..].
  rewrite run_bind. do 2 (rewrite run_bind, run_modify; cbv beta iota).
  do 2 (rewrite run_bind, run_on_interp; cbv beta iota). rewrite run_on_interp. cbv beta iota.
  rewrite run_ret, !interp_set, !set_interp_twice. done.
Qed.

(** The batches after which the loop has not been asked to stop, and the state the
    next one starts from. *)
Inductive turns (fuel : nat) : nat → W → W → Prop :=
  | turns_none w : turns fuel 0 w w
  | turns_more n w w1 w2 w3 :
      run_batch call deliver handler clock fuel w = (Ret true, w1) →
      stop_requested w1 = false → closed (s_loop w1) = false →
      (if has_work w1 then w2 = watchers_turn w1
       else match next_deadline clock w1 with
            | Panics => False
            | d => w2 = pause d w1
            end) →
      turns fuel n w2 w3 → turns fuel (S n) w w3.

Lemma run_main_turns fuel n (w w1 w2 : W) k :
  turns fuel n w w1 → run_batch call deliver handler clock fuel w1 = (Ret true, w2) →
  stop_requested w2 = true → n < k → run_main k fuel w = (Ret Left_, w2).
Proof.
  intros Ht Hb Hs. revert k. induction Ht as [w|n w wa wb wc Hba Hsa Hca Hnext Ht IH]; intros k Hk;
    (destruct k as [|k]; [lia|]); cbn [run_main]; rewrite run_bind.
  - rewrite Hb. cbn [negb]. rewrite run_bind, run_gets, Hs. done.
  - rewrite Hba. cbn [negb]. rewrite run_bind, run_gets, Hsa. cbv beta iota.
    rewrite run_bind. unfold loop_get. rewrite run_gets. change (lget wa) with (s_loop wa).
    rewrite Hca. rewrite run_bind, run_gets. specialize (IH Hb).
    destruct (has_work wa); [subst wb; rewrite run_bind, run_modify; apply IH; lia|].
    rewrite run_bind, run_gets.
    destruct (next_deadline clock wa); subst; rewrite ?run_bind, ?run_modify; try (apply IH; lia);
      done.
Qed.

(** [old_hooks] is private to [run_forever]. *)
Definition Rprivate (w w' : W) : Prop := old_hooks (interp w') = old_hooks (interp w).
#[export] Instance Rprivate_preorder : PreOrder Rprivate.
Proof. split; [done|intros w1 w2 w3; unfold Rprivate; congruence]. Qed.
Class PrivateHooks : Prop := {
  ph_batch :: BatchFrame call deliver handler Rprivate;
  ph_yield w : Rprivate w (yield_now w);
  ph_park d w : Rprivate w (park d w);
}.
Context `{!PrivateHooks}.

Lemma pause_moves (R : relation W) d (w : W) :
  (∀ w, R w (yield_now w)) → (∀ d w, R w (park d w)) → (∀ w, R w (set_permit false w)) →
  R w (pause d w).
Proof.
  intros Hy Hp Hs. unfold pause, notified.
  destruct d as [|[]|]; auto; destruct (permit w); auto.
Qed.

Lemma turns_private fuel n (w w' : W) : turns fuel n w w' → Rprivate w w'.
Proof.
  induction 1 as [w|n w w1 w2 w3 Hb _ _ Hnext _ IH]; [done|]. etrans; [|exact IH].
  pose proof (run_batch_frame call deliver handler clock Rprivate fuel w) as H1.
  rewrite Hb in H1. cbn [snd] in H1. etrans; [exact H1|].
  destruct (has_work w1); [subst w2; unfold watchers_turn; case_decide; [done|apply ph_yield]|].
  destruct (next_deadline clock w1); subst; try done; by apply pause_moves; [apply ph_yield|apply ph_park|].
Qed.

(** What both properties rest on. *)
Lemma run_forever_left fuel n (w w1 w2 : W) :
  closed (s_loop w) = false → running w = false → running_loop (interp w) = None →
  turns fuel n (started w) w1 → run_batch call deliver handler clock fuel w1 = (Ret true, w2) →
  stop_requested w2 = true →
  (∀ k, n < k → run_forever k fuel w = (Ret Left_, finished w2)) ∧
  interp (finished w2) = MkInterp (asyncgen_hooks (interp w)) None (-1) None.
Proof.
  intros Hc Hr Ho Ht Hb Hs. split.
  - intros k Hk. rewrite run_forever_run by done.
    by rewrite (run_main_turns fuel n (started w) w1 w2 k Ht Hb Hs Hk).
  - pose proof (turns_private _ _ _ _ Ht) as H1.
    pose proof (run_batch_frame call deliver handler clock Rprivate fuel w1) as H2.
    rewrite Hb in H2. cbn [snd] in H2. unfold finished. rewrite interp_set.
    assert (old_hooks (interp w2) = Some (asyncgen_hooks (interp w))) as ->; [|done].
    unfold Rprivate in *. rewrite H2, H1. unfold interp, started. cbn. by rewrite iget_iset.
Qed.

(** C35: [run_forever] and [stop].  On an open loop that nothing runs, it goes
    through batches until one leaves a request to stop, then returns with both
    flags cleared: it needs no more batches than that, and none is cut short.  The
    hooks for asynchronous generators are then those it found, no loop is running
    in the thread and none has its identifier, whatever the callbacks did to them.
    A request made before [run_forever] does not stop it: all that is left of it is
    the permit its notification has stored, so that the first wait goes on at
    once; with a permit stored already, nothing. *)
Theorem run_forever_stops fuel n (w w1 w2 : W) :
  closed (s_loop w) = false → running w = false → running_loop (interp w) = None →
  turns fuel n (started w) w1 → run_batch call deliver handler clock fuel w1 = (Ret true, w2) →
  stop_requested w2 = true →
  (∀ k, n < k → run_forever k fuel w = (Ret Left_, finished w2)) ∧
  running (finished w2) = false ∧ stop_requested (finished w2) = false ∧
  interp (finished w2) = MkInterp (asyncgen_hooks (interp w)) None (-1) None ∧
  ∀ k f, run_forever k f (stop w).2 = run_forever k f (set_permit true w) ∧
         (permit w = true → run_forever k f (stop w).2 = run_forever k f w).
Proof.
  intros Hc Hr Ho Ht Hb Hs. destruct (run_forever_left fuel n w w1 w2 Hc Hr Ho Ht Hb Hs) as [Hk Hi].
  split_and!; [done..|]. intros k f.
  assert (run_forever k f (stop w).2 = run_forever k f (set_permit true w)) as Hp
    by (by rewrite !run_forever_run). split; [done|].
  intros Ht'. rewrite Hp. f_equal. destruct w; cbn in *. by subst.
Qed.


(** ** [run_until_complete] *)

Section until_complete.
Context (stop_cb : callback) (remove_cb : fut_id → M W unit) (fut : fut_id).

Definition exits (s : fut_state) : bool := match s with Exception e => is_exit e | _ => false end.

(** What has been decided stays: a request to stop, and the future's outcome. *)
Record Rdecided (w w' : W) : Prop := {
  rd_stop : stop_requested w = true → stop_requested w' = true;
  rd_done : fut_done fut (s_loop w) = true →
            fut_lookup fut (s_loop w') = fut_lookup fut (s_loop w);
}.
#[export] Instance Rdecided_preorder : PreOrder Rdecided.
Proof.
  split; [by split|]. intros w1 w2 w3 [s1 d1] [s2 d2]. split; [auto|].
  intros Hd. rewrite d2; [by apply d1|]. unfold fut_done. by rewrite d1.
Qed.

(** asyncio's callback stops the loop, unless the future ended by an exception that
    is to leave the loop by itself; removing it leaves the future alone. *)
Class CompleteLaws : Prop := {
  cl_stop w : exits (fut_lookup fut (s_loop w)) = false → call stop_cb w = stop w;
  cl_exit w : exits (fut_lookup fut (s_loop w)) = true → call stop_cb w = (Ret tt, w);
  cl_remove w : fut_lookup fut (s_loop (remove_cb fut w).2) = fut_lookup fut (s_loop w);
  cl_decided :: BatchFrame call deliver handler Rdecided;
}.
Context `{!CompleteLaws}.

(** Adding the callback. *)
Lemma add_stop_cb (w : W) :
  closed (s_loop w) = false →
  ∃ l, on_loop (add_done_callback fut stop_cb) w = (Ret tt, set_loop l w) ∧ closed l = false.
Proof.
  intros Hc. unfold on_loop, zoom. change (lget w) with (s_loop w). unfold add_done_callback.
  assert (∃ l, (call_soon stop_cb;; mret tt) (s_loop w) = (Ret tt, l) ∧ closed l = false)
    as (l & Hcall & Hl).
  { rewrite run_bind, call_soon_open by done. by eexists. }
  destruct (futs (s_loop w) !! fut) as [[[] cbs]|]; try (rewrite Hcall; by eexists).
  by eexists.
Qed.

(** A batch with the callback in its snapshot ends with the request to stop, and
    with the future as it was. *)
Lemma stopping_batch late `{!CallbackLaws call deliver handler late} fuel e (w w' : W) :
  run_batch call deliver handler clock fuel w = (Ret true, w') →
  fut_done fut (s_loop w) = true → exits (fut_lookup fut (s_loop w)) = false →
  e ∈ ready (s_loop w) → re_callback e = stop_cb → allocated w e → is_cancelled e w' = false →
  stop_requested w' = true ∧ fut_lookup fut (s_loop w') = fut_lookup fut (s_loop w).
Proof.
  intros Hb Hd Hx Hin He Ha Hcan.
  pose proof (run_batch_frame call deliver handler clock Rdecided fuel w) as [_ Hfut].
  destruct (batch_runs_entry call deliver handler clock late Rdecided e fuel w Hin Ha)
    as (u & [_ Hu] & [Hend _]); [by rewrite Hb|].
  rewrite Hb in Hend, Hfut. split; [|by apply Hfut].
  apply Hend. rewrite He. unfold reported, try_except, try_else.
  rewrite cl_stop; [done|]. change (s_loop (add_ran e u)) with (s_loop u). by rewrite Hu.
Qed.

(** C36: [run_until_complete].  On an open loop that nothing runs: when the batches
    of the loop come to one that starts with the future done, by a result, a
    cancellation or an exception other than [SystemExit] and [KeyboardInterrupt],
    and with the callback asyncio added to it scheduled, that batch is the last,
    whatever else it runs; the result is the future's, returned or raised, the
    callback is removed, the loop is no longer running and the interpreter's hooks
    are those found.  (For the two exceptions left out nothing stops the loop:
    [exit_never_returns].) *)
Theorem run_until_complete_returns late `{!CallbackLaws call deliver handler late}
    fuel n e (w w1 w2 : W) :
  closed (s_loop w) = false → running w = false → running_loop (interp w) = None →
  turns fuel n (started (on_loop (add_done_callback fut stop_cb) w).2) w1 →
  run_batch call deliver handler clock fuel w1 = (Ret true, w2) →
  fut_done fut (s_loop w1) = true → exits (fut_lookup fut (s_loop w1)) = false →
  e ∈ ready (s_loop w1) → re_callback e = stop_cb → allocated w1 e → is_cancelled e w2 = false →
  (∀ k, n < k → run_until_complete stop_cb remove_cb fut k fuel w =
    (match result_of (fut_lookup fut (s_loop w1)) with
     | Ret v => Ret (Some v)
     | Raise exc => Raise exc
     end, (remove_cb fut (finished w2)).2)) ∧
  running (finished w2) = false ∧
  interp (finished w2) = MkInterp (asyncgen_hooks (interp w)) None (-1) None.
Proof.
  intros Hc Hr Ho Ht Hb Hd Hx Hin He Ha Hcan.
  destruct (stopping_batch late fuel e w1 w2 Hb Hd Hx Hin He Ha Hcan) as [Hs Hf].
  destruct (add_stop_cb w Hc) as (l & Hadd & Hcl).
  rewrite Hadd in Ht. cbn [snd] in Ht. set (w0 := set_loop l w) in *.
  destruct (run_forever_left fuel n w0 w1 w2 Hcl Hr Ho Ht Hb Hs) as [Hrun Hint].
  split_and!; [|done|exact Hint]. intros k Hk.
  unfold run_until_complete. rewrite run_bind, check_closed_world by done. cbv beta iota.
  rewrite run_bind. unfold check_running. rewrite run_bind, run_gets, Hr. cbv beta iota.
  rewrite run_bind, run_gets, Ho. cbv beta iota. rewrite run_ret. cbv beta iota.
  rewrite run_bind, Hadd. cbv beta iota. rewrite run_bind. unfold try_except at 1, try_else at 1.
  fold w0. rewrite (Hrun k Hk). rewrite run_ret. cbv beta iota. rewrite run_bind. unfold swallow at 1.
  cbv beta iota. set (w3 := (remove_cb fut (finished w2)).2).
  assert (fut_lookup fut (s_loop w3) = fut_lookup fut (s_loop w1)) as Hw3
    by (unfold w3; rewrite cl_remove; exact Hf).
  unfold loop_get. rewrite run_bind, run_gets. change (lget w3) with (s_loop w3).
  unfold fut_done in *. rewrite Hw3, Hd. cbn [negb]. rewrite run_bind, run_gets.
  change (lget w3) with (s_loop w3). rewrite Hw3. by destruct (result_of _).
Qed.

(** A future that ends by [SystemExit] or [KeyboardInterrupt].  The loop reports the
    exception like any other and goes on, and asyncio's callback leaves the stopping
    to the exception: unless something else asks for it, the loop never ends. *)
Definition going (w : W) : Prop :=
  stop_requested w = false ∧ closed (s_loop w) = false ∧ exits (fut_lookup fut (s_loop w)) = true.
Definition Rgoing : relation W := keeps going.
Lemma exit_never_returns `{!BatchFrame call deliver handler Rgoing} k fuel (w : W) :
  (∀ w, Rgoing w (yield_now w)) → (∀ d w, Rgoing w (park d w)) →
  going w → (run_main k fuel w).1 ≠ Ret Left_.
Proof.
  intros Hyield Hpark. revert w. induction k as [|k IH]; intros w Hw; [done|]. cbn [run_main].
  rewrite run_bind. pose proof (run_batch_frame call deliver handler clock Rgoing fuel w Hw) as Hw1.
  destruct (run_batch _ _ _ _ fuel w) as [[[]|x] w1]; cbn [snd] in Hw1; [|done..]. cbn [negb].
  rewrite run_bind, run_gets. destruct (Hw1) as (Hs & Hc & _). rewrite Hs. cbv beta iota.
  rewrite run_bind. unfold loop_get. rewrite run_gets. change (lget w1) with (s_loop w1). rewrite Hc.
  rewrite run_bind, run_gets. destruct (has_work w1).
  { rewrite run_bind, run_modify. apply IH. unfold watchers_turn. case_decide; [done|by apply Hyield]. }
  rewrite run_bind, run_gets.
  destruct (next_deadline clock w1); rewrite ?run_bind, ?run_modify; try done; apply IH;
    (apply (pause_moves Rgoing); [done|done|by intros ? ?|done]).
Qed.
End until_complete.
End lifecycle.

(** Three batches: one that schedules more work, one that does it, and one, after
    parking, that runs a callback that stops the loop and another that changes the
    hooks. *)
Definition plain : interpreter := MkInterp (Some (CbUser 7), None) None (-1) None.
#[local] Instance own_interp : HasInterp interpreter := {|
  iget i := i; iset i _ := i; iget_iset _ _ := eq_refl; iset_iset _ _ _ := eq_refl |}.
Abbreviation demo := (sched interpreter).
Definition stop_call (c : callback) : M demo unit :=
  match c with
  | CbUser 0 => on_loop (call_soon (CbUser 1));; mret tt
  | CbUser 1 => on_interp (set_asyncgen_hooks (None, None))
  | CbUser 2 => stop
  | _ => mret tt
  end.
Definition stop_park (d : deadline) (w : demo) : demo :=
  (on_loop (call_soon (CbUser 2)) w).2.
Definition stop_start : demo :=
  (on_loop (call_soon (CbUser 0)) (MkSched empty_loop [] 0 [] false false [] [] false plain)).2.
Abbreviation stop_run k :=
  (run_forever stop_call (λ _ _, mret tt) (λ _, mret tt) (λ _, Fin 0) (λ w, w) stop_park
     0 (Some (CbUser 8), Some (CbUser 9)) 11 k 4).
Abbreviation stop_batch w :=
  (run_batch stop_call (λ _ _, mret tt) (λ _, mret tt) (λ _, Fin 0) 4 w).2.

Lemma stop_private : PrivateHooks stop_call (λ _ _, mret tt) (λ _, mret tt) (λ w, w) stop_park.
Proof.
  assert (∀ A (m : M LoopState A), moves Rprivate (on_loop (W := demo) m)) as Hloop
    by (intros; by apply moves_zoom).
  split; [|done|intros d w; apply Hloop]. split; [apply _| |done|done|].
  - intros c. destruct c; try (by intros w). destruct n as [|[|[|n]]]; try (by intros w).
    apply moves_bind; [apply _|apply Hloop|done].
  - intros w w' Ha%queues_only_app. unfold Rprivate, interp. by rewrite Ha.
Qed.

Lemma run_forever_stops_witness :
  let w := (stop_run 3 stop_start).2 in
  (stop_run 3 stop_start).1 = Ret Left_ ∧ re_callback <$> ran w = [CbUser 0; CbUser 1; CbUser 2] ∧
  stop_run 9 stop_start = (Ret Left_, w) ∧ running w = false ∧ interp w = plain ∧
  stop_run 9 (stop stop_start).2 = stop_run 9 (set_permit true stop_start).
Proof.
  cbv zeta. pose proof stop_private.
  assert (running_loop (interp stop_start) = None) as Ho by reflexivity.
  set (w0 := started 0 (Some (CbUser 8), Some (CbUser 9)) 11 stop_start).
  set (w1 := stop_batch w0). set (w2 := stop_park NoTimer (stop_batch w1)).
  assert (turns stop_call (λ _ _, mret tt) (λ _, mret tt) (λ _, Fin 0) (λ w, w) stop_park 4 2 w0 w2)
    as Ht.
  { apply turns_more with w1 w1; [vm_compute; reflexivity..|].
    apply turns_more with (stop_batch w1) w2; [vm_compute; reflexivity..|]. apply turns_none. }
  destruct (run_forever_stops stop_call (λ _ _, mret tt) (λ _, mret tt) (λ _, Fin 0) (λ w, w)
    stop_park 0 (Some (CbUser 8), Some (CbUser 9)) 11 4 2 stop_start w2 (stop_batch w2)
    eq_refl eq_refl Ho Ht ltac:(vm_compute; reflexivity) ltac:(vm_compute; reflexivity))
    as (Hrun & _ & _ & _ & Hstop).
  split; [vm_compute; reflexivity|]. split; [vm_compute; reflexivity|].
  split; [rewrite !Hrun by lia; reflexivity|]. do 2 (split; [vm_compute; reflexivity|]). exact (proj1 (Hstop 9 4)).
Defined.

(** A timer with an infinite deadline: parking panics, and nothing is restored.
    The loop counts as running, so it can neither be run nor closed, and no other
    loop can run in the thread. *)
Lemma panic_leaves_running :
  let w := (stop_run 3 (call_at PInf (CbUser 2) stop_start).2) in
  w.1 = Ret Panicked ∧
  interp w.2 = MkInterp (None, None) (Some 0) 11 (Some (Some (CbUser 7), None)) ∧
  (close_loop w.2).1 = Raise (RuntimeError "Cannot close a running event loop") ∧
  (stop_run 3 w.2).1 = Raise (RuntimeError "This event loop is already running").
Proof. vm_compute. split_and!; reflexivity. Qed.

(** *** A task *)

(** A future that a task, callback [0], completes; [9] is the callback that stops
    the loop. *)
Definition task_call (c : callback) : M demo unit :=
  match c with
  | CbUser 0 => on_loop (set_result 0 (VInt 42))
  | CbUser 1 => on_loop (set_exception 0 SystemExit);; raise SystemExit
  | CbUser 9 => x ← loop_get (λ s, exits (fut_lookup 0 s)); if (x : bool) then mret tt else stop
  | _ => mret tt
  end.
Definition task_start (n : nat) : demo :=
  (on_loop (create_future;; call_soon (CbUser n))
     (MkSched empty_loop [] 0 [] false false [] [] false plain)).2.
Definition keep_cb (f : fut_id) : M demo unit := mret tt.
Abbreviation task_run n k :=
  (run_until_complete task_call (λ _ _, mret tt) (λ _, mret tt) (λ _, Fin 0) (λ w, w) (λ _ w, w)
     0 (Some (CbUser 8), Some (CbUser 9)) 11 (CbUser 9) keep_cb 0 k 4 (task_start n)).

Lemma task_call_moves (R : relation demo) c :
  PreOrder R → moves R (task_call (CbUser 0)) → moves R (task_call (CbUser 1)) →
  moves R (task_call (CbUser 9)) → moves R (task_call c).
Proof.
  intros HR H0 H1 H9. destruct c; try by apply moves_ret.
  do 10 (destruct n as [|n]; [done || by apply moves_ret|]). by apply moves_ret.
Qed.
Lemma task_loop_frame (R : relation demo) :
  PreOrder R → (∀ w w', queues_only w w' → R w w') → moves R (task_call (CbUser 0)) →
  moves R (task_call (CbUser 1)) → moves R (task_call (CbUser 9)) →
  BatchFrame task_call (λ _ _, mret tt) (λ _, mret tt) R.
Proof.
  intros HR Hq H0 H1 H9. split; [done| |intros; by apply moves_ret..|done].
  intros c. by apply task_call_moves.
Qed.

Lemma task_private :
  PrivateHooks task_call (λ _ _, mret tt) (λ _, mret tt) (λ w, w) (λ _ w, w).
Proof.
  assert (∀ A (m : M LoopState A), moves Rprivate (on_loop (W := demo) m)) as Hloop
    by (intros; by apply moves_zoom).
  split; [|done..]. apply task_loop_frame; [apply _| | | |]; cbn [task_call].
  - intros w w' Ha%queues_only_app. unfold Rprivate, interp. by rewrite Ha.
  - apply Hloop.
  - apply moves_bind; [apply _|apply Hloop|by intros []].
  - unfold loop_get. moves_auto. by intros w.
Qed.
Lemma task_decided o : moves (Rdecided 0) (on_loop (W := demo) (fut_finish 0 o)).
Proof. apply moves_zoom. intros w. split; [done|]. apply (done_fut_finish 0 0 o (s_loop w)). Qed.
Lemma task_complete :
  CompleteLaws task_call (λ _ _, mret tt) (λ _, mret tt) (CbUser 9) keep_cb 0.
Proof.
  split; [| |done|].
  - intros w Hx. cbn [task_call]. unfold loop_get. rewrite run_bind, run_gets.
    change (lget w) with (s_loop w). by rewrite Hx.
  - intros w Hx. cbn [task_call]. unfold loop_get. rewrite run_bind, run_gets.
    change (lget w) with (s_loop w). by rewrite Hx.
  - apply task_loop_frame; [apply _| | | |]; cbn [task_call].
    + intros w w' [= _ _ Hs _ _ Hf _ _ _]. split; [by rewrite Hs|].
      intros _. unfold fut_lookup. by rewrite Hf.
    + apply task_decided.
    + apply moves_bind; [apply _|apply task_decided|by intros []].
    + unfold loop_get. moves_auto. by intros w.
Qed.
Lemma task_callbacks late : CallbackLaws task_call (λ _ _, mret tt) (λ _, mret tt) late.
Proof.
  assert (∀ o, moves (Rcb late) (on_loop (W := demo) (fut_finish 0 o))) as Hf
    by (intros o; apply loop_cb, loop_fut_finish).
  assert (PreOrder (Rcb (A := interpreter) late)) by apply _.
  split; [|intros; by apply moves_ret..]. intros c. apply task_call_moves; cbn [task_call].
  - apply _.
  - apply Hf.
  - apply moves_bind; [done|apply Hf|intros []; by apply moves_raise].
  - unfold loop_get. moves_auto. intros w. by apply Rcb_same.
Qed.

(** Two batches: the task completes the future, and the callback stops the loop. *)
Lemma run_until_complete_returns_witness :
  (task_run 0 2).1 = Ret (Some (VInt 42)) ∧ task_run 0 7 = task_run 0 2 ∧
  running (task_run 0 2).2 = false ∧ interp (task_run 0 2).2 = plain.
Proof.
  pose proof task_private. pose proof task_complete. pose proof (task_callbacks (λ _, True)).
  set (w0 := started 0 (Some (CbUser 8), Some (CbUser 9)) 11
    (on_loop (add_done_callback 0 (CbUser 9)) (task_start 0)).2).
  set (batch w := (run_batch task_call (λ _ _, mret tt) (λ _, mret tt) (λ _ : interpreter, Fin 0) 4 w).2).
  assert (turns task_call (λ _ _, mret tt) (λ _, mret tt) (λ _, Fin 0) (λ w, w) (λ _ w, w) 4 1
    w0 (batch w0)) as Ht.
  { apply turns_more with (batch w0) (batch w0); [vm_compute; reflexivity..|]. apply turns_none. }
  assert (running_loop (interp (task_start 0)) = None) as Ho by reflexivity.
  destruct (run_until_complete_returns task_call (λ _ _, mret tt) (λ _, mret tt) (λ _, Fin 0)
    (λ w, w) (λ _ w, w) 0 (Some (CbUser 8), Some (CbUser 9)) 11 (CbUser 9) keep_cb 0 (λ _, True)
    4 1 (MkReady (CbUser 9) 2) (task_start 0) (batch w0) (batch (batch w0)) eq_refl eq_refl Ho Ht)
    as (Hrun & Hr & Hi);
    [vm_compute; reflexivity..|vm_compute; by left|reflexivity|vm_compute; repeat constructor
    |vm_compute; reflexivity|].
  rewrite !Hrun by lia. split_and!; vm_compute; reflexivity.
Defined.

(** A task that ends by [SystemExit]: eight batches later the loop is still running. *)
Lemma exit_still_running :
  (task_run 1 9).1 = Ret None ∧ fut_lookup 0 (s_loop (task_run 1 9).2) = Exception SystemExit ∧
  running (task_run 1 9).2 = true.
Proof. vm_compute. split_and!; reflexivity. Qed.
