(* ===== verification/Executor.v ===== *)
(** * Executors and name resolution (python/tokioop/loop.py, lines 107-235)

    [run_in_executor], [set_default_executor], [shutdown_default_executor] with
    its thread, [getaddrinfo] and [getnameinfo], and what [close]
    (src/event_loop.rs) does to the default executor; with their properties. *)

From Stdlib Require Import Strings.Byte.
From stdpp Require Import base tactics list gmap strings.
From S2P Require Import Prelude State Reactor Env Loop.

(** ** State *)

(** What callers pass as a function; without debug mode only the worker that
    calls it finds out that it is none. *)
Inductive func :=
  | UserFunc (n : nat)
  | GetaddrinfoFunc (with_log : bool)
  | GetnameinfoFunc
  | CoroutineFunc
  | NotAFunction.

(** A [ThreadPoolExecutor]: whether it accepts jobs, the jobs that have not ended
    (each with the future of the loop that waits for it), and those that have. *)
Abbreviation job := (func * fut_id)%type.
Record pool := MkPool {
  p_open : bool;
  p_pending : list job;
  p_ended : list job;
}.

(** The thread of a [shutdown_default_executor]: created; inside
    [shutdown(wait=True)] of a pool; at its end. *)
Inductive thread_state := Starting | Joining (p : nat) | Over.
Record shutdown_thread := MkThread {
  t_future : fut_id;
  t_state : thread_state;
}.

(** The loop, [_default_executor], [_executor_shutdown_called], every pool and
    every such thread of the process, and [_task_factory]. *)
Record executors := MkExecutors {
  x_loop : LoopState;
  x_default : option nat;
  x_shutdown_called : bool;
  x_pools : list pool;
  x_threads : list shutdown_thread;
  x_task_factory : option nat;
}.

#[export] Instance executors_loop : HasLoop executors := {|
  lget := x_loop;
  lset l w := MkExecutors l (x_default w) (x_shutdown_called w) (x_pools w) (x_threads w)
                (x_task_factory w) |}.

Definition set_default (d : option nat) (w : executors) : executors :=
  MkExecutors (x_loop w) d (x_shutdown_called w) (x_pools w) (x_threads w) (x_task_factory w).
Definition set_pools (l : list pool) (w : executors) : executors :=
  MkExecutors (x_loop w) (x_default w) (x_shutdown_called w) l (x_threads w) (x_task_factory w).
Definition set_threads (l : list shutdown_thread) (w : executors) : executors :=
  MkExecutors (x_loop w) (x_default w) (x_shutdown_called w) (x_pools w) l (x_task_factory w).
Definition set_shutdown_called (w : executors) : executors :=
  MkExecutors (x_loop w) (x_default w) true (x_pools w) (x_threads w) (x_task_factory w).
Definition set_factory (f : option nat) (w : executors) : executors :=
  MkExecutors (x_loop w) (x_default w) (x_shutdown_called w) (x_pools w) (x_threads w) f.

Abbreviation X := (M executors).

(** What callers pass as a factory and as an executor. *)
Inductive factory := NoFactory | Factory (n : nat) | BadFactory.
Inductive executor_arg := ThreadPool (p : nat) | NotAThreadPool.

(** ** The pools ([concurrent.futures]) *)

(** [ThreadPoolExecutor()] *)
Definition new_pool : X nat :=
  p ← gets (λ w, length (x_pools w));
  modify (λ w, set_pools (x_pools w ++ [MkPool true [] []]) w);;
  mret p.

(** [executor.submit] and [futures.wrap_future]. *)
Definition submit (p : nat) (f : func) : X fut_id :=
  l ← gets (λ w, x_pools w !! p);
  match l with
  | Some (MkPool true q e) =>
      fut ← on_loop create_future;
      modify (λ w, set_pools (<[p := MkPool true (q ++ [(f, fut)]) e]> (x_pools w)) w);;
      mret fut
  | _ => raise (RuntimeError "cannot schedule new futures after shutdown")
  end.

(** [executor.shutdown]: no job is accepted any more. *)
Definition shut (p : nat) : X unit :=
  modify (λ w, set_pools (alter (λ x, MkPool false (p_pending x) (p_ended x)) p (x_pools w)) w).

(** A worker thread ends the [k]-th pending job; the loop is told unless it is
    closed. *)
Definition tell_loop (cb : callback) : X unit :=
  c ← loop_get closed;
  if (c : bool) then mret tt else on_loop (call_soon cb);; mret tt.
Definition worker (p k : nat) : X unit :=
  l ← gets (λ w, x_pools w !! p);
  match l with
  | Some (MkPool o q e) =>
      match q !! k with
      | Some j =>
          modify (λ w, set_pools (<[p := MkPool o (delete k q) (e ++ [j])]> (x_pools w)) w);;
          tell_loop (CbChainFuture j.2)
      | None => mret tt
      end
  | None => mret tt
  end.

(** ** The methods *)

Definition set_task_factory (f : factory) : X unit :=
  match f with
  | BadFactory => raise (TypeError "task factory must be a callable or None")
  | NoFactory => modify (set_factory None)
  | Factory n => modify (set_factory (Some n))
  end.
Definition get_task_factory : X (option nat) := gets x_task_factory.

Definition _check_callback (c : func) : X unit :=
  match c with
  | CoroutineFunc => raise (TypeError "coroutines cannot be used with run_in_executor()")
  | NotAFunction => raise (TypeError "a callable object was expected by run_in_executor()")
  | _ => mret tt
  end.

Definition _check_default_executor : X unit :=
  b ← gets x_shutdown_called;
  if (b : bool) then raise (RuntimeError "Executor shutdown has been called") else mret tt.

Definition run_in_executor (executor : option nat) (f : func) : X fut_id :=
  on_loop check_closed;;
  d ← loop_get debug;
  when_ d (_check_callback f);;
  p ← match executor with
      | Some p => mret p
      | None =>
          default ← gets x_default;
          _check_default_executor;;
          match default with
          | Some p => mret p
          | None =>
              p ← new_pool;
              modify (set_default (Some p));;
              mret p
          end
      end;
  submit p f.

Definition set_default_executor (e : executor_arg) : X unit :=
  match e with
  | NotAThreadPool => raise (TypeError "executor must be ThreadPoolExecutor instance")
  | ThreadPool p => modify (set_default (Some p))
  end.

Definition getaddrinfo : X fut_id :=
  d ← loop_get debug;
  run_in_executor None (GetaddrinfoFunc d).
Definition getnameinfo : X fut_id := run_in_executor None GetnameinfoFunc.

(** [shutdown_default_executor] up to its [await]: the future, if there is
    anything to wait for. *)
Definition begin_shutdown : X (option fut_id) :=
  modify set_shutdown_called;;
  d ← gets x_default;
  match d with
  | None => mret None
  | Some _ =>
      future ← on_loop create_future;
      modify (λ w, set_threads (x_threads w ++ [MkThread future Starting]) w);;
      mret (Some future)
  end.

(** After the [await]: [TimeoutError] of [timeouts.timeout] is not passed on. *)
Definition end_shutdown (r : res unit) : X unit :=
  match r with
  | Ret _ => mret tt
  | Raise (TimeoutError _) =>
      d ← gets x_default;
      match d with Some p => shut p | None => raise AttributeError end
  | Raise exc => raise exc
  end.

(** [_do_shutdown]: the thread [i] calls [shutdown(wait=True)] on the default
    executor of that moment, waits for its jobs, and tells the loop. *)
Definition set_thread (i : nat) (s : thread_state) : X unit :=
  modify (λ w, set_threads (alter (λ t, MkThread (t_future t) s) i (x_threads w)) w).
Definition _do_shutdown (i : nat) : X unit :=
  t ← gets (λ w, x_threads w !! i);
  match t with
  | Some (MkThread future Starting) =>
      d ← gets x_default;
      match d with
      | Some p => shut p;; set_thread i (Joining p)
      | None =>
          set_thread i Over;;
          c ← loop_get (fut_cancelled future);
          if (c : bool) then mret tt else tell_loop (CbSetException future AttributeError)
      end
  | Some (MkThread future (Joining p)) =>
      q ← gets (λ w, from_option p_pending [] (x_pools w !! p));
      match q with
      | [] => set_thread i Over;; tell_loop (CbSetResultUnlessCancelled future)
      | _ => mret tt
      end
  | _ => mret tt
  end.

(** [close], as far as executors go. *)
Definition close_executors : X unit :=
  c ← loop_get closed;
  if (c : bool) then mret tt else
  modify (λ w, let s := x_loop w in
    lset (MkLoop (abort_all (reactor s)) [] (futs s) (cells s) true (debug s)) w);;
  modify set_shutdown_called;;
  d ← gets x_default;
  match d with
  | Some p => modify (set_default None);; shut p
  | None => mret tt
  end.

(** ** Histories *)

(** One thing that happens: a call of the program, or a step of a thread. *)
Inductive step :=
  | Run (executor : option nat) (f : func)
  | SetDefault (e : executor_arg)
  | Shutdown
  | EndShutdown (r : res unit)
  | Close
  | WorkerStep (p k : nat)
  | ThreadStep (i : nat).

Definition do_step (s : step) (w : executors) : executors :=
  match s with
  | Run e f => (run_in_executor e f w).2
  | SetDefault e => (set_default_executor e w).2
  | Shutdown => (begin_shutdown w).2
  | EndShutdown r => (end_shutdown r w).2
  | Close => (close_executors w).2
  | WorkerStep p k => (worker p k w).2
  | ThreadStep i => (_do_shutdown i w).2
  end.
Definition do_steps (l : list step) (w : executors) : executors := foldl (λ w s, do_step s w) w l.

(** ** Properties *)

(** Pools never open again, accept nothing once shut, and forget no job. *)
Record pool_le (a b : pool) : Prop := {
  pl_shut : p_open a = false → p_open b = false ∧ length (p_pending b) ≤ length (p_pending a);
  pl_jobs : p_pending a ++ p_ended a ⊆ p_pending b ++ p_ended b;
}.
#[export] Instance pool_le_preorder : PreOrder pool_le.
Proof.
  split; [by split|]. intros a b c [Hs Hj] [Hs' Hj']. split; [|by etrans].
  intros Ho. destruct (Hs Ho) as [Ho' ?]. destruct (Hs' Ho') as [? ?]. split; [done|lia].
Qed.

Lemma submit_le f q e : pool_le (MkPool true q e) (MkPool true (q ++ [f]) e).
Proof. split; [done|]. intros x. simpl. rewrite !elem_of_app. tauto. Qed.
Lemma shut_le x : pool_le x (MkPool false (p_pending x) (p_ended x)).
Proof. split; [by intros _|done]. Qed.
Lemma worker_le o q e k j : q !! k = Some j → pool_le (MkPool o q e) (MkPool o (delete k q) (e ++ [j])).
Proof.
  intros Hk. split; simpl.
  - intros ->. split; [done|]. rewrite length_delete by done. lia.
  - intros x. pose proof (elem_of_Permutation_proper x _ _ (delete_Permutation q k j Hk)) as Hq.
    rewrite elem_of_cons in Hq. rewrite !elem_of_app, list_elem_of_singleton. tauto.
Qed.

(** What every step leaves behind: the pools grow along [pool_le], and a shutdown
    stays called. *)
Record grows (w w' : executors) : Prop := {
  gr_called : x_shutdown_called w = true → x_shutdown_called w' = true;
  gr_pools p a : x_pools w !! p = Some a → ∃ b, x_pools w' !! p = Some b ∧ pool_le a b;
}.
#[export] Instance grows_preorder : PreOrder grows.
Proof.
  split; [intros w; split; [done|]; intros p a Ha; by exists a|]. intros w1 w2 w3 [Hc Hp] [Hc' Hp']. split; [auto|].
  intros p a Ha. destruct (Hp _ _ Ha) as (b & Hb & ?). destruct (Hp' _ _ Hb) as (c & Hc2 & ?).
  exists c. split; [done|by etrans].
Qed.

Lemma grows_same w w' :
  x_pools w' = x_pools w → x_shutdown_called w' = x_shutdown_called w → grows w w'.
Proof. intros Hp Hc. split; [by rewrite Hc|]. intros p a. rewrite Hp. intros Ha. by exists a. Qed.
Lemma grows_insert p a b w :
  x_pools w !! p = Some a → pool_le a b → grows w (set_pools (<[p := b]> (x_pools w)) w).
Proof.
  intros Ha Hle. split; [done|]. intros q a' Hq. cbn [x_pools set_pools].
  destruct (decide (q = p)) as [->|Hne].
  - rewrite list_lookup_insert_eq by (by eapply lookup_lt_Some). simplify_eq. by eauto.
  - rewrite list_lookup_insert_ne by done. by exists a'.
Qed.
Lemma on_loop_grows {A} (m : M LoopState A) : moves grows (on_loop m : X A).
Proof. apply moves_zoom. intros w. by apply grows_same. Qed.
#[local] Hint Resolve on_loop_grows : moves.

Lemma modify_same (f : executors → executors) :
  (∀ w, x_pools (f w) = x_pools w) → (∀ w, x_shutdown_called (f w) = x_shutdown_called w) →
  moves grows (modify f).
Proof. intros Hp Hc. apply moves_modify; try typeclasses eauto. intros w. by apply grows_same. Qed.
Lemma shut_grows p : moves grows (shut p).
Proof.
  apply moves_modify; try typeclasses eauto. intros w. split; [done|]. intros q a Hq.
  cbn [x_pools set_pools]. destruct (decide (q = p)) as [->|Hne].
  - rewrite list_lookup_alter_eq, Hq. eexists. split; [done|apply shut_le].
  - rewrite list_lookup_alter_ne by done. by exists a.
Qed.
#[local] Hint Resolve shut_grows : moves.
Lemma tell_grows cb : moves grows (tell_loop cb).
Proof. unfold tell_loop, loop_get. moves_auto. Qed.
#[local] Hint Resolve tell_grows : moves.

Lemma submit_grows p f : moves grows (submit p f).
Proof.
  intros w. unfold submit. rewrite run_bind, run_gets.
  destruct (x_pools w !! p) as [[[] q e]|] eqn:Hp; [|reflexivity..].
  rewrite run_bind. pose proof (on_loop_grows create_future w) as Hg.
  assert (x_pools (on_loop create_future w).2 = x_pools w) as Hsame
    by (unfold on_loop, zoom; by destruct (create_future (lget w))).
  destruct (on_loop create_future w) as [[fut|x] w1]; cbn [snd] in *; [|done].
  rewrite run_bind, run_modify. cbv beta iota. rewrite run_ret. cbn [snd]. etrans; [done|].
  eapply grows_insert; [by rewrite Hsame|apply submit_le].
Qed.
Lemma worker_grows p k : moves grows (worker p k).
Proof.
  intros w. unfold worker. rewrite run_bind, run_gets.
  destruct (x_pools w !! p) as [[o q e]|] eqn:Hp; [|reflexivity].
  destruct (q !! k) as [j|] eqn:Hj; [|reflexivity].
  rewrite run_bind, run_modify. cbv beta iota. etrans; [|apply tell_grows].
  eapply grows_insert; [done|]. by apply worker_le.
Qed.
Lemma new_pool_grows : moves grows new_pool.
Proof.
  unfold new_pool. intros w. rewrite run_bind, run_gets. cbv beta iota. rewrite run_bind, run_modify.
  split; [done|]. intros p a Ha. exists a. split; [|done]. by apply lookup_app_l_Some.
Qed.
#[local] Hint Resolve submit_grows worker_grows new_pool_grows : moves.

Lemma set_default_grows d : moves grows (modify (set_default d)).
Proof. apply modify_same; done. Qed.
Lemma set_threads_grows (l : executors → list shutdown_thread) : moves grows (modify (λ w, set_threads (l w) w)).
Proof. apply modify_same; done. Qed.
Lemma set_loop_grows (l : executors → LoopState) : moves grows (modify (λ w : executors, lset (l w) w)).
Proof. apply modify_same; done. Qed.
Lemma set_called_grows : moves grows (modify set_shutdown_called).
Proof.
  apply moves_modify; try typeclasses eauto. intros w. split; [done|]. intros p a Ha. by exists a.
Qed.
#[local] Hint Resolve set_default_grows set_threads_grows set_loop_grows set_called_grows : moves.

Lemma run_grows e f : moves grows (run_in_executor e f).
Proof. unfold run_in_executor, _check_default_executor, _check_callback, loop_get. moves_auto. Qed.
Lemma do_shutdown_grows i : moves grows (_do_shutdown i).
Proof. unfold _do_shutdown, set_thread, loop_get. moves_auto. Qed.
Lemma close_grows : moves grows close_executors.
Proof. unfold close_executors, loop_get. moves_auto. Qed.

Lemma do_step_grows s w : grows w (do_step s w).
Proof.
  destruct s as [e f|e| |r| |p k|i]; cbn [do_step].
  - apply run_grows.
  - destruct e; [apply set_default_grows|reflexivity].
  - assert (moves grows begin_shutdown) as H; [unfold begin_shutdown; moves_auto|apply H].
  - assert (moves grows (end_shutdown r)) as H; [unfold end_shutdown; moves_auto|apply H].
  - apply close_grows.
  - apply worker_grows.
  - apply do_shutdown_grows.
Qed.
Lemma do_steps_grows l w : grows w (do_steps l w).
Proof.
  revert w. induction l as [|s l IH]; intros w; [reflexivity|]. etrans; [apply do_step_grows|apply IH].
Qed.

(** Once a shutdown has been called the default executor gets no job. *)
Lemma default_refused f w :
  x_shutdown_called w = true → ∃ exc, run_in_executor None f w = (Raise exc, w).
Proof.
  intros Hc. destruct w as [[re q fu ce [] []] d c ps ts tf]; cbn in Hc; subst c; destruct f;
    by eexists.
Qed.

(** *** Waiting for the jobs *)

(** What most steps leave alone: the default executor, whether the loop is
    closed, and the threads, that of index [x] apart. *)
Record frame (x : option nat) (w w' : executors) : Prop := {
  fr_default : x_default w' = x_default w;
  fr_closed : closed (x_loop w') = closed (x_loop w);
  fr_threads i t : x ≠ Some i → x_threads w !! i = Some t → x_threads w' !! i = Some t;
}.
#[export] Instance frame_preorder x : PreOrder (frame x).
Proof.
  split; [by split|]. intros w1 w2 w3 [Hd Hc Ht] [Hd' Hc' Ht'].
  split; [congruence|congruence|eauto].
Qed.

Definition same_closed (s s' : LoopState) : Prop := closed s' = closed s.
#[export] Instance same_closed_preorder : PreOrder same_closed.
Proof. split; [done|]. intros a b c. unfold same_closed. congruence. Qed.
Lemma call_soon_closed c : moves same_closed (call_soon c).
Proof. intros s. unfold call_soon, check_closed. rewrite run_bind, run_bind, run_gets. by destruct (closed s). Qed.
Lemma create_future_closed : moves same_closed create_future.
Proof. intros s. unfold create_future, check_closed. rewrite run_bind, run_bind, run_gets. by destruct (closed s). Qed.
Lemma on_loop_frame x {A} (m : M LoopState A) : moves same_closed m → moves (frame x) (on_loop m : X A).
Proof. intros Hm. apply moves_zoom. intros w. by split; [|apply Hm|]. Qed.
#[local] Hint Resolve on_loop_frame call_soon_closed create_future_closed : moves.

Lemma modify_frame x (f : executors → executors) :
  (∀ w, x_default (f w) = x_default w) → (∀ w, x_loop (f w) = x_loop w) →
  (∀ w i t, x ≠ Some i → x_threads w !! i = Some t → x_threads (f w) !! i = Some t) →
  moves (frame x) (modify f).
Proof. intros Hd Hl Ht w. split; cbn [modify snd]; [apply Hd|by rewrite Hl|apply Ht]. Qed.
Lemma set_pools_frame x (l : executors → list pool) : moves (frame x) (modify (λ w, set_pools (l w) w)).
Proof. by apply modify_frame. Qed.
Lemma tell_frame x c : moves (frame x) (tell_loop c).
Proof. unfold tell_loop, loop_get. moves_auto. Qed.
#[local] Hint Resolve set_pools_frame tell_frame : moves.
Lemma submit_frame x p f : moves (frame x) (submit p f).
Proof. unfold submit. moves_auto. Qed.
Lemma worker_frame x p k : moves (frame x) (worker p k).
Proof. unfold worker. moves_auto. Qed.
Lemma shut_frame x p : moves (frame x) (shut p).
Proof. apply set_pools_frame. Qed.
#[local] Hint Resolve submit_frame worker_frame shut_frame : moves.
Lemma set_thread_frame j s : moves (frame (Some j)) (set_thread j s).
Proof.
  apply modify_frame; [done..|]. intros w i t Hi Ht. cbn.
  rewrite list_lookup_alter_ne by congruence. done.
Qed.
#[local] Hint Resolve set_thread_frame : moves.
Lemma do_shutdown_frame j : moves (frame (Some j)) (_do_shutdown j).
Proof. unfold _do_shutdown, loop_get. moves_auto. Qed.
Lemma run_frame x p f : moves (frame x) (run_in_executor (Some p) f).
Proof.
  assert (moves same_closed check_closed) by (unfold check_closed; moves_auto).
  unfold run_in_executor, loop_get, _check_callback. moves_auto.
Qed.

(** Steps after which the executor being shut down is still the default one. *)
Definition holds_default (s : step) : bool :=
  match s with SetDefault _ | Close => false | _ => true end.

Lemma step_frame s w :
  x_shutdown_called w = true → holds_default s = true →
  frame (match s with ThreadStep j => Some j | _ => None end) w (do_step s w).
Proof.
  intros Hc Hs. destruct s as [[p|] f|e| |r| |p k|j]; try done; cbn [do_step].
  - apply run_frame.
  - destruct (default_refused f w Hc) as [exc ->]. done.
  - assert (moves (frame None) begin_shutdown) as H; [|apply H].
    unfold begin_shutdown. assert (moves (frame None) (modify set_shutdown_called)) by by apply modify_frame.
    assert (∀ t, moves (frame None) (modify (λ w, set_threads (x_threads w ++ [t]) w)))
      by (intros t; apply modify_frame; [done..|]; intros; by apply lookup_app_l_Some).
    moves_auto.
  - assert (moves (frame None) (end_shutdown r)) as H; [unfold end_shutdown; moves_auto|apply H].
  - apply worker_frame.
  - apply do_shutdown_frame.
Qed.

(** The pool is shut, with at most [n] jobs still to end. *)
Definition pool_shut (p n : nat) (w : executors) : Prop :=
  ∃ a, x_pools w !! p = Some a ∧ p_open a = false ∧ length (p_pending a) ≤ n.
Lemma pool_shut_grows p n w w' : grows w w' → pool_shut p n w → pool_shut p n w'.
Proof.
  intros Hg (a & Ha & Ho & Hn). destruct (gr_pools _ _ Hg _ _ Ha) as (b & Hb & Hle).
  destruct (pl_shut _ _ Hle Ho) as [? ?]. exists b. split; [done|split; [done|lia]].
Qed.

Definition stage (p : nat) (st : thread_state) (w : executors) : Prop :=
  match st with
  | Starting => True
  | Joining q => q = p ∧ ∃ n, pool_shut p n w
  | Over => pool_shut p 0 w
  end.
Lemma stage_grows p st w w' : grows w w' → stage p st w → stage p st w'.
Proof.
  intros Hg. destruct st; simpl; [done|intros [? [n ?]]; split; [done|exists n]|];
    by eapply pool_shut_grows.
Qed.

Record shutting (p i : nat) (fut : fut_id) (w : executors) : Prop := {
  sh_default : x_default w = Some p;
  sh_called : x_shutdown_called w = true;
  sh_open : closed (x_loop w) = false;
  sh_pool : is_Some (x_pools w !! p);
  sh_thread : ∃ st, x_threads w !! i = Some (MkThread fut st) ∧ stage p st w;
}.

Lemma shutting_frame p i fut x w w' :
  x ≠ Some i → frame x w w' → grows w w' → shutting p i fut w → shutting p i fut w'.
Proof.
  intros Hx [Hd Hc Ht] Hg [Hsd Hsc Hso [a Ha] (st & Hst & Hstage)]. split.
  - congruence.
  - by apply (gr_called _ _ Hg).
  - congruence.
  - destruct (gr_pools _ _ Hg _ _ Ha) as (b & Hb & _). by exists b.
  - exists st. split; [by apply Ht|by eapply stage_grows].
Qed.

(** The thread's own steps. *)
Lemma tell_run cb w :
  closed (x_loop w) = false →
  ∃ w', tell_loop cb w = (Ret tt, w') ∧ x_pools w' = x_pools w ∧ x_default w' = x_default w ∧
    x_threads w' = x_threads w ∧ x_shutdown_called w' = x_shutdown_called w ∧
    closed (x_loop w') = false ∧ ∃ f, ready (x_loop w') = ready (x_loop w) ++ [MkReady cb f].
Proof.
  intros Hc. destruct w as [[re q fu ce cl db] d c ps ts tf]; cbn in Hc; subst cl.
  eexists. split; [reflexivity|]. split_and!; try done. by eexists.
Qed.

Lemma do_shutdown_starts p i fut w :
  shutting p i fut w → x_threads w !! i = Some (MkThread fut Starting) →
  ∃ n, pool_shut p n (_do_shutdown i w).2 ∧
    x_threads (_do_shutdown i w).2 !! i = Some (MkThread fut (Joining p)) ∧
    x_default (_do_shutdown i w).2 = Some p ∧ closed (x_loop (_do_shutdown i w).2) = false.
Proof.
  intros [Hd Hc Ho [a Ha] _] Ht. unfold _do_shutdown. rewrite run_bind, run_gets, Ht.
  rewrite run_bind, run_gets, Hd. unfold shut, set_thread. rewrite run_bind, run_modify.
  cbv beta iota. rewrite run_modify. cbn. exists (length (p_pending a)). split_and!; try done.
  - exists (MkPool false (p_pending a) (p_ended a)). cbn. by rewrite list_lookup_alter_eq, Ha.
  - by rewrite list_lookup_alter_eq, Ht.
Qed.

Lemma do_shutdown_joins p i fut w a :
  shutting p i fut w → x_threads w !! i = Some (MkThread fut (Joining p)) →
  x_pools w !! p = Some a →
  let w' := (_do_shutdown i w).2 in
  (p_pending a ≠ [] ∧ w' = w) ∨
  (p_pending a = [] ∧ x_pools w' = x_pools w ∧ x_default w' = Some p ∧
   x_threads w' !! i = Some (MkThread fut Over) ∧ closed (x_loop w') = false ∧
   ∃ f, ready (x_loop w') = ready (x_loop w) ++ [MkReady (CbSetResultUnlessCancelled fut) f]).
Proof.
  intros [Hd Hc Ho _ _] Ht Ha. cbv zeta. unfold _do_shutdown. rewrite run_bind, run_gets, Ht.
  rewrite run_bind, run_gets, Ha. cbn [from_option]. destruct (p_pending a) as [|j q]; [right|by left].
  unfold set_thread. rewrite run_bind, run_modify. cbv beta iota.
  set (w1 := set_threads _ w). destruct (tell_run (CbSetResultUnlessCancelled fut) w1 Ho)
    as (w' & -> & Hp & Hd' & Ht' & Hs' & Hc' & f & Hr). cbn [snd].
  split_and!; try done; [by rewrite Hd'| |by exists f].
  rewrite Ht'. unfold w1. cbn. by rewrite list_lookup_alter_eq, Ht.
Qed.

Lemma step_thread i s : s = ThreadStep i ∨ match s with ThreadStep j => Some j | _ => None end ≠ Some i.
Proof. destruct s as [| | | | | |j]; try by right. destruct (decide (j = i)); [left|right]; congruence. Qed.

Lemma shutting_step p i fut s w :
  holds_default s = true → shutting p i fut w → shutting p i fut (do_step s w).
Proof.
  intros Hs H. pose proof (step_frame s w (sh_called _ _ _ _ H) Hs) as Hf.
  pose proof (do_step_grows s w) as Hg.
  destruct (step_thread i s) as [->|Hne]; [|by refine (shutting_frame _ _ _ _ _ _ Hne Hf Hg H)].
  cbn [do_step] in *. destruct (sh_thread _ _ _ _ H) as ([|q|] & Ht & Hstage).
  - destruct (do_shutdown_starts p i fut w H Ht) as (n & Hps & Ht' & Hd & Hc). split; try done.
    + by apply (gr_called _ _ Hg), H.
    + destruct Hps as (b & Hb & _). by exists b.
    + exists (Joining p). split; [done|]. split; [done|]. by exists n.
  - destruct Hstage as [-> [n Hps]]. destruct Hps as (a & Ha & Ho & Hn).
    destruct (do_shutdown_joins p i fut w a H Ht Ha) as [[_ ->]|(Hq & Hp & Hd & Ht' & Hc & _)]; [done|].
    split; try done.
    + by apply (gr_called _ _ Hg), H.
    + rewrite Hp. by exists a.
    + exists Over. split; [done|]. exists a. rewrite Hp. by rewrite Hq.
  - unfold _do_shutdown. rewrite run_bind, run_gets, Ht. done.
Qed.
Lemma shutting_steps p i fut l w :
  forallb holds_default l = true → shutting p i fut w → shutting p i fut (do_steps l w).
Proof.
  revert w. induction l as [|s l IH]; intros w; [done|]. cbn [forallb]. rewrite andb_true_iff.
  intros [Hs Hl] H. apply IH; [done|]. by apply shutting_step.
Qed.

(** A thread that has started does not start again. *)
Definition waiting (i : nat) (fut : fut_id) (w : executors) : Prop :=
  ∃ st, x_threads w !! i = Some (MkThread fut st) ∧ st ≠ Starting.
Lemma waiting_step p i fut s w :
  holds_default s = true → shutting p i fut w → waiting i fut w → waiting i fut (do_step s w).
Proof.
  intros Hs H (st & Ht & Hne). pose proof (step_frame s w (sh_called _ _ _ _ H) Hs) as Hf.
  destruct (step_thread i s) as [->|Hi].
  2: { exists st. split; [|done]. by apply (fr_threads _ _ _ Hf). }
  destruct (sh_thread _ _ _ _ H) as (st' & Ht' & Hstage). simplify_eq. cbn [do_step].
  destruct st as [|q|]; [done|..].
  - destruct Hstage as [-> (n & a & Ha & _)].
    destruct (do_shutdown_joins p i fut w a H Ht Ha) as [[_ ->]|(_ & _ & _ & ? & _)].
    + by exists (Joining p).
    + by exists Over.
  - unfold _do_shutdown. rewrite run_bind, run_gets, Ht. by exists Over.
Qed.
Lemma waiting_steps p i fut l w :
  forallb holds_default l = true → shutting p i fut w → waiting i fut w →
  waiting i fut (do_steps l w).
Proof.
  revert w. induction l as [|s l IH]; intros w; [done|]. cbn [forallb]. rewrite andb_true_iff.
  intros [Hs Hl] H Hw. apply IH; [done| |]; [by apply shutting_step|by eapply waiting_step].
Qed.

(** *** How many jobs the workers end *)

Definition ends_a_job (p : nat) (s : step) : bool :=
  match s with WorkerStep q k => bool_decide (q = p) && bool_decide (k = 0) | _ => false end.

Lemma worker_ends p n w : pool_shut p n w → pool_shut p (n - 1) (worker p 0 w).2.
Proof.
  intros ([o q e] & Ha & Ho & Hn). cbn in *. unfold worker. rewrite run_bind, run_gets, Ha.
  destruct q as [|j q]; cbn [lookup list_lookup].
  { exists (MkPool o [] e). split_and!; cbn; [done..|lia]. }
  rewrite run_bind, run_modify. cbv beta iota.
  eapply pool_shut_grows; [apply tell_grows|]. exists (MkPool o q (e ++ [j])). cbn.
  rewrite list_lookup_insert_eq by (by eapply lookup_lt_Some).
  split_and!; [done..|cbn in Hn; lia].
Qed.
Lemma jobs_end p l n w :
  pool_shut p n w → pool_shut p (n - length (filter (λ s, ends_a_job p s = true) l)) (do_steps l w).
Proof.
  revert n w. induction l as [|s l IH]; intros n w H.
  { rewrite filter_nil. cbn. by rewrite Nat.sub_0_r. }
  change (do_steps (s :: l) w) with (do_steps l (do_step s w)). rewrite filter_cons. case_decide as Hs.
  - destruct s as [| | | | |q k|]; try done. cbn in Hs. apply andb_true_iff in Hs as [Hq Hk].
    apply bool_decide_eq_true in Hq as ->. apply bool_decide_eq_true in Hk as ->.
    specialize (IH _ _ (worker_ends p n w H)). cbn [length].
    replace (n - S _) with (n - 1 - length (filter (λ s, ends_a_job p s = true) l)) by lia.
    apply IH.
  - apply IH. by eapply pool_shut_grows; [apply do_step_grows|].
Qed.

Lemma begin_shutdown_run p a fut w w1 :
  x_default w = Some p → x_pools w !! p = Some a → begin_shutdown w = (Ret (Some fut), w1) →
  shutting p (length (x_threads w)) fut w1 ∧ x_pools w1 = x_pools w.
Proof.
  destruct w as [[re q fu ce [] db] d c ps ts tf]; cbn; intros -> Ha Hb; [done|].
  injection Hb as <- <-. split; [|done]. split; try done.
  exists Starting. split; [|done]. cbn. by apply list_lookup_middle.
Qed.

(** C38: [shutdown_default_executor].  From the call on, whatever the program and
    the threads do next, no job reaches the default executor ([run_in_executor]
    without an executor raises and changes nothing).  While that executor stays
    the default one of an open loop: the shutdown's thread is over only when every
    job the executor had at the call has ended; and once it is waiting, as many
    worker steps as there are jobs left are enough for its next step to end it
    and schedule the completion of the future the coroutine waits for. *)
Theorem shutdown_drains_executor p a fut (w w1 : executors) l :
  x_default w = Some p → x_pools w !! p = Some a →
  begin_shutdown w = (Ret (Some fut), w1) → forallb holds_default l = true →
  let i := length (x_threads w) in
  let w2 := do_steps l w1 in
  (∀ l' f, ∃ exc, run_in_executor None f (do_steps l' w1) = (Raise exc, do_steps l' w1)) ∧
  (x_threads w2 !! i = Some (MkThread fut Over) →
   ∃ b, x_pools w2 !! p = Some b ∧ p_pending b = [] ∧ p_pending a ⊆ p_ended b) ∧
  (∀ b l', x_threads w2 !! i = Some (MkThread fut (Joining p)) → x_pools w2 !! p = Some b →
   forallb holds_default l' = true →
   length (p_pending b) ≤ length (filter (λ s, ends_a_job p s = true) l') →
   let w3 := do_steps l' w2 in
   x_threads w3 !! i = Some (MkThread fut Over) ∨
   x_threads (do_step (ThreadStep i) w3) !! i = Some (MkThread fut Over) ∧
   ∃ f, ready (x_loop (do_step (ThreadStep i) w3)) =
          ready (x_loop w3) ++ [MkReady (CbSetResultUnlessCancelled fut) f]).
Proof.
  intros Hd Ha Hb Hl i w2.
  destruct (begin_shutdown_run p a fut w w1 Hd Ha Hb) as [H1 Hp1]. fold i in H1.
  pose proof (shutting_steps p i fut l w1 Hl H1) as H2. fold w2 in H2.
  split; [|split].
  - intros l' f. apply default_refused, (gr_called _ _ (do_steps_grows l' w1)), H1.
  - intros Ht. destruct (sh_thread _ _ _ _ H2) as (st & Hst & Hstage). simplify_eq.
    destruct Hstage as (b & Hb2 & _ & Hn). exists b.
    assert (p_pending b = []) as Hnil by (apply nil_length_inv; lia).
    split_and!; [done..|]. destruct (gr_pools _ _ (do_steps_grows l w1) p a) as (b' & Hb' & Hle);
      [by rewrite Hp1|]. fold w2 in Hb'. simplify_eq. intros x Hx.
    pose proof (pl_jobs _ _ Hle x) as Hj. rewrite Hnil in Hj. apply Hj, elem_of_app. by left.
  - intros b l' Ht Hpb Hl' Hn w3.
    assert (pool_shut p (length (p_pending b)) w2) as Hps.
    { destruct (sh_thread _ _ _ _ H2) as (st & Hst & Hstage). simplify_eq.
      destruct Hstage as (_ & n & b' & ? & ? & ?). simplify_eq. by exists b. }
    apply (jobs_end p l') in Hps as (b3 & Hb3 & _ & Hn3). fold w3 in Hb3.
    pose proof (shutting_steps p i fut l' w2 Hl' H2) as H3. fold w3 in H3.
    destruct (waiting_steps p i fut l' w2 Hl' H2) as (st & Ht3 & Hne); [by exists (Joining p)|].
    fold w3 in Ht3. destruct (sh_thread _ _ _ _ H3) as (st' & Ht3' & Hst3). simplify_eq.
    destruct st as [|q|]; [done| |by left]. right. destruct Hst3 as [-> _].
    destruct (do_shutdown_joins p i fut w3 b3 H3 Ht3 Hb3) as [[Hq _]|(_ & _ & _ & ? & _ & ?)].
    + destruct Hq. apply nil_length_inv. lia.
    + by split.
Qed.

(** Two jobs; the second one ends first, while a third is refused. *)
Definition two_jobs : executors :=
  do_steps [Run None (UserFunc 0); Run None (GetaddrinfoFunc false)]
    (MkExecutors empty_loop None false [] [] None).
Definition shut_down : executors := (begin_shutdown two_jobs).2.
Definition first_steps : list step := [ThreadStep 0; WorkerStep 0 1; Run None (UserFunc 2)].
Definition later_steps : list step := [ThreadStep 0; WorkerStep 0 0].

Lemma shutdown_drains_executor_witness :
  let w2 := do_steps first_steps shut_down in
  let w3 := do_steps later_steps w2 in
  x_threads w2 = [MkThread 2 (Joining 0)] ∧
  x_pools w2 = [MkPool false [(UserFunc 0, 0)] [(GetaddrinfoFunc false, 1)]] ∧
  (∃ exc, run_in_executor None (UserFunc 2) w2 = (Raise exc, w2)) ∧
  (x_threads w3 !! 0 = Some (MkThread 2 Over) ∨
   x_threads (do_step (ThreadStep 0) w3) !! 0 = Some (MkThread 2 Over) ∧
   ∃ f, ready (x_loop (do_step (ThreadStep 0) w3)) =
          ready (x_loop w3) ++ [MkReady (CbSetResultUnlessCancelled 2) f]) ∧
  re_callback <$> ready (x_loop (do_step (ThreadStep 0) w3)) =
    [CbChainFuture 1; CbChainFuture 0; CbSetResultUnlessCancelled 2].
Proof.
  destruct (shutdown_drains_executor 0
    (MkPool true [(UserFunc 0, 0); (GetaddrinfoFunc false, 1)] []) 2 two_jobs shut_down first_steps
    ltac:(vm_compute; reflexivity) ltac:(vm_compute; reflexivity) ltac:(vm_compute; reflexivity)
    eq_refl) as (Hrefused & _ & Hends).
  split; [vm_compute; reflexivity|]. split; [vm_compute; reflexivity|].
  split; [apply (Hrefused first_steps)|]. split; [|vm_compute; reflexivity].
  apply (Hends (MkPool false [(UserFunc 0, 0)] [(GetaddrinfoFunc false, 1)]) later_steps);
    first [vm_compute; reflexivity | vm_compute; lia].
Defined.
